(* ===== verification/_CoqProject ===== *)
-Q . S2P
Prelude.v
GoTime.v
Model.v
Base64.v
Tsl.v
CertBody.v
Samples.v
Vocabulary.v
Filter.v
Json.v
JsonText.v
Wire.v
Procedures.v
ContentId.v
Diff.v
Slices.v
Extract.v
ExtractProps.v
Internal.v
Store.v
Codec.v
RemoteStores.v
Fetcher.v
Events.v
Verify.v
Sources.v
Pipeline.v
InPlace.v
Demo.v
PipelineProps.v
Cycle.v
Telemetry.v
Manager.v
Age.v
ManagerProps.v
Tasks.v
Routes.v
Bodies.v
Config.v
Service.v
Blind.v
Concurrent.v
Provenance.v
Wellformed.v
Crash.v
Ledger.v
Release.v
App.v
Traffic.v
ServiceDemo.v
CrashDemo.v
AppDemo.v
