(* ===== verification/Prelude.v ===== *)
(** * Trust-anchor: a verification library for the EU trusted-list service

    The service ingests the EU list of the lists (LOTL) and the national trusted
    lists it points to, verifies their XML signatures against pinned signer sets,
    extracts the qualified CA certificates and serves them as versioned bundles.
    This library models that program as executable functions and proves what
    makes it correct.

    ** The program and where each part is modelled

    - Data: anchors, territories, snapshots, pending anchors, bootstrap, the type
      vocabulary ([src/trust/anchor.go], [vocabulary.go], [declared.go]) in [Model]
      and [Vocabulary]; the trusted-list documents and their accessors
      ([src/tsl/types.go], [parse.go]) in [Tsl], base64 and PEM in [Base64].
    - Identity: [Snapshot.ComputeID], its projection and the JSON text that is
      hashed, in [Json] and [ContentId]; [ComputeDiff] ([src/trust/diff.go]) in
      [Diff].
    - Extraction ([src/trust/extract.go]) in [Extract], with Go's slices as
      windows on shared backing arrays ([Slices]) because anchors of one service
      share them; reading a certificate's structure ([certbody.go],
      [keyinfo.go]) in [CertBody].
    - The operator's declared anchors and the bootstrap seed ([internal.go],
      [certs.go], [bootstrap.go]) in [Internal].
    - Signature verification ([src/tsl/verify.go]) in [Verify]; fetching under the
      egress allow-list ([src/ingest/fetcher.go]) in [Fetcher]; the two source
      adapters with the pivot walk and the pointer sets ([src/source/source.go],
      [src/ingest/source_lotl.go], [source_national.go], [pointers.go],
      [pivot.go], [oj.go]) in [Sources].
    - One ingestion cycle, hold mode and the declared reconcile
      ([src/ingest/pipeline.go]) in [Pipeline]; hold mode once more as the loop that
      overwrites the arrays it ranges over, in [InPlace].
    - The stores: the contract, the in-memory and the filesystem store
      ([src/store/store.go], [memory.go], [fs.go]) in [Store]; the S3 and the
      PostgreSQL store ([s3.go], [postgres.go]) in [RemoteStores], the latter on the
      tables and procedures of [src/migrations], modelled in [Procedures].  The documents
      they hold are in [Codec], struct tag by struct tag, on a model of
      [encoding/json]: its text and reader in [JsonText], Go types in [Wire], times
      as text in [GoTime].
    - Gauges and inventory ([src/ingest/telemetry.go], [inventory.go]) in
      [Telemetry], the age gauge with its [float64] arithmetic in [Age]; security
      events and their envelopes ([src/events/events.go]) in [Events].
    - The manager that owns the served snapshot ([src/ingest/manager.go]) in
      [Manager], assembled with the pipeline in [Service]; its operations as
      programs of goroutines that interleave, in [Concurrent], and that are stopped
      anywhere and restarted, in [Crash]; what all of it promises, as a small
      abstract machine, in [Ledger]; the refresh task ([src/tasks/refresh.go])
      with its goroutines, contexts and timers in [Tasks].
    - The bundle filter ([src/trust/filter.go]) in [Filter], the HTTP handlers and
      responses ([src/routes]) in [Routes], the JSON of the responses in [Bodies],
      configuration from the environment to
      validation ([src/config.go], [secretfile.go]) in [Config], the wiring, start,
      authentication, route table and web command ([src/app.go],
      [src/routes/router.go], [src/cmd/server]) in [App], and the started
      application under traffic in [Traffic].

    ** How code becomes definitions

    Go strings and byte slices are [string]; [time.Time] and durations are
    integers in nanoseconds; sequence numbers are integers, narrowed by [int64]
    where the code converts them; [float64] is the Standard Library's IEEE 754
    specification.  A function with an error result returns
    [result]; effectful code is [eff S A], a state passed through and kept when an
    error is returned, with [let*] for the [if err != nil] chains.  The state of
    the ingestion code is the [world] of [Fetcher] (allow-lists, requests sent,
    events emitted, loads made of the operator's files); the state of the service is
    the record [Manager], and a run is a sequence of operations [exec] of [Manager]
    with process restarts among them.  The operator may edit the declared file and
    what it names between any two loads: what the n-th load reads is a parameter, and
    theorems speak of the loads made so far ([w_loads], [later]).  A restart opens the
    store anew ([Reopen]); only a store that outlives the process ([lasting]: every one
    but the in-memory store) then holds what it held.  Operations are atomic there;
    [Concurrent] opens them into their accesses to the shared state and shows that the mutex, the atomic pointer and the
    write-only event stream ([Blind]) make every interleaving equivalent to such a
    sequence.  [Crash] stops the same programs at any point, in the middle of a save
    too, and starts a new process on what the store then holds.  [Ledger] relates the
    programs to its machine - what is served, what is stored, whether a failure to
    persist was reported - by a predicate transformer that asks of every state a
    program passes through, and of what a save may leave, that the machine can follow.

    What is not in the repository is a parameter: certificate parsing and SHA-256
    ([X509]), ASN.1 ([Asn1]), XML decoding and XML-DSig ([XML], [XmlDsig]), YAML
    and files ([Yaml], [Files]), the network and the clock ([Net]), disk faults
    ([Disk]), the object storage client and the database engine with its [jsonb] type,
    casts, faults and lost connections ([ObjectClient], [PgEngine]),
    the settings registry and field validation ([Viper], [Validation]), the web
    platform with its token validation ([Platform]), the event library
    ([SecEvents]), and of the language [sort.Slice], map iteration and slice growth
    ([GoSort], [GoRange], [GoAlloc]).  Laws on them are classes of their own
    ([X509Laws], [XmlDsigLaws], [FilesLaws], [ObjectLaws], [PgEngineLaws], [ViperLaws],
    [PlatformLaws], [SecEventsLaws]) and state documented behaviour; what a save
    that is cut short may leave in a store is [Interruptible], with its laws met by
    the three durable stores.  The class
    [Codec], what stores and manager need of the stored documents, is met by
    [json_Codec] of [Codec]; the theorems about whole runs take any codec that
    keeps [CodecLaws].  [Samples], [Demo], [ServiceDemo], [CrashDemo] and [AppDemo] give concrete
    instances on which cycles, runs of the service and the started application
    evaluate.

    Interfaces of the source are classes: [Source] with two instances; [Store] with
    laws in terms of what a store holds (loads may fail but never lie, a snapshot saved
    without an error is the one held, a save that fails leaves the old or the new one,
    the first bootstrap saved is the one held, and what is held when the store is opened
    again), met by all four stores; and [Refresher] with laws the manager is verified against and
    the pipeline meets ([Service], [Blind]).

    Fuel: the HTTP client follows ten requests at most, as Go's does; the PEM loop
    and the base64 loop get the input's length, which is shown to be enough
    ([Internal.pem_certs_fuel]), and the loop itself is shown to be left
    ([Internal.pem_loop_terminates]); the JSON reader gets the length of its text,
    enough for every document that is written ([JsonText]); everything else is
    structural.

    ** What the theorems show

    - [Provenance]: in any run everything served for a territory traces back, by
      signatures, to the operator's bootstrap; [Wellformed]: it has the shape the
      content id, the diff and the API rely on; [App]: both hold of an application
      built from a configuration, on whichever store that selects, together with
      what its API answers; [Traffic]: so does every answer to any traffic, and later
      answers do not take back earlier ones; [Crash]: an operation stopped anywhere is
      atomic for the next process, and the invariants survive; [Ledger]: all of this
      refines a machine that only persists and serves proper successors, by which alone
      what is served is authentic, and once a snapshot is stored everything later comes
      down from it or from what was served with it ([crash_recovery]).
    - [Cycle], [PipelineProps]: where each part of a cycle's snapshot comes from, no
      step back in sequence, no empty snapshot, hold mode, egress; [InPlace]: hold
      mode's loop on shared arrays is the filter of the values and does not touch
      what is being served; [Release]: a held addition that every cycle finds on the list
      it downloads is released once its period is over.
    - [ManagerProps]: the bootstrap is never replaced where the store is durable, a failed cycle keeps what is
      served, ids are digests of content, what a restart serves, approvals;
      [Concurrent]: the same under interleaving.
    - [Tasks]: the pace of the cycles; a stopped task is quiet, and one being stopped
      has a bounded number of steps left under any scheduling.
    - [Codec]: what is stored reads back; [Bodies]: so does what is answered; [Store], [RemoteStores], [App]: the store
      contract.
    - [ExtractProps], [Diff], [ContentId], [Filter], [Internal], [Fetcher],
      [Verify], [Telemetry], [Age], [Routes], [Config], [Events]: each
      component's exact behaviour.
    - Some theorems record behaviour that departs from what the code's comments
      say: [Cycle.unchanged_list_drops_pending],
      [ServiceDemo.failed_save_not_retried],
      [ExtractProps.shared_qualifiers_overwritten],
      [Fetcher.redirect_escapes_allow_list], [ContentId.failed_flip_moves_id],
      [RemoteStores.lower_version_not_latest].

    ** What is left out

    Route matching and the layout of JSON answers as text (the web framework's), log
    lines other than the inventory, timeouts and the effect of a cancelled context
    on a request under way, closing the connection pool, accessors and test hooks
    ([SetRefresher], [SetClock], [SetAuthMiddleware]), the registration of the
    commands and the health command (the framework's), and the test support.  A
    process may be stopped anywhere but in the save of the bootstrap at the first
    install; what a file system loses in a power failure after a write returned is
    not modelled, and the in-memory store, which ends with its process, is not among
    the stores of [Crash].
    Unicode case mapping, white space and [strconv.Quote] are modelled on ASCII: other
    bytes are not mapped, and copied into a quoted text, which occurs in error messages
    only.  [json_Codec] refuses to write a text that is not valid UTF-8, where Go puts a
    replacement character in its place, and writes an empty slice as it writes a nil one;
    the round trips are stated for documents without such texts, and the model has one
    empty list for the two slices.  The files of one load are read in one
    state, the clock moves with the requests sent, and a restart keeps the configuration.
    Of the database the columns no procedure reads, row identifiers, roles and grants
    are left out.

    This file holds the shared prelude: Go's string, error, time and sorting
    primitives, the result and effect types with their notations, automation and
    generic lemmas. *)

From stdpp Require Export base gmap strings list sorting pretty.
From Stdlib Require Export ZArith Lia.

#[global] Open Scope Z_scope.
#[global] Open Scope stdpp_scope.

Declare Scope go_scope.
Delimit Scope go_scope with go.
#[global] Open Scope go_scope.

(** ** Go strings

    A Go [string] and a Go [[]byte] are both byte sequences; here both are
    [String.string], whose characters are the 256 byte values. *)

Abbreviation bytes := string (only parsing).

(** Go's [s == t] and [s < t] on strings: byte-wise equality and the byte-wise
    lexicographic order. *)
Definition str_eqb (s t : string) : bool := bool_decide (s = t).

Fixpoint str_ltb (s t : string) : bool :=
  match s, t with
  | _, EmptyString => false
  | EmptyString, String _ _ => true
  | String a s', String b t' =>
      if (Ascii.N_of_ascii a <? Ascii.N_of_ascii b)%N then true
      else if (Ascii.N_of_ascii b <? Ascii.N_of_ascii a)%N then false
      else str_ltb s' t'
  end.

(** [strings.TrimSpace], [ToLower], [ToUpper] and [EqualFold] on their ASCII
    part: bytes from 0x80 up are left as they are (the Unicode tables are not
    modelled). *)
Definition is_space (c : Ascii.ascii) : bool :=
  let n := Ascii.N_of_ascii c in
  ((9 <=? n) && (n <=? 13) || (n =? 32))%N.

Fixpoint trim_left (p : Ascii.ascii -> bool) (s : string) : string :=
  match s with
  | String c s' => if p c then trim_left p s' else s
  | EmptyString => EmptyString
  end.

Fixpoint str_rev_app (s acc : string) : string :=
  match s with
  | EmptyString => acc
  | String c s' => str_rev_app s' (String c acc)
  end.

Definition str_rev (s : string) : string := str_rev_app s "".

Definition trim_both (p : Ascii.ascii -> bool) (s : string) : string :=
  str_rev (trim_left p (str_rev (trim_left p s))).

Definition TrimSpace (s : string) : string := trim_both is_space s.

Fixpoint str_map (f : Ascii.ascii -> Ascii.ascii) (s : string) : string :=
  match s with
  | EmptyString => EmptyString
  | String c s' => String (f c) (str_map f s')
  end.

Definition byte_lower (c : Ascii.ascii) : Ascii.ascii :=
  let n := Ascii.N_of_ascii c in
  if ((65 <=? n) && (n <=? 90))%N then Ascii.ascii_of_N (n + 32) else c.

Definition byte_upper (c : Ascii.ascii) : Ascii.ascii :=
  let n := Ascii.N_of_ascii c in
  if ((97 <=? n) && (n <=? 122))%N then Ascii.ascii_of_N (n - 32) else c.

Definition ToLower : string -> string := str_map byte_lower.
Definition ToUpper : string -> string := str_map byte_upper.
Definition EqualFold (s t : string) : bool := str_eqb (ToLower s) (ToLower t).

(** [strings.HasPrefix] and [strings.Contains]. *)
Definition HasPrefix (s p : string) : bool := String.prefix p s.

Fixpoint Contains (s sub : string) : bool :=
  HasPrefix s sub ||
  match s with
  | EmptyString => false
  | String _ s' => Contains s' sub
  end.

(** [strings.Split] on a one-byte separator. *)
Fixpoint split_on (sep : Ascii.ascii) (s : string) : list string :=
  match s with
  | EmptyString => [""]
  | String c s' =>
      if bool_decide (c = sep) then "" :: split_on sep s'
      else match split_on sep s' with
           | p :: ps => String c p :: ps
           | [] => [String c ""]
           end
  end.

(** [strings.Join]. *)
Definition Join (l : list string) (sep : string) : string := String.concat sep l.

(** The double quote as a one-byte string, and [strconv.Quote] ([%q]), which the
    texts of errors use, on ASCII: bytes from 128 up are copied here, where Go
    escapes those that are not valid UTF-8 and the runes it does not print. *)
Definition dquote : Ascii.ascii := Ascii.ascii_of_nat 34.
Definition dq : string := String dquote "".
Definition backslash : Ascii.ascii := Ascii.ascii_of_nat 92.

Definition hex_digit (n : N) : Ascii.ascii :=
  if (n <? 10)%N then Ascii.ascii_of_N (48 + n) else Ascii.ascii_of_N (87 + n).

Definition quote_byte (c : Ascii.ascii) : string :=
  let n := Ascii.N_of_ascii c in
  if (n =? 34)%N || (n =? 92)%N then String backslash (String c "")
  else if (n =? 7)%N then String backslash "a"
  else if (n =? 8)%N then String backslash "b"
  else if (n =? 9)%N then String backslash "t"
  else if (n =? 10)%N then String backslash "n"
  else if (n =? 11)%N then String backslash "v"
  else if (n =? 12)%N then String backslash "f"
  else if (n =? 13)%N then String backslash "r"
  else if (n <? 32)%N || (n =? 127)%N
  then String backslash (String (Ascii.ascii_of_nat 120)
         (String (hex_digit (n / 16)) (String (hex_digit (n mod 16)) "")))
  else String c "".

Fixpoint str_flat_map (f : Ascii.ascii -> string) (s : string) : string :=
  match s with
  | EmptyString => EmptyString
  | String c s' => f c +:+ str_flat_map f s'
  end.

Definition Quote (s : string) : string := dq +:+ str_flat_map quote_byte s +:+ dq.

(** [hex.EncodeToString]: two lowercase digits per byte. *)
Definition hex_byte (c : Ascii.ascii) : string :=
  let n := Ascii.N_of_ascii c in
  String (hex_digit (n / 16)) (String (hex_digit (n mod 16)) "").

Definition hex_EncodeToString (s : bytes) : string := str_flat_map hex_byte s.

(** [%d] and [strconv] decimal rendering. *)
Definition itoa (n : Z) : string := pretty n.

(** ** Errors

    A Go error is its text ([err.Error()]) with the sentinels reachable through
    [%w] wrapping, which is all [errors.Is] looks at. *)
Inductive sentinel := ErrEgressBlocked | ErrUnchanged.

#[global] Instance sentinel_eq_dec : EqDecision sentinel.
Proof. solve_decision. Defined.

Record error := mkError { err_Error : string; err_chain : list sentinel }.

Definition errors_New (msg : string) : error := mkError msg [].
Definition errorf (msg : string) (wrapped : list error) : error :=
  mkError msg (concat (err_chain <$> wrapped)).
Definition errors_Is (e : error) (s : sentinel) : bool := bool_decide (s ∈ err_chain e).

(** The [(value, error)] results of the source: a value or an error. *)
Inductive result (A : Type) :=
| Ok (a : A)
| Err (e : error).
Arguments Ok {A} a.
Arguments Err {A} e.

Definition is_Ok {A} (r : result A) : bool := match r with Ok _ => true | Err _ => false end.

Notation "'let?' x ':=' c 'in' k" :=
  (match c with Ok x => k | Err e => Err e end)
  (at level 10, x pattern, c at level 200, k at level 200) : go_scope.

(** [for _, x := range l { y, err := f(x); if err != nil { return err }; out = append(out, y) }] *)
Fixpoint map_result {A B} (f : A -> result B) (l : list A) : result (list B) :=
  match l with
  | [] => Ok []
  | x :: l' => let? y := f x in let? ys := map_result f l' in Ok (y :: ys)
  end.

(** Effectful code: a state passed through, kept also when an error is
    returned, as a Go function's side effects are. *)
Definition eff (S A : Type) : Type := S -> result A * S.

Definition eff_ret {S A} (a : A) : eff S A := fun s => (Ok a, s).
Definition eff_throw {S A} (e : error) : eff S A := fun s => (Err e, s).
Definition eff_bind {S A B} (c : eff S A) (k : A -> eff S B) : eff S B :=
  fun s => match c s with
           | (Ok a, s') => k a s'
           | (Err e, s') => (Err e, s')
           end.
Definition eff_of_result {S A} (r : result A) : eff S A := fun s => (r, s).
Definition eff_modify {S} (f : S -> S) : eff S unit := fun s => (Ok tt, f s).

(** [x, err := c]: run [c] and hand its result, error or not, to [k]. *)
Definition eff_catch {S A B} (c : eff S A) (k : result A -> eff S B) : eff S B :=
  fun s => let '(r, s') := c s in k r s'.

(** [if err != nil { return fmt.Errorf("...: %w", err) }] *)
Definition map_err {A} (f : error -> error) (r : result A) : result A :=
  match r with Ok a => Ok a | Err e => Err (f e) end.
Definition eff_wrap {S A} (f : error -> error) (c : eff S A) : eff S A :=
  fun s => let '(r, s') := c s in (map_err f r, s').

Notation "'let*' x ':=' c 'in' k" :=
  (eff_bind c (fun x => k))
  (at level 10, x pattern, c at level 200, k at level 200) : go_scope.

(** ** Time

    [time.Time] is a number of nanoseconds from Go's zero time, [time.Duration]
    a number of nanoseconds; [Sub] saturates at the ends of [int64]. *)
Abbreviation time := Z (only parsing).
Abbreviation duration := Z (only parsing).

Definition time_IsZero (t : time) : bool := t =? 0.
Definition time_After (t u : time) : bool := u <? t.
Definition time_Before (t u : time) : bool := t <? u.
Definition time_Add (t : time) (d : duration) : time := t + d.
Definition max_duration : Z := 2 ^ 63 - 1.
Definition min_duration : Z := - 2 ^ 63.
Definition time_Sub (t u : time) : duration := Z.max min_duration (Z.min max_duration (t - u)).

(** ** Sorting

    [sort.Slice] sorts by a boolean [less] and promises only that the result is
    a permutation in which no element is less than an earlier one (it is not
    stable).  [GoSort] is that contract, and the theorems hold for every sort
    that meets it; [go_sort] is one. *)
Class StrictWeak {A} (less : A -> A -> bool) : Prop := {
  sw_irrefl : forall x, less x x = false;
  sw_asym : forall x y, less x y = true -> less y x = false;
  sw_cotrans : forall x y z, less x z = true -> less x y = true \/ less y z = true
}.

Definition not_less {A} (less : A -> A -> bool) (x y : A) : Prop := less y x = false.

#[global] Instance not_less_dec {A} (less : A -> A -> bool) x y : Decision (not_less less x y).
Proof. unfold not_less. apply _. Defined.

Class GoSort := {
  sort_Slice : forall {A : Type}, (A -> A -> bool) -> list A -> list A;
  sort_Slice_perm : forall {A : Type} (less : A -> A -> bool) (l : list A),
    sort_Slice less l ≡ₚ l;
  sort_Slice_sorted : forall {A : Type} (less : A -> A -> bool) (l : list A),
    StrictWeak less -> Sorted (not_less less) (sort_Slice less l)
}.

(** [sort.Strings]. *)
Definition sort_Strings `{GoSort} (l : list string) : list string := sort_Slice str_ltb l.

(** ** Map iteration

    [for k, v := range m] visits the entries of a map in an unspecified order,
    each exactly once. *)
Class GoRange := {
  map_range : forall {V : Type}, gmap string V -> list (string * V);
  map_range_perm : forall {V : Type} (m : gmap string V), map_range m ≡ₚ map_to_list m
}.

(** * Lemmas *)

(** ** Automation

    [simp_res] opens the [let?]/[let*] chains of a hypothesis by case analysis
    on every scrutinee; [des] is its one-step form. *)
Ltac des :=
  match goal with
  | H : context [match ?x with _ => _ end] |- _ =>
      lazymatch x with
      | context [match _ with _ => _ end] => fail
      | _ => destruct x eqn:?
      end
  end.

Ltac simp_res := repeat (simplify_eq/=; try des); simplify_eq/=.

(** A closed decidable statement, decided by computation. *)
Ltac by_decide := apply (bool_decide_unpack _); vm_compute; exact I.

Create HintDb go.

(** ** Strings *)

Lemma str_eqb_eq s t : str_eqb s t = true <-> s = t.
Proof. unfold str_eqb. apply bool_decide_eq_true. Qed.

Lemma str_eqb_neq s t : str_eqb s t = false <-> s <> t.
Proof. unfold str_eqb. apply bool_decide_eq_false. Qed.

Lemma str_eqb_refl s : str_eqb s s = true.
Proof. by apply str_eqb_eq. Qed.

Lemma EqualFold_refl s : EqualFold s s = true.
Proof. apply str_eqb_refl. Qed.

#[export] Hint Resolve str_eqb_refl : go.

Lemma N_of_ascii_inj a b : Ascii.N_of_ascii a = Ascii.N_of_ascii b -> a = b.
Proof.
  intros Hab. rewrite <-(Ascii.ascii_N_embedding a), <-(Ascii.ascii_N_embedding b).
  by rewrite Hab.
Qed.

(** Case analysis on the two byte comparisons of [str_ltb]. *)
Ltac byte_cases :=
  repeat match goal with
  | H : context [(?x <? ?y)%N] |- _ => destruct (N.ltb_spec x y)
  | |- context [(?x <? ?y)%N] => destruct (N.ltb_spec x y)
  end; try lia.

Lemma str_ltb_irrefl s : str_ltb s s = false.
Proof. induction s as [|c s IH]; simpl; [done|]. byte_cases; done. Qed.

Lemma str_ltb_asym s t : str_ltb s t = true -> str_ltb t s = false.
Proof.
  revert t. induction s as [|a s IH]; intros [|b t]; simpl; try done.
  intros Hlt. byte_cases; eauto.
Qed.

Lemma str_ltb_cotrans s t u :
  str_ltb s u = true -> str_ltb s t = true \/ str_ltb t u = true.
Proof.
  revert t u. induction s as [|a s IH]; intros [|b t] [|c u]; simpl; try by auto.
  intros Hlt. byte_cases; auto.
Qed.

Lemma str_ltb_total s t : str_ltb s t = false -> str_ltb t s = false -> s = t.
Proof.
  revert t. induction s as [|a s IH]; intros [|b t]; simpl; try done.
  intros H1 H2. byte_cases. f_equal; [apply N_of_ascii_inj; lia | auto].
Qed.

#[global] Instance str_ltb_strict_weak : StrictWeak str_ltb.
Proof. split; eauto using str_ltb_irrefl, str_ltb_asym, str_ltb_cotrans. Qed.

(** Comparing by a key, and breaking ties with a second order: the shape of
    every multi-key [less] of the source. *)
#[global] Instance by_key_strict_weak {A} (f : A -> string) :
  StrictWeak (fun a b => str_ltb (f a) (f b)).
Proof. split; intros; eauto using str_ltb_irrefl, str_ltb_asym, str_ltb_cotrans. Qed.

Definition key_then {A} (f : A -> string) (rest : A -> A -> bool) (a b : A) : bool :=
  if negb (str_eqb (f a) (f b)) then str_ltb (f a) (f b) else rest a b.

Lemma key_then_true {A} (f : A -> string) rest a b :
  key_then f rest a b = true <->
  str_ltb (f a) (f b) = true \/ f a = f b /\ rest a b = true.
Proof.
  unfold key_then. destruct (str_eqb (f a) (f b)) eqn:E; simpl.
  - apply str_eqb_eq in E. rewrite E, str_ltb_irrefl. naive_solver.
  - apply str_eqb_neq in E. naive_solver.
Qed.

#[global] Instance key_then_strict_weak {A} (f : A -> string) rest :
  StrictWeak rest -> StrictWeak (key_then f rest).
Proof.
  intros [Hi Ha Hc]. split.
  - intros x. apply not_true_iff_false. rewrite key_then_true, str_ltb_irrefl, Hi. naive_solver.
  - intros x y. rewrite <-not_true_iff_false, !key_then_true. intros [H|[E H]] [H'|[E' H']].
    + rewrite (str_ltb_asym _ _ H) in H'. done.
    + rewrite E', str_ltb_irrefl in H. done.
    + rewrite E, str_ltb_irrefl in H'. done.
    + rewrite (Ha _ _ H) in H'. done.
  - intros x y z. rewrite !key_then_true. intros [H|[E H]].
    + destruct (str_ltb_cotrans _ (f y) _ H) as [H'|H']; auto.
    + destruct (str_ltb (f x) (f y)) eqn:Hxy; [auto|].
      destruct (str_ltb (f y) (f z)) eqn:Hyz; [auto|].
      destruct (str_ltb (f y) (f x)) eqn:Hyx; [rewrite <-E in *; congruence|].
      pose proof (str_ltb_total _ _ Hxy Hyx). destruct (Hc _ y _ H); naive_solver congruence.
Qed.

(** Unfolding [+:+], which does not simplify on its own. *)
Lemma app_nil_s s : "" +:+ s = s.
Proof. done. Qed.

Lemma app_cons_s c s t : String c s +:+ t = String c (s +:+ t).
Proof. done. Qed.

Lemma app_assoc_s s t u : (s +:+ t) +:+ u = s +:+ (t +:+ u).
Proof. induction s as [|c s IH]; [done|]. by rewrite !app_cons_s, IH. Qed.

(** ** Sorting *)

Section Sorting.
Context {A : Type} (less : A -> A -> bool) `{!StrictWeak less}.

#[global] Instance not_less_transitive : Transitive (not_less less).
Proof.
  unfold not_less. intros x y z Hxy Hyz. apply not_true_iff_false. intros Hzx.
  destruct (sw_cotrans _ y _ Hzx) as [H|H]; congruence.
Qed.

#[global] Instance not_less_total : Total (not_less less).
Proof.
  unfold not_less. intros x y. destruct (less y x) eqn:E; [right|by left].
  by apply sw_asym.
Qed.

Lemma sort_Slice_strongly_sorted `{GoSort} l :
  StronglySorted (not_less less) (sort_Slice less l).
Proof. apply Sorted_StronglySorted; [apply _|]. by apply sort_Slice_sorted. Qed.

(** Two sorted permutations of a list whose elements are distinguished by the
    order are equal: what is sorted that way does not depend on the input order
    nor on the sort used. *)
Lemma sort_Slice_unique (S1 S2 : GoSort) l1 l2 :
  l1 ≡ₚ l2 ->
  (forall x y, x ∈ l1 -> y ∈ l1 -> less x y = false -> less y x = false -> x = y) ->
  @sort_Slice S1 _ less l1 = @sort_Slice S2 _ less l2.
Proof.
  intros Hp Huniq. apply (StronglySorted_unique_strong (not_less less)).
  - intros x y Hx Hy. rewrite (@sort_Slice_perm S1) in Hx.
    rewrite (@sort_Slice_perm S2), <-Hp in Hy. unfold not_less. auto.
  - apply (@sort_Slice_strongly_sorted S1).
  - apply (@sort_Slice_strongly_sorted S2).
  - by rewrite (@sort_Slice_perm S1), (@sort_Slice_perm S2).
Qed.
End Sorting.

Lemma sort_Slice_nil `{GoSort} {A} (less : A -> A -> bool) : sort_Slice less [] = [].
Proof. apply Permutation_nil_r, sort_Slice_perm. Qed.

Lemma sort_Slice_length `{GoSort} {A} (less : A -> A -> bool) l :
  length (sort_Slice less l) = length l.
Proof. by rewrite sort_Slice_perm. Qed.

Lemma elem_of_sort_Slice `{GoSort} {A} (less : A -> A -> bool) x l :
  x ∈ sort_Slice less l <-> x ∈ l.
Proof. by rewrite sort_Slice_perm. Qed.

Lemma NoDup_sort_Slice `{GoSort} {A} (less : A -> A -> bool) l :
  NoDup l -> NoDup (sort_Slice less l).
Proof. by rewrite sort_Slice_perm. Qed.

(** A sorted list without repetitions, of elements the order tells apart, is strictly
    increasing. *)
Lemma sorted_strict {A} (less : A -> A -> bool) l :
  (forall x y, x ∈ l -> y ∈ l -> less x y = false -> less y x = false -> x = y) -> NoDup l ->
  StronglySorted (not_less less) l -> StronglySorted (fun x y => less x y = true) l.
Proof.
  intros Hu Hn Hs. induction Hs as [|x l Hs IH Hx]; [constructor|]. apply NoDup_cons in Hn as [Hni Hn]. constructor.
  - apply IH; [|done]. intros y z Hy Hz. apply Hu; by apply list_elem_of_further.
  - rewrite Forall_forall in *. intros y Hy. apply not_false_iff_true. intros Hf. apply Hni.
    by rewrite (Hu x y (list_elem_of_here _ _) (list_elem_of_further _ _ _ Hy) Hf (Hx y Hy)).
Qed.

Lemma StronglySorted_sublist {A} (R : A -> A -> Prop) l1 l2 :
  l1 `sublist_of` l2 -> StronglySorted R l2 -> StronglySorted R l1.
Proof.
  induction 1 as [|x l1 l2 Hs IH|x l1 l2 Hs IH]; intros H; [done|inversion H as [|?? H1 H2]; subst..].
  - constructor; [by apply IH|]. rewrite Forall_forall in *. intros y Hy. apply H2.
    by eapply elem_of_sublist.
  - by apply IH.
Qed.

Lemma sort_Strings_unique (S1 S2 : GoSort) l1 l2 :
  l1 ≡ₚ l2 -> @sort_Strings S1 l1 = @sort_Strings S2 l2.
Proof.
  intros Hp. apply sort_Slice_unique; [apply _|done|]. intros; by apply str_ltb_total.
Qed.

(** A sort meeting the contract, with which witnesses compute. *)
Definition go_sort {A} (less : A -> A -> bool) (l : list A) : list A :=
  merge_sort (not_less less) l.

#[refine, global] Instance merge_GoSort : GoSort := {| sort_Slice := @go_sort |}.
Proof.
  - intros A less l. apply merge_sort_Permutation.
  - intros A less l Hsw. apply Sorted_merge_sort, _.
Defined.

#[refine, global] Instance list_GoRange : GoRange := {| map_range := fun V m => map_to_list m |}.
Proof. done. Defined.

Lemma elem_of_map_range `{GoRange} {V} (m : gmap string V) k v :
  (k, v) ∈ map_range m <-> m !! k = Some v.
Proof. by rewrite map_range_perm, elem_of_map_to_list. Qed.

Lemma List_filter_perm {A} (f : A -> bool) l1 l2 : l1 ≡ₚ l2 -> List.filter f l1 ≡ₚ List.filter f l2.
Proof.
  induction 1 as [| x l1 l2 _ IH | x y l | l1 l2 l3 _ IH1 _ IH2]; simpl; [done|..|by etrans].
  - by destruct (f x); rewrite IH.
  - destruct (f x), (f y); try done. apply perm_swap.
Qed.

(** ** Results and effects *)

Lemma map_result_Ok {A B} (f : A -> result B) l ys :
  map_result f l = Ok ys <-> Forall2 (fun x y => f x = Ok y) l ys.
Proof.
  revert ys. induction l as [|x l IH]; intros ys; simpl.
  - split; [intros; simplify_eq; constructor|by inversion 1].
  - split.
    + intros. simp_res. constructor; [done|]. by apply IH.
    + inversion 1 as [|? y ? ys' Hx Hl]; subst. rewrite Hx. apply IH in Hl. by rewrite Hl.
Qed.

Lemma map_result_length {A B} (f : A -> result B) l ys :
  map_result f l = Ok ys -> length ys = length l.
Proof. rewrite map_result_Ok. intros H. by apply Forall2_length in H. Qed.

Lemma map_result_Err {A B} (f : A -> result B) l e :
  map_result f l = Err e -> exists x, x ∈ l /\ f x = Err e.
Proof.
  induction l as [|x l IH]; simpl; [done|]. intros. simp_res.
  - destruct IH as (y & ? & ?); [done|]. eauto using list_elem_of_further.
  - eauto using list_elem_of_here.
Qed.

Section Eff.
Context {S : Type}.

(** Stepping an [eff] computation that returned a value. *)
Lemma eff_bind_Ok {A B} (c : eff S A) (k : A -> eff S B) s b s' :
  eff_bind c k s = (Ok b, s') <-> exists a s1, c s = (Ok a, s1) /\ k a s1 = (Ok b, s').
Proof.
  unfold eff_bind. split.
  - destruct (c s) as [[a|e] s1]; naive_solver.
  - intros (a & s1 & -> & ?). done.
Qed.

(** A predicate on states preserved by [c] whatever it returns. *)
Definition eff_inv {A} (P : S -> Prop) (c : eff S A) : Prop := forall s, P s -> P (c s).2.

Lemma eff_inv_bind {A B} P (c : eff S A) (k : A -> eff S B) :
  eff_inv P c -> (forall a, eff_inv P (k a)) -> eff_inv P (eff_bind c k).
Proof.
  unfold eff_inv, eff_bind. intros Hc Hk s Hs. specialize (Hc s Hs).
  destruct (c s) as [[a|e] s1]; simpl in *; auto.
Qed.

(** The same when what follows may use the result. *)
Lemma eff_inv_bind_Ok {A B} P (c : eff S A) (k : A -> eff S B) :
  eff_inv P c -> (forall a s s', c s = (Ok a, s') -> eff_inv P (k a)) -> eff_inv P (eff_bind c k).
Proof.
  unfold eff_inv, eff_bind. intros Hc Hk s Hs. specialize (Hc s Hs). specialize (Hk) with (s := s).
  destruct (c s) as [[a|e] s1]; simpl in *; [|done]. by eapply Hk.
Qed.

Lemma eff_inv_ret {A} P (a : A) : eff_inv P (eff_ret (S := S) a).
Proof. by intros s. Qed.

Lemma eff_inv_throw {A} P e : eff_inv P (eff_throw (S := S) (A := A) e).
Proof. by intros s. Qed.

Lemma eff_inv_of_result {A} P (r : result A) : eff_inv P (eff_of_result (S := S) r).
Proof. by intros s. Qed.

Lemma eff_inv_catch {A B} P (c : eff S A) (k : result A -> eff S B) :
  eff_inv P c -> (forall r, eff_inv P (k r)) -> eff_inv P (eff_catch c k).
Proof.
  unfold eff_inv, eff_catch. intros Hc Hk s Hs. specialize (Hc s Hs).
  destruct (c s) as [r s1]; simpl in *; auto.
Qed.

Lemma eff_inv_wrap {A} P f (c : eff S A) : eff_inv P c -> eff_inv P (eff_wrap f c).
Proof.
  unfold eff_inv, eff_wrap. intros Hc s Hs. specialize (Hc s Hs).
  by destruct (c s) as [r s1].
Qed.

Lemma eff_wrap_Ok {A} f (c : eff S A) s a s' :
  eff_wrap f c s = (Ok a, s') <-> c s = (Ok a, s').
Proof. unfold eff_wrap. destruct (c s) as [[]]; naive_solver. Qed.

Lemma eff_of_result_Ok {A} (r : result A) s a s' :
  eff_of_result (S := S) r s = (Ok a, s') <-> r = Ok a /\ s' = s.
Proof. unfold eff_of_result. split; [by intros [= -> ->]|by intros [-> ->]]. Qed.

Lemma eff_bind_Err {A B} (c : eff S A) (k : A -> eff S B) s e s' :
  eff_bind c k s = (Err e, s') ->
  c s = (Err e, s') \/ exists a s1, c s = (Ok a, s1) /\ k a s1 = (Err e, s').
Proof. unfold eff_bind. destruct (c s) as [[a|e'] s1]; [|intros [= -> ->]; by left]. eauto. Qed.
End Eff.

Lemma map_err_Ok {A} f (r : result A) a : map_err f r = Ok a <-> r = Ok a.
Proof. destruct r; simpl; naive_solver. Qed.

(** Opening one [let*] of a computation that returned. *)
Ltac step_Ok H :=
  let a := fresh "a" in let w := fresh "w" in let Ha := fresh "Hs" in
  apply eff_bind_Ok in H as (a & w & Ha & H);
  rewrite ?eff_of_result_Ok, ?map_err_Ok in Ha; try (destruct Ha as [Ha ->]).

#[export] Hint Resolve eff_inv_bind eff_inv_ret eff_inv_throw eff_inv_of_result
  eff_inv_catch eff_inv_wrap : go.
