(* ===== verification/GoTime.v ===== *)
(** * Calendar time: [time.Time] as text

    The part of Go's [time] package the service writes and reads: the civil date
    of an instant, [time.RFC3339], the [RFC3339Nano] text of a [time.Time] inside
    JSON with its strict parser, and the compact layout of the store's keys
    ([src/store/store.go]).  An instant is a number of nanoseconds from January 1,
    year 1, UTC; text is written in UTC and read with any offset. *)

From S2P Require Import Prelude.

(** ** Fixed-width decimals *)

Definition digit_char (n : Z) : Ascii.ascii := Ascii.ascii_of_N (Z.to_N (48 + n)).

Definition digit_val (c : Ascii.ascii) : option Z :=
  let n := Z.of_N (Ascii.N_of_ascii c) in
  if (48 <=? n) && (n <=? 57) then Some (n - 48) else None.

Fixpoint digits (k : nat) (n : Z) : string :=
  match k with
  | O => ""
  | S k' => String (digit_char (n / 10 ^ Z.of_nat k')) (digits k' (n mod 10 ^ Z.of_nat k'))
  end.

(** Reads exactly [k] digits. *)
Fixpoint read_digits (k : nat) (acc : Z) (s : string) : option (Z * string) :=
  match k, s with
  | O, _ => Some (acc, s)
  | S k', String c s' => v ← digit_val c; read_digits k' (10 * acc + v) s'
  | S _, EmptyString => None
  end.

Definition read_char (c : Ascii.ascii) (s : string) : option string :=
  match s with
  | String d s' => if bool_decide (d = c) then Some s' else None
  | EmptyString => None
  end.

(** ** Civil dates

    Years are counted from March, so that the leap day is the last of its year;
    400 years have 146097 days. *)

Definition march_epoch : Z := 306.

Record Civil := mkCivil { c_year : Z; c_month : Z; c_day : Z }.

Definition month_start (mp : Z) : Z := (153 * mp + 2) / 5.

(** The year from March and the day in it, of a day counted from March 1, year 0. *)
Definition march_of (z : Z) : Z * Z :=
  let n400 := z / 146097 in let d := z mod 146097 in
  let n100 := Z.min 3 (d / 36524) in let d := d - 36524 * n100 in
  let n4 := d / 1461 in let d := d mod 1461 in
  let n1 := Z.min 3 (d / 365) in
  (400 * n400 + 100 * n100 + 4 * n4 + n1, d - 365 * n1).

Definition civil_of_days (days : Z) : Civil :=
  let '(y, doy) := march_of (days + march_epoch) in
  let mp := (5 * doy + 2) / 153 in
  let m := if mp <? 10 then mp + 3 else mp - 9 in
  mkCivil (if m <=? 2 then y + 1 else y) m (doy - month_start mp + 1).

Definition days_of_civil (c : Civil) : Z :=
  let y := if c_month c <=? 2 then c_year c - 1 else c_year c in
  let mp := if c_month c <=? 2 then c_month c + 9 else c_month c - 3 in
  365 * y + y / 4 - y / 100 + y / 400 + month_start mp + (c_day c - 1) - march_epoch.

Definition isLeap (y : Z) : bool :=
  (y mod 4 =? 0) && (negb (y mod 100 =? 0) || (y mod 400 =? 0)).

Definition daysIn (m y : Z) : Z :=
  if m =? 2 then (if isLeap y then 29 else 28)
  else if (m =? 4) || (m =? 6) || (m =? 9) || (m =? 11) then 30 else 31.

Definition nanos_per_sec : Z := 1000000000.
Definition nanos_per_day : Z := 86400 * nanos_per_sec.

(** The clock of an instant: date, hour, minute, second, nanosecond. *)
Record Clock := mkClock { k_date : Civil; k_hour : Z; k_min : Z; k_sec : Z; k_nsec : Z }.

Definition clock_of (t : time) : Clock :=
  let r := t mod nanos_per_day in
  let s := r / nanos_per_sec in
  mkClock (civil_of_days (t / nanos_per_day)) (s / 3600) (s / 60 mod 60) (s mod 60) (r mod nanos_per_sec).

Definition instant_of (c : Clock) : time :=
  (86400 * days_of_civil (k_date c) + 3600 * k_hour c + 60 * k_min c + k_sec c) * nanos_per_sec + k_nsec c.

(** ** Layouts *)

Definition c_minus : Ascii.ascii := Ascii.ascii_of_nat 45.
Definition c_plus : Ascii.ascii := Ascii.ascii_of_nat 43.
Definition c_colon : Ascii.ascii := Ascii.ascii_of_nat 58.
Definition c_dot : Ascii.ascii := Ascii.ascii_of_nat 46.
Definition c_T : Ascii.ascii := Ascii.ascii_of_nat 84.
Definition c_Z : Ascii.ascii := Ascii.ascii_of_nat 90.

(** Years outside 0 to 9999 are not written by the JSON encoder, which is the
    only reader; [year_ok] is its test. *)
Definition year_ok (t : time) : bool :=
  let y := c_year (k_date (clock_of t)) in (0 <=? y) && (y <=? 9999).

Definition date_text (c : Clock) (k : string) : string :=
  digits 4 (c_year (k_date c)) +:+ String c_minus (digits 2 (c_month (k_date c)) +:+
  String c_minus (digits 2 (c_day (k_date c)) +:+ String c_T (digits 2 (k_hour c) +:+
  String c_colon (digits 2 (k_min c) +:+ String c_colon (digits 2 (k_sec c) +:+ k))))).

(** [time.RFC3339]. *)
Definition Format_RFC3339 (t : time) : string := date_text (clock_of t) (String c_Z "").

(** The fraction of [RFC3339Nano]: [k] digits at most, without trailing zeros. *)
Fixpoint frac_digits (k : nat) (n : Z) : string :=
  match k with
  | O => ""
  | S k' => if n =? 0 then ""
            else String (digit_char (n / 10 ^ Z.of_nat k')) (frac_digits k' (n mod 10 ^ Z.of_nat k'))
  end.

Definition frac_text (nsec : Z) (k : string) : string :=
  if nsec =? 0 then k else String c_dot (frac_digits 9 nsec +:+ k).

Definition Format_RFC3339Nano (t : time) : string :=
  let c := clock_of t in date_text c (frac_text (k_nsec c) (String c_Z "")).

(** [t.UTC().Format("20060102T150405Z")]. *)
Definition format_compact (t : time) : string :=
  let c := clock_of t in
  digits 4 (c_year (k_date c)) +:+ digits 2 (c_month (k_date c)) +:+ digits 2 (c_day (k_date c)) +:+
  String c_T (digits 2 (k_hour c) +:+ digits 2 (k_min c) +:+ digits 2 (k_sec c) +:+ String c_Z "").

(** ** The strict RFC 3339 parser *)

(** Digits of a fraction, weighted; digits past the ninth have no weight. *)
Fixpoint read_frac (w acc : Z) (s : string) : Z * string :=
  match s with
  | String c s' => match digit_val c with
                   | Some v => read_frac (w / 10) (acc + v * w) s'
                   | None => (acc, s)
                   end
  | EmptyString => (acc, s)
  end.

Definition parse_frac (s : string) : option (Z * string) :=
  match s with
  | String c s' =>
      if bool_decide (c = c_dot) then
        match s' with
        | String d _ => match digit_val d with Some _ => Some (read_frac 100000000 0 s') | None => None end
        | EmptyString => None
        end
      else Some (0, s)
  | EmptyString => Some (0, s)
  end.

(** [Z] or a signed [hh:mm], in seconds. *)
Definition parse_offset (s : string) : option Z :=
  match s with
  | String c s' =>
      if bool_decide (c = c_Z) then (if str_eqb s' "" then Some 0 else None)
      else
        sign ← (if bool_decide (c = c_plus) then Some 1 else if bool_decide (c = c_minus) then Some (-1) else None);
        '(hh, s1) ← read_digits 2 0 s'; s2 ← read_char c_colon s1; '(mm, s3) ← read_digits 2 0 s2;
        if (hh <? 24) && (mm <? 60) && str_eqb s3 "" then Some (sign * (3600 * hh + 60 * mm)) else None
  | EmptyString => None
  end.

Definition clock_ok (c : Clock) : bool :=
  (1 <=? c_month (k_date c)) && (c_month (k_date c) <=? 12) && (1 <=? c_day (k_date c)) &&
  (c_day (k_date c) <=? daysIn (c_month (k_date c)) (c_year (k_date c))) &&
  (k_hour c <? 24) && (k_min c <? 60) && (k_sec c <? 60).

Definition parse_date (s : string) : option (Clock * string) :=
  '(y, s) ← read_digits 4 0 s; s ← read_char c_minus s;
  '(m, s) ← read_digits 2 0 s; s ← read_char c_minus s;
  '(d, s) ← read_digits 2 0 s; s ← read_char c_T s;
  '(hh, s) ← read_digits 2 0 s; s ← read_char c_colon s;
  '(mm, s) ← read_digits 2 0 s; s ← read_char c_colon s;
  '(ss, s) ← read_digits 2 0 s;
  Some (mkClock (mkCivil y m d) hh mm ss 0, s).

Definition Parse_RFC3339 (s : string) : option time :=
  '(c, s) ← parse_date s;
  if negb (clock_ok c) then None
  else
    '(ns, s) ← parse_frac s;
    off ← parse_offset s;
    Some (instant_of c + ns - off * nanos_per_sec).

(** * Lemmas *)

Ltac div_lia := Z.to_euclidean_division_equations; lia.

(** ** Decimals *)

Lemma digit_val_char n : 0 <= n < 10 -> digit_val (digit_char n) = Some n.
Proof.
  intros Hn. unfold digit_val, digit_char. rewrite Ascii.N_ascii_embedding by lia.
  rewrite Z2N.id by lia. destruct (Z.leb_spec 48 (48 + n)); [|lia]. destruct (Z.leb_spec (48 + n) 57); [|lia].
  simpl. f_equal. lia.
Qed.

Lemma pow10_pos k : 0 < 10 ^ Z.of_nat k.
Proof. apply Z.pow_pos_nonneg; lia. Qed.

Lemma digit_range k n : 0 <= n < 10 ^ Z.of_nat (S k) -> 0 <= n / 10 ^ Z.of_nat k < 10.
Proof.
  intros Hn. pose proof (pow10_pos k). rewrite Nat2Z.inj_succ, Z.pow_succ_r in Hn by lia.
  split; [apply Z.div_pos; lia|]. apply Z.div_lt_upper_bound; lia.
Qed.

Lemma read_digits_digits k n acc r :
  0 <= n < 10 ^ Z.of_nat k -> read_digits k acc (digits k n +:+ r) = Some (acc * 10 ^ Z.of_nat k + n, r).
Proof.
  revert n acc. induction k as [|k IH]; intros n acc Hn.
  { simpl in *. rewrite app_nil_s. do 2 f_equal. lia. }
  cbn [digits read_digits]. rewrite app_cons_s, digit_val_char by (by apply digit_range). simpl.
  pose proof (pow10_pos k). rewrite IH by (apply Z.mod_pos_bound; lia). do 2 f_equal.
  rewrite Nat2Z.inj_succ, Z.pow_succ_r by lia. pose proof (Z.div_mod n (10 ^ Z.of_nat k)). nia.
Qed.

Lemma read_char_here c s : read_char c (String c s) = Some s.
Proof. unfold read_char. by rewrite bool_decide_true. Qed.

(** ** Dates *)

Record civil_wf (c : Civil) : Prop := {
  cw_month : 1 <= c_month c <= 12;
  cw_day : 1 <= c_day c <= daysIn (c_month c) (c_year c)
}.

Lemma march_of_spec z y doy :
  march_of z = (y, doy) ->
  z = 365 * y + y / 4 - y / 100 + y / 400 + doy /\ 0 <= doy <= 365 /\ (doy = 365 -> isLeap (y + 1) = true).
Proof.
  unfold march_of. set (n400 := z / 146097). set (d4 := z mod 146097).
  set (n100 := Z.min 3 (d4 / 36524)). set (d1 := d4 - 36524 * n100).
  set (n4 := d1 / 1461). set (d0 := d1 mod 1461). set (n1 := Z.min 3 (d0 / 365)).
  assert (Hz : z = 146097 * n400 + d4 /\ 0 <= d4 < 146097) by (subst n400 d4; div_lia).
  assert (H100 : d4 = d1 + 36524 * n100 /\ 0 <= n100 <= 3 /\ 0 <= d1 <= 36524 /\ (d1 = 36524 -> n100 = 3))
    by (subst n100 d1; div_lia).
  assert (Hn4 : d1 = 1461 * n4 + d0 /\ 0 <= d0 < 1461 /\ 0 <= n4 <= 24) by (subst n4 d0; div_lia).
  assert (H1 : 0 <= n1 <= 3 /\ 0 <= d0 - 365 * n1 <= 365 /\ (d0 - 365 * n1 = 365 -> n1 = 3)) by (subst n1; div_lia).
  clearbody n1 d0 n4 d1 n100 d4 n400. intros [= <- <-].
  set (Y := 400 * n400 + 100 * n100 + 4 * n4 + n1).
  assert (HY : Y / 4 = 100 * n400 + 25 * n100 + n4 /\ Y / 100 = 4 * n400 + n100 /\ Y / 400 = n400)
    by (subst Y; div_lia).
  split_and!; [destruct HY as (-> & -> & ->); subst Y; lia|lia|lia|]. intros E. unfold isLeap.
  rewrite andb_true_iff, orb_true_iff, negb_true_iff, !Z.eqb_eq, Z.eqb_neq. subst Y.
  destruct H1 as (_ & _ & H1). rewrite (H1 E) in *. clear HY. split; [div_lia|].
  destruct (decide (n4 = 24)) as [->|]; [right; assert (n100 = 3) by lia|left]; div_lia.
Qed.

Lemma month_of_spec doy :
  0 <= doy <= 365 ->
  let mp := (5 * doy + 2) / 153 in
  0 <= mp <= 11 /\ 1 <= doy - month_start mp + 1 /\
  (mp < 11 -> doy - month_start mp + 1 <= daysIn (if mp <? 10 then mp + 3 else mp - 9) 1) /\
  (mp = 11 -> doy - 336 <= 29 /\ (doy - 336 = 29 -> doy = 365)).
Proof.
  intros Hd mp.
  assert (Hq : 153 * mp <= 5 * doy + 2 < 153 * mp + 153) by (subst mp; div_lia). clearbody mp.
  assert (Hc : mp = 0 \/ mp = 1 \/ mp = 2 \/ mp = 3 \/ mp = 4 \/ mp = 5 \/ mp = 6 \/ mp = 7 \/
    mp = 8 \/ mp = 9 \/ mp = 10 \/ mp = 11) by lia.
  destruct_or! Hc; subst mp; (split; [lia|]);
    match goal with |- 1 <= _ - ?a + 1 /\ (_ -> _ <= ?b) /\ _ =>
      let a' := eval vm_compute in a in let b' := eval vm_compute in b in change a with a'; change b with b' end; lia.
Qed.

Lemma civil_of_days_wf d : civil_wf (civil_of_days d).
Proof.
  unfold civil_of_days. destruct (march_of _) as [y doy] eqn:E. apply march_of_spec in E as (_ & Hd & Hleap).
  destruct (month_of_spec doy Hd) as (Hm & H1 & Hlt & H11). revert Hm H1 Hlt H11.
  generalize ((5 * doy + 2) / 153). intros mp Hm H1 Hlt H11. split; cbn [c_month c_day c_year].
  - destruct (Z.ltb_spec mp 10); lia.
  - split; [done|]. destruct (decide (mp = 11)) as [->|Hne].
    + destruct (H11 eq_refl) as [H29 H365]. change (month_start 11) with 337. simpl. unfold daysIn. simpl.
      destruct (isLeap (y + 1)) eqn:El; [lia|]. destruct (decide (doy - 336 = 29)) as [E|]; [|lia].
      pose proof (Hleap (H365 E)). congruence.
    + etrans; [apply Hlt; lia|]. unfold daysIn.
      replace ((if mp <? 10 then mp + 3 else mp - 9) =? 2) with false by (destruct (Z.ltb_spec mp 10); lia). done.
Qed.

Lemma days_of_civil_of_days d : days_of_civil (civil_of_days d) = d.
Proof.
  unfold days_of_civil, civil_of_days. destruct (march_of _) as [y doy] eqn:E.
  apply march_of_spec in E as (Hz & Hd & _). destruct (month_of_spec doy Hd) as (Hm & _).
  revert Hm. generalize ((5 * doy + 2) / 153). intros mp Hm. cbn [c_year c_month c_day].
  replace ((if mp <? 10 then mp + 3 else mp - 9) <=? 2) with (negb (mp <? 10))
    by (destruct (Z.ltb_spec mp 10); lia).
  destruct (Z.ltb_spec mp 10); cbn [negb].
  - replace (mp + 3 - 3) with mp by lia. lia.
  - replace (mp - 9 + 9) with mp by lia. replace (y + 1 - 1) with y by lia. lia.
Qed.

(** ** Clocks *)

Lemma instant_of_clock t :
  instant_of (clock_of t) = t /\ clock_ok (clock_of t) = true /\ 0 <= k_hour (clock_of t) /\
  0 <= k_min (clock_of t) /\ 0 <= k_sec (clock_of t) /\ 0 <= k_nsec (clock_of t) < 10 ^ 9.
Proof.
  unfold instant_of, clock_of, clock_ok. cbn [k_date k_hour k_min k_sec k_nsec].
  destruct (civil_of_days_wf (t / nanos_per_day)) as [Hm Hd]. rewrite days_of_civil_of_days.
  unfold nanos_per_day, nanos_per_sec in *.
  split_and!; [div_lia| |div_lia..]. rewrite !andb_true_iff, !Z.leb_le, !Z.ltb_lt. split_and!; [lia..| |div_lia|div_lia].
  div_lia.
Qed.

Lemma clock_ok_spec c :
  clock_ok c = true ->
  1 <= c_month (k_date c) <= 12 /\ 1 <= c_day (k_date c) <= 31 /\ k_hour c < 24 /\ k_min c < 60 /\ k_sec c < 60.
Proof.
  unfold clock_ok. rewrite !andb_true_iff, !Z.leb_le, !Z.ltb_lt. intros ((((((?&?)&?)&Hd)&?)&?)&?).
  split_and!; try lia. etrans; [exact Hd|]. unfold daysIn. repeat case_match; lia.
Qed.

Lemma parse_date_text c k :
  0 <= c_year (k_date c) <= 9999 -> clock_ok c = true -> 0 <= k_hour c -> 0 <= k_min c -> 0 <= k_sec c ->
  parse_date (date_text c k) = Some (mkClock (k_date c) (k_hour c) (k_min c) (k_sec c) 0, k).
Proof.
  intros Hy (Hm & Hd & ? & ? & ?)%clock_ok_spec ? ? ?. unfold parse_date, date_text.
  repeat first [rewrite read_digits_digits by (change (10 ^ Z.of_nat 4) with 10000; change (10 ^ Z.of_nat 2) with 100; lia)
               |rewrite read_char_here|progress cbn [mbind option_bind]].
  rewrite !Z.mul_0_l. by destruct c as [[] ? ? ? ?].
Qed.

(** ** Fractions *)

Lemma read_frac_digits k n acc r :
  0 <= n < 10 ^ Z.of_nat k ->
  read_frac (10 ^ Z.of_nat k / 10) acc (frac_digits k n +:+ String c_Z r) = (acc + n, String c_Z r).
Proof.
  revert n acc. induction k as [|k IH]; intros n acc Hn.
  { change (10 ^ Z.of_nat 0) with 1 in Hn. assert (n = 0) as -> by lia. simpl. by rewrite Z.add_0_r. }
  cbn [frac_digits]. destruct (Z.eqb_spec n 0) as [->|]; [simpl; by rewrite Z.add_0_r|].
  rewrite app_cons_s. cbn [read_frac]. rewrite digit_val_char by (by apply digit_range).
  replace (10 ^ Z.of_nat (S k) / 10) with (10 ^ Z.of_nat k)
    by (rewrite Nat2Z.inj_succ, Z.pow_succ_r, Z.mul_comm, Z.div_mul by lia; done).
  pose proof (pow10_pos k). rewrite IH by (apply Z.mod_pos_bound; lia). f_equal.
  pose proof (Z.div_mod n (10 ^ Z.of_nat k)). lia.
Qed.

Lemma parse_frac_text n : 0 <= n < 10 ^ 9 -> parse_frac (frac_text n (String c_Z "")) = Some (n, String c_Z "").
Proof.
  intros Hn. unfold frac_text. destruct (Z.eqb_spec n 0) as [->|Hz]; [done|]. unfold parse_frac.
  rewrite bool_decide_true by done. pose proof (read_frac_digits 9 n 0 "" Hn) as Hr. revert Hr.
  change (10 ^ Z.of_nat 9 / 10) with 100000000. cbn [frac_digits]. rewrite (proj2 (Z.eqb_neq n 0) Hz), app_cons_s.
  rewrite digit_val_char by (apply (digit_range 8 n Hn)). by intros ->.
Qed.

(** Reading back what was written: every instant of the years 0 to 9999, to the
    nanosecond. *)
Lemma Parse_Format_RFC3339Nano t : year_ok t = true -> Parse_RFC3339 (Format_RFC3339Nano t) = Some t.
Proof.
  unfold year_ok. rewrite andb_true_iff, !Z.leb_le. intros Hy. unfold Parse_RFC3339, Format_RFC3339Nano.
  destruct (instant_of_clock t) as (Hi & Hc & ? & ? & ? & Hn). rewrite parse_date_text by done.
  cbn [mbind option_bind]. replace (clock_ok _) with true by (symmetry; exact Hc). cbn [negb].
  rewrite parse_frac_text by done. cbn [mbind option_bind]. change (parse_offset (String c_Z "")) with (Some 0).
  cbn [mbind option_bind]. f_equal. etrans; [|exact Hi]. clear. generalize (clock_of t). intros c.
  unfold instant_of. cbn [k_date k_hour k_min k_sec k_nsec]. lia.
Qed.

Example epoch_text : Format_RFC3339Nano (62135596800 * nanos_per_sec + 500) = "1970-01-01T00:00:00.0000005Z".
Proof. vm_compute. reflexivity. Qed.

Example offset_read : Parse_RFC3339 "2024-02-29T01:30:00+02:00" = Parse_RFC3339 "2024-02-28T23:30:00Z".
Proof. vm_compute. reflexivity. Qed.
