(* ===== verification/Model.v ===== *)
(** * The domain model: anchors, territories, snapshots, bootstrap

    The data of [src/trust/anchor.go], [src/trust/declared.go] and
    [src/trust/diff.go] with the methods that read it.  Slices are lists,
    pointers that may be nil are options.  [crypto/x509] and [crypto/sha256] are
    the parameters [X509]: what the service relies on is [X509Laws]. *)

From S2P Require Import Prelude.

(** ** Certificates and digests *)

(** The fields of an [x509.Certificate] the service reads; [cert_Subject] is
    [Subject.String()]. *)
Record Certificate := mkCertificate {
  cert_Raw : bytes;
  cert_Subject : string;
  cert_CommonName : string;
  cert_NotBefore : time;
  cert_NotAfter : time
}.

Class X509 := {
  x509_ParseCertificate : bytes -> result Certificate;
  sha256_Sum256 : bytes -> bytes
}.

Class X509Laws `{X509} : Prop := {
  (** [Certificate.Raw] is the complete DER content that was parsed. *)
  parse_Raw : forall der c, x509_ParseCertificate der = Ok c -> cert_Raw c = der;
  (** [Sum256] returns [[32]byte]. *)
  sha256_size : forall b, String.length (sha256_Sum256 b) = 32%nat
}.

Definition fingerprintDER `{X509} (der : bytes) : string := hex_EncodeToString (sha256_Sum256 der).
Definition Fingerprint `{X509} (cert : Certificate) : string :=
  hex_EncodeToString (sha256_Sum256 (cert_Raw cert)).

(** ** Constants *)

Definition SourceTL : string := "tl".
Definition SourceInternal : string := "internal".

Definition AnchorTypes : list string :=
  [ "pid_provider"; "qeaa_provider"; "pub_eaa_provider"; "eaa_provider"; "wallet_provider";
    "access_ca"; "wrprc_issuer"; "pid_provider_status"; "qeaa_provider_status";
    "pub_eaa_provider_status"; "eaa_provider_status" ].

Definition ValidAnchorType (t : string) : bool := bool_decide (t ∈ AnchorTypes).

Definition UseSignature : string := "signature".
Definition UseAuthentication : string := "authentication".
Definition UseSeal : string := "seal".
Definition UseWebsite : string := "website".

Definition KeyAlgorithmECDSA : string := "ecdsa".
Definition nistCurves : list string := ["P-224"; "P-256"; "P-384"; "P-521"].

Definition KeysCommon : string := "common".
Definition KeysAll : string := "all".
Definition ValidKeys (keys : string) : bool :=
  str_eqb keys "" || str_eqb keys KeysCommon || str_eqb keys KeysAll.

Definition SkipInvalidCertificate : string := "invalid-certificate".
Definition SkipNoCertificate : string := "no-certificate".
Definition SkipStatusConflict : string := "status-conflict".

(** ** Anchors *)

Record Anchor := mkAnchor {
  a_Territory : string;
  a_Source : string;
  a_TSPName : string;
  a_ServiceName : string;
  a_ServiceType : string;
  a_Status : string;
  a_StatusStartingTime : time;
  a_CertDER : bytes;
  a_FingerprintSHA256 : string;
  a_Subject : string;
  a_NotBefore : time;
  a_NotAfter : time;
  a_Qualifiers : list string;
  a_QCWithQSCD : bool;
  a_Uses : list string;
  a_KeyAlgorithm : string;
  a_Curve : string;
  a_Type : string;
  a_UseCases : list string;
  a_TLSequence : Z
}.

#[global] Instance Anchor_eq_dec : EqDecision Anchor.
Proof. solve_decision. Defined.

Definition MatchesUse (a : Anchor) (use : string) : bool :=
  if str_eqb use "" || bool_decide (length (a_Uses a) = 0%nat) then true
  else
    let use := if str_eqb use UseAuthentication then UseSignature else use in
    existsb (fun u => str_eqb u use) (a_Uses a).

Definition KeyCommon (a : Anchor) : bool :=
  if negb (str_eqb (a_KeyAlgorithm a) KeyAlgorithmECDSA) || str_eqb (a_Curve a) "" then true
  else bool_decide (a_Curve a ∈ nistCurves).

Record SkippedService := mkSkipped {
  sk_TSPName : string;
  sk_ServiceName : string;
  sk_Reason : string;
  sk_Detail : string;
  sk_FingerprintSHA256 : string;
  sk_KeyAlgorithm : string;
  sk_Curve : string
}.

(** ** Territories *)

Record Territory := mkTerritory {
  t_Code : string;
  t_TLSequence : Z;
  t_IssueTime : time;
  t_NextUpdate : option time;
  t_SourceDigest : string;
  t_CarriedOver : bool;
  t_CarriedOverReason : string;
  t_Failed : bool;
  t_FailureReason : string;
  t_Anchors : list Anchor;
  t_Skipped : list SkippedService
}.

Definition StaleAt (t : Territory) (now : time) (grace : duration) : bool :=
  match t_NextUpdate t with
  | None => false
  | Some nu => time_After now (time_Add nu grace)
  end.

Definition set_t_Anchors (t : Territory) (anchors : list Anchor) : Territory :=
  mkTerritory (t_Code t) (t_TLSequence t) (t_IssueTime t) (t_NextUpdate t) (t_SourceDigest t)
    (t_CarriedOver t) (t_CarriedOverReason t) (t_Failed t) (t_FailureReason t) anchors (t_Skipped t).

Definition set_t_CarriedOver (t : Territory) (b : bool) : Territory :=
  mkTerritory (t_Code t) (t_TLSequence t) (t_IssueTime t) (t_NextUpdate t) (t_SourceDigest t)
    b (t_CarriedOverReason t) (t_Failed t) (t_FailureReason t) (t_Anchors t) (t_Skipped t).

Definition set_t_CarriedOverReason (t : Territory) (r : string) : Territory :=
  mkTerritory (t_Code t) (t_TLSequence t) (t_IssueTime t) (t_NextUpdate t) (t_SourceDigest t)
    (t_CarriedOver t) r (t_Failed t) (t_FailureReason t) (t_Anchors t) (t_Skipped t).

Record PendingAnchor := mkPending { p_Anchor : Anchor; p_FirstSeen : time }.

(** ** Bootstrap *)

Record Bootstrap := mkBootstrap {
  b_Version : Z;
  b_OJReference : string;
  b_CertsDER : list bytes;
  b_ActivatedAt : time;
  b_Seeded : bool
}.

Definition Bootstrap_Certificates `{X509} (b : Bootstrap) : result (list Certificate) :=
  map_result (fun der =>
    map_err (fun e => errorf ("trust: parse bootstrap certificate: " +:+ err_Error e) [e])
      (x509_ParseCertificate der)) (b_CertsDER b).

Definition Bootstrap_Fingerprints `{X509, GoSort} (b : Bootstrap) : list string :=
  sort_Strings (fingerprintDER <$> b_CertsDER b).

(** ** Declared-source reports *)

Record DeclaredSourceState := mkDeclaredState {
  ds_Configured : bool;
  ds_CarriedOver : bool;
  ds_Error : string;
  ds_Count : Z
}.

Definition DeclaredSourceState_zero : DeclaredSourceState := mkDeclaredState false false "" 0.

Definition State (s : DeclaredSourceState) : string :=
  if negb (ds_Configured s) then "not_configured"
  else if ds_CarriedOver s then "carried_over"
  else "ok".

Record DeclaredReport := mkDeclaredReport { dr_Internal : DeclaredSourceState }.
Definition DeclaredReport_zero : DeclaredReport := mkDeclaredReport DeclaredSourceState_zero.

(** ** Diffs (the record; [ComputeDiff] is in [Diff]) *)

Definition DiffAdded : string := "added".
Definition DiffRemoved : string := "removed".
Definition DiffChanged : string := "changed".

Record DiffEntry := mkDiffEntry {
  de_Kind : string;
  de_Territory : string;
  de_Fingerprint : string;
  de_Type : string;
  de_TSPName : string;
  de_ServiceName : string;
  de_Status : string;
  de_Detail : string;
  de_Source : string
}.

#[global] Instance DiffEntry_eq_dec : EqDecision DiffEntry.
Proof. solve_decision. Defined.

Record DiffT := mkDiff { d_PrevID : string; d_Entries : list DiffEntry }.

Definition Diff_Empty (d : option DiffT) : bool :=
  match d with None => true | Some d => bool_decide (length (d_Entries d) = 0%nat) end.

(** ** List pointers and snapshots *)

Record ListPointer := mkListPointer {
  lp_Territory : string;
  lp_URL : string;
  lp_SignersDER : list bytes;
  lp_Failure : string
}.

Record Snapshot := mkSnapshot {
  s_ID : string;
  s_PrevID : string;
  s_GeneratedAt : time;
  s_LOTLSequence : Z;
  s_LOTLIssueTime : time;
  s_LOTLNextUpdate : option time;
  s_LOTLSignersDER : list bytes;
  s_LOTLPivotSeq : Z;
  s_LOTLDigest : string;
  s_LOTLPointers : list ListPointer;
  s_AdvertisedOJ : string;
  s_BootstrapOJRef : string;
  s_BootstrapVersion : Z;
  s_Territories : list Territory;
  s_Internal : list Anchor;
  s_Pending : list PendingAnchor;
  s_Diff : option DiffT;
  s_DeclaredLoad : option DeclaredReport
}.

#[global] Instance SkippedService_eq_dec : EqDecision SkippedService.
Proof. solve_decision. Defined.
#[global] Instance Territory_eq_dec : EqDecision Territory.
Proof. solve_decision. Defined.
#[global] Instance PendingAnchor_eq_dec : EqDecision PendingAnchor.
Proof. solve_decision. Defined.
#[global] Instance Bootstrap_eq_dec : EqDecision Bootstrap.
Proof. solve_decision. Defined.
#[global] Instance DeclaredSourceState_eq_dec : EqDecision DeclaredSourceState.
Proof. solve_decision. Defined.
#[global] Instance DeclaredReport_eq_dec : EqDecision DeclaredReport.
Proof. solve_decision. Defined.
#[global] Instance DiffT_eq_dec : EqDecision DiffT.
Proof. solve_decision. Defined.
#[global] Instance ListPointer_eq_dec : EqDecision ListPointer.
Proof. solve_decision. Defined.
#[global] Instance Snapshot_eq_dec : EqDecision Snapshot.
Proof. solve_decision. Defined.

(** [Snapshot.Territory(code)]: the first entry with that code. *)
Definition Snapshot_Territory (s : Snapshot) (code : string) : option Territory :=
  List.find (fun t => str_eqb (t_Code t) code) (s_Territories s).

Definition LOTLSigners `{X509} (s : Snapshot) : result (list Certificate) :=
  map_result (fun der =>
    map_err (fun e => errorf ("trust: parse persisted LOTL signer: " +:+ err_Error e) [e])
      (x509_ParseCertificate der)) (s_LOTLSignersDER s).

(** The closure [consider] of [EarliestNextUpdate]. *)
Definition consider (earliest : time) (t : option time) : time :=
  match t with
  | None => earliest
  | Some t =>
      if time_IsZero t then earliest
      else if time_IsZero earliest || time_Before t earliest then t else earliest
  end.

Definition EarliestNextUpdate (s : Snapshot) : time :=
  foldl consider (consider 0 (s_LOTLNextUpdate s)) (t_NextUpdate <$> s_Territories s).

(** Assignments to one field of a snapshot under construction. *)
Definition set_s_ID (s : Snapshot) (v : string) : Snapshot :=
  mkSnapshot v (s_PrevID s) (s_GeneratedAt s) (s_LOTLSequence s) (s_LOTLIssueTime s)
    (s_LOTLNextUpdate s) (s_LOTLSignersDER s) (s_LOTLPivotSeq s) (s_LOTLDigest s)
    (s_LOTLPointers s) (s_AdvertisedOJ s) (s_BootstrapOJRef s) (s_BootstrapVersion s)
    (s_Territories s) (s_Internal s) (s_Pending s) (s_Diff s) (s_DeclaredLoad s).

Definition set_s_PrevID (s : Snapshot) (v : string) : Snapshot :=
  mkSnapshot (s_ID s) v (s_GeneratedAt s) (s_LOTLSequence s) (s_LOTLIssueTime s)
    (s_LOTLNextUpdate s) (s_LOTLSignersDER s) (s_LOTLPivotSeq s) (s_LOTLDigest s)
    (s_LOTLPointers s) (s_AdvertisedOJ s) (s_BootstrapOJRef s) (s_BootstrapVersion s)
    (s_Territories s) (s_Internal s) (s_Pending s) (s_Diff s) (s_DeclaredLoad s).

Definition set_s_GeneratedAt (s : Snapshot) (v : time) : Snapshot :=
  mkSnapshot (s_ID s) (s_PrevID s) v (s_LOTLSequence s) (s_LOTLIssueTime s)
    (s_LOTLNextUpdate s) (s_LOTLSignersDER s) (s_LOTLPivotSeq s) (s_LOTLDigest s)
    (s_LOTLPointers s) (s_AdvertisedOJ s) (s_BootstrapOJRef s) (s_BootstrapVersion s)
    (s_Territories s) (s_Internal s) (s_Pending s) (s_Diff s) (s_DeclaredLoad s).

Definition set_s_Territories (s : Snapshot) (v : list Territory) : Snapshot :=
  mkSnapshot (s_ID s) (s_PrevID s) (s_GeneratedAt s) (s_LOTLSequence s) (s_LOTLIssueTime s)
    (s_LOTLNextUpdate s) (s_LOTLSignersDER s) (s_LOTLPivotSeq s) (s_LOTLDigest s)
    (s_LOTLPointers s) (s_AdvertisedOJ s) (s_BootstrapOJRef s) (s_BootstrapVersion s)
    v (s_Internal s) (s_Pending s) (s_Diff s) (s_DeclaredLoad s).

Definition set_s_Internal (s : Snapshot) (v : list Anchor) : Snapshot :=
  mkSnapshot (s_ID s) (s_PrevID s) (s_GeneratedAt s) (s_LOTLSequence s) (s_LOTLIssueTime s)
    (s_LOTLNextUpdate s) (s_LOTLSignersDER s) (s_LOTLPivotSeq s) (s_LOTLDigest s)
    (s_LOTLPointers s) (s_AdvertisedOJ s) (s_BootstrapOJRef s) (s_BootstrapVersion s)
    (s_Territories s) v (s_Pending s) (s_Diff s) (s_DeclaredLoad s).

Definition set_s_Pending (s : Snapshot) (v : list PendingAnchor) : Snapshot :=
  mkSnapshot (s_ID s) (s_PrevID s) (s_GeneratedAt s) (s_LOTLSequence s) (s_LOTLIssueTime s)
    (s_LOTLNextUpdate s) (s_LOTLSignersDER s) (s_LOTLPivotSeq s) (s_LOTLDigest s)
    (s_LOTLPointers s) (s_AdvertisedOJ s) (s_BootstrapOJRef s) (s_BootstrapVersion s)
    (s_Territories s) (s_Internal s) v (s_Diff s) (s_DeclaredLoad s).

Definition set_s_Diff (s : Snapshot) (v : option DiffT) : Snapshot :=
  mkSnapshot (s_ID s) (s_PrevID s) (s_GeneratedAt s) (s_LOTLSequence s) (s_LOTLIssueTime s)
    (s_LOTLNextUpdate s) (s_LOTLSignersDER s) (s_LOTLPivotSeq s) (s_LOTLDigest s)
    (s_LOTLPointers s) (s_AdvertisedOJ s) (s_BootstrapOJRef s) (s_BootstrapVersion s)
    (s_Territories s) (s_Internal s) (s_Pending s) v (s_DeclaredLoad s).

Definition set_s_DeclaredLoad (s : Snapshot) (v : option DeclaredReport) : Snapshot :=
  mkSnapshot (s_ID s) (s_PrevID s) (s_GeneratedAt s) (s_LOTLSequence s) (s_LOTLIssueTime s)
    (s_LOTLNextUpdate s) (s_LOTLSignersDER s) (s_LOTLPivotSeq s) (s_LOTLDigest s)
    (s_LOTLPointers s) (s_AdvertisedOJ s) (s_BootstrapOJRef s) (s_BootstrapVersion s)
    (s_Territories s) (s_Internal s) (s_Pending s) (s_Diff s) v.

(** The anchors a snapshot serves: every territory's and the declared ones. *)
Definition served (s : Snapshot) : list Anchor :=
  concat (t_Anchors <$> s_Territories s) ++ s_Internal s.

(** * Lemmas *)

Section ModelLemmas.
Context `{X509}.

Lemma Fingerprint_DER `{!X509Laws} der c :
  x509_ParseCertificate der = Ok c -> Fingerprint c = fingerprintDER der.
Proof. intros Hp. unfold Fingerprint, fingerprintDER. by rewrite (parse_Raw _ _ Hp). Qed.

Lemma hex_EncodeToString_length b :
  String.length (hex_EncodeToString b) = (2 * String.length b)%nat.
Proof. unfold hex_EncodeToString. induction b as [|c b IH]; [done|].
  simpl. change ("" +:+ ?s) with s. rewrite IH. lia.
Qed.

Lemma fingerprintDER_length `{!X509Laws} der : String.length (fingerprintDER der) = 64%nat.
Proof. unfold fingerprintDER. by rewrite hex_EncodeToString_length, sha256_size. Qed.
End ModelLemmas.

Lemma Snapshot_Territory_Some s code t :
  Snapshot_Territory s code = Some t -> t ∈ s_Territories s /\ t_Code t = code.
Proof.
  unfold Snapshot_Territory. intros Hf. apply List.find_some in Hf as [Hin Hc].
  apply str_eqb_eq in Hc. split; [by apply list_elem_of_In|done].
Qed.

Lemma Snapshot_Territory_None s code :
  Snapshot_Territory s code = None <-> forall t, t ∈ s_Territories s -> t_Code t <> code.
Proof.
  unfold Snapshot_Territory. split.
  - intros Hf t Hin Hc. apply list_elem_of_In in Hin.
    eapply List.find_none in Hf; [|exact Hin]. apply str_eqb_neq in Hf. done.
  - intros Hall. destruct (List.find _ _) as [t|] eqn:E; [|done].
    apply List.find_some in E as [Hin Hc]. apply str_eqb_eq in Hc.
    exfalso. eapply Hall; [by apply list_elem_of_In|done].
Qed.

(** The use a request is matched by: [authentication] is [signature]. *)
Definition effective_use (use : string) : string :=
  if str_eqb use UseAuthentication then UseSignature else use.

Lemma MatchesUse_true a use :
  MatchesUse a use = true <->
  use = "" \/ a_Uses a = [] \/ effective_use use ∈ a_Uses a.
Proof.
  unfold MatchesUse. destruct (str_eqb use "") eqn:E1; simpl.
  { apply str_eqb_eq in E1. naive_solver. }
  apply str_eqb_neq in E1. case_bool_decide as E2.
  { apply length_zero_iff_nil in E2. naive_solver. }
  rewrite List.existsb_exists. split.
  - intros (u & Hin & Hu). apply str_eqb_eq in Hu as ->. right. right. by apply list_elem_of_In.
  - intros [?|[Hn|Hin]]; [done|by rewrite Hn in E2|]. eexists. split; [by apply list_elem_of_In|].
    apply str_eqb_refl.
Qed.

Lemma KeyCommon_false a :
  KeyCommon a = false <->
  a_KeyAlgorithm a = KeyAlgorithmECDSA /\ a_Curve a <> "" /\ a_Curve a ∉ nistCurves.
Proof.
  unfold KeyCommon. destruct (str_eqb (a_KeyAlgorithm a) _) eqn:E1; simpl.
  - apply str_eqb_eq in E1. destruct (str_eqb (a_Curve a) "") eqn:E2; simpl.
    + apply str_eqb_eq in E2. naive_solver.
    + apply str_eqb_neq in E2. rewrite bool_decide_eq_false. naive_solver.
  - apply str_eqb_neq in E1. naive_solver.
Qed.

(** ** The earliest NextUpdate *)

(** The NextUpdate values a snapshot knows: the LOTL's and the territories',
    nil and zero ones left out. *)
Definition known_updates (s : Snapshot) : list time :=
  filter (fun t => t <> 0) (omap id (s_LOTLNextUpdate s :: (t_NextUpdate <$> s_Territories s))).

Lemma consider_foldl e l :
  let r := foldl consider e l in
  let known := filter (fun t => t <> 0) (omap id l) in
  (r = e \/ r ∈ known) /\ (r = 0 -> e = 0 /\ known = []) /\
  (forall t, t ∈ known -> r <= t) /\ (e <> 0 -> r <= e).
Proof.
  revert e. induction l as [|[t|] l IH]; intros e; simpl.
  - split_and!; auto; [intros ? []%elem_of_nil|lia].
  - assert (Hc : consider e (Some t) = e /\ (t = 0 \/ e <> 0 /\ e <= t) \/
                 consider e (Some t) = t /\ t <> 0 /\ (e = 0 \/ t < e)).
    { unfold consider, time_IsZero, time_Before. destruct (Z.eqb_spec t 0); [left; tauto|].
      destruct (Z.eqb_spec e 0); simpl; [right; tauto|]. destruct (Z.ltb_spec t e); [right|left]; split; auto; lia. }
    destruct (IH (consider e (Some t))) as (H1 & H2 & H3 & H4). simpl in *.
    set (r := foldl consider _ l) in *. set (k := filter _ (omap id l)) in *.
    rewrite filter_cons. destruct (decide (t <> 0)) as [Ht|Ht].
    + destruct Hc as [[Hc Hle]|[Hc [_ Hle]]]; rewrite Hc in *; split_and!.
      * set_solver.
      * intros Hr. specialize (H2 Hr). lia.
      * intros u [->|Hu]%elem_of_cons; [lia|auto].
      * lia.
      * set_solver.
      * intros Hr. specialize (H2 Hr). lia.
      * intros u [->|Hu]%elem_of_cons; [lia|auto].
      * lia.
    + destruct Hc as [[Hc Hle]|[Hc [Hne _]]]; [|lia]. rewrite Hc in *. split_and!; auto.
  - apply IH.
Qed.

Lemma EarliestNextUpdate_spec s :
  (EarliestNextUpdate s = 0 <-> known_updates s = []) /\
  (EarliestNextUpdate s <> 0 -> EarliestNextUpdate s ∈ known_updates s) /\
  (forall t, t ∈ known_updates s -> EarliestNextUpdate s <= t).
Proof.
  pose proof (consider_foldl 0 (s_LOTLNextUpdate s :: (t_NextUpdate <$> s_Territories s)))
    as (H1 & H2 & H3 & _).
  change (foldl consider 0 _) with (EarliestNextUpdate s) in *. fold (known_updates s) in *.
  split_and!; [split| |done].
  - intros Hz. by destruct (H2 Hz).
  - intros Hk. rewrite Hk in H1. destruct H1 as [?|[]%elem_of_nil]; done.
  - intros Hne. destruct H1; [done|done].
Qed.
