(* ===== verification/Base64.v ===== *)
(** * Base64 and PEM

    [base64.StdEncoding] as the trusted lists ([src/tsl/parse.go],
    [src/tsl/verify.go]) and [pem.EncodeToMemory] ([src/trust/filter.go]) use
    it.  Decoding is Go's [decodeQuantum] on input without line breaks: every
    caller strips white space first.  It requires padding and, like Go's
    non-strict decoder, ignores the unused low bits of a padded quantum. *)

From S2P Require Import Prelude Model.

Definition pad_char : Ascii.ascii := Ascii.ascii_of_nat 61.

Definition b64_char (n : N) : Ascii.ascii :=
  if (n <? 26)%N then Ascii.ascii_of_N (65 + n)
  else if (n <? 52)%N then Ascii.ascii_of_N (71 + n)
  else if (n <? 62)%N then Ascii.ascii_of_N (n - 4)
  else if (n =? 62)%N then Ascii.ascii_of_N 43
  else Ascii.ascii_of_N 47.

(** [decodeMap]: [None] is its 0xff. *)
Definition b64_val (c : Ascii.ascii) : option N :=
  let n := Ascii.N_of_ascii c in
  if ((65 <=? n) && (n <=? 90))%N then Some (n - 65)%N
  else if ((97 <=? n) && (n <=? 122))%N then Some (n - 71)%N
  else if ((48 <=? n) && (n <=? 57))%N then Some (n + 4)%N
  else if (n =? 43)%N then Some 62%N
  else if (n =? 47)%N then Some 63%N
  else None.

Definition CorruptInputError (off : Z) : error :=
  errors_New ("illegal base64 data at input byte " +:+ itoa off).

Definition byte1 (va vb : N) : Ascii.ascii := Ascii.ascii_of_N (va * 4 + vb / 16).
Definition byte2 (vb vc : N) : Ascii.ascii := Ascii.ascii_of_N (vb mod 16 * 16 + vc / 4).
Definition byte3 (vc vd : N) : Ascii.ascii := Ascii.ascii_of_N (vc mod 4 * 64 + vd).

Definition is_pad (c : Ascii.ascii) : bool := bool_decide (c = pad_char).

(** What a quantum ending in padding decodes to, unless bytes follow it. *)
Definition last_quantum (off : Z) (rest out : string) : result bytes :=
  match rest with
  | EmptyString => Ok out
  | String _ _ => Err (CorruptInputError (off + 4))
  end.

Fixpoint b64_decode (off : Z) (s : string) : result bytes :=
  match s with
  | EmptyString => Ok ""
  | String a s1 =>
      match b64_val a, s1 with
      | None, _ => Err (CorruptInputError off)
      | Some _, EmptyString => Err (CorruptInputError off)
      | Some va, String b s2 =>
          match b64_val b, s2 with
          | None, _ => Err (CorruptInputError (off + 1))
          | Some _, EmptyString => Err (CorruptInputError off)
          | Some vb, String c s3 =>
              match b64_val c, s3 with
              | None, EmptyString =>
                  Err (CorruptInputError (if is_pad c then off + 3 else off + 2))
              | None, String d s4 =>
                  if is_pad c && is_pad d then last_quantum off s4 (String (byte1 va vb) "")
                  else Err (CorruptInputError (off + 2))
              | Some _, EmptyString => Err (CorruptInputError off)
              | Some vc, String d s4 =>
                  match b64_val d with
                  | None =>
                      if is_pad d
                      then last_quantum off s4 (String (byte1 va vb) (String (byte2 vb vc) ""))
                      else Err (CorruptInputError (off + 3))
                  | Some vd =>
                      let? rest := b64_decode (off + 4) s4 in
                      Ok (String (byte1 va vb) (String (byte2 vb vc) (String (byte3 vc vd) rest)))
                  end
              end
          end
      end
  end.

Definition DecodeString (s : string) : result bytes := b64_decode 0 s.

Fixpoint EncodeToString (b : bytes) : string :=
  match b with
  | EmptyString => ""
  | String x EmptyString =>
      let n := Ascii.N_of_ascii x in
      String (b64_char (n / 4)) (String (b64_char (n mod 4 * 16)) (String pad_char (String pad_char "")))
  | String x (String y EmptyString) =>
      let n := Ascii.N_of_ascii x in let m := Ascii.N_of_ascii y in
      String (b64_char (n / 4)) (String (b64_char (n mod 4 * 16 + m / 16))
        (String (b64_char (m mod 16 * 4)) (String pad_char "")))
  | String x (String y (String z b')) =>
      let n := Ascii.N_of_ascii x in let m := Ascii.N_of_ascii y in let p := Ascii.N_of_ascii z in
      String (b64_char (n / 4)) (String (b64_char (n mod 4 * 16 + m / 16))
        (String (b64_char (m mod 16 * 4 + p / 64)) (String (b64_char (p mod 64)) (EncodeToString b'))))
  end.

(** ** PEM output *)

Definition newline : Ascii.ascii := Ascii.ascii_of_nat 10.
Definition nl : string := String newline "".

(** The line breaker of [encoding/pem]: a newline after every 64 characters and
    after a last partial line; [room] is what is left of the current line. *)
Fixpoint pem_lines (room : nat) (s : string) : string :=
  match s with
  | EmptyString => if bool_decide (room = 64%nat) then "" else nl
  | String c s' =>
      match room with
      | O => String newline (String c (pem_lines 63 s'))
      | S room' => String c (pem_lines room' s')
      end
  end.

Definition pem_EncodeToMemory (blockType : string) (b : bytes) : bytes :=
  "-----BEGIN " +:+ blockType +:+ "-----" +:+ nl +:+ pem_lines 64 (EncodeToString b) +:+
  "-----END " +:+ blockType +:+ "-----" +:+ nl.

(** [PEMBundle] of [src/trust/filter.go]. *)
Definition PEMBundle (anchors : list Anchor) : bytes :=
  foldl (fun out a => out +:+ pem_EncodeToMemory "CERTIFICATE" (a_CertDER a)) "" anchors.

(** * Lemmas *)

Lemma b64_val_char n : (n < 64)%N -> b64_val (b64_char n) = Some n.
Proof.
  intros Hn. assert (Hall : forallb (fun i => bool_decide (b64_val (b64_char (N.of_nat i)) = Some (N.of_nat i)))
                              (seq 0 64) = true) by (vm_compute; reflexivity).
  rewrite forallb_forall in Hall. specialize (Hall (N.to_nat n)).
  rewrite N2Nat.id, in_seq, bool_decide_eq_true in Hall. apply Hall. lia.
Qed.

Lemma byte_bound c : (Ascii.N_of_ascii c < 256)%N.
Proof. apply Ascii.N_ascii_bounded. Qed.

Lemma ascii_of_eq n c : n = Ascii.N_of_ascii c -> Ascii.ascii_of_N n = c.
Proof. intros ->. apply Ascii.ascii_N_embedding. Qed.

Ltac b64_arith :=
  repeat match goal with |- context [Ascii.N_of_ascii ?c] =>
    pose proof (byte_bound c); generalize dependent (Ascii.N_of_ascii c); intros end;
  zify; Z.to_euclidean_division_equations; lia.

(** Induction by the three bytes of a quantum. *)
Lemma string_ind3 (P : string -> Prop) :
  P "" -> (forall x, P (String x "")) -> (forall x y, P (String x (String y ""))) ->
  (forall x y z s, P s -> P (String x (String y (String z s)))) -> forall s, P s.
Proof.
  intros H0 H1 H2 H3.
  assert (Hall : forall n s, (String.length s < n)%nat -> P s).
  { induction n as [|n IH]; intros s Hn; [lia|].
    destruct s as [|x [|y [|z s]]]; [done..|]. apply H3, IH. simpl in Hn. lia. }
  intros s. apply (Hall (S (String.length s))). lia.
Qed.

Lemma b64_decode_encode off b : b64_decode off (EncodeToString b) = Ok b.
Proof.
  revert off. induction b as [|x|x y|x y z b IH] using string_ind3; intros off; [done| | |];
    cbn [EncodeToString b64_decode]; rewrite ?b64_val_char by b64_arith.
  - cbn -[byte1]. do 2 f_equal. apply ascii_of_eq. b64_arith.
  - cbn -[byte1 byte2]. do 2 f_equal; [|f_equal]; apply ascii_of_eq; b64_arith.
  - rewrite IH. do 2 f_equal; [|f_equal; [|f_equal]]; apply ascii_of_eq; b64_arith.
Qed.
