(* ===== verification/Tsl.v ===== *)
(** * Trusted lists: the document model and its accessors

    [src/tsl/types.go] and [src/tsl/parse.go].  [encoding/xml] unmarshalling is
    the parameter [XML]; every accessor of the parsed document is defined. *)

From S2P Require Import Prelude Model Base64.

(** ** Constants *)

Definition TSLTypeEUListOfTheLists : string :=
  "http://uri.etsi.org/TrstSvc/TrustedList/TSLType/EUlistofthelists".
Definition MimeTypeTSLXML : string := "application/vnd.etsi.tsl+xml".
Definition ServiceTypeCAQC : string := "http://uri.etsi.org/TrstSvc/Svctype/CA/QC".
Definition StatusGranted : string := "http://uri.etsi.org/TrstSvc/TrustedList/Svcstatus/granted".
Definition QualifierQCWithQSCD : string :=
  "http://uri.etsi.org/TrstSvc/TrustedList/SvcInfoExt/QCWithQSCD".
Definition QualifierQCQSCDManagedOnBehalf : string :=
  "http://uri.etsi.org/TrstSvc/TrustedList/SvcInfoExt/QCQSCDManagedOnBehalf".
Definition ASIForeSignatures : string :=
  "http://uri.etsi.org/TrstSvc/TrustedList/SvcInfoExt/ForeSignatures".
Definition ASIForeSeals : string := "http://uri.etsi.org/TrstSvc/TrustedList/SvcInfoExt/ForeSeals".
Definition ASIForWebSiteAuthentication : string :=
  "http://uri.etsi.org/TrstSvc/TrustedList/SvcInfoExt/ForWebSiteAuthentication".

(** ** The document *)

Record LocalizedName := mkLocalizedName { ln_Lang : string; ln_Value : string }.
Record LocalizedText := mkLocalizedText { lt_Names : list LocalizedName }.

Record DigitalID := mkDigitalID {
  X509Certificate : string;
  X509SubjectName : string;
  X509SKI : string
}.
Record ServiceDigitalIdentity := mkSDI { DigitalIDs : list DigitalID }.

Record Qualifier := mkQualifier { q_URI : string }.
Record QualificationElement := mkQE { qe_Qualifiers : list Qualifier }.
Record Qualifications := mkQualifications { qs_Elements : list QualificationElement }.
Record ASI := mkASI { asi_URI : string }.
Record Extension := mkExtension {
  ext_Critical : bool;
  ext_AdditionalServiceInformation : option ASI;
  ext_Qualifications : option Qualifications
}.

Record ServiceInformation := mkServiceInformation {
  si_TypeIdentifier : string;
  si_Name : LocalizedText;
  si_DigitalIdentity : ServiceDigitalIdentity;
  si_Status : string;
  si_StatusStartingTime : time;
  si_Extensions : list Extension
}.
Record Service := mkService { svc_Information : ServiceInformation }.
Record ProviderInformation := mkProviderInformation {
  pi_Name : LocalizedText;
  pi_TradeName : LocalizedText
}.
Record Provider := mkProvider { tsp_Information : ProviderInformation; tsp_Services : list Service }.
Record ProviderList := mkProviderList { pl_Providers : list Provider }.

Record OtherInformation := mkOtherInformation {
  oi_TSLType : string;
  oi_SchemeTerritory : string;
  oi_MimeType : string
}.
Record TSLPointer := mkTSLPointer {
  ServiceDigitalIdentities : list ServiceDigitalIdentity;
  TSLLocation : string;
  AdditionalInformation : list OtherInformation
}.

Record SchemeInformation := mkSchemeInformation {
  TSLVersionIdentifier : Z;
  TSLSequenceNumber : Z;
  si_TSLType : string;
  si_SchemeTerritory : string;
  SchemeInformationURI : list string;
  ListIssueDateTime : time;
  NextUpdate : option time;
  PointersToOtherTSL : list TSLPointer;
  SchemeOperatorName : LocalizedText
}.
Record TrustedList := mkTrustedList {
  tl_SchemeInformation : SchemeInformation;
  tl_ProviderList : option ProviderList
}.

(** ** Accessors *)

Definition LocalizedText_String (t : LocalizedText) : string :=
  match List.find (fun n => str_eqb (ln_Lang n) "en") (lt_Names t) with
  | Some n => ln_Value n
  | None => match lt_Names t with n :: _ => ln_Value n | [] => "" end
  end.

(** [b64WhiteSpace.ReplaceAllString(s, "")]: [\s] is tab, newline, form feed,
    carriage return and space. *)
Definition is_regexp_space (c : Ascii.ascii) : bool :=
  let n := Ascii.N_of_ascii c in
  ((n =? 9) || (n =? 10) || (n =? 12) || (n =? 13) || (n =? 32))%N.

Fixpoint strip_space (s : string) : string :=
  match s with
  | EmptyString => EmptyString
  | String c s' => if is_regexp_space c then strip_space s' else String c (strip_space s')
  end.

(** [ServiceDigitalIdentity.CertificateDERs]. *)
Definition CertificateDERs (s : ServiceDigitalIdentity) : result (list bytes) :=
  map_result (fun id =>
    map_err (fun e => errorf ("tsl: decode X509Certificate digital identity: " +:+ err_Error e) [e])
      (DecodeString (strip_space (X509Certificate id))))
    (List.filter (fun id => negb (str_eqb (X509Certificate id) "")) (DigitalIDs s)).

(** [ServiceDigitalIdentity.Certificates]. *)
Definition Certificates `{X509} (s : ServiceDigitalIdentity) : result (list Certificate) :=
  let? ders := CertificateDERs s in
  map_result (fun der =>
    map_err (fun e => errorf ("tsl: parse X509Certificate digital identity: " +:+ err_Error e) [e])
      (x509_ParseCertificate der)) ders.

(** [TSLPointer.CertificateDERs] and [TSLPointer.Certificates]. *)
Definition Pointer_CertificateDERs (p : TSLPointer) : result (list bytes) :=
  let? l := map_result CertificateDERs (ServiceDigitalIdentities p) in Ok (concat l).

Definition Pointer_Certificates `{X509} (p : TSLPointer) : result (list Certificate) :=
  let? l := map_result Certificates (ServiceDigitalIdentities p) in Ok (concat l).

(** The first non-empty value of a field of [AdditionalInformation]. *)
Definition first_information (field : OtherInformation -> string) (p : TSLPointer) : string :=
  match List.find (fun oi => negb (str_eqb (field oi) "")) (AdditionalInformation p) with
  | Some oi => field oi
  | None => ""
  end.

Definition Pointer_Territory : TSLPointer -> string := first_information oi_SchemeTerritory.
Definition Pointer_MimeType : TSLPointer -> string := first_information oi_MimeType.
Definition Pointer_TSLType : TSLPointer -> string := first_information oi_TSLType.

Definition ErrNoXMLPointer (territory : string) : error :=
  errors_New ("tsl: no XML trusted-list pointer for territory " +:+ Quote territory).

Definition PointerFor (tl : TrustedList) (territory : string) : result TSLPointer :=
  match List.find (fun p => str_eqb (Pointer_Territory p) territory &&
                            str_eqb (Pointer_MimeType p) MimeTypeTSLXML)
          (PointersToOtherTSL (tl_SchemeInformation tl)) with
  | Some p => Ok p
  | None => Err (ErrNoXMLPointer territory)
  end.

(** The loop of [Territories]: the codes collected, each at its first
    occurrence. *)
Fixpoint territories_loop (seen : gset string) (ps : list TSLPointer) : list string :=
  match ps with
  | [] => []
  | p :: ps' =>
      if negb (str_eqb (Pointer_MimeType p) MimeTypeTSLXML) ||
         str_eqb (Pointer_TSLType p) TSLTypeEUListOfTheLists then territories_loop seen ps'
      else
        let code := Pointer_Territory p in
        if str_eqb code "" then territories_loop seen ps'
        else if bool_decide (code ∈ seen) then territories_loop seen ps'
        else code :: territories_loop ({[ code ]} ∪ seen) ps'
  end.

Definition Territories `{GoSort} (tl : TrustedList) : list string :=
  sort_Strings (territories_loop ∅ (PointersToOtherTSL (tl_SchemeInformation tl))).

Definition SelfPointer (tl : TrustedList) : result TSLPointer :=
  match List.find (fun p => str_eqb (Pointer_TSLType p) TSLTypeEUListOfTheLists &&
                            str_eqb (Pointer_MimeType p) MimeTypeTSLXML)
          (PointersToOtherTSL (tl_SchemeInformation tl)) with
  | Some p => Ok p
  | None => Err (errors_New "tsl: LOTL self pointer (TSLType EUlistofthelists) not found")
  end.

(** ** Parsing *)

Class XML := { xml_Unmarshal : bytes -> result TrustedList }.

Definition Parse `{XML} (raw : bytes) : result TrustedList :=
  let? tl := map_err (fun e => errorf ("tsl: parse trusted list: " +:+ err_Error e) [e])
               (xml_Unmarshal raw) in
  if TSLSequenceNumber (tl_SchemeInformation tl) =? 0
  then Err (errors_New "tsl: document has no TSLSequenceNumber")
  else Ok tl.

(** * Lemmas *)

Lemma territories_loop_elem seen ps code :
  code ∈ territories_loop seen ps <->
  code ∉ seen /\ code <> "" /\
  exists p, p ∈ ps /\ Pointer_MimeType p = MimeTypeTSLXML /\
            Pointer_TSLType p <> TSLTypeEUListOfTheLists /\ Pointer_Territory p = code.
Proof.
  revert seen. induction ps as [|p ps IH]; intros seen; simpl; [set_solver|].
  destruct (str_eqb (Pointer_MimeType p) _) eqn:E1; simpl;
    [apply str_eqb_eq in E1|apply str_eqb_neq in E1; rewrite IH; set_solver].
  destruct (str_eqb (Pointer_TSLType p) _) eqn:E2; simpl;
    [apply str_eqb_eq in E2; rewrite IH; set_solver|apply str_eqb_neq in E2].
  destruct (str_eqb (Pointer_Territory p) "") eqn:E3; simpl;
    [apply str_eqb_eq in E3; rewrite IH; set_solver|apply str_eqb_neq in E3].
  case_bool_decide as E4; [rewrite IH; set_solver|].
  rewrite elem_of_cons, IH. destruct (decide (code = Pointer_Territory p)) as [->|]; set_solver.
Qed.

Lemma territories_loop_NoDup seen ps : NoDup (territories_loop seen ps).
Proof.
  revert seen. induction ps as [|p ps IH]; intros seen; simpl; [constructor|].
  repeat case_match; auto. constructor; [|done]. rewrite territories_loop_elem. set_solver.
Qed.

Lemma Parse_Ok `{XML} raw tl :
  Parse raw = Ok tl <-> xml_Unmarshal raw = Ok tl /\ TSLSequenceNumber (tl_SchemeInformation tl) <> 0.
Proof.
  unfold Parse. destruct (xml_Unmarshal raw) as [tl'|e]; simpl; [|naive_solver].
  destruct (Z.eqb_spec (TSLSequenceNumber (tl_SchemeInformation tl')) 0); naive_solver.
Qed.

Lemma PointerFor_Ok tl code p :
  PointerFor tl code = Ok p ->
  p ∈ PointersToOtherTSL (tl_SchemeInformation tl) /\ Pointer_Territory p = code /\
  Pointer_MimeType p = MimeTypeTSLXML.
Proof.
  unfold PointerFor. intros H. simp_res.
  match goal with H : List.find _ _ = Some _ |- _ => apply List.find_some in H as [Hin Hc] end.
  apply andb_true_iff in Hc as [?%str_eqb_eq ?%str_eqb_eq].
  split_and!; [by apply list_elem_of_In|done..].
Qed.
