(* ===== verification/CertBody.v ===== *)
(** * The structural certificate reader

    [src/trust/certbody.go] and [src/trust/keyinfo.go]: a TBSCertificate read
    field by field without interpreting its key.  The [encoding/asn1] decoders
    (and [pkix.Name.String]) are the parameters [Asn1]; what is read, in which
    order and what is refused is defined here. *)

From S2P Require Import Prelude Model.

Record RawValue := mkRawValue {
  rv_Class : Z;
  rv_Tag : Z;
  rv_IsCompound : bool;
  rv_Bytes : bytes;
  rv_FullBytes : bytes
}.

(** One field per Go type [asn1.Unmarshal] is called at: the decoded value and
    the bytes after it. *)
Class Asn1 := {
  unmarshal_raw : bytes -> result (RawValue * bytes);
  unmarshal_int : bytes -> result (Z * bytes);
  unmarshal_big : bytes -> result (Z * bytes);
  unmarshal_oid : bytes -> result (list Z * bytes);
  (** a struct of two [time.Time], as UTC *)
  unmarshal_validity : bytes -> result ((time * time) * bytes);
  (** a [pkix.RDNSequence], rendered by [pkix.Name.String] *)
  unmarshal_name : bytes -> result (string * bytes)
}.

Definition ClassUniversal : Z := 0.
Definition ClassContextSpecific : Z := 2.
Definition TagSequence : Z := 16.

Definition isSequence (v : RawValue) : bool :=
  (rv_Class v =? ClassUniversal) && (rv_Tag v =? TagSequence) && rv_IsCompound v.

(** ** Key algorithm names *)

Definition KeyAlgorithmRSA : string := "rsa".
Definition KeyAlgorithmRSAPSS : string := "rsassa-pss".
Definition KeyAlgorithmEd25519 : string := "ed25519".
Definition KeyAlgorithmEd448 : string := "ed448".
Definition curveExplicitOrNamed : string := "explicit".

Definition oidRSAEncryption : list Z := [1; 2; 840; 113549; 1; 1; 1].
Definition oidRSASSAPSS : list Z := [1; 2; 840; 113549; 1; 1; 10].
Definition oidECPublicKey : list Z := [1; 2; 840; 10045; 2; 1].
Definition oidEd25519 : list Z := [1; 3; 101; 112].
Definition oidEd448 : list Z := [1; 3; 101; 113].

Definition oid_String (oid : list Z) : string := Join (itoa <$> oid) ".".

Definition namedCurves : gmap string string := list_to_map [
  ("1.3.132.0.33", "P-224"); ("1.2.840.10045.3.1.7", "P-256"); ("1.3.132.0.34", "P-384");
  ("1.3.132.0.35", "P-521");
  ("1.3.36.3.3.2.8.1.1.1", "brainpoolP160r1"); ("1.3.36.3.3.2.8.1.1.2", "brainpoolP160t1");
  ("1.3.36.3.3.2.8.1.1.3", "brainpoolP192r1"); ("1.3.36.3.3.2.8.1.1.4", "brainpoolP192t1");
  ("1.3.36.3.3.2.8.1.1.5", "brainpoolP224r1"); ("1.3.36.3.3.2.8.1.1.6", "brainpoolP224t1");
  ("1.3.36.3.3.2.8.1.1.7", "brainpoolP256r1"); ("1.3.36.3.3.2.8.1.1.8", "brainpoolP256t1");
  ("1.3.36.3.3.2.8.1.1.9", "brainpoolP320r1"); ("1.3.36.3.3.2.8.1.1.10", "brainpoolP320t1");
  ("1.3.36.3.3.2.8.1.1.11", "brainpoolP384r1"); ("1.3.36.3.3.2.8.1.1.12", "brainpoolP384t1");
  ("1.3.36.3.3.2.8.1.1.13", "brainpoolP512r1"); ("1.3.36.3.3.2.8.1.1.14", "brainpoolP512t1") ].

Section CertBody.
Context `{Asn1}.

Definition ecCurveName (params : bytes) : string :=
  if str_eqb params "" then ""
  else match unmarshal_oid params with
       | Ok (curveOID, _) => default (oid_String curveOID) (namedCurves !! oid_String curveOID)
       | Err _ =>
           match unmarshal_raw params with
           | Ok (raw, _) => if isSequence raw then curveExplicitOrNamed else ""
           | Err _ => ""
           end
       end.

Definition keyAlgorithmName (oid : list Z) (params : bytes) : string * string :=
  if bool_decide (oid = oidRSAEncryption) then (KeyAlgorithmRSA, "")
  else if bool_decide (oid = oidRSASSAPSS) then (KeyAlgorithmRSAPSS, "")
  else if bool_decide (oid = oidEd25519) then (KeyAlgorithmEd25519, "")
  else if bool_decide (oid = oidEd448) then (KeyAlgorithmEd448, "")
  else if bool_decide (oid = oidECPublicKey) then (KeyAlgorithmECDSA, ecCurveName params)
  else (oid_String oid, "").

(** ** The body *)

Record certificateBody := mkBody {
  cb_Version : Z;
  cb_SerialNumber : Z;
  cb_Issuer : string;
  cb_Subject : string;
  cb_NotBefore : time;
  cb_NotAfter : time;
  cb_KeyAlgorithm : string;
  cb_Curve : string
}.

(** [fmt.Errorf("%w: what", errNotACertificate)] and its form with a cause. *)
Definition not_a_certificate (what : string) : error :=
  errors_New ("trust: not a DER X.509 certificate: " +:+ what).
Definition not_a_certificate_because (what : string) (e : error) : error :=
  errorf ("trust: not a DER X.509 certificate: " +:+ what +:+ err_Error e) [e].

(** [if rest, err = asn1.Unmarshal(rest, &el); err != nil || !isSequence(el)]:
    the element and the bytes after it. *)
Definition read_sequence (b : bytes) (what : string) : result (RawValue * bytes) :=
  match unmarshal_raw b with
  | Ok (el, rest) => if isSequence el then Ok (el, rest) else Err (not_a_certificate what)
  | Err _ => Err (not_a_certificate what)
  end.

Definition rdnString (der : bytes) : result string :=
  let? (name, rest) := unmarshal_name der in
  if negb (str_eqb rest "") then Err (errors_New "trailing bytes after Name") else Ok name.

Definition decodeCertificateBody (der : bytes) : result certificateBody :=
  let? (cert, rest) := map_err (not_a_certificate_because "") (unmarshal_raw der) in
  if negb (str_eqb rest "") || negb (isSequence cert)
  then Err (not_a_certificate "trailing bytes or not a SEQUENCE")
  else
  let? (tbs, _) := read_sequence (rv_Bytes cert) "tbsCertificate" in
  let? (el, rest) := map_err (not_a_certificate_because "version/serial: ")
                       (unmarshal_raw (rv_Bytes tbs)) in
  let? (version, el, rest) :=
    if (rv_Class el =? ClassContextSpecific) && (rv_Tag el =? 0) then
      match unmarshal_int (rv_Bytes el) with
      | Ok (v, _) =>
          if (v <? 0) || (2 <? v) then Err (not_a_certificate "version")
          else let? (el', rest') := map_err (not_a_certificate_because "serial: ")
                                      (unmarshal_raw rest) in
               Ok (v + 1, el', rest')
      | Err _ => Err (not_a_certificate "version")
      end
    else Ok (1, el, rest) in
  let? (serial, _) := map_err (not_a_certificate_because "serial: ")
                        (unmarshal_big (rv_FullBytes el)) in
  let? (_, rest) := read_sequence rest "signature algorithm" in
  let? (el, rest) := read_sequence rest "issuer" in
  let? issuer := map_err (not_a_certificate_because "issuer: ") (rdnString (rv_FullBytes el)) in
  let? (el, rest) := read_sequence rest "validity" in
  let? (nb, na, _) := map_err (not_a_certificate_because "validity: ")
                        (unmarshal_validity (rv_FullBytes el)) in
  let? (el, rest) := read_sequence rest "subject" in
  let? subject := map_err (not_a_certificate_because "subject: ") (rdnString (rv_FullBytes el)) in
  let? (spki, _) := read_sequence rest "subjectPublicKeyInfo" in
  let? (alg, _) := read_sequence (rv_Bytes spki) "key algorithm" in
  let? (oid, params) := map_err (not_a_certificate_because "key algorithm: ")
                          (unmarshal_oid (rv_Bytes alg)) in
  let '(algorithm, curve) := keyAlgorithmName oid params in
  Ok (mkBody version serial issuer subject nb na algorithm curve).

Definition spkiAlgorithm (der : bytes) : string * string :=
  match decodeCertificateBody der with
  | Ok body => (cb_KeyAlgorithm body, cb_Curve body)
  | Err _ => ("", "")
  end.

(** The fingerprint and the key names of an anchor are read from its certificate. *)
Definition cert_keyed `{X509} (a : Anchor) : Prop :=
  a_FingerprintSHA256 a = fingerprintDER (a_CertDER a) /\ (a_KeyAlgorithm a, a_Curve a) = spkiAlgorithm (a_CertDER a).

(** * Lemmas *)

(** A curve is named only for an EC key: every other algorithm has none. *)
Lemma keyAlgorithmName_curve oid params :
  (keyAlgorithmName oid params).2 <> "" -> (keyAlgorithmName oid params).1 = KeyAlgorithmECDSA.
Proof. unfold keyAlgorithmName. repeat case_bool_decide; done. Qed.

Lemma decodeCertificateBody_version der body :
  decodeCertificateBody der = Ok body -> 1 <= cb_Version body <= 3.
Proof.
  unfold decodeCertificateBody. intros Hd. simp_res; try lia.
  all: match goal with H : (_ <? 0) || (2 <? _) = false |- _ =>
         apply orb_false_iff in H as [?%Z.ltb_ge ?%Z.ltb_ge] end; lia.
Qed.
End CertBody.
