(* ===== verification/Samples.v ===== *)
(** * Concrete parameters and data

    A certificate parser and a digest that meet [X509Laws], an ASN.1 decoder,
    and a few anchors, territories and snapshots: what the concrete instances
    of the theorems are evaluated on. *)

From S2P Require Import Prelude Model Tsl CertBody.

(** Any non-empty byte string is a certificate whose subject is its content. *)
Definition toy_parse (der : bytes) : result Certificate :=
  if str_eqb der "" then Err (errors_New "x509: malformed certificate")
  else if HasPrefix der "brainpool" then Err (errors_New "x509: unsupported elliptic curve")
  else Ok (mkCertificate der ("CN=" +:+ der) der 1 2000).

(** The input cut or padded to 32 bytes. *)
Fixpoint pad_to (n : nat) (s : string) : string :=
  match n with
  | O => ""
  | S n' => match s with
            | EmptyString => String Ascii.zero (pad_to n' "")
            | String c s' => String c (pad_to n' s')
            end
  end.

Definition toy_X509 : X509 := {| x509_ParseCertificate := toy_parse; sha256_Sum256 := pad_to 32 |}.

Lemma pad_to_length n s : String.length (pad_to n s) = n.
Proof. revert s. induction n as [|n IH]; intros [|c s]; simpl; auto. Qed.

Lemma toy_X509Laws : @X509Laws toy_X509.
Proof.
  split.
  - intros der c. simpl. unfold toy_parse. intros. by simp_res.
  - intros b. apply pad_to_length.
Qed.

(** An ASN.1 decoder that refuses everything. *)
Definition no_asn1 {A} (_ : bytes) : result (A * bytes) := Err (errors_New "asn1: syntax error").
Definition toy_Asn1 : Asn1 := {|
  unmarshal_raw := no_asn1; unmarshal_int := no_asn1; unmarshal_big := no_asn1;
  unmarshal_oid := no_asn1; unmarshal_validity := no_asn1; unmarshal_name := no_asn1 |}.

(** ** Anchors and snapshots *)

Definition sample_anchor (terr fp status : string) (uses : list string) : Anchor :=
  mkAnchor terr SourceTL "TSP" "Service" ServiceTypeCAQC status 5 fp fp ("CN=" +:+ fp) 1 2000
    [] false uses "rsa" "" "" [] 7.

Definition sample_internal (fp ty : string) : Anchor :=
  mkAnchor "" SourceInternal "" "" "" "" 0 fp fp ("CN=" +:+ fp) 1 2000 [] false [] "rsa" "" ty [] 0.

Definition sample_territory (code : string) (anchors : list Anchor) : Territory :=
  mkTerritory code 7 100 (Some 900) "" false "" false "" anchors [].

Definition sample_snapshot (id : string) (ts : list Territory) (internal : list Anchor) : Snapshot :=
  mkSnapshot id "" 50 3 40 (Some 1000) [] 0 "" [] "" "OJ-1" 1 ts internal [] None None.

Definition sample_prev : Snapshot :=
  sample_snapshot "prev"
    [sample_territory "DE" [sample_anchor "DE" "aa" "granted" ["signature"];
                            sample_anchor "DE" "bb" "granted" []]]
    [sample_internal "cc" "access_ca"].

Definition sample_next : Snapshot :=
  sample_snapshot "next"
    [sample_territory "DE" [sample_anchor "DE" "aa" "granted" ["signature"; "seal"]];
     sample_territory "FR" [sample_anchor "FR" "dd" "granted" []]]
    [sample_internal "cc" "access_ca"; sample_internal "cc" "wrprc_issuer"].

(** ** Trusted lists *)

Definition text (s : string) : LocalizedText := mkLocalizedText [mkLocalizedName "en" s].

(** An identity carrying the base64 text of a certificate. *)
Definition sdi (b64s : list string) : ServiceDigitalIdentity :=
  mkSDI ((fun b => mkDigitalID b "" "") <$> b64s).

Definition asi (uri : string) : Extension := mkExtension false (Some (mkASI uri)) None.
Definition quals (uris : list string) : Extension :=
  mkExtension false None (Some (mkQualifications [mkQE (mkQualifier <$> uris)])).

Definition service (name ty status : string) (certs : list string) (exts : list Extension) : Service :=
  mkService (mkServiceInformation ty (text name) (sdi certs) status 10 exts).

Definition provider (name : string) (svcs : list Service) : Provider :=
  mkProvider (mkProviderInformation (text name) (text "")) svcs.

Definition sample_scheme (seq : Z) (terr : string) : SchemeInformation :=
  mkSchemeInformation 6 seq "" terr [] 100 (Some 900) [] (text "operator").

Definition national_list (seq : Z) (terr : string) (ps : list Provider) : TrustedList :=
  mkTrustedList (sample_scheme seq terr) (Some (mkProviderList ps)).
