(* ===== verification/Vocabulary.v ===== *)
(** * The type and status vocabularies

    [src/trust/vocabulary.go]: the mapping between the [type=] taxonomy and the
    published identifiers, its reverse (built by ranging over the map), and the
    EU / national status planes. *)

From S2P Require Import Prelude Model.

Definition loteTypeBase : string := "http://uri.etsi.org/19602/LoTEType/".
Definition svctypeBase : string := "http://uri.etsi.org/TrstSvc/Svctype/".
Definition statusBase : string := "http://uri.etsi.org/TrstSvc/TrustedList/Svcstatus/".

Definition typeIdentifiers_entries : list (string * string) :=
  [ ("", svctypeBase +:+ "CA/QC");
    ("qeaa_provider", svctypeBase +:+ "EAA/Q");
    ("eaa_provider", svctypeBase +:+ "EAA");
    ("pid_provider", loteTypeBase +:+ "EUPIDProvidersList");
    ("wallet_provider", loteTypeBase +:+ "EUWalletProvidersList");
    ("access_ca", loteTypeBase +:+ "EUWRPACProvidersList");
    ("wrprc_issuer", loteTypeBase +:+ "EUWRPRCProvidersList");
    ("pub_eaa_provider", loteTypeBase +:+ "EUPubEAAProvidersList");
    ("pid_provider_status", "");
    ("qeaa_provider_status", "");
    ("pub_eaa_provider_status", "");
    ("eaa_provider_status", "") ].

Definition typeIdentifiers : gmap string string := list_to_map typeIdentifiers_entries.

(** Reading a missing key of a [map[string]string] gives the empty string. *)
Definition TypeIdentifier (key : string) : string := default "" (typeIdentifiers !! key).

(** The initialiser of [identifierKeys]: one pass over [typeIdentifiers] in
    whatever order the range takes. *)
Definition identifierKeys `{GoRange} : gmap string string :=
  foldl (fun out '(k, id) => if negb (str_eqb id "") then <[id := k]> out else out)
    ∅ (map_range typeIdentifiers).

Definition TypeKey `{GoRange} (identifier : string) : string :=
  default "" (identifierKeys !! identifier).

Definition ServableServiceType `{GoRange} (identifier : string) : bool :=
  if str_eqb identifier (svctypeBase +:+ "CA/QC") then true
  else match identifierKeys !! identifier with
       | None => false
       | Some k =>
           negb (str_eqb k "") &&
           bool_decide (String.length svctypeBase < String.length identifier)%nat &&
           str_eqb (String.substring 0 (String.length svctypeBase) identifier) svctypeBase
       end.

Definition TypeAwaitsLoTE (key : string) : bool :=
  let id := TypeIdentifier key in
  bool_decide (String.length loteTypeBase < String.length id)%nat &&
  str_eqb (String.substring 0 (String.length loteTypeBase) id) loteTypeBase.

Definition qualifiedSvctypes : list string :=
  [ svctypeBase +:+ "CA/QC"; svctypeBase +:+ "Certstatus/OCSP/QC";
    svctypeBase +:+ "Certstatus/CRL/QC"; svctypeBase +:+ "TSA/QTST"; svctypeBase +:+ "EDS/Q";
    svctypeBase +:+ "EDS/REM/Q"; svctypeBase +:+ "PSES/Q"; svctypeBase +:+ "QESValidation/Q";
    svctypeBase +:+ "RemoteQSigCDManagement/Q"; svctypeBase +:+ "RemoteQSealCDManagement/Q";
    svctypeBase +:+ "EAA/Q"; svctypeBase +:+ "ElectronicArchiving/Q"; svctypeBase +:+ "Ledgers/Q" ].

Definition nationalStatusEquivalent : gmap string string :=
  list_to_map
    [ (statusBase +:+ "granted", statusBase +:+ "recognisedatnationallevel");
      (statusBase +:+ "withdrawn", statusBase +:+ "deprecatedatnationallevel") ].

(** [NormalizeStatus] of [src/trust/extract.go]. *)
Definition NormalizeStatus (s : string) : string :=
  let s := TrimSpace s in
  if str_eqb s "" || Contains s "://" then s else statusBase +:+ s.

(** * Lemmas *)

(** The non-empty identifiers, with their keys, in the map's own listing. *)
Definition keyed (l : list (string * string)) : list (string * string) :=
  filter (fun e => e.2 <> "") l.

(** One pass of the initialiser inserts exactly the keyed entries. *)
Lemma identifier_fold_lookup l m id :
  NoDup (keyed l).*2 ->
  foldl (fun out '(k, id) => if negb (str_eqb id "") then <[id := k]> out else out)
    (m : gmap string string) l !! id =
  match list_find (fun e => e.2 = id) (keyed l) with Some (_, e) => Some e.1 | None => m !! id end.
Proof.
  revert m. unfold keyed. induction l as [|[k i] l IH]; intros m; simpl; [done|].
  rewrite filter_cons. simpl. destruct (str_eqb i "") eqn:E; simpl.
  - apply str_eqb_eq in E as ->. rewrite decide_False by naive_solver. apply IH.
  - apply str_eqb_neq in E. rewrite decide_True by done. simpl.
    rewrite NoDup_cons. intros [Hni Hnd]. rewrite IH by done.
    destruct (decide (i = id)) as [->|Hne].
    + destruct (list_find _ _) as [[n e]|] eqn:F; simpl; [|by rewrite lookup_insert_eq].
      apply list_find_Some in F as (F & <- & _). exfalso. apply Hni.
      apply list_elem_of_fmap. exists e. split; [done|]. by eapply list_elem_of_lookup_2.
    + rewrite lookup_insert_ne by done.
      by destruct (list_find _ (filter _ l)) as [[n e]|].
Qed.

Lemma keyed_perm l1 l2 : l1 ≡ₚ l2 -> keyed l1 ≡ₚ keyed l2.
Proof. unfold keyed. by intros ->. Qed.

Lemma list_find_fst_perm (l1 l2 : list (string * string)) id :
  l1 ≡ₚ l2 -> NoDup l1.*2 ->
  (list_find (fun e => e.2 = id) l1 = None <-> list_find (fun e => e.2 = id) l2 = None) /\
  (forall n e n' e', list_find (fun e => e.2 = id) l1 = Some (n, e) ->
    list_find (fun e => e.2 = id) l2 = Some (n', e') -> e = e').
Proof.
  intros Hp Hnd. split.
  - rewrite !list_find_None, !Forall_forall. by setoid_rewrite Hp.
  - intros n e n' e' H1 H2. apply list_find_Some in H1 as (H1 & E1 & _).
    apply list_find_Some in H2 as (H2 & E2 & _).
    apply list_elem_of_lookup_2 in H1, H2. rewrite <-Hp in H2.
    apply list_elem_of_lookup in H1 as [i Hi]. apply list_elem_of_lookup in H2 as [j Hj].
    assert (i = j) as ->; [|congruence].
    apply (NoDup_lookup (l1.*2) i j id); [done| |]; rewrite list_lookup_fmap, ?Hi, ?Hj; simpl;
      congruence.
Qed.

Lemma keyed_entries_NoDup : NoDup (keyed typeIdentifiers_entries).*2.
Proof. by_decide. Qed.

Section TypeKeys.
Context `{GoRange}.

Lemma keyed_range_perm : keyed (map_range typeIdentifiers) ≡ₚ keyed typeIdentifiers_entries.
Proof.
  apply keyed_perm. rewrite map_range_perm. apply map_to_list_to_map.
  by_decide.
Qed.

(** The reverse map does not depend on the order of the range. *)
Lemma identifierKeys_lookup id :
  identifierKeys !! id =
  match list_find (fun e => e.2 = id) (keyed typeIdentifiers_entries) with
  | Some (_, e) => Some e.1 | None => None end.
Proof.
  unfold identifierKeys. pose proof keyed_range_perm as Hp. pose proof keyed_entries_NoDup as Hnd.
  assert (Hnd' : NoDup (keyed (map_range typeIdentifiers)).*2).
  { by rewrite (fmap_Permutation snd _ _ Hp). }
  rewrite identifier_fold_lookup by done. rewrite lookup_empty.
  destruct (list_find_fst_perm _ _ id Hp Hnd') as [Hn Hs].
  destruct (list_find _ (keyed (map_range _))) as [[n e]|] eqn:E1;
  destruct (list_find _ (keyed typeIdentifiers_entries)) as [[n' e']|] eqn:E2.
  - by rewrite (Hs _ _ _ _ eq_refl eq_refl).
  - by pose proof (proj2 Hn eq_refl).
  - by pose proof (proj1 Hn eq_refl).
  - done.
Qed.

(** Membership of [identifierKeys], as a closed list. *)
Lemma identifierKeys_Some id k :
  identifierKeys !! id = Some k <-> (k, id) ∈ keyed typeIdentifiers_entries.
Proof.
  rewrite identifierKeys_lookup. pose proof keyed_entries_NoDup as Hnd. split.
  - destruct (list_find _ _) as [[n [k' i']]|] eqn:E; [|done].
    apply list_find_Some in E as (E & <- & _). intros [= <-]. by eapply list_elem_of_lookup_2.
  - intros Hin. destruct (list_find (fun e => e.2 = id) _) as [[n e]|] eqn:E.
    + apply list_find_Some in E as (E & Hid & _). apply list_elem_of_lookup in Hin as [m Hm].
      assert (n = m) as ->.
      { apply (NoDup_lookup (keyed typeIdentifiers_entries).*2 n m id); [done| |];
          rewrite list_lookup_fmap, ?E, ?Hm; simpl; congruence. }
      by assert (e = (k, id)) as -> by congruence.
    + apply list_find_None in E. rewrite Forall_forall in E. by destruct (E _ Hin).
Qed.

Lemma keyed_lookup (l : list (string * string)) k id :
  NoDup l.*1 -> id <> "" ->
  default "" ((list_to_map l : gmap string string) !! k) = id <-> (k, id) ∈ keyed l.
Proof.
  intros Hnd Hne. unfold keyed. rewrite list_elem_of_filter.
  rewrite (elem_of_list_to_map (M := gmap string)) by done.
  destruct (list_to_map l !! k) as [i|]; simpl; naive_solver.
Qed.

Lemma TypeIdentifier_entry k id :
  id <> "" -> TypeIdentifier k = id <-> (k, id) ∈ keyed typeIdentifiers_entries.
Proof. apply keyed_lookup. by_decide. Qed.

(** The taxonomy and the published identifiers are one dimension: the key
    derived from a type's identifier is that type. *)
Lemma TypeKey_TypeIdentifier k :
  TypeIdentifier k <> "" -> TypeKey (TypeIdentifier k) = k.
Proof.
  intros Hne. unfold TypeKey.
  by rewrite (proj2 (identifierKeys_Some _ _) (proj1 (TypeIdentifier_entry k _ Hne) eq_refl)).
Qed.

Lemma TypeKey_inv id : TypeKey id = "" \/ TypeIdentifier (TypeKey id) = id.
Proof.
  unfold TypeKey. destruct (identifierKeys !! id) as [k|] eqn:E; [right|by left]. simpl.
  apply identifierKeys_Some in E. apply TypeIdentifier_entry; [|done].
  by apply list_elem_of_filter in E as [? _].
Qed.

Lemma TypeKey_valid id : TypeKey id = "" \/ ValidAnchorType (TypeKey id) = true.
Proof.
  unfold TypeKey. destruct (identifierKeys !! id) as [k|] eqn:E; [simpl|by left].
  apply identifierKeys_Some in E.
  assert (Hall : Forall (fun e => e.1 = "" \/ ValidAnchorType e.1 = true)
    (keyed typeIdentifiers_entries)) by by_decide.
  rewrite Forall_forall in Hall. apply (Hall _ E).
Qed.

Lemma ServableServiceType_iff id :
  ServableServiceType id = true <->
  id ∈ [svctypeBase +:+ "CA/QC"; svctypeBase +:+ "EAA/Q"; svctypeBase +:+ "EAA"].
Proof.
  unfold ServableServiceType. destruct (str_eqb id _) eqn:E1.
  { apply str_eqb_eq in E1 as ->. split; [|done]. intros _. apply list_elem_of_here. }
  apply str_eqb_neq in E1. destruct (identifierKeys !! id) as [k|] eqn:E2.
  - apply identifierKeys_Some in E2.
    assert (Hall : Forall (fun e => e.2 <> svctypeBase +:+ "CA/QC" ->
      (negb (str_eqb e.1 "") &&
       bool_decide (String.length svctypeBase < String.length e.2)%nat &&
       str_eqb (String.substring 0 (String.length svctypeBase) e.2) svctypeBase = true <->
       e.2 ∈ [svctypeBase +:+ "CA/QC"; svctypeBase +:+ "EAA/Q"; svctypeBase +:+ "EAA"]))
      (keyed typeIdentifiers_entries)) by by_decide.
    rewrite Forall_forall in Hall. by apply (Hall _ E2).
  - split; [done|]. intros Hin. exfalso.
    assert (Hall : Forall (fun i => exists k, k ∈ ["qeaa_provider"; "eaa_provider"; ""] /\
      TypeIdentifier k = i)
      [svctypeBase +:+ "CA/QC"; svctypeBase +:+ "EAA/Q"; svctypeBase +:+ "EAA"]).
    { repeat constructor; [exists ""|exists "qeaa_provider"|exists "eaa_provider"];
        (split; [set_solver|by vm_compute]). }
    rewrite Forall_forall in Hall. destruct (Hall _ Hin) as (k & _ & Hk).
    assert (id <> "") by (intros ->; revert Hin; by_decide).
    apply TypeIdentifier_entry in Hk; [|done]. apply identifierKeys_Some in Hk. congruence.
Qed.
End TypeKeys.
