(* ===== verification/Filter.v ===== *)
(** * Bundle filtering

    [src/trust/filter.go]: the filter behind both [/v1/anchors] routes. *)

From S2P Require Import Prelude Model Samples.

Definition ValidUses : list string := [UseSignature; UseAuthentication; UseSeal; UseWebsite].

Definition ValidUse (use : string) : bool :=
  if str_eqb use "" then true else existsb (fun u => str_eqb u use) ValidUses.

Definition matches (a : Anchor) (use : string) (qscdOnly : bool) (anchorType : string) : bool :=
  if negb (str_eqb (a_Type a) anchorType) then false
  else if qscdOnly && negb (a_QCWithQSCD a) then false
  else MatchesUse a use.

(** The closure [include] of [Filter]. *)
Definition include (territories : list string) (code : string) : bool :=
  if bool_decide (length territories = 0%nat) then true
  else existsb (fun t => EqualFold t code) territories.

Definition Filter (s : Snapshot) (territories : list string) (use : string) (qscdOnly : bool)
    (anchorType keys : string) : result (list Anchor) :=
  if negb (ValidUse use) then
    Err (errors_New ("trust: invalid use " +:+ Quote use +:+ " (accepted: " +:+
                     Join ValidUses ", " +:+ ")"))
  else if negb (str_eqb anchorType "") && negb (ValidAnchorType anchorType) then
    Err (errors_New ("trust: invalid type " +:+ Quote anchorType))
  else if negb (ValidKeys keys) then
    Err (errors_New ("trust: invalid keys " +:+ Quote keys +:+ " (accepted: " +:+
                     KeysCommon +:+ ", " +:+ KeysAll +:+ ")"))
  else
    let includeHeld := str_eqb keys KeysAll in
    let keep a := matches a use qscdOnly anchorType && (includeHeld || KeyCommon a) in
    let out := flat_map (fun t => if negb (include territories (t_Code t)) then []
                                  else List.filter keep (t_Anchors t)) (s_Territories s) in
    Ok (out ++ List.filter keep (s_Internal s)).

(** * Lemmas *)

(** The parameters a bundle request may carry. *)
Definition valid_query (use anchorType keys : string) : bool :=
  ValidUse use && (str_eqb anchorType "" || ValidAnchorType anchorType) && ValidKeys keys.

Lemma matches_true a use q ty :
  matches a use q ty = true <->
  a_Type a = ty /\ (q = true -> a_QCWithQSCD a = true) /\ MatchesUse a use = true.
Proof.
  unfold matches. destruct (str_eqb (a_Type a) ty) eqn:E; simpl.
  - apply str_eqb_eq in E. destruct q, (a_QCWithQSCD a); simpl; naive_solver.
  - apply str_eqb_neq in E. naive_solver.
Qed.

Lemma Filter_valid s ts use q ty keys :
  valid_query use ty keys = true <-> is_Ok (Filter s ts use q ty keys) = true.
Proof.
  unfold valid_query, Filter. destruct (ValidUse use); simpl; [|done].
  destruct (str_eqb ty ""), (ValidAnchorType ty), (ValidKeys keys); done.
Qed.

Lemma elem_of_List_filter {A} (f : A -> bool) x l :
  x ∈ List.filter f l <-> f x = true /\ x ∈ l.
Proof. rewrite !list_elem_of_In, List.filter_In. tauto. Qed.

(** Exactly what a bundle contains. *)
Lemma Filter_elem s ts use q ty keys out a :
  Filter s ts use q ty keys = Ok out ->
  a ∈ out <->
  ((exists t, t ∈ s_Territories s /\ include ts (t_Code t) = true /\ a ∈ t_Anchors t) \/
   a ∈ s_Internal s) /\
  a_Type a = ty /\ (q = true -> a_QCWithQSCD a = true) /\ MatchesUse a use = true /\
  (keys = KeysAll \/ KeyCommon a = true).
Proof.
  unfold Filter. intros Hf. simp_res. rewrite elem_of_app, elem_of_List_filter.
  assert (Hm : forall a, matches a use q ty && (str_eqb keys KeysAll || KeyCommon a) = true <->
     a_Type a = ty /\ (q = true -> a_QCWithQSCD a = true) /\ MatchesUse a use = true /\
     (keys = KeysAll \/ KeyCommon a = true)).
  { intros b. rewrite andb_true_iff, orb_true_iff, matches_true, str_eqb_eq. tauto. }
  rewrite Hm, list_elem_of_In, in_flat_map. split.
  - intros [(t & Hin & Ha)|?]; [|tauto]. destruct (include ts (t_Code t)) eqn:Hi; simpl in Ha.
    + apply list_elem_of_In, elem_of_List_filter in Ha as [Ha ?]. apply Hm in Ha.
      split; [left; exists t|tauto]. split_and!; [by apply list_elem_of_In|done..].
    + done.
  - intros [[(t & Hin & Hi & Ha)|Ha] Hp]; [left|by right]. exists t.
    split; [by apply list_elem_of_In|]. rewrite Hi. simpl.
    apply list_elem_of_In, elem_of_List_filter. split; [by apply Hm|done].
Qed.

(** * Properties *)

(** C34 What a bundle request returns, on every branch: an error exactly when a
    parameter is outside its closed set, and otherwise exactly the anchors of the
    included territories (codes compared case-insensitively; no code means all)
    and the declared ones that have exactly the requested type, the QSCD flag if
    asked for, the use if asked for, and a key every consumer can parse unless
    all keys are asked for. *)
Theorem filter_bundle_exact s territories use qscdOnly anchorType keys :
  match Filter s territories use qscdOnly anchorType keys with
  | Err _ => valid_query use anchorType keys = false
  | Ok out => valid_query use anchorType keys = true /\
      forall a, a ∈ out <->
        ((exists t, t ∈ s_Territories s /\ a ∈ t_Anchors t /\
            (territories = [] \/ exists c, c ∈ territories /\ EqualFold c (t_Code t) = true)) \/
         a ∈ s_Internal s) /\
        a_Type a = anchorType /\ (qscdOnly = true -> a_QCWithQSCD a = true) /\
        (use = "" \/ a_Uses a = [] \/ effective_use use ∈ a_Uses a) /\
        (keys = KeysAll \/
         ~ (a_KeyAlgorithm a = KeyAlgorithmECDSA /\ a_Curve a <> "" /\ a_Curve a ∉ nistCurves))
  end.
Proof.
  pose proof (Filter_valid s territories use qscdOnly anchorType keys) as Hv.
  destruct (Filter _ _ _ _ _ _) as [out|e] eqn:E; simpl in Hv; [|by apply not_true_iff_false; rewrite Hv].
  split; [by apply Hv|]. intros a. rewrite (Filter_elem _ _ _ _ _ _ _ a E), MatchesUse_true.
  rewrite <-KeyCommon_false, not_false_iff_true.
  assert (Hi : forall code, include territories code = true <->
    territories = [] \/ exists c, c ∈ territories /\ EqualFold c code = true).
  { intros code. unfold include. case_bool_decide as Hl.
    - apply length_zero_iff_nil in Hl. naive_solver.
    - rewrite List.existsb_exists. split.
      + intros (c & Hc%list_elem_of_In & ?). eauto.
      + intros [->|(c & Hc%list_elem_of_In & ?)]; [done|eauto]. }
  split.
  - intros [[(t & ? & Hc%Hi & ?)|?] ?]; [|tauto]. split; [left; eauto|tauto].
  - intros [[(t & ? & ? & Hc%Hi)|?] ?]; [|tauto]. split; [left; eauto|tauto].
Qed.

(** The default bundle is the full bundle less the anchors whose key not
    every consumer can parse, in the same order. *)
Theorem filter_common_of_all s territories use qscdOnly anchorType out :
  Filter s territories use qscdOnly anchorType KeysAll = Ok out ->
  Filter s territories use qscdOnly anchorType KeysCommon = Ok (List.filter KeyCommon out) /\
  Filter s territories use qscdOnly anchorType "" = Ok (List.filter KeyCommon out).
Proof.
  unfold Filter. destruct (negb (ValidUse use)); [done|]. destruct (_ && _); [done|]. simpl. intros [= <-].
  assert (F : forall (f : Anchor -> bool) l,
    List.filter (fun a => f a && KeyCommon a) l = List.filter KeyCommon (List.filter (fun a => f a && true) l)).
  { intros f l. induction l as [|a l IH]; [done|]. simpl. destruct (f a); simpl; [destruct (KeyCommon a)|]; by rewrite IH. }
  assert (G : forall ts, flat_map (fun t => if negb (include territories (t_Code t)) then []
      else List.filter (fun a => matches a use qscdOnly anchorType && KeyCommon a) (t_Anchors t)) ts =
    List.filter KeyCommon (flat_map (fun t => if negb (include territories (t_Code t)) then []
      else List.filter (fun a => matches a use qscdOnly anchorType && true) (t_Anchors t)) ts)).
  { intros ts. induction ts as [|t ts IH]; [done|]. simpl. rewrite List.filter_app, IH. f_equal.
    destruct (negb _); [done|]. apply F. }
  rewrite List.filter_app, <-F, <-G. split; reflexivity.
Qed.

Lemma filter_common_of_all_witness :
  exists out, Filter sample_next [] "signature" false "" KeysAll = Ok out /\
    Filter sample_next [] "signature" false "" "" = Ok (List.filter KeyCommon out).
Proof.
  destruct (Filter sample_next [] "signature" false "" KeysAll) as [out|e] eqn:E; [|vm_compute in E; discriminate E].
  exists out. split; [reflexivity|]. exact (proj2 (filter_common_of_all _ _ _ _ _ _ E)).
Defined.
