(* ===== verification/Json.v ===== *)
(** * The JSON text a snapshot's identity is hashed from

    [encoding/json] as [ComputeID] uses it: [json.Marshal] of the plain structs
    [idContent], [idTerritory] and [idAnchor] of [src/trust/anchor.go], with HTML
    escaping and [omitempty].  Encoders are in continuation style: [enc a k] is
    the text of [a] followed by [k]. *)

From S2P Require Import Prelude.

(** ** Values *)

Definition lit (l k : string) : string := l +:+ k.

(** The escapes of an ASCII byte in a JSON string. *)
Definition json_esc (c : Ascii.ascii) : string :=
  let n := Ascii.N_of_ascii c in
  if (n =? 34)%N || (n =? 92)%N then String backslash (String c "")
  else if (n =? 8)%N then String backslash "b"
  else if (n =? 12)%N then String backslash "f"
  else if (n =? 10)%N then String backslash "n"
  else if (n =? 13)%N then String backslash "r"
  else if (n =? 9)%N then String backslash "t"
  else if (n <? 32)%N || (n =? 60)%N || (n =? 62)%N || (n =? 38)%N
  then String backslash ("u00" +:+ String (hex_digit (n / 16)) (String (hex_digit (n mod 16)) ""))
  else String c "".

Definition in_range (lo hi : N) (c : Ascii.ascii) : bool :=
  ((lo <=? Ascii.N_of_ascii c) && (Ascii.N_of_ascii c <=? hi))%N.
Definition is_ascii (c : Ascii.ascii) : bool := in_range 0 127 c.
Definition is_cont (c : Ascii.ascii) : bool := in_range 128 191 c.

(** The bytes a lead byte of a three- or four-byte UTF-8 sequence accepts next. *)
Definition utf8_second3 (c c1 : Ascii.ascii) : bool :=
  if in_range 224 224 c then in_range 160 191 c1
  else if in_range 237 237 c then in_range 128 159 c1
  else in_range 225 239 c && is_cont c1.
Definition utf8_second4 (c c1 : Ascii.ascii) : bool :=
  if in_range 240 240 c then in_range 144 191 c1
  else if in_range 244 244 c then in_range 128 143 c1
  else in_range 241 243 c && is_cont c1.

(** The replacement escape of a byte that is no valid UTF-8, and the escapes of
    U+2028 and U+2029. *)
Definition json_fffd : string := String backslash "ufffd".
Definition json_line_sep (c2 : Ascii.ascii) : string :=
  String backslash (if in_range 168 168 c2 then "u2028" else "u2029").

Fixpoint json_chars (s k : string) : string :=
  match s with
  | EmptyString => k
  | String c s1 =>
      if is_ascii c then json_esc c +:+ json_chars s1 k
      else
        let invalid := json_fffd +:+ json_chars s1 k in
        match s1 with
        | String c1 s2 =>
            if in_range 194 223 c && is_cont c1 then String c (String c1 (json_chars s2 k))
            else match s2 with
                 | String c2 s3 =>
                     if utf8_second3 c c1 && is_cont c2 then
                       if in_range 226 226 c && in_range 128 128 c1 && in_range 168 169 c2
                       then json_line_sep c2 +:+ json_chars s3 k
                       else String c (String c1 (String c2 (json_chars s3 k)))
                     else match s3 with
                          | String c3 s4 =>
                              if utf8_second4 c c1 && is_cont c2 && is_cont c3
                              then String c (String c1 (String c2 (String c3 (json_chars s4 k))))
                              else invalid
                          | EmptyString => invalid
                          end
                 | EmptyString => invalid
                 end
        | EmptyString => invalid
        end
  end.

Definition json_str (s k : string) : string := String dquote (json_chars s (String dquote k)).
Definition json_bool (b : bool) (k : string) : string := lit (if b then "true" else "false") k.
Definition json_num (n : Z) (k : string) : string := itoa n +:+ k.

(** The key of a struct field, with the colon. *)
Definition json_key (name k : string) : string :=
  String dquote (name +:+ String dquote (String (Ascii.ascii_of_nat 58) k)).

Fixpoint json_items {A} (enc : A -> string -> string) (l : list A) (k : string) : string :=
  match l with
  | [] => lit "]" k
  | x :: l' => lit "," (enc x (json_items enc l' k))
  end.

(** A nil slice is [null]; the slices of these structs are nil when empty. *)
Definition json_slice {A} (enc : A -> string -> string) (l : list A) (k : string) : string :=
  match l with
  | [] => lit "null" k
  | x :: l' => lit "[" (enc x (json_items enc l' k))
  end.

(** A field with [omitempty]. *)
Definition json_omit {A} (name : string) (enc : A -> string -> string) (l : list A) (k : string) : string :=
  match l with
  | [] => k
  | _ => lit "," (json_key name (json_slice enc l k))
  end.

(** * Injectivity *)

Definition str_ascii (s : string) : bool := forallb is_ascii (String.list_ascii_of_string s).

(** [pinj P enc]: the text of a value, whatever follows it, determines the value
    and what follows. *)
Definition pinj {A} (P : A -> Prop) (enc : A -> string -> string) : Prop :=
  forall a b k1 k2, P a -> P b -> enc a k1 = enc b k2 -> a = b /\ k1 = k2.

Lemma lit_inj l k1 k2 : lit l k1 = lit l k2 -> k1 = k2.
Proof. unfold lit. apply (inj (String.append l)). Qed.

Lemma json_key_inj n k1 k2 : json_key n k1 = json_key n k2 -> k1 = k2.
Proof. unfold json_key. intros [= H]. apply (inj (String.append n)) in H. by simplify_eq. Qed.

Lemma json_bool_pinj : pinj (fun _ => True) json_bool.
Proof.
  intros [] [] k1 k2 _ _ H; unfold json_bool in H; try (by split; [done|apply lit_inj in H]);
    unfold lit in H; rewrite !app_cons_s in H; congruence.
Qed.

(** Reading one escaped byte back. *)
Definition hex_val (c : Ascii.ascii) : N :=
  let n := Ascii.N_of_ascii c in if (n <? 58)%N then (n - 48)%N else (n - 87)%N.

Definition json_unesc (s : string) : option (Ascii.ascii * string) :=
  match s with
  | String b s1 =>
      if (Ascii.N_of_ascii b =? 92)%N then
        match s1 with
        | String e s2 =>
            let n := Ascii.N_of_ascii e in
            if (n =? 34)%N || (n =? 92)%N then Some (e, s2)
            else if (n =? 98)%N then Some (Ascii.ascii_of_N 8, s2)
            else if (n =? 102)%N then Some (Ascii.ascii_of_N 12, s2)
            else if (n =? 110)%N then Some (Ascii.ascii_of_N 10, s2)
            else if (n =? 114)%N then Some (Ascii.ascii_of_N 13, s2)
            else if (n =? 116)%N then Some (Ascii.ascii_of_N 9, s2)
            else match s2 with
                 | String _ (String _ (String h (String l s3))) =>
                     Some (Ascii.ascii_of_N (16 * hex_val h + hex_val l)%N, s3)
                 | _ => None
                 end
        | EmptyString => None
        end
      else Some (b, s1)
  | EmptyString => None
  end.

Lemma json_unesc_esc c r : is_ascii c = true -> json_unesc (json_esc c +:+ r) = Some (c, r).
Proof. destruct c as [[] [] [] [] [] [] [] []]; intros Ha; try discriminate Ha; reflexivity. Qed.

Lemma json_esc_not_quote c r k :
  is_ascii c = true -> json_esc c +:+ r <> String dquote k.
Proof.
  intros Ha He. pose proof (json_unesc_esc c r Ha) as Hu. rewrite He in Hu. simpl in Hu.
  injection Hu as <- <-. change (json_esc dquote) with (String backslash dq) in He.
  rewrite app_cons_s in He. discriminate He.
Qed.

Lemma json_chars_ascii c s k :
  is_ascii c = true -> json_chars (String c s) k = json_esc c +:+ json_chars s k.
Proof. intros Ha. simpl. by rewrite Ha. Qed.

Lemma json_chars_inj s t k1 k2 :
  str_ascii s = true -> str_ascii t = true ->
  json_chars s (String dquote k1) = json_chars t (String dquote k2) -> s = t /\ k1 = k2.
Proof.
  revert t. induction s as [|c s IH]; intros [|d t]; unfold str_ascii; simpl String.list_ascii_of_string;
    simpl forallb; rewrite ?andb_true_iff.
  - simpl. naive_solver.
  - intros _ [Hd _]. rewrite json_chars_ascii by done. simpl. intros H.
    by destruct (json_esc_not_quote _ _ _ Hd (eq_sym H)).
  - intros [Hc _] _. rewrite json_chars_ascii by done. simpl. intros H.
    by destruct (json_esc_not_quote _ _ _ Hc H).
  - intros [Hc Hs] [Hd Ht]. rewrite !json_chars_ascii by done. intros H.
    pose proof (json_unesc_esc c (json_chars s (String dquote k1)) Hc) as H1.
    rewrite H, json_unesc_esc in H1 by done. simplify_eq.
    destruct (IH t) as [-> ->]; done.
Qed.

Lemma json_str_pinj : pinj (fun s => str_ascii s = true) json_str.
Proof. intros s t k1 k2 Hs Ht H. unfold json_str in H. simplify_eq. by apply json_chars_inj. Qed.

(** Decimal numbers are delimited by the first byte that is no digit or sign. *)
Definition num_char (c : Ascii.ascii) : bool := in_range 48 57 c || in_range 45 45 c.

Lemma num_split d1 d2 c k1 k2 :
  forallb num_char (String.list_ascii_of_string d1) = true ->
  forallb num_char (String.list_ascii_of_string d2) = true -> num_char c = false ->
  d1 +:+ String c k1 = d2 +:+ String c k2 -> d1 = d2 /\ k1 = k2.
Proof.
  revert d2. induction d1 as [|a d1 IH]; intros [|b d2]; simpl; rewrite ?andb_true_iff.
  - intros _ _ _ H. by simplify_eq.
  - intros _ [Hb _] Hc H. rewrite app_nil_s, app_cons_s in H. simplify_eq. congruence.
  - intros [Ha _] _ Hc H. rewrite app_nil_s, app_cons_s in H. simplify_eq. congruence.
  - intros [_ H1] [_ H2] Hc H. rewrite !app_cons_s in H. simplify_eq. destruct (IH d2); naive_solver.
Qed.

Lemma pretty_char_num x : num_char (pretty_N_char x) = true.
Proof. unfold pretty_N_char. by repeat case_match. Qed.

Lemma pretty_go_num x s :
  forallb num_char (String.list_ascii_of_string s) = true ->
  forallb num_char (String.list_ascii_of_string (pretty_N_go x s)) = true.
Proof.
  revert s. induction (N.lt_wf_0 x) as [x _ IH]; intros s Hs.
  assert (x = 0 \/ 0 < x)%N as [->|?] by lia; [by rewrite pretty_N_go_0|].
  rewrite pretty_N_go_step by done. apply IH; [by apply N.div_lt|].
  simpl. by rewrite pretty_char_num, Hs.
Qed.

Lemma pretty_N_num (n : N) : forallb num_char (String.list_ascii_of_string (pretty n)) = true.
Proof. unfold pretty, pretty_N. case_decide; [done|]. by apply pretty_go_num. Qed.

Lemma itoa_num n : forallb num_char (String.list_ascii_of_string (itoa n)) = true.
Proof. destruct n as [|p|p]; [done| |]; apply (pretty_N_num (Npos p)). Qed.

Lemma json_num_inj n m c k1 k2 :
  num_char c = false -> json_num n (String c k1) = json_num m (String c k2) -> n = m /\ k1 = k2.
Proof.
  unfold json_num. intros Hc H. apply num_split in H as [H ->]; auto using itoa_num.
  by apply (inj (pretty (A := Z))) in H.
Qed.

(** [json_clash] closes a hypothesis equating two texts that differ in a literal. *)
Ltac json_clash :=
  exfalso;
  repeat match goal with H : _ = _ |- _ => progress (unfold lit, json_key in H) end;
  repeat match goal with H : _ = _ |- _ => rewrite !app_cons_s in H || rewrite !app_nil_s in H end;
  congruence.

Section Lists.
Context {A : Type} (P : A -> Prop) (enc : A -> string -> string).
Hypothesis enc_inj : pinj P enc.

Lemma json_items_inj l1 l2 k1 k2 :
  Forall P l1 -> Forall P l2 -> json_items enc l1 k1 = json_items enc l2 k2 -> l1 = l2 /\ k1 = k2.
Proof.
  revert l2. induction l1 as [|x l1 IH]; intros [|y l2]; simpl; rewrite ?Forall_cons.
  - intros _ _ H. split; [done|]. by apply lit_inj in H.
  - intros _ _ H. json_clash.
  - intros _ _ H. json_clash.
  - intros [Hx Hl1] [Hy Hl2] H. apply lit_inj in H. apply enc_inj in H as [-> H]; [|done..].
    destruct (IH l2) as [-> ->]; done.
Qed.

Lemma json_slice_pinj : pinj (Forall P) (json_slice enc).
Proof.
  intros [|x l1] [|y l2] k1 k2; simpl; rewrite ?Forall_cons.
  - intros _ _ H. split; [done|]. by apply lit_inj in H.
  - intros _ _ H. json_clash.
  - intros _ _ H. json_clash.
  - intros [Hx Hl1] [Hy Hl2] H. apply lit_inj in H. apply enc_inj in H as [-> H]; [|done..].
    apply json_items_inj in H as [-> ->]; done.
Qed.
End Lists.
