(* ===== verification/JsonText.v ===== *)
(** * JSON documents

    [encoding/json] as the stores use it: the text of a value as [json.Marshal]
    writes it (compact, HTML-escaped, the same string escapes as in [Json]) and
    the reader behind [json.Unmarshal], with its white space, escapes, surrogate
    pairs and replacement of invalid UTF-8.  The last theorem of the file is that
    reading a written document gives it back. *)

From S2P Require Import Prelude Json.

Inductive json :=
| JNull
| JBool (b : bool)
| JNum (literal : string)
| JStr (s : string)
| JArr (l : list json)
| JObj (l : list (string * json)).

(** Induction with the hypothesis for every element. *)
Section Induction.
Variable P : json -> Prop.
Hypotheses (Hnull : P JNull) (Hbool : forall b, P (JBool b)) (Hnum : forall n, P (JNum n)) (Hstr : forall s, P (JStr s))
  (Harr : forall l, Forall P l -> P (JArr l)) (Hobj : forall l, Forall (fun kv => P kv.2) l -> P (JObj l)).

Fixpoint json_rect' (j : json) : P j :=
  match j with
  | JNull => Hnull
  | JBool b => Hbool b
  | JNum n => Hnum n
  | JStr s => Hstr s
  | JArr l => Harr l ((fix go l : Forall P l :=
      match l with [] => List.Forall_nil _ | x :: l' => List.Forall_cons _ _ _ (json_rect' x) (go l') end) l)
  | JObj l => Hobj l ((fix go l : Forall (fun kv => P kv.2) l :=
      match l with [] => List.Forall_nil _ | x :: l' => List.Forall_cons _ _ _ (json_rect' x.2) (go l') end) l)
  end.
End Induction.

(** ** Writing *)

Definition c_lbrack : Ascii.ascii := Ascii.ascii_of_nat 91.
Definition c_rbrack : Ascii.ascii := Ascii.ascii_of_nat 93.
Definition c_lbrace : Ascii.ascii := Ascii.ascii_of_nat 123.
Definition c_rbrace : Ascii.ascii := Ascii.ascii_of_nat 125.
Definition c_comma : Ascii.ascii := Ascii.ascii_of_nat 44.
Definition c_colon : Ascii.ascii := Ascii.ascii_of_nat 58.

Section Sequences.
Context {A : Type} (text : A -> string -> string) (close : Ascii.ascii).

(** The elements after the first, each behind its comma. *)
Fixpoint json_rest (l : list A) (k : string) : string :=
  match l with
  | [] => String close k
  | x :: l' => String c_comma (text x (json_rest l' k))
  end.

Definition json_seq (l : list A) (k : string) : string :=
  match l with
  | [] => String close k
  | x :: l' => text x (json_rest l' k)
  end.
End Sequences.

Fixpoint json_text (j : json) (k : string) {struct j} : string :=
  match j with
  | JNull => lit "null" k
  | JBool b => json_bool b k
  | JNum n => n +:+ k
  | JStr s => json_str s k
  | JArr l => String c_lbrack (json_seq json_text c_rbrack l k)
  | JObj l => String c_lbrace (json_seq (fun '(key, v) k => json_str key (String c_colon (json_text v k))) c_rbrace l k)
  end.

Definition member_text : string * json -> string -> string :=
  fun '(key, v) k => json_str key (String c_colon (json_text v k)).

(** ** Strings *)

Definition utf8_replacement : string :=
  String (Ascii.ascii_of_nat 239) (String (Ascii.ascii_of_nat 191) (String (Ascii.ascii_of_nat 189) "")).

(** [utf8.AppendRune] for a rune below 0x110000 that is no surrogate. *)
Definition utf8_encode (r : N) : string :=
  (if r <? 128 then String (Ascii.ascii_of_N r) ""
   else if r <? 2048 then String (Ascii.ascii_of_N (192 + r / 64)) (String (Ascii.ascii_of_N (128 + r mod 64)) "")
   else if r <? 65536 then
     String (Ascii.ascii_of_N (224 + r / 4096)) (String (Ascii.ascii_of_N (128 + r / 64 mod 64))
       (String (Ascii.ascii_of_N (128 + r mod 64)) ""))
   else String (Ascii.ascii_of_N (240 + r / 262144)) (String (Ascii.ascii_of_N (128 + r / 4096 mod 64))
     (String (Ascii.ascii_of_N (128 + r / 64 mod 64)) (String (Ascii.ascii_of_N (128 + r mod 64)) ""))))%N.

Definition hex_digit_val (c : Ascii.ascii) : option N :=
  let n := Ascii.N_of_ascii c in
  (if (48 <=? n) && (n <=? 57) then Some (n - 48)
   else if (97 <=? n) && (n <=? 102) then Some (n - 87)
   else if (65 <=? n) && (n <=? 70) then Some (n - 55) else None)%N.

(** The four digits of a [\u] escape. *)
Definition hex4 (a b c d : Ascii.ascii) : option N :=
  a ← hex_digit_val a; b ← hex_digit_val b; c ← hex_digit_val c; d ← hex_digit_val d;
  Some (4096 * a + 256 * b + 16 * c + d)%N.

Definition is_surrogate (r : N) : bool := ((55296 <=? r) && (r <? 57344))%N.
Definition is_high (r : N) : bool := ((55296 <=? r) && (r <? 56320))%N.
Definition is_low (r : N) : bool := ((56320 <=? r) && (r <? 57344))%N.

(** The one-letter escapes. *)
Definition simple_escape (e : Ascii.ascii) : option Ascii.ascii :=
  let n := Ascii.N_of_ascii e in
  (if (n =? 34) || (n =? 92) || (n =? 47) then Some e
   else if n =? 98 then Some (Ascii.ascii_of_N 8)
   else if n =? 102 then Some (Ascii.ascii_of_N 12)
   else if n =? 110 then Some (Ascii.ascii_of_N 10)
   else if n =? 114 then Some (Ascii.ascii_of_N 13)
   else if n =? 116 then Some (Ascii.ascii_of_N 9) else None)%N.

Definition str_cons (p : string) (r : option (string * string)) : option (string * string) :=
  '(s, k) ← r; Some (p +:+ s, k).

(** A string literal after its opening quote: its value and what follows. *)
Fixpoint read_str (s : string) : option (string * string) :=
  match s with
  | EmptyString => None
  | String c s1 =>
      let n := Ascii.N_of_ascii c in
      if (n =? 34)%N then Some ("", s1)
      else if (n <? 32)%N then None
      else if (n =? 92)%N then
        match s1 with
        | String e s2 =>
            match simple_escape e with
            | Some c' => str_cons (String c' "") (read_str s2)
            | None =>
                if (Ascii.N_of_ascii e =? 117)%N then
                  match s2 with
                  | String h1 (String h2 (String h3 (String h4 s3))) =>
                      r ← hex4 h1 h2 h3 h4;
                      if negb (is_surrogate r) then str_cons (utf8_encode r) (read_str s3)
                      else match s3 with
                           | String b (String u (String l1 (String l2 (String l3 (String l4 s4))))) =>
                               match hex4 l1 l2 l3 l4 with
                               | Some r2 =>
                                   if bool_decide (b = backslash) && (Ascii.N_of_ascii u =? 117)%N && is_high r && is_low r2
                                   then str_cons (utf8_encode (65536 + (r - 55296) * 1024 + (r2 - 56320))%N) (read_str s4)
                                   else str_cons utf8_replacement (read_str s3)
                               | None => str_cons utf8_replacement (read_str s3)
                               end
                           | _ => str_cons utf8_replacement (read_str s3)
                           end
                  | _ => None
                  end
                else None
            end
        | EmptyString => None
        end
      else if is_ascii c then str_cons (String c "") (read_str s1)
      else
        match s1 with
        | String c1 s2 =>
            if in_range 194 223 c && is_cont c1 then str_cons (String c (String c1 "")) (read_str s2)
            else match s2 with
                 | String c2 s3 =>
                     if utf8_second3 c c1 && is_cont c2 then str_cons (String c (String c1 (String c2 ""))) (read_str s3)
                     else match s3 with
                          | String c3 s4 =>
                              if utf8_second4 c c1 && is_cont c2 && is_cont c3
                              then str_cons (String c (String c1 (String c2 (String c3 "")))) (read_str s4)
                              else str_cons utf8_replacement (read_str s1)
                          | EmptyString => str_cons utf8_replacement (read_str s1)
                          end
                 | EmptyString => str_cons utf8_replacement (read_str s1)
                 end
        | EmptyString => str_cons utf8_replacement (read_str s1)
        end
  end.

(** [utf8.ValidString]. *)
Fixpoint utf8_valid (s : string) : bool :=
  match s with
  | EmptyString => true
  | String c s1 =>
      if is_ascii c then utf8_valid s1
      else match s1 with
           | String c1 s2 =>
               if in_range 194 223 c && is_cont c1 then utf8_valid s2
               else match s2 with
                    | String c2 s3 =>
                        if utf8_second3 c c1 && is_cont c2 then utf8_valid s3
                        else match s3 with
                             | String c3 s4 => utf8_second4 c c1 && is_cont c2 && is_cont c3 && utf8_valid s4
                             | EmptyString => false
                             end
                    | EmptyString => false
                    end
           | EmptyString => false
           end
  end.

(** ** Numbers *)

Definition is_digit (c : Ascii.ascii) : bool := in_range 48 57 c.
Definition is_num_char (c : Ascii.ascii) : bool :=
  is_digit c || in_range 43 43 c || in_range 45 46 c || in_range 101 101 c || in_range 69 69 c.

Fixpoint span (p : Ascii.ascii -> bool) (s : string) : string * string :=
  match s with
  | String c s' => if p c then let '(a, b) := span p s' in (String c a, b) else ("", s)
  | EmptyString => ("", "")
  end.

(** One digit or more, then the rest. *)
Definition digits1 (s : string) : option string :=
  match s with
  | String c s' => if is_digit c then Some (span is_digit s').2 else None
  | EmptyString => None
  end.

Definition exponent_ok (s : string) : bool :=
  match s with
  | EmptyString => true
  | String e s1 =>
      if in_range 101 101 e || in_range 69 69 e then
        let s2 := match s1 with
                  | String c s' => if in_range 43 43 c || in_range 45 45 c then s' else s1
                  | EmptyString => s1
                  end in
        bool_decide (digits1 s2 = Some "")
      else false
  end.

Definition fraction_ok (s : string) : bool :=
  match s with
  | String d s' => if in_range 46 46 d
                   then match digits1 s' with Some r => exponent_ok r | None => false end
                   else exponent_ok s
  | EmptyString => true
  end.

(** The JSON grammar of a number. *)
Definition valid_number (s : string) : bool :=
  let s := match s with String c s' => if in_range 45 45 c then s' else s | EmptyString => s end in
  match s with
  | String c s' => if in_range 48 48 c then fraction_ok s'
                   else if is_digit c then fraction_ok (span is_digit s').2 else false
  | EmptyString => false
  end.

(** ** Reading *)

Definition is_ws (c : Ascii.ascii) : bool :=
  in_range 32 32 c || in_range 9 10 c || in_range 13 13 c.
Definition skip_ws (s : string) : string := trim_left is_ws s.

Definition expect (word : string) (j : json) (s : string) : option (json * string) :=
  if HasPrefix s word then Some (j, String.substring (String.length word) (String.length s - String.length word) s) else None.

Definition read_num (s : string) : option (json * string) :=
  let '(n, r) := span is_num_char s in if valid_number n then Some (JNum n, r) else None.

Definition is_char (c : Ascii.ascii) (d : Ascii.ascii) : bool := bool_decide (d = c).

(** One value with [n] the nesting still allowed; [read_items] and
    [read_members] read what follows a bracket. *)
Fixpoint read_value (n : nat) (s : string) : option (json * string) :=
  match n with
  | O => None
  | S n =>
      match skip_ws s with
      | EmptyString => None
      | String c s' as s0 =>
          if is_char c_lbrack c then
            match skip_ws s' with
            | String d r => if is_char c_rbrack d then Some (JArr [], r)
                            else '(l, r) ← read_items n s'; Some (JArr l, r)
            | EmptyString => None
            end
          else if is_char c_lbrace c then
            match skip_ws s' with
            | String d r => if is_char c_rbrace d then Some (JObj [], r)
                            else '(l, r) ← read_members n s'; Some (JObj l, r)
            | EmptyString => None
            end
          else if is_char dquote c then '(v, r) ← read_str s'; Some (JStr v, r)
          else if is_char (Ascii.ascii_of_nat 110) c then expect "null" JNull s0
          else if is_char (Ascii.ascii_of_nat 116) c then expect "true" (JBool true) s0
          else if is_char (Ascii.ascii_of_nat 102) c then expect "false" (JBool false) s0
          else read_num s0
      end
  end
with read_items (n : nat) (s : string) : option (list json * string) :=
  match n with
  | O => None
  | S n =>
      '(x, r) ← read_value n s;
      match skip_ws r with
      | String c r' =>
          if is_char c_comma c then '(l, r'') ← read_items n r'; Some (x :: l, r'')
          else if is_char c_rbrack c then Some ([x], r') else None
      | EmptyString => None
      end
  end
with read_members (n : nat) (s : string) : option (list (string * json) * string) :=
  match n with
  | O => None
  | S n =>
      match skip_ws s with
      | String q s' =>
          if is_char dquote q then
            '(key, r) ← read_str s';
            match skip_ws r with
            | String c r' =>
                if is_char c_colon c then
                  '(v, r2) ← read_value n r';
                  match skip_ws r2 with
                  | String c r3 =>
                      if is_char c_comma c then '(l, r4) ← read_members n r3; Some ((key, v) :: l, r4)
                      else if is_char c_rbrace c then Some ([(key, v)], r3) else None
                  | EmptyString => None
                  end
                else None
            | EmptyString => None
            end
          else None
      | EmptyString => None
      end
  end.

(** A whole document: one value and white space.  The length of the text bounds
    its nesting. *)
Definition read_json (s : string) : option json :=
  '(j, r) ← read_value (S (String.length s)) s;
  if str_eqb (skip_ws r) "" then Some j else None.

(** * Lemmas *)

(** ** Strings *)

Lemma read_str_esc c r :
  is_ascii c = true -> read_str (json_esc c +:+ r) = str_cons (String c "") (read_str r).
Proof. destruct c as [[] [] [] [] [] [] [] []]; intros Ha; try discriminate Ha; reflexivity. Qed.

(** A byte from 0x80 up is read as part of a UTF-8 sequence. *)
Lemma read_str_high c s1 :
  is_ascii c = false ->
  read_str (String c s1) =
  match s1 with
  | String c1 s2 =>
      if in_range 194 223 c && is_cont c1 then str_cons (String c (String c1 "")) (read_str s2)
      else match s2 with
           | String c2 s3 =>
               if utf8_second3 c c1 && is_cont c2 then str_cons (String c (String c1 (String c2 ""))) (read_str s3)
               else match s3 with
                    | String c3 s4 =>
                        if utf8_second4 c c1 && is_cont c2 && is_cont c3
                        then str_cons (String c (String c1 (String c2 (String c3 "")))) (read_str s4)
                        else str_cons utf8_replacement (read_str s1)
                    | EmptyString => str_cons utf8_replacement (read_str s1)
                    end
           | EmptyString => str_cons utf8_replacement (read_str s1)
           end
  | EmptyString => str_cons utf8_replacement (read_str s1)
  end.
Proof. destruct c as [[] [] [] [] [] [] [] []]; intros Ha; try discriminate Ha; reflexivity. Qed.

Lemma in_range_eq n c : in_range n n c = true -> c = Ascii.ascii_of_N n.
Proof.
  unfold in_range. rewrite andb_true_iff, !N.leb_le. intros ?.
  rewrite <-(Ascii.ascii_N_embedding c). f_equal. lia.
Qed.

Lemma in_range_2 n c : in_range n (n + 1) c = true -> c = Ascii.ascii_of_N n \/ c = Ascii.ascii_of_N (n + 1).
Proof.
  unfold in_range. rewrite andb_true_iff, !N.leb_le. intros ?. rewrite <-(Ascii.ascii_N_embedding c).
  assert (Ascii.N_of_ascii c = n \/ Ascii.N_of_ascii c = n + 1)%N as [->| ->] by lia; auto.
Qed.

Lemma read_str_sep c2 r :
  in_range 168 169 c2 = true ->
  read_str (json_line_sep c2 +:+ r) =
  str_cons (String (Ascii.ascii_of_N 226) (String (Ascii.ascii_of_N 128) (String c2 ""))) (read_str r).
Proof. intros [-> | ->]%(in_range_2 168); reflexivity. Qed.

Lemma str_cons_Some p s k : str_cons p (Some (s, k)) = Some (p +:+ s, k).
Proof. done. Qed.

(** A string is read back whole when it is valid UTF-8. *)
Lemma read_str_chars s k : utf8_valid s = true -> read_str (json_chars s (String dquote k)) = Some (s, k).
Proof.
  remember (String.length s) as n eqn:Hn. revert s Hn.
  induction (lt_wf n) as [n _ IH]; intros s ->.
  assert (IH' : forall t, (String.length t < String.length s)%nat -> utf8_valid t = true ->
    read_str (json_chars t (String dquote k)) = Some (t, k)) by eauto. clear IH.
  destruct s as [|c s1]; [done|]. cbn [utf8_valid json_chars]. destruct (is_ascii c) eqn:Ea.
  { intros Hv. rewrite read_str_esc, IH' by (simpl; auto with lia). done. }
  destruct s1 as [|c1 s2]; [done|]. destruct (in_range 194 223 c && is_cont c1) eqn:E2.
  { intros Hv. rewrite read_str_high, E2, IH' by (simpl; auto with lia). done. }
  destruct s2 as [|c2 s3]; [done|]. destruct (utf8_second3 c c1 && is_cont c2) eqn:E3.
  { intros Hv. destruct (in_range 226 226 c && in_range 128 128 c1 && in_range 168 169 c2) eqn:Es.
    - rewrite !andb_true_iff in Es. destruct Es as [[->%in_range_eq ->%in_range_eq] Hc2].
      rewrite read_str_sep, IH' by (simpl; auto with lia). done.
    - rewrite read_str_high, E2, E3, IH' by (simpl; auto with lia). done. }
  destruct s3 as [|c3 s4]; [done|]. rewrite !andb_true_iff. intros [[[H1 H2] H3] Hv].
  assert (E4 : utf8_second4 c c1 && is_cont c2 && is_cont c3 = true) by (by rewrite H1, H2, H3).
  rewrite E4, read_str_high, E2, E3, E4, IH' by (simpl; auto with lia). done.
Qed.

(** ** Numbers *)

Lemma span_app p s c k :
  forallb p (String.list_ascii_of_string s) = true -> p c = false -> span p (s +:+ String c k) = (s, String c k).
Proof.
  intros Hs Hc. induction s as [|d s IH]; simpl in Hs; [simpl; by rewrite Hc|].
  rewrite andb_true_iff in Hs. destruct Hs as [Hd Hs]. rewrite app_cons_s. simpl. by rewrite Hd, IH.
Qed.

Lemma span_all p s : forallb p (String.list_ascii_of_string s) = true -> span p s = (s, "").
Proof.
  induction s as [|d s IH]; simpl; [done|]. rewrite andb_true_iff. intros [-> Hs]. by rewrite IH.
Qed.

(** What may follow a number in a document. *)
Definition num_end (k : string) : bool :=
  match k with String c _ => negb (is_num_char c) | EmptyString => true end.

Lemma read_num_text n k :
  forallb is_num_char (String.list_ascii_of_string n) = true -> valid_number n = true -> num_end k = true ->
  read_num (n +:+ k) = Some (JNum n, k).
Proof.
  intros Hn Hv Hk. unfold read_num. destruct k as [|c k].
  - replace (n +:+ "") with n by (clear; induction n as [|c n IH]; [done|]; rewrite app_cons_s; by f_equal).
    by rewrite span_all, Hv.
  - simpl in Hk. apply negb_true_iff in Hk. by rewrite span_app, Hv.
Qed.

(** The decimal digits of a natural number. *)
Definition all_digits (s : string) : bool := forallb is_digit (String.list_ascii_of_string s).

Lemma pretty_char_digit x : is_digit (pretty_N_char x) = true.
Proof. unfold pretty_N_char. by repeat case_match. Qed.

Lemma pretty_go_digits x s : all_digits s = true -> all_digits (pretty_N_go x s) = true.
Proof.
  revert s. induction (N.lt_wf_0 x) as [x _ IH]; intros s Hs.
  assert (x = 0 \/ 0 < x)%N as [->|?] by lia; [by rewrite pretty_N_go_0|].
  rewrite pretty_N_go_step by done. apply IH; [by apply N.div_lt|]. unfold all_digits in Hs |- *. simpl. by rewrite pretty_char_digit, Hs.
Qed.

(** No leading zero. *)
Lemma pretty_go_head x s :
  (0 < x)%N -> exists c r, pretty_N_go x s = String c r /\ is_digit c = true /\ in_range 48 48 c = false.
Proof.
  revert s. induction (N.lt_wf_0 x) as [x _ IH]; intros s Hx. rewrite pretty_N_go_step by done.
  destruct (decide (x / 10 = 0)%N) as [E|E].
  - rewrite E, pretty_N_go_0. eexists _, _. split; [done|]. split; [apply pretty_char_digit|].
    assert (x < 10)%N by (apply N.div_small_iff in E; lia). rewrite N.mod_small by done.
    assert (x = 1 \/ x = 2 \/ x = 3 \/ x = 4 \/ x = 5 \/ x = 6 \/ x = 7 \/ x = 8 \/ x = 9)%N as Hc by lia.
    by destruct_or! Hc; subst x.
  - apply IH; [by apply N.div_lt|by apply N.neq_0_lt_0].
Qed.

Lemma fraction_ok_digits s : all_digits s = true -> fraction_ok (span is_digit s).2 = true.
Proof. intros Hs. by rewrite span_all. Qed.

Lemma pretty_N_number (n : N) : all_digits (pretty n) = true /\ valid_number (pretty n) = true.
Proof.
  unfold pretty, pretty_N. case_decide as E; [done|].
  assert (Hd : all_digits (pretty_N_go n "") = true) by (by apply pretty_go_digits). split; [done|].
  destruct (pretty_go_head n "") as (c & r & Hc & Hdc & H0); [lia|]. rewrite Hc in *.
  unfold valid_number. unfold all_digits in Hd. simpl in Hd. rewrite andb_true_iff in Hd.
  assert (Hm : in_range 45 45 c = false) by (destruct c as [[] [] [] [] [] [] [] []]; try discriminate Hdc; done).
  rewrite Hm, H0, Hdc. apply fraction_ok_digits, Hd.
Qed.

Lemma digit_num_char s : all_digits s = true -> forallb is_num_char (String.list_ascii_of_string s) = true.
Proof.
  unfold all_digits. rewrite !forallb_forall. intros H c Hc. unfold is_num_char. by rewrite (H c Hc).
Qed.

Lemma itoa_number n :
  forallb is_num_char (String.list_ascii_of_string (itoa n)) = true /\ valid_number (itoa n) = true.
Proof.
  destruct n as [|p|p]; [done| |].
  - destruct (pretty_N_number (Npos p)) as [Hd Hv]. split; [by apply digit_num_char|done].
  - destruct (pretty_N_number (Npos p)) as [Hd Hv].
    change (itoa (Zneg p)) with (String (Ascii.ascii_of_nat 45) (pretty (Npos p))).
    split; [cbn; by apply digit_num_char|]. revert Hv. unfold valid_number. cbn [in_range].
    change (in_range 45 45 (Ascii.ascii_of_nat 45)) with true. cbn match.
    unfold all_digits in Hd. destruct (pretty (Npos p)) as [|c r]; [done|]. simpl in Hd.
    rewrite andb_true_iff in Hd. destruct Hd as [Hc _].
    assert (Hm : in_range 45 45 c = false) by (destruct c as [[] [] [] [] [] [] [] []]; try discriminate Hc; done).
    by rewrite Hm.
Qed.

(** ** Documents *)

Fixpoint json_wf (j : json) : bool :=
  match j with
  | JNull | JBool _ => true
  | JNum n => forallb is_num_char (String.list_ascii_of_string n) && valid_number n
  | JStr s => utf8_valid s
  | JArr l => forallb json_wf l
  | JObj l => forallb (fun '(key, v) => utf8_valid key && json_wf v) l
  end.

(** The nesting and the elements a reader goes through. *)
Fixpoint weight (j : json) : nat :=
  match j with
  | JArr l => S (sum_list_with (fun x => S (weight x)) l)
  | JObj l => S (sum_list_with (fun '(_, v) => S (weight v)) l)
  | _ => 1
  end.

Lemma str_length_app s t : String.length (s +:+ t) = (String.length s + String.length t)%nat.
Proof. induction s as [|c s IH]; [done|]. rewrite app_cons_s. simpl. by rewrite IH. Qed.

Lemma json_chars_length s k : (String.length k <= String.length (json_chars s k))%nat.
Proof.
  remember (String.length s) as n eqn:Hn. revert s Hn. induction (lt_wf n) as [n _ IH]; intros s ->.
  assert (IH' : forall t, (String.length t < String.length s)%nat ->
    (String.length k <= String.length (json_chars t k))%nat) by eauto. clear IH.
  destruct s as [|c s1]; cbn [json_chars]; [lia|].
  repeat case_match; subst; rewrite ?str_length_app; cbn [String.length] in *;
    match goal with |- context [json_chars ?t k] => specialize (IH' t ltac:(cbn [String.length]; lia)) end; lia.
Qed.

Lemma json_str_length s k : (2 + String.length k <= String.length (json_str s k))%nat.
Proof. unfold json_str. pose proof (json_chars_length s (String dquote k)). simpl in *. lia. Qed.

Section SequenceLength.
Context {A : Type} (text : A -> string -> string) (w : A -> nat) (close : Ascii.ascii).
Implicit Type l : list A.

Lemma json_rest_length l k :
  Forall (fun x => forall k, (w x + String.length k <= String.length (text x k))%nat) l ->
  (S (sum_list_with (fun x => S (w x)) l) + String.length k <= String.length (json_rest text close l k))%nat.
Proof.
  induction 1 as [|x l Hx Hl IH]; simpl; [lia|]. specialize (Hx (json_rest text close l k)). lia.
Qed.

Lemma json_seq_length l k :
  Forall (fun x => forall k, (w x + String.length k <= String.length (text x k))%nat) l ->
  (sum_list_with (fun x => S (w x)) l + String.length k <= String.length (json_seq text close l k))%nat.
Proof.
  destruct 1 as [|x l Hx Hl]; simpl; [lia|]. pose proof (json_rest_length l k Hl).
  specialize (Hx (json_rest text close l k)). lia.
Qed.
End SequenceLength.

Lemma valid_number_head n :
  valid_number n = true -> exists c r, n = String c r /\ (is_digit c = true \/ c = Ascii.ascii_of_nat 45).
Proof.
  destruct n as [|c r]; [done|]. intros H. exists c, r. split; [done|]. unfold valid_number in H.
  destruct (in_range 45 45 c) eqn:E; [right; by apply in_range_eq in E|left].
  destruct (in_range 48 48 c) eqn:E0; [by apply in_range_eq in E0 as ->|]. by destruct (is_digit c).
Qed.

Lemma text_length j k : json_wf j = true -> (weight j + String.length k <= String.length (json_text j k))%nat.
Proof.
  revert k. induction j as [|b|n|s|l IH|l IH] using json_rect'; intros k Hw; cbn [json_text weight].
  - unfold lit. rewrite str_length_app. simpl. lia.
  - unfold json_bool, lit. rewrite str_length_app. destruct b; simpl; lia.
  - simpl in Hw. rewrite andb_true_iff in Hw. destruct Hw as [_ (c & r & -> & _)%valid_number_head].
    rewrite str_length_app. simpl. lia.
  - pose proof (json_str_length s k). lia.
  - simpl. assert (H : Forall (fun x => forall k, (weight x + String.length k <= String.length (json_text x k))%nat) l).
    { simpl in Hw. rewrite forallb_forall in Hw. rewrite Forall_forall in IH |- *. intros x Hx k'.
      apply IH; [done|]. apply Hw. by apply list_elem_of_In. }
    apply (json_seq_length json_text weight c_rbrack l k) in H. lia.
  - simpl. assert (H : Forall (fun x => forall k, ((fun '(_, v) => weight v) x + String.length k <= String.length (member_text x k))%nat) l).
    { simpl in Hw. rewrite forallb_forall in Hw. rewrite Forall_forall in IH |- *. intros [key v] Hx k'.
      unfold member_text. pose proof (json_str_length key (String c_colon (json_text v k'))).
      specialize (IH _ Hx k'). simpl in *. specialize (Hw (key, v) (proj1 (list_elem_of_In _ _) Hx)). simpl in Hw.
      rewrite andb_true_iff in Hw. specialize (IH (proj2 Hw)). lia. }
    apply (json_seq_length member_text _ c_rbrace l k) in H. fold member_text.
    replace (sum_list_with (fun '(_, v) => S (weight v)) l) with (sum_list_with (fun x => S ((fun '(_, v) => weight v) x)) l); [lia|].
    clear. induction l as [|[] l IH]; simpl; [done|]. by rewrite IH.
Qed.

Lemma json_text_obj l k : json_text (JObj l) k = String c_lbrace (json_seq member_text c_rbrace l k).
Proof. done. Qed.

Lemma digit_or_minus c :
  is_digit c = true \/ c = Ascii.ascii_of_nat 45 ->
  is_ws c = false /\ is_char c_lbrack c = false /\ is_char c_rbrack c = false /\ is_char c_lbrace c = false /\
  is_char dquote c = false /\ is_char (Ascii.ascii_of_nat 110) c = false /\
  is_char (Ascii.ascii_of_nat 116) c = false /\ is_char (Ascii.ascii_of_nat 102) c = false.
Proof.
  intros [H| ->]; [|done]. destruct c as [[] [] [] [] [] [] [] []]; try discriminate H; done.
Qed.

(** The first byte of a value is no white space and no closing bracket. *)
Lemma text_head j k :
  json_wf j = true -> exists c r, json_text j k = String c r /\ is_ws c = false /\ is_char c_rbrack c = false.
Proof.
  destruct j as [|b|n|s|l|l]; intros Hw; cbn [json_text]; try by eexists _, _.
  - destruct b; by eexists _, _.
  - simpl in Hw. rewrite andb_true_iff in Hw. destruct Hw as [_ (c & r & -> & Hc)%valid_number_head].
    destruct (digit_or_minus c Hc) as (? & _ & ? & _). by eexists _, _.
Qed.

Lemma skip_ws_head c r : is_ws c = false -> skip_ws (String c r) = String c r.
Proof. unfold skip_ws. simpl. by intros ->. Qed.

Lemma expect_text w j k : expect w j (w +:+ k) = Some (j, k).
Proof.
  unfold expect, HasPrefix. rewrite str_length_app, Nat.add_comm, Nat.add_sub.
  assert (Hp : String.prefix w (w +:+ k) = true).
  { induction w as [|c w IH]; [by destruct k|]. rewrite app_cons_s. simpl. by destruct (Ascii.ascii_dec c c). }
  rewrite Hp. do 2 f_equal. clear Hp. induction w as [|c w IH].
  - change ("" +:+ k) with k. change (String.length "") with 0%nat. induction k as [|c k IH]; simpl; [done|]. by rewrite IH.
  - rewrite app_cons_s. simpl. exact IH.
Qed.

(** Reading the elements of an array, given how each is read. *)
Lemma read_items_text x l n k :
  Forall (fun j => json_wf j = true /\ forall n k, (weight j <= n)%nat -> num_end k = true ->
    read_value n (json_text j k) = Some (j, k)) (x :: l) ->
  (sum_list_with (fun x => S (weight x)) (x :: l) <= n)%nat ->
  read_items n (json_text x (json_rest json_text c_rbrack l k)) = Some (x :: l, k).
Proof.
  revert x n. induction l as [|y l IH]; intros x n [[Hwx Hx] Hl]%Forall_cons Hn; simpl in Hn;
    destruct n as [|n]; [lia| |lia|]; cbn [read_items json_rest].
  - by rewrite Hx by (lia || done).
  - rewrite Hx by (lia || done). cbn [mbind option_bind]. rewrite skip_ws_head by done.
    change (is_char c_comma c_comma) with true. cbn match. by rewrite IH by (done || simpl; lia).
Qed.

Lemma read_members_text key v l n k :
  Forall (fun '(key, j) => utf8_valid key = true /\ json_wf j = true /\ forall n k, (weight j <= n)%nat -> num_end k = true ->
    read_value n (json_text j k) = Some (j, k)) ((key, v) :: l) ->
  (sum_list_with (fun '(_, v) => S (weight v)) ((key, v) :: l) <= n)%nat ->
  read_members n (member_text (key, v) (json_rest member_text c_rbrace l k)) = Some ((key, v) :: l, k).
Proof.
  revert key v n. induction l as [|[key' v'] l IH]; intros key v n [(Hk & Hwv & Hv) Hl]%Forall_cons Hn; simpl in Hn;
    destruct n as [|n]; [lia| |lia|]; cbn [read_members json_rest]; unfold member_text at 1, json_str;
    rewrite skip_ws_head by done; change (is_char dquote dquote) with true; cbn match;
    rewrite read_str_chars by done; cbn [mbind option_bind]; rewrite skip_ws_head by done;
    change (is_char c_colon c_colon) with true; cbn match.
  - by rewrite Hv by (lia || done).
  - rewrite Hv by (lia || done). cbn [mbind option_bind]. rewrite skip_ws_head by done.
    change (is_char c_comma c_comma) with true. cbn match. by rewrite IH by (done || simpl; lia).
Qed.

Lemma read_value_text j n k :
  json_wf j = true -> (weight j <= n)%nat -> num_end k = true -> read_value n (json_text j k) = Some (j, k).
Proof.
  revert n k. induction j as [|b|m|s|l IH|l IH] using json_rect'; intros [|n] k Hw Hn Hk; simpl in Hn; try lia;
    cbn [read_value].
  - exact (expect_text "null" JNull k).
  - destruct b; [exact (expect_text "true" (JBool true) k)|exact (expect_text "false" (JBool false) k)].
  - simpl in Hw. rewrite andb_true_iff in Hw. destruct Hw as [Hc Hv]. cbn [json_text].
    destruct (valid_number_head m Hv) as (c & r & -> & Hd). destruct (digit_or_minus c Hd) as (E1&E2&_&E3&E4&E5&E6&E7).
    rewrite app_cons_s, skip_ws_head by done. rewrite E2, E3, E4, E5, E6, E7, <-app_cons_s. by apply read_num_text.
  - cbn [json_text]. unfold json_str. rewrite skip_ws_head by done. change (is_char dquote dquote) with true. cbn match.
    change (is_char c_lbrack dquote) with false. change (is_char c_lbrace dquote) with false. cbn match.
    by rewrite read_str_chars.
  - cbn [json_text]. rewrite skip_ws_head by done. change (is_char c_lbrack c_lbrack) with true. cbn match.
    destruct l as [|x l]; [done|]. cbn [json_seq]. simpl in Hw. rewrite andb_true_iff, forallb_forall in Hw.
    destruct Hw as [Hx Hl]. destruct (text_head x (json_rest json_text c_rbrack l k) Hx) as (c & r & Hc & Hws & Hrb).
    rewrite Hc, skip_ws_head, Hrb by done. rewrite <-Hc, read_items_text; [done| |simpl in *; lia].
    apply Forall_forall. rewrite Forall_forall in IH. intros y Hy.
    assert (Hwy : json_wf y = true) by (rewrite elem_of_cons in Hy; destruct Hy as [->|Hy]; [done|apply Hl; by apply list_elem_of_In]).
    split; [done|]. intros n' k' ? ?. by apply IH.
  - rewrite json_text_obj. rewrite skip_ws_head by done. change (is_char c_lbrack c_lbrace) with false.
    change (is_char c_lbrace c_lbrace) with true. cbn match.
    destruct l as [|[key v] l]; [done|]. cbn [json_seq]. simpl in Hw. rewrite !andb_true_iff, forallb_forall in Hw.
    destruct Hw as [[Hkey Hv] Hl]. rewrite read_members_text; [done| |simpl in *; lia].
    apply Forall_forall. rewrite Forall_forall in IH. intros [key' v'] Hy.
    assert (Hwy : utf8_valid key' = true /\ json_wf v' = true).
    { rewrite elem_of_cons in Hy. destruct Hy as [[= -> ->]|Hy]; [done|].
      apply list_elem_of_In, Hl in Hy. by apply andb_true_iff in Hy. }
    split; [apply Hwy|]. split; [apply Hwy|]. intros n' k' ? ?. apply (IH (key', v')); [done|apply Hwy|done..].
Qed.

(** Reading a written document gives it back, and the length of the text is
    nesting enough. *)
Lemma read_json_text j : json_wf j = true -> read_json (json_text j "") = Some j.
Proof.
  intros Hw. unfold read_json. pose proof (text_length j "" Hw).
  rewrite read_value_text by (done || simpl in *; lia). done.
Qed.
