(* ===== verification/Wire.v ===== *)
(** * Go values and JSON documents

    How [encoding/json] maps a Go type to a document and back, by type: strings,
    booleans, integers of a width, [time.Time], [[]byte], slices, pointers and
    structs with [omitempty].  A [wire] describes one type.  Decoding is into an
    existing value, as [json.Unmarshal] does: [null] leaves a scalar or a struct
    alone and empties a slice or a pointer, keys are matched without regard to
    ASCII case and unknown keys are ignored.

    A document need not come back as it was written: a database keeps its value,
    in an order of its own ([keeps_value]), and the laws of a [wire] hold of that. *)

From S2P Require Import Prelude GoTime Model Base64 Json JsonText.

Record wire (A : Type) := mkWire {
  w_zero : A;
  (** what [omitempty] omits *)
  w_empty : A -> bool;
  (** the values in the range of the Go type that can be written, with valid
      UTF-8 text *)
  w_ok : A -> bool;
  w_enc : A -> result json;
  w_dec : json -> A -> result A
}.
Arguments mkWire {A} _ _ _ _ _.
Arguments w_zero {A} _.
Arguments w_empty {A} _ _.
Arguments w_ok {A} _ _.
Arguments w_enc {A} _ _.
Arguments w_dec {A} _ _ _.

(** [keeps_value j v]: [v] is a document [j] as a [jsonb] column gives it back.
    Members come in another order and of several with one key the last is kept, which
    is not said here; numbers are normalised, integers in decimal as they are. *)
Inductive keeps_value : json -> json -> Prop :=
| kv_null : keeps_value JNull JNull
| kv_bool b : keeps_value (JBool b) (JBool b)
| kv_num l l' : (forall n, l = itoa n -> l' = l) -> keeps_value (JNum l) (JNum l')
| kv_str s : keeps_value (JStr s) (JStr s)
| kv_arr l l' : Forall2 keeps_value l l' -> keeps_value (JArr l) (JArr l')
| kv_obj kvs kvs' :
    (NoDup kvs.*1 -> exists m, m ≡ₚ kvs /\ Forall2 (fun a b => a.1 = b.1 /\ keeps_value a.2 b.2) m kvs') ->
    keeps_value (JObj kvs) (JObj kvs').

Lemma keeps_value_refl j : keeps_value j j.
Proof.
  induction j as [|b|n|s|l IH|l IH] using json_rect'; constructor; [done|..].
  - induction IH; constructor; done.
  - intros _. exists l. split; [done|]. induction IH; constructor; done.
Qed.

(** Every value is written; decoding what was written, or what a database kept of
    it, into a zero value gives it back; only the zero value is omitted. *)
Class WireLaws {A} (W : wire A) : Prop := {
  wire_total : forall a, w_ok W a = true -> is_Ok (w_enc W a) = true;
  wire_roundtrip : forall a j, w_ok W a = true -> w_enc W a = Ok j -> json_wf j = true /\
    forall v, keeps_value j v -> w_dec W v (w_zero W) = Ok a;
  wire_empty : forall a, w_empty W a = true -> a = w_zero W
}.

Definition type_error {A} (ty : string) : result A := Err (errors_New ("json: cannot unmarshal into Go value of type " +:+ ty)).

(** ** Scalars *)

Definition w_string : wire string := {|
  w_zero := ""; w_empty := fun s => str_eqb s ""; w_ok := utf8_valid; w_enc := fun s => Ok (JStr s);
  w_dec := fun j z => match j with JNull => Ok z | JStr s => Ok s | _ => type_error "string" end |}.

Definition w_bool : wire bool := {|
  w_zero := false; w_empty := negb; w_ok := fun _ => true; w_enc := fun b => Ok (JBool b);
  w_dec := fun j z => match j with JNull => Ok z | JBool b => Ok b | _ => type_error "bool" end |}.

(** [strconv.ParseUint] and [ParseInt] on a number literal, without the range. *)
Fixpoint read_dec (acc : Z) (s : string) : option Z :=
  match s with
  | EmptyString => Some acc
  | String c s' => v ← digit_val c; read_dec (10 * acc + v) s'
  end.

Definition parse_uint (s : string) : option Z := if str_eqb s "" then None else read_dec 0 s.
Definition parse_int (s : string) : option Z :=
  match s with
  | String c s' => if in_range 45 45 c then Z.opp <$> parse_uint s' else parse_uint s
  | EmptyString => None
  end.

Definition in_width (lo hi : Z) (n : Z) : bool := (lo <=? n) && (n <? hi).

Definition w_num (ty : string) (parse : string -> option Z) (lo hi : Z) : wire Z := {|
  w_zero := 0; w_empty := Z.eqb 0; w_ok := in_width lo hi; w_enc := fun n => Ok (JNum (itoa n));
  w_dec := fun j z =>
    match j with
    | JNull => Ok z
    | JNum l => match parse l with
                | Some n => if in_width lo hi n then Ok n else type_error ty
                | None => type_error ty
                end
    | _ => type_error ty
    end |}.

Definition w_uint64 : wire Z := w_num "uint64" parse_uint 0 (2 ^ 64).
Definition w_int64 : wire Z := w_num "int64" parse_int (- 2 ^ 63) (2 ^ 63).
Definition w_int : wire Z := w_num "int" parse_int (- 2 ^ 63) (2 ^ 63).

(** [Time.MarshalJSON] refuses years of more than four digits. *)
Definition w_time : wire time := {|
  w_zero := 0; w_empty := fun _ => false; w_ok := year_ok;
  w_enc := fun t => if year_ok t then Ok (JStr (Format_RFC3339Nano t))
                    else Err (errors_New "Time.MarshalJSON: year outside of range [0,9999]");
  w_dec := fun j z =>
    match j with
    | JNull => Ok z
    | JStr s => match Parse_RFC3339 s with Some t => Ok t | None => type_error "time.Time" end
    | _ => Err (errors_New "Time.UnmarshalJSON: input is not a JSON string")
    end |}.

(** [[]byte] is base64 text; the decoder skips line breaks. *)
Fixpoint strip_breaks (s : string) : string :=
  match s with
  | EmptyString => ""
  | String c s' => if in_range 10 10 c || in_range 13 13 c then strip_breaks s' else String c (strip_breaks s')
  end.

Definition w_bytes : wire bytes := {|
  w_zero := ""; w_empty := fun b => str_eqb b ""; w_ok := fun _ => true;
  w_enc := fun b => Ok (if str_eqb b "" then JNull else JStr (EncodeToString b));
  w_dec := fun j _ => match j with JNull => Ok "" | JStr s => DecodeString (strip_breaks s) | _ => type_error "[]uint8" end |}.

(** ** Slices and pointers

    A nil slice and an empty one are the same list, written as a nil one is. *)

Definition w_slice {A} (W : wire A) : wire (list A) := {|
  w_zero := []; w_empty := fun l => match l with [] => true | _ => false end;
  w_ok := forallb (w_ok W);
  w_enc := fun l => match l with [] => Ok JNull | _ => let? js := map_result (w_enc W) l in Ok (JArr js) end;
  w_dec := fun j _ =>
    match j with
    | JNull => Ok []
    | JArr js => map_result (fun j => w_dec W j (w_zero W)) js
    | _ => type_error "slice"
    end |}.

Definition w_ptr {A} (W : wire A) : wire (option A) := {|
  w_zero := None; w_empty := fun o => match o with None => true | Some _ => false end;
  w_ok := from_option (w_ok W) true;
  w_enc := fun o => match o with None => Ok JNull | Some a => w_enc W a end;
  w_dec := fun j z =>
    match j with
    | JNull => Ok None
    | _ => let? a := w_dec W j (default (w_zero W) z) in Ok (Some a)
    end |}.

(** A pointer that is an element of a slice: never nil in what the service
    writes; a nil one, which the lists of the model cannot hold, is refused. *)
Definition w_elem {A} (W : wire A) : wire A := {|
  w_zero := w_zero W; w_empty := fun _ => false; w_ok := w_ok W; w_enc := w_enc W;
  w_dec := fun j z => match j with JNull => type_error "nil element" | _ => w_dec W j z end |}.

(** ** Structs *)

(** One field of a value being written: whether the field's value is one of its
    Go type, and its entry, [None] when omitted. *)
Record fspec := mkFspec { fs_ok : bool; fs_entry : result (string * option json) }.

Definition fld {A} (name : string) (W : wire A) (a : A) : fspec :=
  mkFspec (w_ok W a) (let? j := w_enc W a in Ok (name, Some j)).

(** With [omitempty]. *)
Definition fldo {A} (name : string) (W : wire A) (a : A) : fspec :=
  mkFspec (w_ok W a) (if w_empty W a then Ok (name, None) else let? j := w_enc W a in Ok (name, Some j)).

Definition emit (es : list (string * option json)) : list (string * json) :=
  omap (fun e => pair e.1 <$> e.2) es.

Definition struct_ok (l : list fspec) : bool := forallb fs_ok l.
Definition struct_enc (l : list fspec) : result json :=
  let? es := map_result fs_entry l in Ok (JObj (emit es)).

(** The values given for one field, in the order of the document. *)
Fixpoint dec_field {A} (W : wire A) (name : string) (kvs : list (string * json)) (z : A) : result A :=
  match kvs with
  | [] => Ok z
  | (key, j) :: kvs' =>
      if EqualFold key name then let? a := w_dec W j z in dec_field W name kvs' a
      else dec_field W name kvs' z
  end.

Definition dec_struct {A} (ty : string) (fields : list (string * json) -> A -> result A) (j : json) (z : A) : result A :=
  match j with
  | JNull => Ok z
  | JObj kvs => fields kvs z
  | _ => type_error ty
  end.

(** ** Documents *)

Definition json_Marshal {A} (W : wire A) (a : A) : result bytes :=
  let? j := w_enc W a in Ok (json_text j "").

Definition json_Unmarshal {A} (W : wire A) (b : bytes) (z : A) : result A :=
  match read_json b with
  | Some j => w_dec W j z
  | None => Err (errors_New "invalid JSON")
  end.

(** * Lemmas *)

Lemma Marshal_Unmarshal {A} (W : wire A) `{!WireLaws W} a :
  w_ok W a = true -> exists b, json_Marshal W a = Ok b /\ json_Unmarshal W b (w_zero W) = Ok a.
Proof.
  unfold json_Marshal, json_Unmarshal. intros Ho. pose proof (wire_total a Ho) as Ht.
  destruct (w_enc W a) as [j|] eqn:E; [|done]. exists (json_text j ""). split; [done|].
  destruct (wire_roundtrip a j Ho E) as [Hw Hd]. rewrite read_json_text by done. apply Hd, keeps_value_refl.
Qed.

(** What a kept document looks like. *)
Ltac kept_as H := inversion H; subst; clear H.

(** ** Scalars *)

#[export] Instance w_string_laws : WireLaws w_string.
Proof. split; [done|intros a j Ho [= <-]; split; [done|by intros v H; kept_as H]|by intros a ->%str_eqb_eq]. Qed.

#[export] Instance w_bool_laws : WireLaws w_bool.
Proof. split; [done|intros a j Ho [= <-]; split; [done|by intros v H; kept_as H]|by intros []]. Qed.

Lemma pretty_char_val x : (x < 10)%N -> digit_val (pretty_N_char x) = Some (Z.of_N x).
Proof.
  intros Hx. assert (x = 0 \/ x = 1 \/ x = 2 \/ x = 3 \/ x = 4 \/ x = 5 \/ x = 6 \/ x = 7 \/ x = 8 \/ x = 9)%N as Hc by lia.
  by destruct_or! Hc; subst x.
Qed.

Lemma read_dec_pretty_go x s : read_dec 0 (pretty_N_go x s) = read_dec (Z.of_N x) s.
Proof.
  revert s. induction (N.lt_wf_0 x) as [x _ IH]; intros s.
  assert (x = 0 \/ 0 < x)%N as [->|?] by lia; [by rewrite pretty_N_go_0|].
  rewrite pretty_N_go_step, IH by (done || by apply N.div_lt). cbn [read_dec].
  rewrite pretty_char_val by (by apply N.mod_lt). cbn [mbind option_bind]. f_equal.
  rewrite N2Z.inj_div, N2Z.inj_mod. pose proof (Z.div_mod (Z.of_N x) 10). lia.
Qed.

Lemma parse_uint_pretty (n : N) : parse_uint (pretty n) = Some (Z.of_N n).
Proof.
  unfold parse_uint, pretty, pretty_N. case_decide as E; [by subst|].
  destruct (pretty_go_head n "") as (c & r & Hc & _); [lia|].
  pose proof (read_dec_pretty_go n "") as Hr. rewrite Hc in *. exact Hr.
Qed.

Lemma parse_uint_itoa n : 0 <= n -> parse_uint (itoa n) = Some n.
Proof. destruct n as [|p|p]; [done| |lia]. intros _. exact (parse_uint_pretty (Npos p)). Qed.

Lemma parse_int_itoa n : parse_int (itoa n) = Some n.
Proof.
  destruct n as [|p|p]; [done| |].
  - unfold parse_int. pose proof (parse_uint_itoa (Zpos p) ltac:(lia)) as Hp.
    destruct (pretty_N_number (Npos p)) as [Hd _]. change (itoa (Zpos p)) with (pretty (Npos p)) in *.
    destruct (pretty (Npos p)) as [|c r]; [done|]. unfold all_digits in Hd. simpl in Hd. rewrite andb_true_iff in Hd.
    assert (Hm : in_range 45 45 c = false) by (destruct Hd as [Hc _]; destruct c as [[] [] [] [] [] [] [] []]; try discriminate Hc; done).
    by rewrite Hm.
  - change (itoa (Zneg p)) with (String (Ascii.ascii_of_nat 45) (pretty (Npos p))). cbn [parse_int].
    change (in_range 45 45 (Ascii.ascii_of_nat 45)) with true. cbn match. by rewrite parse_uint_pretty.
Qed.

Lemma w_num_laws ty parse lo hi :
  (forall n, lo <= n -> parse (itoa n) = Some n) -> WireLaws (w_num ty parse lo hi).
Proof.
  intros Hp. split; [done| |intros a E; symmetry; by apply Z.eqb_eq]. intros n j Ho [= <-]. simpl in *. split; [by destruct (itoa_number n) as [-> ->]|].
  intros v H. kept_as H. rewrite (H1 n eq_refl), Hp, Ho; [done|]. unfold in_width in Ho. lia.
Qed.

#[export] Instance w_uint64_laws : WireLaws w_uint64.
Proof. apply w_num_laws, parse_uint_itoa. Qed.
#[export] Instance w_int64_laws : WireLaws w_int64.
Proof. apply w_num_laws. intros n _. apply parse_int_itoa. Qed.
#[export] Instance w_int_laws : WireLaws w_int.
Proof. apply w_num_laws. intros n _. apply parse_int_itoa. Qed.

(** ** Times *)

Definition ascii_only (s : string) : bool := forallb is_ascii (String.list_ascii_of_string s).

Lemma ascii_only_valid s : ascii_only s = true -> utf8_valid s = true.
Proof.
  unfold ascii_only. induction s as [|c s IH]; simpl; [done|]. rewrite andb_true_iff. intros [-> Hs]. auto.
Qed.

Lemma ascii_only_app s t : ascii_only (s +:+ t) = ascii_only s && ascii_only t.
Proof.
  unfold ascii_only. induction s as [|c s IH]; [done|]. rewrite app_cons_s. simpl. by rewrite IH, andb_assoc.
Qed.

Lemma ascii_only_cons c s : ascii_only (String c s) = is_ascii c && ascii_only s.
Proof. done. Qed.

Lemma digit_char_ascii n : 0 <= n < 10 -> is_ascii (digit_char n) = true.
Proof.
  intros Hn. unfold is_ascii, in_range, digit_char. rewrite Ascii.N_ascii_embedding by lia.
  rewrite andb_true_iff, !N.leb_le. lia.
Qed.

Lemma digits_ascii k n : 0 <= n < 10 ^ Z.of_nat k -> ascii_only (digits k n) = true.
Proof.
  revert n. induction k as [|k IH]; intros n Hn; [done|]. cbn [digits]. rewrite ascii_only_cons.
  rewrite digit_char_ascii by (by apply digit_range). simpl. apply IH. apply Z.mod_pos_bound, pow10_pos.
Qed.

Lemma frac_digits_ascii k n : 0 <= n < 10 ^ Z.of_nat k -> ascii_only (frac_digits k n) = true.
Proof.
  revert n. induction k as [|k IH]; intros n Hn; [done|]. cbn [frac_digits]. destruct (n =? 0); [done|].
  rewrite ascii_only_cons, digit_char_ascii by (by apply digit_range). simpl. apply IH. apply Z.mod_pos_bound, pow10_pos.
Qed.

Lemma Format_RFC3339Nano_ascii t : year_ok t = true -> ascii_only (Format_RFC3339Nano t) = true.
Proof.
  unfold year_ok. rewrite andb_true_iff, !Z.leb_le. intros Hy. unfold Format_RFC3339Nano, date_text.
  destruct (instant_of_clock t) as (_ & Hc & ? & ? & ? & Hn). apply clock_ok_spec in Hc as (? & ? & ? & ? & ?).
  revert Hy Hn. generalize dependent (clock_of t). intros c Hh Hm Hs Hmon Hday Hhr Hmin Hsec Hy Hn.
  assert (Hf : ascii_only (frac_text (k_nsec c) (String c_Z "")) = true).
  { unfold frac_text. destruct (_ =? 0); [done|]. rewrite ascii_only_cons, ascii_only_app.
    by rewrite (frac_digits_ascii 9 (k_nsec c) Hn). }
  revert Hf. generalize (frac_text (k_nsec c) (String c_Z "")). intros f Hf.
  assert (Hd : forall k n s, 0 <= n < 10 ^ Z.of_nat k -> ascii_only (digits k n +:+ s) = ascii_only s)
    by (intros k n s Hk; by rewrite ascii_only_app, (digits_ascii k n Hk)).
  pose proof (fun n s => Hd 4%nat n s) as H4. pose proof (fun n s => Hd 2%nat n s) as H2. clear Hd.
  change (10 ^ Z.of_nat 4) with 10000 in H4. change (10 ^ Z.of_nat 2) with 100 in H2.
  rewrite H4 by lia. do 5 (rewrite ascii_only_cons; rewrite H2 by lia). by rewrite Hf.
Qed.

#[export] Instance w_time_laws : WireLaws w_time.
Proof.
  split; [intros t E; cbn [w_time w_ok w_enc] in *; by rewrite E| |done]. intros t j _ H. cbn [w_time w_enc] in H. destruct (year_ok t) eqn:E; [|done]. injection H as <-.
  cbn [json_wf w_time w_dec]. split.
  - by apply ascii_only_valid, Format_RFC3339Nano_ascii.
  - intros v H. kept_as H. by rewrite Parse_Format_RFC3339Nano.
Qed.

(** ** Bytes *)

(** The alphabet: ASCII, and no line break. *)
Definition b64_text_char (c : Ascii.ascii) : bool := is_ascii c && negb (in_range 10 10 c || in_range 13 13 c).

Lemma b64_char_text n : (n < 64)%N -> b64_text_char (b64_char n) = true.
Proof.
  intros Hn. assert (Hall : forallb (fun i => b64_text_char (b64_char (N.of_nat i))) (seq 0 64) = true) by (vm_compute; reflexivity).
  rewrite forallb_forall in Hall. specialize (Hall (N.to_nat n)). rewrite N2Nat.id, in_seq in Hall. apply Hall. lia.
Qed.

Lemma EncodeToString_text b : forallb b64_text_char (String.list_ascii_of_string (EncodeToString b)) = true.
Proof.
  induction b as [|x|x y|x y z b IH] using string_ind3; [done| | |]; cbn [EncodeToString String.list_ascii_of_string forallb];
    rewrite ?b64_char_text by b64_arith; by rewrite ?IH.
Qed.

Lemma strip_breaks_text s : forallb b64_text_char (String.list_ascii_of_string s) = true -> strip_breaks s = s.
Proof.
  induction s as [|c s IH]; simpl; [done|]. rewrite andb_true_iff. unfold b64_text_char at 1.
  rewrite andb_true_iff, negb_true_iff. intros [[_ ->] Hs]. by rewrite IH.
Qed.

Lemma EncodeToString_utf8 b : utf8_valid (EncodeToString b) = true.
Proof.
  apply ascii_only_valid. unfold ascii_only. pose proof (EncodeToString_text b) as H. rewrite !forallb_forall in *.
  intros c Hc. specialize (H c Hc). unfold b64_text_char in H. by apply andb_true_iff in H as [-> _].
Qed.

#[export] Instance w_bytes_laws : WireLaws w_bytes.
Proof.
  split; [done| |by intros a ->%str_eqb_eq]. intros b j _ [= <-]. simpl. destruct (str_eqb b "") eqn:E.
  { apply str_eqb_eq in E as ->. split; [done|]. by intros v H; kept_as H. }
  simpl. rewrite EncodeToString_utf8. split; [done|]. intros v H. kept_as H.
  rewrite strip_breaks_text by apply EncodeToString_text. apply b64_decode_encode.
Qed.

(** ** Slices and pointers *)

Lemma map_result_total {A B} (f : A -> result B) l :
  Forall (fun a => is_Ok (f a) = true) l -> is_Ok (map_result f l) = true.
Proof. induction 1 as [|a l Ha _ IH]; simpl; [done|]. destruct (f a); [|done]. by destruct (map_result f l). Qed.

Lemma w_slice_total {A} (W : wire A) `{!WireLaws W} l : w_ok (w_slice W) l = true -> is_Ok (w_enc (w_slice W) l) = true.
Proof.
  cbn [w_slice w_ok]. rewrite forallb_forall. intros Ho. destruct l as [|x l]; [done|]. cbn [w_slice w_enc].
  assert (H : is_Ok (map_result (w_enc W) (x :: l)) = true).
  { apply map_result_total, Forall_forall. intros a Ha. apply wire_total, Ho. by apply list_elem_of_In. }
  by destruct (map_result _ _).
Qed.

#[export] Instance w_slice_laws {A} (W : wire A) `{!WireLaws W} : WireLaws (w_slice W).
Proof.
  split; [exact (w_slice_total W)| |by intros []]. intros [|x l] j Ho H; [injection H as <-; split; [done|by intros v H; kept_as H]|]. cbn [w_slice w_enc] in H.
  destruct (map_result _ _) as [js|] eqn:E; [|done]. injection H as <-. apply map_result_Ok in E.
  cbn [w_slice w_ok] in Ho. rewrite forallb_forall in Ho.
  assert (Hall : Forall2 (fun a j => json_wf j = true /\ forall v, keeps_value j v -> w_dec W v (w_zero W) = Ok a) (x :: l) js).
  { clear - E Ho WireLaws0. induction E as [|a j l' js Hj _ IH]; [constructor|].
    constructor; [apply wire_roundtrip; [apply Ho; by left|done]|]. apply IH. intros y Hy. apply Ho. by right. }
  cbn [json_wf w_slice w_dec]. split.
  - apply forallb_forall. intros j' Hj. apply list_elem_of_In in Hj.
    apply list_elem_of_lookup in Hj as [i Hi]. destruct (Forall2_lookup_r _ _ _ _ _ Hall Hi) as (? & _ & ? & _). done.
  - intros v H. kept_as H. apply map_result_Ok, Forall2_flip.
    eapply Forall2_trans; [|exact Hall|eassumption]. intros a j v [_ Hd]. apply Hd.
Qed.

(** The types whose values are never written as [null]: a pointer to one, or a
    slice element, can be told from nil. *)
Class WireNonNull {A} (W : wire A) : Prop := wire_nonnull : forall a, w_enc W a <> Ok JNull.

#[export] Instance w_time_nonnull : WireNonNull w_time.
Proof. intros t. simpl. by destruct (year_ok t). Qed.

#[export] Instance w_ptr_laws {A} (W : wire A) `{!WireLaws W, !WireNonNull W} : WireLaws (w_ptr W).
Proof.
  split; [intros [a|] Ho; [exact (wire_total (W := W) a Ho)|done]| |by intros []].
  intros [a|] j Ho H; [|injection H as <-; split; [done|by intros v H; kept_as H]]. simpl in *.
  destruct (wire_roundtrip a j Ho H) as [Hw Hd]. split; [done|]. pose proof (wire_nonnull (W := W) a) as Hn.
  intros v Hv. rewrite (Hd v Hv). by destruct v; kept_as Hv.
Qed.

#[export] Instance w_elem_laws {A} (W : wire A) `{!WireLaws W, !WireNonNull W} : WireLaws (w_elem W).
Proof.
  split; [exact (wire_total (W := W))| |done]. intros a j Ho H. simpl in *. destruct (wire_roundtrip a j Ho H) as [Hw Hd].
  split; [done|]. pose proof (wire_nonnull (W := W) a). intros v Hv. rewrite (Hd v Hv). by destruct v; kept_as Hv.
Qed.

(** ** Structs *)

Lemma struct_enc_Ok l j :
  struct_enc l = Ok j -> exists es, j = JObj (emit es) /\ Forall2 (fun f e => fs_entry f = Ok e) l es.
Proof.
  unfold struct_enc. destruct (map_result _ _) as [es|] eqn:E; [|done]. intros [= <-]. exists es. split; [done|].
  by apply map_result_Ok.
Qed.

Lemma struct_enc_total l : Forall (fun f => is_Ok (fs_entry f) = true) l -> is_Ok (struct_enc l) = true.
Proof. intros H%map_result_total. unfold struct_enc. by destruct (map_result _ _). Qed.

Lemma fld_total {A} (W : wire A) `{!WireLaws W} name a : w_ok W a = true -> is_Ok (fs_entry (fld name W a)) = true.
Proof. intros H%wire_total. simpl. by destruct (w_enc W a). Qed.

Lemma fldo_total {A} (W : wire A) `{!WireLaws W} name a : w_ok W a = true -> is_Ok (fs_entry (fldo name W a)) = true.
Proof. intros H%(fld_total W name). cbn [fldo fs_entry]. by destruct (w_empty W a). Qed.

Lemma struct_enc_nonnull l : struct_enc l <> Ok JNull.
Proof. intros (es & [=] & _)%struct_enc_Ok. Qed.

(** What a written entry is read as. *)
Definition entry_reads {A} (W : wire A) (a : A) (o : option json) : Prop :=
  match o with
  | Some j => json_wf j = true /\ forall v, keeps_value j v -> w_dec W v (w_zero W) = Ok a
  | None => a = w_zero W
  end.

Lemma fld_reads {A} (W : wire A) `{!WireLaws W} name a e :
  w_ok W a = true -> fs_entry (fld name W a) = Ok e -> exists o, e = (name, o) /\ entry_reads W a o.
Proof.
  simpl. destruct (w_enc W a) as [j|] eqn:E; [|done]. intros Ho [= <-]. exists (Some j). split; [done|].
  by apply wire_roundtrip.
Qed.

Lemma fldo_reads {A} (W : wire A) `{!WireLaws W} name a e :
  w_ok W a = true -> fs_entry (fldo name W a) = Ok e -> exists o, e = (name, o) /\ entry_reads W a o.
Proof.
  intros Ho. cbn [fldo fs_entry]. destruct (w_empty W a) eqn:Ee; [|by apply fld_reads].
  intros [= <-]. exists None. split; [done|]. by apply wire_empty.
Qed.

(** The keys of a struct are told apart. *)
Definition unique_key (name : string) (keys : list string) : bool :=
  bool_decide (length (List.filter (fun k => EqualFold k name) keys) = 1%nat).

(** The members given for one field. *)
Definition given (name : string) : list (string * json) -> list (string * json) :=
  List.filter (fun kv => EqualFold kv.1 name).

Lemma dec_field_given {A} (W : wire A) name kvs z :
  dec_field W name kvs z = match given name kvs with
                           | [] => Ok z
                           | [kv] => w_dec W kv.2 z
                           | _ => dec_field W name kvs z
                           end.
Proof.
  revert z. induction kvs as [|[k j] kvs IH]; intros z; [done|]. unfold given in *. simpl. destruct (EqualFold k name) eqn:E; [|apply IH].
  destruct (List.filter _ kvs) eqn:F; [|done]. simpl. destruct (w_dec W j z) as [a|]; [|done]. simpl. by rewrite IH.
Qed.

Lemma given_emit name es : given name (emit es) = emit (List.filter (fun e => EqualFold e.1 name) es).
Proof.
  unfold given, emit. induction es as [|[k [j|]] es IH]; [done|..]; csimpl; destruct (EqualFold k name); csimpl; by rewrite IH.
Qed.

(** The members a database kept of a struct's. *)
Definition kept (es : list (string * option json)) (kvs : list (string * json)) : Prop :=
  exists m, m ≡ₚ emit es /\ Forall2 (fun a b => a.1 = b.1 /\ keeps_value a.2 b.2) m kvs.

Lemma kept_given name es kvs : kept es kvs -> kept (List.filter (fun e => EqualFold e.1 name) es) (given name kvs).
Proof.
  intros (m & Hm & Hf). exists (given name m). split.
  - rewrite <-given_emit. by apply List_filter_perm.
  - clear Hm. unfold given. induction Hf as [|a b m kvs [Ek Hv] _ IH]; [constructor|]. simpl. rewrite Ek.
    destruct (EqualFold b.1 name); [|done]. by constructor.
Qed.

Lemma keeps_struct es v :
  bool_decide (NoDup es.*1) = true -> keeps_value (JObj (emit es)) v -> exists kvs, v = JObj kvs /\ kept es kvs.
Proof.
  rewrite bool_decide_eq_true. intros Hn H. kept_as H. eexists. split; [done|]. apply H1. clear - Hn.
  induction es as [|[k [j|]] es IH]; [constructor|..]; csimpl; apply NoDup_cons in Hn as [Hk Hn]; [|by apply IH].
  constructor; [|by apply IH]. contradict Hk. apply list_elem_of_fmap in Hk as (kv & -> & Hin).
  apply list_elem_of_omap in Hin as (e & Hin & E). apply list_elem_of_fmap. exists e. split; [|done].
  by destruct (e.2); simplify_eq/=.
Qed.

Lemma filter_fst name (es : list (string * option json)) :
  (List.filter (fun e => EqualFold e.1 name) es).*1 = List.filter (fun k => EqualFold k name) es.*1.
Proof. induction es as [|[k o] es IH]; [done|]. simpl. destruct (EqualFold k name); csimpl; by rewrite IH. Qed.

Lemma unique_entry name es o :
  unique_key name es.*1 = true -> (name, o) ∈ es ->
  List.filter (fun e : string * option json => EqualFold e.1 name) es = [(name, o)].
Proof.
  unfold unique_key. rewrite bool_decide_eq_true. intros Hu Hin.
  assert (Hi : In (name, o) (List.filter (fun e => EqualFold e.1 name) es))
    by (apply List.filter_In; split; [by apply list_elem_of_In|apply EqualFold_refl]).
  rewrite <-filter_fst, length_fmap in Hu. destruct (List.filter _ es) as [|e [|]]; [done| |done]. by destruct Hi as [->|[]].
Qed.

Lemma dec_field_kept {A} (W : wire A) name es kvs z a o :
  kept es kvs -> z = w_zero W -> unique_key name es.*1 = true -> (name, o) ∈ es -> entry_reads W a o ->
  dec_field W name kvs z = Ok a.
Proof.
  intros Hk -> Hu Hin Hr. apply (kept_given name) in Hk as (m & Hm & Hf). rewrite (unique_entry _ _ _ Hu Hin) in Hm.
  rewrite dec_field_given. destruct o as [j|]; csimpl in Hm.
  - apply Permutation_singleton_r in Hm as ->. apply Forall2_cons_inv_l in Hf as ([k v] & l & [_ Hv] & Hl & ->).
    apply Forall2_nil_inv_l in Hl as ->. destruct Hr as [_ Hr]. by apply Hr.
  - apply Permutation_nil_r in Hm as ->. apply Forall2_nil_inv_l in Hf as ->. by rewrite Hr.
Qed.

Lemma emit_wf es :
  Forall (fun e => utf8_valid e.1 = true /\ from_option json_wf true e.2 = true) es -> json_wf (JObj (emit es)) = true.
Proof.
  induction 1 as [|[k [j|]] es [Hk Hj] _ IH]; simpl in *; [done| |done]. by rewrite Hk, Hj, IH.
Qed.

Lemma entry_reads_wf {A} (W : wire A) a o : entry_reads W a o -> from_option json_wf true o = true.
Proof. by destruct o; [intros []|]. Qed.

(** [struct_roundtrip] proves the law of a struct: it opens the entries of the
    document and decodes each field from its own. *)
Ltac in_entries := first [apply list_elem_of_here|apply list_elem_of_further; in_entries].

Ltac open_entries :=
  repeat match goal with
  | H : Forall2 _ (_ :: _) _ |- _ =>
      let e := fresh "e" in let es := fresh "es" in let He := fresh "He" in let Hes := fresh "Hes" in
      apply Forall2_cons_inv_l in H as (e & es & He & Hes & ->)
  | H : Forall2 _ [] _ |- _ => apply Forall2_nil_inv_l in H as ->
  | H : fs_entry (fld _ _ _) = Ok _ |- _ =>
      let o := fresh "o" in let Hr := fresh "Hr" in apply fld_reads in H as (o & -> & Hr); [|first [assumption|reflexivity|apply _]..]
  | H : fs_entry (fldo _ _ _) = Ok _ |- _ =>
      let o := fresh "o" in let Hr := fresh "Hr" in apply fldo_reads in H as (o & -> & Hr); [|first [assumption|reflexivity|apply _]..]
  end.

Ltac struct_total W fields :=
  let a := fresh "a" in let Ho := fresh "Ho" in
  intros a Ho; cbn [w_ok w_enc W] in Ho |- *; unfold fields in Ho |- *; apply struct_enc_total;
  unfold struct_ok in Ho; cbn [forallb fld fldo fs_ok] in Ho; rewrite !andb_true_iff in Ho; destruct_and? Ho;
  repeat (apply Forall_cons_2;
    [lazymatch goal with |- is_Ok (fs_entry (fld _ ?V _)) = _ => apply (fld_total V) | |- is_Ok (fs_entry (fldo _ ?V _)) = _ => apply (fldo_total V) end;
     assumption|]); apply Forall_nil_2.

Ltac struct_roundtrip W fields :=
  let a := fresh "a" in let j := fresh "j" in let Ho := fresh "Ho" in let H := fresh "H" in
  intros a j Ho H; cbn [w_ok w_enc W] in Ho, H; unfold fields in Ho, H;
  apply struct_enc_Ok in H as (es & -> & H);
  unfold struct_ok in Ho; cbn [forallb fld fldo fs_ok] in Ho; rewrite !andb_true_iff in Ho; destruct_and? Ho;
  open_entries; split;
  [apply emit_wf; repeat (apply Forall_cons_2; [split; [reflexivity|cbn [snd]; eapply entry_reads_wf; eassumption]|]); apply Forall_nil_2
  |let v := fresh "v" in let Hv := fresh "Hv" in let kvs := fresh "kvs" in
   intros v Hv; apply keeps_struct in Hv as (kvs & -> & Hv); [|vm_compute; reflexivity];
   cbn [w_dec dec_struct W];
   repeat (erewrite dec_field_kept; [|exact Hv|reflexivity|vm_compute; reflexivity|in_entries|eassumption]; cbn match);
   first [by destruct a|idtac]].
