(* ===== verification/Procedures.v ===== *)
(** * The database and its procedures

    [src/migrations/trust_anchor/V1__create_trust_anchor_schema.sql] (the two tables),
    [R__trust_anchor_procedures.sql] (the four procedures the PostgreSQL store calls)
    and the result envelopes of [src/migrations/util/V1__create_util_schema.sql].  The
    database engine is the parameter [PgEngine]: the type [jsonb], casts from text, and
    what may go wrong with a statement or with the connection.  The columns that no
    procedure reads ([row_id], [created_at]) are left out. *)

From S2P Require Import Prelude GoTime Json JsonText Wire.

(** ** [jsonb] *)

(** Members are kept in the order of their keys: the shorter first, then by bytes. *)
Definition jsonb_key_lt (a b : string) : bool :=
  (String.length a <? String.length b)%nat || bool_decide (String.length a = String.length b) && str_ltb a b.

Fixpoint increasing (keys : list string) : bool :=
  match keys with
  | a :: (b :: _) as keys' => jsonb_key_lt a b && increasing keys'
  | _ => true
  end.

Fixpoint canonical (j : json) : bool :=
  match j with
  | JArr l => forallb canonical l
  | JObj kvs => increasing kvs.*1 && forallb (fun kv => canonical kv.2) kvs
  | _ => true
  end.

Definition jsonb_ok (j : json) : bool := json_wf j && canonical j.

Record jsonb := mkJsonb { jb_value : json; jb_ok : jsonb_ok jb_value = true }.

(** A value that is an object: both tables hold only such, for a procedure stores
    nothing but documents with a member it asks for. *)
Record document := mkDocument { doc_members : list (string * json); doc_ok : jsonb_ok (JObj doc_members) = true }.

Definition doc_value (d : document) : json := JObj (doc_members d).

Definition as_document (v : jsonb) : option document :=
  match v with mkJsonb (JObj kvs) ok => Some (mkDocument kvs ok) | _ => None end.

(** [jsonb_build_object] with distinct keys. *)
Definition jsonb_build_object (kvs : list (string * json)) : json :=
  JObj (go_sort (fun a b => jsonb_key_lt a.1 b.1) kvs).

(** How a request ends: with an answer, or with the connection lost before or after
    the transaction was committed. *)
Inductive pg_link := LinkUp | LinkLost (committed : bool) (e : error).

Class PgEngine := {
  jsonb_in : bytes -> result jsonb;                 (* [text::jsonb] *)
  jsonb_out : json -> bytes;                        (* the text of a [jsonb] value *)
  timestamptz_in : string -> result time;
  bigint_in : string -> result Z;
  integer_in : string -> result Z;
  boolean_in : string -> result bool;
  (** the clock, the statement of the procedure and the connection at the n-th call *)
  pg_now : nat -> time;
  statement_fault : nat -> option error;
  pg_connection : nat -> pg_link
}.

(** What [jsonb] promises: the value of the document it was given, and a text that
    reads as the value it holds. *)
Class PgEngineLaws `{PgEngine} : Prop := {
  jsonb_keeps : forall b j v, read_json b = Some j -> jsonb_in b = Ok v -> keeps_value j (jb_value v);
  jsonb_text : forall j, jsonb_ok j = true -> read_json (jsonb_out j) = Some j
}.

(** ** The tables *)

Record snapshot_row := mkSnapshotRow {
  sr_seq : Z;
  sr_snapshot_id : string;
  sr_prev_id : option string;
  sr_generated_at : time;
  sr_lotl_sequence : Z;
  sr_content : document
}.

Record bootstrap_row := mkBootstrapRow {
  br_seq : Z;
  br_version : Z;
  br_oj_reference : string;
  br_seeded : bool;
  br_activated_at : time;
  br_content : document
}.

Record PgDb := mkPgDb {
  db_snapshot : list snapshot_row;
  db_bootstrap : list bootstrap_row;
  (** calls made so far *)
  db_calls : nat
}.

Definition empty_db : PgDb := mkPgDb [] [] 0.
Definition set_db_snapshot (db : PgDb) (rows : list snapshot_row) : PgDb := mkPgDb rows (db_bootstrap db) (db_calls db).
Definition set_db_bootstrap (db : PgDb) (rows : list bootstrap_row) : PgDb := mkPgDb (db_snapshot db) rows (db_calls db).
Definition called (db : PgDb) : PgDb := mkPgDb (db_snapshot db) (db_bootstrap db) (S (db_calls db)).

(** [GENERATED ALWAYS AS IDENTITY]: above every number given before. *)
Definition next_identity (seqs : list Z) : Z := 1 + foldr Z.max 0 seqs.

(** [ORDER BY ... LIMIT 1], where [before a b] puts [a] first. *)
Definition first_row {R} (before : R -> R -> bool) (rows : list R) : option R :=
  foldr (fun r acc => match acc with None => Some r | Some a => Some (if before a r then a else r) end) None rows.

(** ** The procedures *)

Section Procedures.
Context `{PgEngine}.

(** [v->>'key']: [None] is SQL's [NULL]. *)
Definition arrow_text (v : json) (key : string) : option string :=
  match v with
  | JObj kvs =>
      match snd <$> List.find (fun kv => str_eqb kv.1 key) kvs with
      | None | Some JNull => None
      | Some (JStr s) => Some s
      | Some (JNum l) => Some l
      | Some (JBool b) => Some (if b then "true" else "false")
      | Some j => Some (jsonb_out j)
      end
  | _ => None
  end.

(** [COALESCE(t::type, d)] and [NULLIF(t, '')]. *)
Definition coalesce_cast {A} (cast : string -> result A) (t : option string) (d : A) : result A :=
  match t with Some s => cast s | None => Ok d end.
Definition nullif_empty (t : option string) : option string :=
  match t with Some s => if str_eqb s "" then None else Some s | None => None end.

Definition result_success (data : option json) : json :=
  jsonb_build_object [("result", JStr "success"); ("data", default (JObj []) data)].
Definition result_error (code message : string) : json :=
  jsonb_build_object [("result", JStr "error"); ("code", JStr code); ("message", JStr message)].

(** A procedure returns its [po_data], or raises P0001 with a message, which rolls
    the transaction back. *)
Inductive proc_result := Returned (po_data : json) (db : PgDb) | Raised (message : bytes).

(** The exception block of every procedure. *)
Definition guarded (code : string) (body : result (json * PgDb)) : proc_result :=
  match body with
  | Ok (po_data, db) => Returned po_data db
  | Err sqlerrm => Raised (jsonb_out (result_error code (err_Error sqlerrm)))
  end.

(** The statement against the table. *)
Definition statement (db : PgDb) : result unit :=
  match statement_fault (db_calls db) with Some e => Err e | None => Ok tt end.

Definition save_snapshot (pi_data : jsonb) (db : PgDb) : proc_result :=
  let v := jb_value pi_data in
  guarded "trust_anchor:save_snapshot_failed"
    match arrow_text v "id", as_document pi_data with
    | Some v_id, Some content =>
        if str_eqb v_id "" then Ok (result_error "trust_anchor:invalid" "snapshot id is required", db)
        else
          let? generated_at := coalesce_cast timestamptz_in (arrow_text v "generatedAt") (pg_now (db_calls db)) in
          let? lotl_sequence := coalesce_cast bigint_in (arrow_text v "lotlSequence") 0 in
          let? _ := statement db in
          let row := mkSnapshotRow (next_identity (sr_seq <$> db_snapshot db)) v_id (nullif_empty (arrow_text v "prevId"))
                       generated_at lotl_sequence content in
          Ok (result_success (Some (jsonb_build_object [("snapshotId", JStr v_id)])), set_db_snapshot db (db_snapshot db ++ [row]))
    | _, _ => Ok (result_error "trust_anchor:invalid" "snapshot id is required", db)
    end.

Definition save_bootstrap (pi_data : jsonb) (db : PgDb) : proc_result :=
  let v := jb_value pi_data in
  guarded "trust_anchor:save_bootstrap_failed"
    match arrow_text v "version", as_document pi_data with
    | Some version, Some content =>
        let? v_version := integer_in version in
        let? seeded := coalesce_cast boolean_in (arrow_text v "seeded") false in
        let? activated_at := coalesce_cast timestamptz_in (arrow_text v "activatedAt") (pg_now (db_calls db)) in
        let? _ := statement db in
        let row := mkBootstrapRow (next_identity (br_seq <$> db_bootstrap db)) v_version
                     (default "" (arrow_text v "ojReference")) seeded activated_at content in
        Ok (result_success (Some (jsonb_build_object [("version", JNum (itoa v_version))])),
            set_db_bootstrap db (db_bootstrap db ++ [row]))
    | _, _ => Ok (result_error "trust_anchor:invalid" "bootstrap version is required", db)
    end.

(** [ORDER BY seq DESC LIMIT 1]. *)
Definition latest_snapshot (db : PgDb) : option document :=
  sr_content <$> first_row (fun a b => sr_seq b <? sr_seq a) (db_snapshot db).

(** [ORDER BY version DESC, seq DESC LIMIT 1]. *)
Definition latest_bootstrap (db : PgDb) : option document :=
  br_content <$> first_row (fun a b => (br_version b <? br_version a) || (br_version b =? br_version a) && (br_seq b <? br_seq a))
    (db_bootstrap db).

Definition load_latest_snapshot (db : PgDb) : proc_result :=
  guarded "trust_anchor:load_snapshot_failed"
    (let? _ := statement db in
     Ok (result_success (Some (jsonb_build_object [("snapshot", from_option doc_value JNull (latest_snapshot db))])), db)).

Definition load_latest_bootstrap (db : PgDb) : proc_result :=
  guarded "trust_anchor:load_bootstrap_failed"
    (let? _ := statement db in
     Ok (result_success (Some (jsonb_build_object [("bootstrap", from_option doc_value JNull (latest_bootstrap db))])), db)).

(** ** Calls *)

Definition pg_call_query (proc : string) : string := "CALL " +:+ proc +:+ "($1::jsonb, NULL::jsonb)".

Definition save_snapshot_proc : string := "trust_anchor.save_snapshot".
Definition load_snapshot_proc : string := "trust_anchor.load_latest_snapshot".
Definition save_bootstrap_proc : string := "trust_anchor.save_bootstrap".
Definition load_bootstrap_proc : string := "trust_anchor.load_latest_bootstrap".

(** What a [CALL] answers: the row of its [INOUT] parameter, an error raised by
    the server with its SQLSTATE and message, or any other failure. *)
Inductive pg_answer := PgRow (out : bytes) | PgError (code message : string) (e : error) | PgFailed (e : error).

Definition pg_error (code message : string) : pg_answer :=
  PgError code message (errors_New ("ERROR: " +:+ message +:+ " (SQLSTATE " +:+ code +:+ ")")).

Definition run_procedure (query : string) (pi_data : jsonb) (db : PgDb) : option proc_result :=
  if str_eqb query (pg_call_query save_snapshot_proc) then Some (save_snapshot pi_data db)
  else if str_eqb query (pg_call_query save_bootstrap_proc) then Some (save_bootstrap pi_data db)
  else if str_eqb query (pg_call_query load_snapshot_proc) then Some (load_latest_snapshot db)
  else if str_eqb query (pg_call_query load_bootstrap_proc) then Some (load_latest_bootstrap db)
  else None.

(** The statement as the server executes it: its answer and the committed state. *)
Definition execute (query : string) (input : bytes) (db : PgDb) : pg_answer * PgDb :=
  match jsonb_in input with
  | Err e => (pg_error "22P02" (err_Error e), db)
  | Ok pi_data =>
      match run_procedure query pi_data db with
      | None => (pg_error "42883" "procedure does not exist", db)
      | Some (Raised message) => (pg_error "P0001" message, db)
      | Some (Returned po_data db') => (PgRow (jsonb_out po_data), db')
      end
  end.

(** [pool.QueryRow(...).Scan]: one call over the connection. *)
Definition pg_QueryRow (query : string) (input : bytes) (db : PgDb) : pg_answer * PgDb :=
  match pg_connection (db_calls db) with
  | LinkLost false e => (PgFailed e, called db)
  | LinkLost true e => (PgFailed e, called (execute query input db).2)
  | LinkUp => let '(ans, db') := execute query input db in (ans, called db')
  end.
End Procedures.

(** * Lemmas *)

Lemma next_identity_above seqs n : n ∈ seqs -> n < next_identity seqs.
Proof.
  unfold next_identity. induction seqs as [|x seqs IH]; [by intros ?%elem_of_nil|]. simpl.
  intros [->|Hn]%elem_of_cons; [lia|]. specialize (IH Hn). lia.
Qed.

(** A row that comes before all others is the one found. *)
Lemma first_row_last {R} (before : R -> R -> bool) rows r :
  (forall x, x ∈ rows -> before r x = true) -> first_row before (rows ++ [r]) = Some r.
Proof.
  intros Hb. unfold first_row. induction rows as [|x rows IH]; [done|]. simpl.
  rewrite IH by (intros y Hy; apply Hb; by apply list_elem_of_further). by rewrite Hb by apply list_elem_of_here.
Qed.

Lemma first_row_none {R} (before : R -> R -> bool) rows : first_row before rows = None -> rows = [].
Proof. destruct rows as [|x rows]; [done|]. simpl. unfold first_row. simpl. by destruct (foldr _ _ _). Qed.

Section ProcedureLemmas.
Context `{PgEngine}.

Lemma as_document_value v d : as_document v = Some d -> doc_value d = jb_value v.
Proof. destruct v as [[]]; simpl; try done. by intros [= <-]. Qed.

(** The insert of a snapshot makes it the latest. *)
Lemma save_snapshot_returns v db po db' :
  save_snapshot v db = Returned po db' ->
  db_bootstrap db' = db_bootstrap db /\ db_calls db' = db_calls db /\
  ((exists d, latest_snapshot db' = Some d /\ doc_value d = jb_value v) \/
   db' = db /\ po = result_error "trust_anchor:invalid" "snapshot id is required").
Proof.
  unfold save_snapshot, guarded. destruct (arrow_text _ "id") as [v_id|]; [|intros [= <- <-]; auto].
  destruct (as_document v) as [d|] eqn:Ed; [|intros [= <- <-]; auto].
  destruct (str_eqb v_id ""); [intros [= <- <-]; auto|].
  destruct (coalesce_cast timestamptz_in _ _) as [t|]; [|done]. destruct (coalesce_cast bigint_in _ _) as [n|]; [|done].
  destruct (statement db); [|done]. intros [= <- <-]. split; [done|]. split; [done|]. left. exists d.
  split; [|by apply as_document_value]. unfold latest_snapshot. simpl. rewrite first_row_last; [done|].
  intros x Hx. simpl. apply Z.ltb_lt, next_identity_above. by apply list_elem_of_fmap_2.
Qed.

(** The insert of a bootstrap into an empty table makes it the latest. *)
Lemma save_bootstrap_returns v db po db' :
  save_bootstrap v db = Returned po db' ->
  db_snapshot db' = db_snapshot db /\ db_calls db' = db_calls db /\
  ((exists d, (latest_bootstrap db = None -> latest_bootstrap db' = Some d) /\ doc_value d = jb_value v) \/
   db' = db /\ po = result_error "trust_anchor:invalid" "bootstrap version is required").
Proof.
  unfold save_bootstrap, guarded. destruct (arrow_text _ "version") as [version|]; [|intros [= <- <-]; auto].
  destruct (as_document v) as [d|] eqn:Ed; [|intros [= <- <-]; auto].
  destruct (integer_in version) as [n|]; [|done]. destruct (coalesce_cast boolean_in _ _) as [sd|]; [|done].
  destruct (coalesce_cast timestamptz_in _ _) as [t|]; [|done]. destruct (statement db); [|done]. intros [= <- <-].
  split; [done|]. split; [done|]. left. exists d. split; [|by apply as_document_value]. unfold latest_bootstrap.
  destruct (first_row _ (db_bootstrap db)) eqn:E; [done|]. apply first_row_none in E. intros _. simpl. by rewrite E.
Qed.

Lemma result_success_eq d : result_success (Some d) = JObj [("data", d); ("result", JStr "success")].
Proof. reflexivity. Qed.

Lemma jsonb_build_one k j : jsonb_build_object [(k, j)] = JObj [(k, j)].
Proof. reflexivity. Qed.
End ProcedureLemmas.
