(* ===== verification/ContentId.v ===== *)
(** * Snapshot identity

    [Snapshot.ComputeID] of [src/trust/anchor.go]: the projection of a snapshot
    that defines its content hash, its JSON text and the id. *)

From S2P Require Import Prelude Model Json Samples.

Record idAnchor := mkIdAnchor {
  ia_Fingerprint : string;
  ia_Status : string;
  ia_QSCD : bool;
  ia_Uses : list string;
  ia_Source : string;
  ia_Type : string;
  ia_UseCases : list string
}.

Record idTerritory := mkIdTerritory {
  it_Code : string;
  it_TLSequence : Z;
  it_Anchors : list idAnchor
}.

Record idContent := mkIdContent {
  ic_LOTLSequence : Z;
  ic_Territories : list idTerritory;
  ic_Internal : list idAnchor;
  ic_Pending : list string
}.

#[global] Instance idAnchor_eq_dec : EqDecision idAnchor.
Proof. solve_decision. Defined.
#[global] Instance idTerritory_eq_dec : EqDecision idTerritory.
Proof. solve_decision. Defined.
#[global] Instance idContent_eq_dec : EqDecision idContent.
Proof. solve_decision. Defined.

Definition project_anchor (a : Anchor) : idAnchor :=
  mkIdAnchor (a_FingerprintSHA256 a) (a_Status a) (a_QCWithQSCD a) (a_Uses a) (a_Source a)
    (a_Type a) (a_UseCases a).

Definition fp_less (a b : idAnchor) : bool := str_ltb (ia_Fingerprint a) (ia_Fingerprint b).
Definition code_less (a b : idTerritory) : bool := str_ltb (it_Code a) (it_Code b).
Definition internal_id_less : idAnchor -> idAnchor -> bool :=
  key_then ia_Fingerprint (fun a b => str_ltb (ia_Type a) (ia_Type b)).

(** The body of the loop over [s.Territories]: a failed territory is skipped. *)
Definition project_territory `{GoSort} (t : Territory) : option idTerritory :=
  if t_Failed t then None
  else Some (mkIdTerritory (t_Code t) (t_TLSequence t)
               (sort_Slice fp_less (project_anchor <$> t_Anchors t))).

Definition snapshot_content `{GoSort} (s : Snapshot) : idContent :=
  mkIdContent (s_LOTLSequence s)
    (sort_Slice code_less (omap project_territory (s_Territories s)))
    (sort_Slice internal_id_less (project_anchor <$> s_Internal s))
    (sort_Strings ((fun p => a_FingerprintSHA256 (p_Anchor p)) <$> s_Pending s)).

(** ** [json.Marshal] of the content *)

Definition json_anchor (a : idAnchor) (k : string) : string :=
  lit "{" (json_key "fp" (json_str (ia_Fingerprint a)
  (lit "," (json_key "status" (json_str (ia_Status a)
  (lit "," (json_key "qscd" (json_bool (ia_QSCD a)
  (json_omit "uses" json_str (ia_Uses a)
  (lit "," (json_key "source" (json_str (ia_Source a)
  ((if str_eqb (ia_Type a) "" then id else fun k => lit "," (json_key "type" (json_str (ia_Type a) k)))
  (json_omit "useCases" json_str (ia_UseCases a)
  (lit "}" k))))))))))))))).

Definition json_territory (t : idTerritory) (k : string) : string :=
  lit "{" (json_key "code" (json_str (it_Code t)
  (lit "," (json_key "tlSequence" (json_num (it_TLSequence t)
  (lit "," (json_key "anchors" (json_slice json_anchor (it_Anchors t)
  (lit "}" k))))))))).

Definition json_content (c : idContent) : string :=
  lit "{" (json_key "lotlSequence" (json_num (ic_LOTLSequence c)
  (lit "," (json_key "territories" (json_slice json_territory (ic_Territories c)
  (json_omit "internal" json_anchor (ic_Internal c)
  (json_omit "pending" json_str (ic_Pending c)
  (lit "}" "")))))))).

Definition compute_id `{X509, GoSort} (s : Snapshot) : string :=
  hex_EncodeToString (sha256_Sum256 (json_content (snapshot_content s))).

(** [s.ComputeID()] assigns the id. *)
Definition ComputeID `{X509, GoSort} (s : Snapshot) : Snapshot := set_s_ID s (compute_id s).

(** * Injectivity of the text *)

Definition ascii_list (l : list string) : bool := forallb str_ascii l.

Definition ascii_anchor (a : idAnchor) : bool :=
  str_ascii (ia_Fingerprint a) && str_ascii (ia_Status a) && ascii_list (ia_Uses a) &&
  str_ascii (ia_Source a) && str_ascii (ia_Type a) && ascii_list (ia_UseCases a).

Definition ascii_territory (t : idTerritory) : bool :=
  str_ascii (it_Code t) && forallb ascii_anchor (it_Anchors t).

Definition ascii_content (c : idContent) : bool :=
  forallb ascii_territory (ic_Territories c) && forallb ascii_anchor (ic_Internal c) &&
  ascii_list (ic_Pending c).

Lemma forallb_Forall {A} (f : A -> bool) l : forallb f l = true <-> Forall (fun x => f x = true) l.
Proof. rewrite List.forallb_forall, Forall_forall. by setoid_rewrite list_elem_of_In. Qed.

Lemma json_strs_pinj : pinj (fun l => ascii_list l = true) (json_slice json_str).
Proof.
  intros l1 l2 k1 k2 H1 H2. apply (json_slice_pinj _ _ json_str_pinj); by apply forallb_Forall.
Qed.

(** Stripping the same literal or key from both sides. *)
Ltac strip :=
  repeat match goal with
  | H : lit ?l _ = lit ?l _ |- _ => apply lit_inj in H
  | H : json_key ?n _ = json_key ?n _ |- _ => apply json_key_inj in H
  end.

(** An [omitempty] slice followed by a text that does not continue as its own
    field determines the slice. *)
Lemma json_omit_inj {A} (P : A -> Prop) (enc : A -> string -> string) name l1 l2 k1 k2 :
  pinj P enc -> Forall P l1 -> Forall P l2 ->
  (forall x, k1 <> lit "," (json_key name x)) -> (forall x, k2 <> lit "," (json_key name x)) ->
  json_omit name enc l1 k1 = json_omit name enc l2 k2 -> l1 = l2 /\ k1 = k2.
Proof.
  intros He H1 H2 Hk1 Hk2. unfold json_omit. destruct l1 as [|x l1], l2 as [|y l2].
  - done.
  - intros H. by destruct (Hk1 _ H).
  - intros H. by destruct (Hk2 _ (eq_sym H)).
  - intros H. strip. by apply (json_slice_pinj _ _ He) in H.
Qed.

(** What may follow the optional fields of an anchor never looks like them. *)
Ltac json_neq :=
  let x := fresh in let H := fresh in
  intros x H; unfold json_omit, lit, json_key in H;
  repeat case_match; simpl in H; unfold id in H;
  repeat rewrite app_cons_s in H; repeat rewrite app_nil_s in H; congruence.

Lemma json_type_inj t1 t2 k1 k2 :
  str_ascii t1 = true -> str_ascii t2 = true ->
  (forall x, k1 <> lit "," (json_key "type" x)) -> (forall x, k2 <> lit "," (json_key "type" x)) ->
  (if str_eqb t1 "" then id else fun k => lit "," (json_key "type" (json_str t1 k))) k1 =
  (if str_eqb t2 "" then id else fun k => lit "," (json_key "type" (json_str t2 k))) k2 ->
  t1 = t2 /\ k1 = k2.
Proof.
  intros H1 H2 Hk1 Hk2. destruct (str_eqb t1 "") eqn:E1, (str_eqb t2 "") eqn:E2; unfold id; intros H.
  - apply str_eqb_eq in E1, E2. by subst.
  - by destruct (Hk1 _ H).
  - by destruct (Hk2 _ (eq_sym H)).
  - strip. by apply json_str_pinj in H.
Qed.

Lemma json_anchor_pinj : pinj (fun a => ascii_anchor a = true) json_anchor.
Proof.
  intros [f1 st1 q1 u1 so1 t1 uc1] [f2 st2 q2 u2 so2 t2 uc2] k1 k2.
  unfold ascii_anchor, json_anchor; simpl. rewrite !andb_true_iff.
  intros [[[[[Hf1 Hs1] Hu1] Ho1] Ht1] Hc1] [[[[[Hf2 Hs2] Hu2] Ho2] Ht2] Hc2] H.
  strip. apply json_str_pinj in H as [-> H]; [|done..].
  strip. apply json_str_pinj in H as [-> H]; [|done..].
  strip. apply json_bool_pinj in H as [-> H]; [|done..].
  apply (json_omit_inj (fun s => str_ascii s = true)) in H as [-> H];
    [|apply json_str_pinj|by apply forallb_Forall|by apply forallb_Forall|json_neq|json_neq].
  strip. apply json_str_pinj in H as [-> H]; [|done..].
  apply json_type_inj in H as [-> H]; [|done|done|json_neq|json_neq].
  apply (json_omit_inj (fun s => str_ascii s = true)) in H as [-> H];
    [|apply json_str_pinj|by apply forallb_Forall|by apply forallb_Forall|json_neq|json_neq].
  by strip.
Qed.

Lemma json_territory_pinj : pinj (fun t => ascii_territory t = true) json_territory.
Proof.
  intros [c1 n1 a1] [c2 n2 a2] k1 k2. unfold ascii_territory, json_territory; simpl.
  rewrite !andb_true_iff. intros [Hc1 Ha1] [Hc2 Ha2] H.
  strip. apply json_str_pinj in H as [-> H]; [|done..].
  strip. apply json_num_inj in H as [-> H]; [|done].
  strip.
  apply (json_slice_pinj _ _ json_anchor_pinj) in H as [-> H]; [|by apply forallb_Forall..].
  by strip.
Qed.

(** The text determines the content. *)
Lemma json_content_inj c1 c2 :
  ascii_content c1 = true -> ascii_content c2 = true -> json_content c1 = json_content c2 -> c1 = c2.
Proof.
  destruct c1 as [n1 t1 i1 p1], c2 as [n2 t2 i2 p2]. unfold ascii_content, json_content; simpl.
  rewrite !andb_true_iff. intros [[Ht1 Hi1] Hp1] [[Ht2 Hi2] Hp2] H.
  strip. apply json_num_inj in H as [-> H]; [|done].
  strip.
  apply (json_slice_pinj _ _ json_territory_pinj) in H as [-> H]; [|by apply forallb_Forall..].
  apply (json_omit_inj (fun a => ascii_anchor a = true)) in H as [-> H];
    [|apply json_anchor_pinj|by apply forallb_Forall|by apply forallb_Forall|json_neq|json_neq].
  apply (json_omit_inj (fun s => str_ascii s = true)) in H as [-> H];
    [done|apply json_str_pinj|by apply forallb_Forall|by apply forallb_Forall|json_neq|json_neq].
Qed.

Lemma hex_byte_val c :
  exists h l, hex_byte c = String h (String l "") /\ Ascii.ascii_of_N (16 * hex_val h + hex_val l) = c.
Proof.
  unfold hex_byte. eexists _, _. split; [done|].
  by destruct c as [[] [] [] [] [] [] [] []].
Qed.

Lemma hex_EncodeToString_inj b1 b2 : hex_EncodeToString b1 = hex_EncodeToString b2 -> b1 = b2.
Proof.
  unfold hex_EncodeToString. revert b2. induction b1 as [|c b1 IH]; intros [|d b2]; simpl; try done.
  destruct (hex_byte_val c) as (h1 & l1 & E1 & V1), (hex_byte_val d) as (h2 & l2 & E2 & V2).
  rewrite E1, E2, !app_cons_s, !app_nil_s. intros [= -> -> H]. rewrite <-V1, <-V2. f_equal. auto.
Qed.

(** * Which snapshots share an id *)

(** The territories that contribute to the id. *)
Definition healthy (s : Snapshot) : list Territory :=
  filter (fun t => t_Failed t = false) (s_Territories s).

Definition territory_equiv (t1 t2 : Territory) : Prop :=
  t_Code t1 = t_Code t2 /\ t_TLSequence t1 = t_TLSequence t2 /\
  project_anchor <$> t_Anchors t1 ≡ₚ project_anchor <$> t_Anchors t2.

(** Two snapshots with the same trust content: the same LOTL sequence; the same
    healthy territories, in any order, each with the same sequence and the same
    anchors (as projected) in any order; the same declared anchors and the same
    pending fingerprints in any order.  Nothing else of a snapshot occurs:
    health, staleness, digests, timestamps, pointers, signers, skipped
    services. *)
Definition content_equiv (s1 s2 : Snapshot) : Prop :=
  s_LOTLSequence s1 = s_LOTLSequence s2 /\
  (exists l, l ≡ₚ healthy s2 /\ Forall2 territory_equiv (healthy s1) l) /\
  project_anchor <$> s_Internal s1 ≡ₚ project_anchor <$> s_Internal s2 /\
  (fun p => a_FingerprintSHA256 (p_Anchor p)) <$> s_Pending s1 ≡ₚ
  (fun p => a_FingerprintSHA256 (p_Anchor p)) <$> s_Pending s2.

(** One entry per territory code, one anchor per certificate in a territory, one
    declared anchor per certificate and type. *)
Definition id_wf (s : Snapshot) : Prop :=
  NoDup (t_Code <$> healthy s) /\
  (forall t, t ∈ healthy s -> NoDup (a_FingerprintSHA256 <$> t_Anchors t)) /\
  NoDup ((fun a => (a_FingerprintSHA256 a, a_Type a)) <$> s_Internal s).

#[global] Instance id_wf_dec s : Decision (id_wf s).
Proof.
  unfold id_wf. apply and_dec; [apply _|]. apply and_dec; [|apply _].
  destruct (decide (Forall (fun t => NoDup (a_FingerprintSHA256 <$> t_Anchors t)) (healthy s)))
    as [H|H]; [left|right]; by rewrite Forall_forall in H.
Defined.

#[global] Instance fp_less_strict_weak : StrictWeak fp_less.
Proof. apply by_key_strict_weak. Qed.
#[global] Instance code_less_strict_weak : StrictWeak code_less.
Proof. apply by_key_strict_weak. Qed.
#[global] Instance internal_id_less_strict_weak : StrictWeak internal_id_less.
Proof. apply key_then_strict_weak, by_key_strict_weak. Qed.

Lemma omap_project `{GoSort} (l : list Territory) :
  omap project_territory l =
  (fun t => mkIdTerritory (t_Code t) (t_TLSequence t)
              (sort_Slice fp_less (project_anchor <$> t_Anchors t))) <$>
  filter (fun t => t_Failed t = false) l.
Proof.
  induction l as [|t l IH]; [done|]. csimpl. rewrite filter_cons. unfold project_territory at 1.
  destruct (t_Failed t); csimpl; by rewrite IH.
Qed.

(** Elements sharing a key that is unique in the list are equal. *)
Lemma NoDup_fmap_inj {A B} (f : A -> B) l x y :
  NoDup (f <$> l) -> x ∈ l -> y ∈ l -> f x = f y -> x = y.
Proof.
  intros Hnd Hx Hy Hf. apply list_elem_of_lookup in Hx as [i Hi].
  apply list_elem_of_lookup in Hy as [j Hj].
  assert (i = j) as ->; [|congruence].
  apply (NoDup_lookup (f <$> l) i j (f x)); [done| |]; rewrite list_lookup_fmap, ?Hi, ?Hj;
    simpl; congruence.
Qed.

(** Two anchor lists with the same projections up to order sort to the same list,
    when fingerprints are unique. *)
Lemma sort_anchors_unique (S1 S2 : GoSort) l1 l2 :
  l1 ≡ₚ l2 -> NoDup (ia_Fingerprint <$> l1) ->
  @sort_Slice S1 _ fp_less l1 = @sort_Slice S2 _ fp_less l2.
Proof.
  intros Hp Hnd. apply sort_Slice_unique; [apply _|done|]. intros x y Hx Hy H1 H2.
  eapply NoDup_fmap_inj; [exact Hnd|done..|]. by apply str_ltb_total.
Qed.

Lemma content_equiv_eq (S1 S2 : GoSort) s1 s2 :
  content_equiv s1 s2 -> id_wf s1 ->
  @snapshot_content S1 s1 = @snapshot_content S2 s2.
Proof.
  intros (Hseq & (l & Hl & Heq) & Hint & Hpend) (Hcodes & Hfps & Hdecl).
  unfold snapshot_content. f_equal.
  - done.
  - rewrite (@omap_project S1), (@omap_project S2). fold (healthy s1) (healthy s2).
    apply sort_Slice_unique; [apply _| |].
    + rewrite <-(fmap_Permutation _ _ _ Hl). apply reflexive_eq.
      clear Hl Hcodes. induction Heq as [|t1 t2 l1 l2 (E1 & E2 & E3) _ IH]; [done|]. simpl.
      f_equal; [|apply IH; set_solver]. f_equal; [done..|]. apply sort_anchors_unique; [done|].
      rewrite <-list_fmap_compose. apply Hfps. set_solver.
    + intros x y Hx Hy H1 H2. eapply (NoDup_fmap_inj it_Code); [|exact Hx|exact Hy|].
      * by rewrite <-list_fmap_compose.
      * by apply str_ltb_total.
  - apply sort_Slice_unique; [apply _|done|]. intros x y Hx Hy H1 H2.
    assert (Hd : NoDup ((fun a => (ia_Fingerprint a, ia_Type a)) <$>
      (project_anchor <$> s_Internal s1))) by (by rewrite <-list_fmap_compose).
    eapply NoDup_fmap_inj; [exact Hd|done..|]. simpl.
    unfold internal_id_less, key_then in H1, H2.
    destruct (str_eqb (ia_Fingerprint x) (ia_Fingerprint y)) eqn:E; simpl in H1.
    + apply str_eqb_eq in E. rewrite E, str_eqb_refl in H2. simpl in H2.
      f_equal; [done|by apply str_ltb_total].
    + destruct (str_eqb (ia_Fingerprint y) _) eqn:E'; simpl in H2.
      * apply str_eqb_eq in E'. apply str_eqb_neq in E. congruence.
      * apply str_eqb_neq in E. destruct E. by apply str_ltb_total.
  - by apply sort_Strings_unique.
Qed.

Lemma snapshot_content_equiv (S1 S2 : GoSort) s1 s2 :
  @snapshot_content S1 s1 = @snapshot_content S2 s2 -> content_equiv s1 s2.
Proof.
  unfold snapshot_content. rewrite (@omap_project S1), (@omap_project S2).
  fold (healthy s1) (healthy s2). intros [= Hseq Hterr Hint Hpend]. split; [done|].
  assert (Hsort : forall A (less : A -> A -> bool) l1 l2,
    @sort_Slice S1 _ less l1 = @sort_Slice S2 _ less l2 -> l1 ≡ₚ l2).
  { intros A less l1 l2 E. rewrite <-(@sort_Slice_perm S1 _ less l1), E. apply sort_Slice_perm. }
  split_and!; [|by eapply Hsort|by eapply Hsort]. apply Hsort in Hterr.
  destruct (Permutation_map_inv _ _ Hterr) as (l & E & Hl). exists l. split; [done|].
  clear Hterr Hl. revert l E. induction (healthy s1) as [|t1 l1 IH]; intros [|t2 l2] [=];
    constructor; [|auto]. split_and!; [done..|]. by eapply Hsort.
Qed.

(** * Properties *)

Section Identity.
Context `{X509}.

(** Two different inputs with one SHA-256 digest. *)
Definition sha256_collision : Prop :=
  exists b1 b2, b1 <> b2 /\ sha256_Sum256 b1 = sha256_Sum256 b2.

Lemma compute_id_content (S1 S2 : GoSort) s1 s2 :
  ascii_content (@snapshot_content S1 s1) = true -> ascii_content (@snapshot_content S2 s2) = true ->
  @compute_id _ S1 s1 = @compute_id _ S2 s2 ->
  @snapshot_content S1 s1 = @snapshot_content S2 s2 \/ sha256_collision.
Proof.
  intros Ha1 Ha2 Hid. unfold compute_id in Hid. apply hex_EncodeToString_inj in Hid.
  destruct (decide (json_content (@snapshot_content S1 s1) = json_content (@snapshot_content S2 s2)))
    as [E|E].
  - left. by apply json_content_inj.
  - right. by eexists _, _.
Qed.

(** C20 The snapshot id depends on trust content only: snapshots with the same
    content in any order have the same id, whatever sort is used; generation
    time, carry-over and failure marks, staleness, digests, pointers, signer
    sets and skipped services do not enter it. *)
Theorem compute_id_order_independent (S1 S2 : GoSort) s1 s2 :
  content_equiv s1 s2 -> id_wf s1 -> @compute_id _ S1 s1 = @compute_id _ S2 s2.
Proof. intros Heq Hwf. unfold compute_id. by rewrite (content_equiv_eq S1 S2 _ _ Heq Hwf). Qed.

(** C19 The snapshot id identifies the trust content: two snapshots (with ASCII
    codes, URIs and fingerprints) that get the same id have the same content, or
    a SHA-256 collision has been found. *)
Theorem compute_id_identifies_content (S1 S2 : GoSort) s1 s2 :
  ascii_content (@snapshot_content S1 s1) = true -> ascii_content (@snapshot_content S2 s2) = true ->
  @compute_id _ S1 s1 = @compute_id _ S2 s2 -> content_equiv s1 s2 \/ sha256_collision.
Proof.
  intros Ha1 Ha2 Hid. destruct (compute_id_content S1 S2 s1 s2 Ha1 Ha2 Hid) as [E|]; [left|by right].
  by apply (snapshot_content_equiv S1 S2).
Qed.

Lemma content_territories_length `{GoSort} s :
  length (ic_Territories (snapshot_content s)) = length (healthy s).
Proof. simpl. by rewrite sort_Slice_length, omap_project, length_fmap. Qed.

(** A territory that merely flips between failed and healthy with the same
    (no) anchors moves the id: the healthy entry is part of the hashed content
    and the failed one is not. *)
Theorem failed_flip_moves_id `{GoSort} s pre t t' post :
  t_Failed t = false -> t_Failed t' = true ->
  let healthy_s := set_s_Territories s (pre ++ t :: post) in
  let failed_s := set_s_Territories s (pre ++ t' :: post) in
  ascii_content (snapshot_content healthy_s) = true ->
  ascii_content (snapshot_content failed_s) = true ->
  compute_id healthy_s <> compute_id failed_s \/ sha256_collision.
Proof.
  intros Ht Ht' hs fs Ha1 Ha2. destruct (decide (compute_id hs = compute_id fs)) as [E|]; [|by left].
  right. destruct (compute_id_content _ _ _ _ Ha1 Ha2 E) as [Ec|]; [exfalso|done].
  apply (f_equal (fun c => length (ic_Territories c))) in Ec.
  rewrite !content_territories_length in Ec. unfold healthy in Ec. simpl in Ec.
  rewrite !filter_app, !filter_cons, !length_app, decide_True, decide_False in Ec by congruence.
  simpl in Ec. lia.
Qed.
End Identity.

(** ** On samples *)

(** [sample_next] generated later, its territories and declared anchors listed
    in the other order. *)
Definition sample_next' : Snapshot :=
  set_s_GeneratedAt (set_s_Internal (set_s_Territories sample_next (reverse (s_Territories sample_next)))
    (reverse (s_Internal sample_next))) 999.

Lemma sample_equiv : content_equiv sample_next sample_next'.
Proof.
  split; [done|]. split_and!; [|apply perm_swap|done].
  exists (s_Territories sample_next). split; [apply perm_swap|].
  repeat constructor; done.
Qed.

Lemma compute_id_order_independent_witness :
  @compute_id toy_X509 merge_GoSort sample_next = @compute_id toy_X509 merge_GoSort sample_next'.
Proof.
  apply (@compute_id_order_independent toy_X509 merge_GoSort merge_GoSort); [exact sample_equiv|by_decide].
Defined.

Lemma compute_id_identifies_content_witness :
  content_equiv sample_next sample_next' \/ @sha256_collision toy_X509.
Proof.
  apply (@compute_id_identifies_content toy_X509 merge_GoSort merge_GoSort);
    [vm_compute; reflexivity|vm_compute; reflexivity|vm_compute; reflexivity].
Defined.

(** A healthy entry without anchors, and the same entry failed. *)
Definition sample_empty : Territory := sample_territory "IT" [].
Definition sample_failed : Territory := mkTerritory "IT" 0 0 None "" false "" true "fetch failed" [] [].

Lemma failed_flip_moves_id_witness :
  @compute_id toy_X509 merge_GoSort (set_s_Territories sample_prev [sample_empty]) <>
  @compute_id toy_X509 merge_GoSort (set_s_Territories sample_prev [sample_failed]) \/
  @sha256_collision toy_X509.
Proof.
  apply (@failed_flip_moves_id toy_X509 merge_GoSort sample_prev [] sample_empty sample_failed []);
    vm_compute; reflexivity.
Defined.
