(* ===== verification/Diff.v ===== *)
(** * Anchor-set diffs

    [src/trust/diff.go]: [ComputeDiff] between the served sets of two snapshots.
    The index is a Go map, so its iteration order is arbitrary ([GoRange]). *)

From S2P Require Import Prelude Model Samples.

Record indexedAnchor := mkIndexed { ix_anchor : Anchor; ix_territory : string }.

Definition territory_key (code fp : string) : string := code +:+ "/" +:+ fp.
Definition internal_key (fp ty : string) : string := "internal/" +:+ fp +:+ "/" +:+ ty.

(** The assignments [anchorIndex] makes, in order. *)
Definition index_entries (s : Snapshot) : list (string * indexedAnchor) :=
  flat_map (fun t => (fun a => (territory_key (t_Code t) (a_FingerprintSHA256 a),
                                mkIndexed a (t_Code t))) <$> t_Anchors t) (s_Territories s) ++
  ((fun a => (internal_key (a_FingerprintSHA256 a) (a_Type a), mkIndexed a "internal")) <$>
     s_Internal s).

Definition anchorIndex (s : option Snapshot) : gmap string indexedAnchor :=
  match s with
  | None => ∅
  | Some s => foldl (fun out '(k, v) => <[k := v]> out) ∅ (index_entries s)
  end.

Definition entry (kind : string) (ia : indexedAnchor) (detail : string) : DiffEntry :=
  mkDiffEntry kind (ix_territory ia) (a_FingerprintSHA256 (ix_anchor ia)) (a_Type (ix_anchor ia))
    (a_TSPName (ix_anchor ia)) (a_ServiceName (ix_anchor ia)) (a_Status (ix_anchor ia)) detail
    (a_Source (ix_anchor ia)).

(** [equalStrings]: same length and the same strings at each index. *)
Fixpoint equalStrings (a b : list string) : bool :=
  match a, b with
  | [], [] => true
  | x :: a', y :: b' => str_eqb x y && equalStrings a' b'
  | _, _ => false
  end.

Definition metadataChange (old next : indexedAnchor) : string :=
  let o := ix_anchor old in let n := ix_anchor next in
  if negb (str_eqb (a_Status o) (a_Status n)) then
    "status: " +:+ a_Status o +:+ " -> " +:+ a_Status n
  else if negb (eqb (a_QCWithQSCD o) (a_QCWithQSCD n)) then "qcWithQscd changed"
  else if negb (equalStrings (a_Uses o) (a_Uses n)) then "uses changed"
  else if negb (str_eqb (a_ServiceName o) (a_ServiceName n)) then "service name changed"
  else "".

(** The body of the loop over [nextSet]. *)
Definition next_entry (prevSet : gmap string indexedAnchor) (kv : string * indexedAnchor) :
    list DiffEntry :=
  let '(key, a) := kv in
  match prevSet !! key with
  | None => [entry DiffAdded a ""]
  | Some old =>
      let detail := metadataChange old a in
      if negb (str_eqb detail "") then [entry DiffChanged a detail] else []
  end.

(** The body of the loop over [prevSet]. *)
Definition prev_entry (nextSet : gmap string indexedAnchor) (kv : string * indexedAnchor) :
    list DiffEntry :=
  let '(key, a) := kv in
  match nextSet !! key with
  | None => [entry DiffRemoved a ""]
  | Some _ => []
  end.

Definition entry_less : DiffEntry -> DiffEntry -> bool :=
  key_then de_Territory (key_then de_Kind (key_then de_Fingerprint
    (fun a b => str_ltb (de_Type a) (de_Type b)))).

Definition ComputeDiff `{GoSort, GoRange} (prev : option Snapshot) (next : Snapshot) : DiffT :=
  let prevSet := anchorIndex prev in
  let nextSet := anchorIndex (Some next) in
  mkDiff (from_option s_ID "" prev)
    (sort_Slice entry_less
       (flat_map (next_entry prevSet) (map_range nextSet) ++
        flat_map (prev_entry nextSet) (map_range prevSet))).

(** * Lemmas *)

Lemma equalStrings_eq a b : equalStrings a b = true <-> a = b.
Proof.
  revert b. induction a as [|x a IH]; intros [|y b]; simpl; try naive_solver.
  rewrite andb_true_iff, str_eqb_eq, IH. naive_solver.
Qed.

(** The metadata whose change is reported. *)
Definition same_metadata (a b : Anchor) : Prop :=
  a_Status a = a_Status b /\ a_QCWithQSCD a = a_QCWithQSCD b /\ a_Uses a = a_Uses b /\
  a_ServiceName a = a_ServiceName b.

Lemma metadataChange_empty old next :
  metadataChange old next = "" <-> same_metadata (ix_anchor old) (ix_anchor next).
Proof.
  unfold metadataChange, same_metadata.
  destruct (str_eqb _ (a_Status _)) eqn:E1; simpl;
    [apply str_eqb_eq in E1|apply str_eqb_neq in E1; naive_solver].
  destruct (eqb _ _) eqn:E2; simpl; [apply eqb_prop in E2|apply eqb_false_iff in E2; naive_solver].
  destruct (equalStrings _ _) eqn:E3; simpl;
    [apply equalStrings_eq in E3|rewrite <-not_true_iff_false, equalStrings_eq in E3; naive_solver].
  destruct (str_eqb _ _) eqn:E4; simpl; [apply str_eqb_eq in E4|apply str_eqb_neq in E4]; naive_solver.
Qed.

(** ** Keys *)

Definition slash : Ascii.ascii := Ascii.ascii_of_nat 47.
Definition slash_free (s : string) : bool :=
  forallb (fun c => negb (bool_decide (c = slash))) (String.list_ascii_of_string s).

Lemma slash_split s1 s2 r1 r2 :
  slash_free s1 = true -> slash_free s2 = true ->
  s1 +:+ String slash r1 = s2 +:+ String slash r2 -> s1 = s2 /\ r1 = r2.
Proof.
  unfold slash_free. revert s2. induction s1 as [|c s1 IH]; intros [|d s2]; simpl;
    rewrite ?andb_true_iff, ?negb_true_iff, ?bool_decide_eq_false.
  - intros _ _ H. by simplify_eq.
  - intros _ [Hd _] H. rewrite app_nil_s, app_cons_s in H. by simplify_eq.
  - intros [Hc _] _ H. rewrite app_nil_s, app_cons_s in H. by simplify_eq.
  - intros [_ H1] [_ H2] H. rewrite !app_cons_s in H. simplify_eq. destruct (IH s2); naive_solver.
Qed.

Lemma slash_free_app s r : slash_free (s +:+ String slash r) = false.
Proof.
  unfold slash_free. induction s as [|c s IH]; simpl; [done|]. rewrite IH. by rewrite andb_false_r.
Qed.

Lemma territory_key_inj c1 f1 c2 f2 :
  slash_free c1 = true -> slash_free c2 = true ->
  territory_key c1 f1 = territory_key c2 f2 -> c1 = c2 /\ f1 = f2.
Proof. intros H1 H2 H. by apply slash_split in H. Qed.

Lemma internal_key_inj f1 t1 f2 t2 :
  slash_free f1 = true -> slash_free f2 = true ->
  internal_key f1 t1 = internal_key f2 t2 -> f1 = f2 /\ t1 = t2.
Proof.
  intros H1 H2 H. unfold internal_key in H. apply (inj (String.append "internal/")) in H.
  by apply slash_split in H.
Qed.

Lemma territory_internal_key c f f' t' :
  slash_free c = true -> slash_free f = true -> territory_key c f <> internal_key f' t'.
Proof.
  intros Hc Hf H. change (internal_key f' t') with ("internal" +:+ String slash (f' +:+ String slash t')) in H.
  apply slash_split in H as [_ ->]; [|done|done]. by rewrite slash_free_app in Hf.
Qed.

(** ** The index of a well-formed snapshot *)

Record index_wf (s : Snapshot) : Prop := {
  iw_codes : forall t, t ∈ s_Territories s -> slash_free (t_Code t) = true /\ t_Code t <> "internal";
  iw_fps : forall t a, t ∈ s_Territories s -> a ∈ t_Anchors t ->
    slash_free (a_FingerprintSHA256 a) = true;
  iw_internal : forall a, a ∈ s_Internal s -> slash_free (a_FingerprintSHA256 a) = true;
  iw_keys : NoDup (index_entries s).*1
}.

(** The same, as a decidable proposition. *)
Definition index_wf_check (s : Snapshot) : Prop :=
  Forall (fun t => (slash_free (t_Code t) = true /\ t_Code t <> "internal") /\
                   Forall (fun a => slash_free (a_FingerprintSHA256 a) = true) (t_Anchors t))
    (s_Territories s) /\
  Forall (fun a => slash_free (a_FingerprintSHA256 a) = true) (s_Internal s) /\
  NoDup (index_entries s).*1.

#[global] Instance index_wf_check_dec s : Decision (index_wf_check s).
Proof. unfold index_wf_check. apply _. Defined.

Lemma index_wf_checked s : index_wf_check s -> index_wf s.
Proof.
  intros (Ht & Hi & Hk). rewrite Forall_forall in Ht. rewrite Forall_forall in Hi. split; [|..|done].
  - intros t Hin. by apply Ht.
  - intros t a Hin Ha. destruct (Ht t Hin) as [_ Hf]. rewrite Forall_forall in Hf. by apply Hf.
  - done.
Qed.

Lemma index_fold_lookup (l : list (string * indexedAnchor)) m k v :
  NoDup l.*1 ->
  foldl (fun out '(k, v) => <[k := v]> out) (m : gmap string indexedAnchor) l !! k = Some v <->
  (k, v) ∈ l \/ (k ∉ l.*1 /\ m !! k = Some v).
Proof.
  revert m. induction l as [|[k' v'] l IH]; intros m; csimpl; [set_solver|].
  rewrite NoDup_cons. intros [Hni Hnd]. rewrite IH by done.
  rewrite lookup_insert, elem_of_cons, not_elem_of_cons. case_decide as Hk; [subst|].
  - split.
    + intros [Hin|[_ [= ->]]]; [|by auto]. left. by right.
    + intros [[[= ->]|Hin]|[[? _] _]]; [by auto|by auto|done].
  - split; [intros [?|[? ?]]; auto|]. intros [[[= -> ->]|?]|[[? ?] ?]]; auto; done.
Qed.

Lemma anchorIndex_lookup s k v :
  index_wf s -> anchorIndex (Some s) !! k = Some v <-> (k, v) ∈ index_entries s.
Proof.
  intros Hwf. simpl. rewrite index_fold_lookup by apply Hwf. rewrite lookup_empty. naive_solver.
Qed.

Lemma elem_of_index_entries s k v :
  (k, v) ∈ index_entries s <->
  (exists t a, t ∈ s_Territories s /\ a ∈ t_Anchors t /\
     k = territory_key (t_Code t) (a_FingerprintSHA256 a) /\ v = mkIndexed a (t_Code t)) \/
  (exists a, a ∈ s_Internal s /\ k = internal_key (a_FingerprintSHA256 a) (a_Type a) /\
     v = mkIndexed a "internal").
Proof.
  unfold index_entries. rewrite elem_of_app, list_elem_of_In, in_flat_map, list_elem_of_fmap.
  setoid_rewrite <-list_elem_of_In. setoid_rewrite list_elem_of_fmap. naive_solver.
Qed.

(** * Properties *)

(** The anchor [a] is served by a snapshot under the diff's territory label
    [terr]: a territory code, or [internal] for the declared anchors. *)
Definition serves (s : option Snapshot) (terr : string) (a : Anchor) : Prop :=
  match s with
  | None => False
  | Some s => (exists t, t ∈ s_Territories s /\ t_Code t = terr /\ a ∈ t_Anchors t) \/
              (terr = "internal" /\ a ∈ s_Internal s)
  end.

(** Two anchors that occupy the same place: the same certificate, and for a
    declared one also the same type. *)
Definition same_slot (terr : string) (a b : Anchor) : Prop :=
  a_FingerprintSHA256 a = a_FingerprintSHA256 b /\ (terr = "internal" -> a_Type a = a_Type b).

Definition index_wf_opt (s : option Snapshot) : Prop := from_option index_wf True s.

Definition key_of (v : indexedAnchor) : string :=
  if str_eqb (ix_territory v) "internal"
  then internal_key (a_FingerprintSHA256 (ix_anchor v)) (a_Type (ix_anchor v))
  else territory_key (ix_territory v) (a_FingerprintSHA256 (ix_anchor v)).

Lemma anchorIndex_serves s k v :
  index_wf_opt s ->
  anchorIndex s !! k = Some v <-> serves s (ix_territory v) (ix_anchor v) /\ k = key_of v.
Proof.
  destruct s as [s|]; intros Hwf; [|simpl; rewrite lookup_empty; naive_solver].
  rewrite anchorIndex_lookup, elem_of_index_entries by done. unfold key_of. simpl. split.
  - intros [(t & a & Ht & Ha & -> & ->)|(a & Ha & -> & ->)]; simpl.
    + destruct (iw_codes _ Hwf t Ht) as [_ Hne]. rewrite (proj2 (str_eqb_neq _ _) Hne).
      split; [left; eauto|done].
    + split; [by right|done].
  - destruct v as [a terr]; simpl. intros [[(t & Ht & <- & Ha)|[-> Ha]] ->].
    + destruct (iw_codes _ Hwf t Ht) as [_ Hne]. rewrite (proj2 (str_eqb_neq _ _) Hne). left. eauto 10.
    + right. eauto.
Qed.

Lemma serves_slash_free s terr a :
  index_wf_opt s -> serves s terr a ->
  slash_free terr = true /\ slash_free (a_FingerprintSHA256 a) = true.
Proof.
  destruct s as [s|]; simpl; [|done]. intros Hwf [(t & Ht & <- & Ha)|[-> Ha]].
  - split; [by apply (iw_codes _ Hwf)|by eapply (iw_fps _ Hwf)].
  - split; [done|by apply (iw_internal _ Hwf)].
Qed.

Lemma key_of_eq s1 s2 v1 v2 :
  index_wf_opt s1 -> index_wf_opt s2 ->
  serves s1 (ix_territory v1) (ix_anchor v1) -> serves s2 (ix_territory v2) (ix_anchor v2) ->
  key_of v1 = key_of v2 <->
  ix_territory v1 = ix_territory v2 /\ same_slot (ix_territory v1) (ix_anchor v1) (ix_anchor v2).
Proof.
  intros Hw1 Hw2 [Hc1 Hf1]%serves_slash_free [Hc2 Hf2]%serves_slash_free; [|done..].
  destruct v1 as [a t1], v2 as [b t2]. unfold key_of, same_slot; simpl in *.
  destruct (str_eqb t1 "internal") eqn:E1, (str_eqb t2 "internal") eqn:E2;
    rewrite ?str_eqb_eq, ?str_eqb_neq in *.
  - subst. split; [|naive_solver congruence].
    intros H. by apply internal_key_inj in H as [-> ->].
  - split; [|naive_solver congruence].
    intros H. by apply eq_sym, territory_internal_key in H.
  - split; [|naive_solver congruence]. intros H. by apply territory_internal_key in H.
  - split; [|naive_solver congruence]. intros H. by apply territory_key_inj in H as [-> ->].
Qed.

Definition diff_entries `{GoRange} (prev : option Snapshot) (next : Snapshot) : list DiffEntry :=
  flat_map (next_entry (anchorIndex prev)) (map_range (anchorIndex (Some next))) ++
  flat_map (prev_entry (anchorIndex (Some next))) (map_range (anchorIndex prev)).

Lemma elem_of_flat_map {A B} (f : A -> list B) l y :
  y ∈ flat_map f l <-> exists x, x ∈ l /\ y ∈ f x.
Proof. rewrite list_elem_of_In, in_flat_map. by setoid_rewrite <-list_elem_of_In. Qed.

Lemma next_entry_elem `{GoRange} m1 m2 e :
  e ∈ flat_map (next_entry m1) (map_range m2) <->
  exists k v, m2 !! k = Some v /\
    ((m1 !! k = None /\ e = entry DiffAdded v "") \/
     (exists old, m1 !! k = Some old /\ ~ same_metadata (ix_anchor old) (ix_anchor v) /\
        e = entry DiffChanged v (metadataChange old v))).
Proof.
  rewrite elem_of_flat_map. split.
  - intros ([k v] & Hin & He). apply elem_of_map_range in Hin. exists k, v. split; [done|].
    unfold next_entry in He. destruct (m1 !! k) as [old|] eqn:E; [|set_solver].
    right. exists old. split; [done|]. rewrite <-metadataChange_empty.
    destruct (str_eqb (metadataChange old v) "") eqn:E'; simpl in He; [set_solver|].
    apply str_eqb_neq in E'. set_solver.
  - intros (k & v & Hk & Hc). exists (k, v). split; [by apply elem_of_map_range|]. simpl.
    destruct Hc as [[-> ->]|(old & -> & Hm & ->)]; [set_solver|].
    rewrite <-metadataChange_empty, <-str_eqb_neq in Hm. rewrite Hm. set_solver.
Qed.

Lemma prev_entry_elem `{GoRange} m1 m2 e :
  e ∈ flat_map (prev_entry m1) (map_range m2) <->
  exists k v, m2 !! k = Some v /\ m1 !! k = None /\ e = entry DiffRemoved v "".
Proof.
  rewrite elem_of_flat_map. split.
  - intros ([k v] & Hin & He). apply elem_of_map_range in Hin. exists k, v.
    unfold prev_entry in He. destruct (m1 !! k) eqn:E; set_solver.
  - intros (k & v & Hk & Hn & ->). exists (k, v). split; [by apply elem_of_map_range|].
    simpl. rewrite Hn. set_solver.
Qed.

(** A slot of [s] not occupied in [s'], through the index. *)
Lemma index_None s s' v :
  index_wf_opt s -> index_wf_opt s' -> serves s (ix_territory v) (ix_anchor v) ->
  anchorIndex s' !! key_of v = None <->
  forall b, serves s' (ix_territory v) b -> ~ same_slot (ix_territory v) (ix_anchor v) b.
Proof.
  intros Hw Hw' Hs. split.
  - intros Hn b Hb Hslot. assert (Hk : anchorIndex s' !! key_of v = Some (mkIndexed b (ix_territory v))).
    { apply anchorIndex_serves; [done|]. split; [done|].
      apply (key_of_eq s s' v (mkIndexed b (ix_territory v))); done. }
    congruence.
  - intros Hno. destruct (anchorIndex s' !! key_of v) as [w|] eqn:E; [|done].
    apply anchorIndex_serves in E as [Hw2 Hk]; [|done].
    apply (key_of_eq s s' v w) in Hk as [E' Hslot]; [|done..].
    rewrite E' in Hno, Hslot. by destruct (Hno _ Hw2).
Qed.

(** A slot of [s] occupied in [s']. *)
Lemma index_Some s s' v w :
  index_wf_opt s -> index_wf_opt s' -> serves s (ix_territory v) (ix_anchor v) ->
  anchorIndex s' !! key_of v = Some w <->
  ix_territory w = ix_territory v /\ serves s' (ix_territory v) (ix_anchor w) /\
  same_slot (ix_territory v) (ix_anchor v) (ix_anchor w).
Proof.
  intros Hw Hw' Hs. rewrite anchorIndex_serves by done. split.
  - intros [Hs' Hk]. apply (key_of_eq s s' v w) in Hk as [E Hslot]; [|done..].
    rewrite E in *. done.
  - intros (E & Hs' & Hslot). rewrite E. split; [done|].
    apply (key_of_eq s s' v w); try done; by rewrite E.
Qed.

(** What a diff entry says, in terms of what the two snapshots serve. *)
Inductive diff_reports (prev : option Snapshot) (next : Snapshot) (e : DiffEntry) : Prop :=
| reports_added terr a :
    serves (Some next) terr a -> (forall b, serves prev terr b -> ~ same_slot terr a b) ->
    e = entry DiffAdded (mkIndexed a terr) "" -> diff_reports prev next e
| reports_changed terr a b :
    serves (Some next) terr a -> serves prev terr b -> same_slot terr a b -> ~ same_metadata b a ->
    e = entry DiffChanged (mkIndexed a terr) (metadataChange (mkIndexed b terr) (mkIndexed a terr)) ->
    diff_reports prev next e
| reports_removed terr b :
    serves prev terr b -> (forall a, serves (Some next) terr a -> ~ same_slot terr b a) ->
    e = entry DiffRemoved (mkIndexed b terr) "" -> diff_reports prev next e.

Lemma diff_entries_elem `{GoRange} prev next e :
  index_wf_opt prev -> index_wf next ->
  e ∈ diff_entries prev next <-> diff_reports prev next e.
Proof.
  intros Hp Hn. unfold diff_entries. rewrite elem_of_app, next_entry_elem, prev_entry_elem. split.
  - intros [(k & v & Hv & Hc)|(k & v & Hv & Hno & ->)];
      apply anchorIndex_serves in Hv as [Hv ->]; try done; destruct v as [a terr].
    + destruct Hc as [[Hno ->]|(old & Ho & Hm & ->)].
      * eapply reports_added; [exact Hv| |done]. by rewrite (index_None (Some next)) in Hno.
      * rewrite (index_Some (Some next)) in Ho by done. destruct Ho as (E & Hs & Hslot).
        destruct old as [b terr']; simpl in *; subst. by eapply reports_changed.
    + eapply reports_removed; [exact Hv| |done]. by rewrite (index_None prev) in Hno.
  - intros [terr a Ha Hno ->|terr a b Ha Hb Hslot Hm ->|terr b Hb Hno ->].
    + left. exists (key_of (mkIndexed a terr)), (mkIndexed a terr).
      split; [by apply anchorIndex_serves|]. left. split; [|done]. by apply (index_None (Some next)).
    + left. exists (key_of (mkIndexed a terr)), (mkIndexed a terr).
      split; [by apply anchorIndex_serves|]. right. exists (mkIndexed b terr).
      split_and!; [by apply (index_Some (Some next))|done..].
    + right. exists (key_of (mkIndexed b terr)), (mkIndexed b terr).
      split_and!; [by apply anchorIndex_serves|by apply (index_None prev)|done].
Qed.

(** ** Determinism

    The loops of [ComputeDiff] visit the two maps in an arbitrary order and
    [sort.Slice] is not stable; the diff is the same whatever they do. *)

Lemma flat_map_map_range_perm (R1 R2 : GoRange) {V B} (f : string * V -> list B) m :
  flat_map f (@map_range R1 V m) ≡ₚ flat_map f (@map_range R2 V m).
Proof.
  apply Permutation_flat_map. by rewrite (@map_range_perm R1), (@map_range_perm R2).
Qed.

Lemma entry_less_tie (x y : DiffEntry) :
  entry_less x y = false -> entry_less y x = false ->
  de_Territory x = de_Territory y /\ de_Kind x = de_Kind y /\
  de_Fingerprint x = de_Fingerprint y /\ de_Type x = de_Type y.
Proof.
  unfold entry_less. rewrite <-!not_true_iff_false, !key_then_true.
  intros H1 H2.
  assert (tie : forall f : DiffEntry -> string, str_ltb (f x) (f y) <> true ->
    str_ltb (f y) (f x) <> true -> f x = f y).
  { intros f. rewrite !not_true_iff_false. apply str_ltb_total. }
  assert (E1 : de_Territory x = de_Territory y) by (apply tie; tauto).
  assert (E2 : de_Kind x = de_Kind y) by (apply tie; rewrite E1 in *; tauto).
  assert (E3 : de_Fingerprint x = de_Fingerprint y) by (apply tie; rewrite E1, E2 in *; tauto).
  split_and!; [done..|]. apply tie; rewrite E1, E2, E3 in *; tauto.
Qed.

Lemma serves_slot_unique s terr a b :
  index_wf_opt s -> serves s terr a -> serves s terr b -> same_slot terr a b -> a = b.
Proof.
  intros Hw Ha Hb Hslot.
  assert (Hka : anchorIndex s !! key_of (mkIndexed a terr) = Some (mkIndexed a terr))
    by (by apply anchorIndex_serves).
  assert (Hkb : anchorIndex s !! key_of (mkIndexed a terr) = Some (mkIndexed b terr)).
  { apply (index_Some s); done. }
  congruence.
Qed.

(** Two reports with the same sort key are the same report. *)
Lemma reports_unique prev next x y :
  index_wf_opt prev -> index_wf next ->
  diff_reports prev next x -> diff_reports prev next y ->
  de_Territory x = de_Territory y -> de_Kind x = de_Kind y ->
  de_Fingerprint x = de_Fingerprint y -> de_Type x = de_Type y -> x = y.
Proof.
  intros Hp Hn Hx Hy.
  destruct Hx as [tx ax Hx _ ->|tx ax bx Hx Hbx Hsx _ ->|tx ax Hx _ ->],
    Hy as [ty ay Hy _ ->|ty ay by_ Hy Hby Hsy _ ->|ty ay Hy _ ->]; simpl;
    intros E1 E2 E3 E4; try done; subst ty.
  - rewrite (serves_slot_unique (Some next) tx ax ay); [done| |done..|by split]. done.
  - assert (ax = ay) as <- by (apply (serves_slot_unique (Some next) tx); [exact Hn|done..|by split]).
    rewrite (serves_slot_unique prev tx bx by_); try done.
    destruct Hsx, Hsy. split; [congruence|]. intros Ht. etrans; [symmetry|]; auto.
  - rewrite (serves_slot_unique prev tx ax ay); [done..|by split].
Qed.

(** ** One entry per change *)

(** The place an entry is about. *)
Definition entry_slot (e : DiffEntry) : string :=
  if str_eqb (de_Territory e) "internal" then internal_key (de_Fingerprint e) (de_Type e)
  else territory_key (de_Territory e) (de_Fingerprint e).

Lemma NoDup_flat_map_key {A B K} (f : A -> list B) (g : A -> K) (h : B -> K) l :
  NoDup (g <$> l) -> (forall x, x ∈ l -> f x = [] \/ exists y, f x = [y] /\ h y = g x) -> NoDup (flat_map f l).
Proof.
  induction l as [|x l IH]; [constructor|]. csimpl. intros [Hx Hn]%NoDup_cons Hf.
  assert (Hl : NoDup (flat_map f l)) by (apply IH; [done|]; intros y Hy; apply Hf; by apply list_elem_of_further).
  destruct (Hf x (list_elem_of_here _ _)) as [->|(y & -> & Hy)]; [done|]. simpl. apply NoDup_cons. split; [|done].
  intros (x' & Hx' & Hin)%elem_of_flat_map. apply Hx.
  destruct (Hf x' (list_elem_of_further _ _ _ Hx')) as [E|(y' & E & Hy')]; rewrite E in Hin; [by apply elem_of_nil in Hin|].
  apply list_elem_of_singleton in Hin as ->. apply list_elem_of_fmap. exists x'. split; [congruence|done].
Qed.

Lemma map_range_keys_NoDup `{GoRange} {V} (m : gmap string V) : NoDup (map_range m).*1.
Proof. rewrite map_range_perm. apply NoDup_fst_map_to_list. Qed.

Lemma diff_entries_NoDup `{GoRange} prev next :
  index_wf_opt prev -> index_wf next -> NoDup (diff_entries prev next).
Proof.
  intros Hp Hn. unfold diff_entries.
  assert (Hk : forall s k v kind d, index_wf_opt s -> (k, v) ∈ map_range (anchorIndex s) -> entry_slot (entry kind v d) = k).
  { intros s k v kind d Hs Hin. apply elem_of_map_range, anchorIndex_serves in Hin as [_ ->]; done. }
  apply NoDup_app. split_and!.
  - eapply (NoDup_flat_map_key _ fst entry_slot); [apply map_range_keys_NoDup|]. intros [k v] Hin. simpl.
    destruct (anchorIndex prev !! k); [destruct (negb _); [|by left]|]; right; eexists; (split; [done|by eapply (Hk (Some next))]).
  - intros e (k & v & _ & Hc)%next_entry_elem (k' & v' & _ & _ & ->)%prev_entry_elem.
    destruct Hc as [[_ E]|(old & _ & _ & E)]; by apply (f_equal de_Kind) in E.
  - eapply (NoDup_flat_map_key _ fst entry_slot); [apply map_range_keys_NoDup|]. intros [k v] Hin. simpl.
    destruct (_ !! k); [by left|]. right. eexists. split; [done|by eapply (Hk prev)].
Qed.

(** C18 [ComputeDiff] is exact on snapshots whose index keys do not collide (every
    snapshot the service builds, when the territory codes are plain): its entries are
    the anchors newly served, those no longer served and those whose status, QSCD flag,
    uses or service name changed, each under its territory label, and no others; they
    are strictly increasing by territory, kind, fingerprint and type, so there is one
    entry for each change; and the diff names the previous snapshot. *)
Theorem diff_exact (S : GoSort) (R : GoRange) prev next :
  index_wf_opt prev -> index_wf next ->
  d_PrevID (ComputeDiff prev next) = from_option s_ID "" prev /\
  (forall e, e ∈ d_Entries (ComputeDiff prev next) <-> diff_reports prev next e) /\
  StronglySorted (fun x y => entry_less x y = true) (d_Entries (ComputeDiff prev next)).
Proof.
  intros Hp Hn. split_and!; [done| |].
  - intros e. simpl. rewrite elem_of_sort_Slice. by apply diff_entries_elem.
  - simpl. apply sorted_strict.
    + intros x y Hx Hy Hxy Hyx. rewrite elem_of_sort_Slice in Hx, Hy. apply (diff_entries_elem prev next) in Hx, Hy; [|done..].
      destruct (entry_less_tie _ _ Hxy Hyx) as (?&?&?&?). by eapply reports_unique.
    + apply NoDup_sort_Slice. by apply diff_entries_NoDup.
    + apply sort_Slice_strongly_sorted. unfold entry_less. apply _.
Qed.

(** The diff does not depend on Go's map iteration order nor on the order
    its unstable sort leaves ties in: any two iteration orders and any two
    sorts that meet their contracts give the same diff, entry by entry. *)
Theorem diff_deterministic (S1 S2 : GoSort) (R1 R2 : GoRange) prev next :
  index_wf_opt prev -> index_wf next ->
  @ComputeDiff S1 R1 prev next = @ComputeDiff S2 R2 prev next.
Proof.
  intros Hp Hn. unfold ComputeDiff. f_equal.
  apply sort_Slice_unique; [unfold entry_less; apply _| |].
  - by rewrite !(flat_map_map_range_perm R1 R2).
  - intros x y Hx Hy Hxy Hyx. apply (diff_entries_elem prev next) in Hx, Hy; [|done..].
    destruct (entry_less_tie _ _ Hxy Hyx) as (?&?&?&?). by eapply reports_unique.
Qed.

Lemma sample_index_wf : index_wf sample_prev /\ index_wf sample_next.
Proof. split; apply index_wf_checked; by_decide. Qed.

Lemma diff_exact_witness :
  d_PrevID (ComputeDiff (Some sample_prev) sample_next) = s_ID sample_prev /\
  (forall e, e ∈ d_Entries (ComputeDiff (Some sample_prev) sample_next) <->
            diff_reports (Some sample_prev) sample_next e) /\
  StronglySorted (fun x y => entry_less x y = true) (d_Entries (ComputeDiff (Some sample_prev) sample_next)).
Proof.
  destruct sample_index_wf as [Hp Hn].
  exact (diff_exact merge_GoSort list_GoRange (Some sample_prev) sample_next Hp Hn).
Defined.

(** What the samples' diff is: a changed, a removed and two added entries. *)
Example sample_diff :
  (fun e => (de_Kind e, de_Territory e, de_Fingerprint e, de_Type e, de_Detail e)) <$>
    d_Entries (ComputeDiff (Some sample_prev) sample_next) =
  [ ("changed", "DE", "aa", "", "uses changed"); ("removed", "DE", "bb", "", "");
    ("added", "FR", "dd", "", ""); ("added", "internal", "cc", "wrprc_issuer", "") ].
Proof. vm_compute. reflexivity. Qed.

(** A range that visits the map backwards. *)
#[refine] Definition reverse_GoRange : GoRange := {| map_range := fun V m => reverse (map_to_list m) |}.
Proof. intros V m. apply reverse_Permutation. Defined.

Lemma diff_deterministic_witness :
  @ComputeDiff merge_GoSort list_GoRange (Some sample_prev) sample_next =
  @ComputeDiff merge_GoSort reverse_GoRange (Some sample_prev) sample_next.
Proof.
  destruct sample_index_wf as [Hp Hn].
  exact (diff_deterministic merge_GoSort merge_GoSort list_GoRange reverse_GoRange
           (Some sample_prev) sample_next Hp Hn).
Defined.
