(* ===== verification/Slices.v ===== *)
(** * Go slices of strings with their backing arrays

    [append] writes into the backing array when it has spare capacity, so two
    slices of one array can see each other's appends.  The anchors extracted
    from one service share the slices of that service ([src/trust/extract.go]),
    hence this small store: a heap of arrays, a slice as an array number and a
    length (offsets are always 0 in the code modelled). *)

From S2P Require Import Prelude.

Abbreviation heap := (list (list string)).

Record slice := mkSlice { sl_arr : nat; sl_len : nat }.

(** Array 0 is the empty array behind nil slices. *)
Definition empty_heap : heap := [[]].
Definition nil_slice : slice := mkSlice 0 0.

Definition array (h : heap) (s : slice) : list string := default [] (h !! sl_arr s).
Definition read (h : heap) (s : slice) : list string := take (sl_len s) (array h s).
Definition read_at (h : heap) (s : slice) (i : nat) : string := default "" (array h s !! i).

(** The capacity of the array [append] allocates for one more element.  The
    language leaves it to the runtime, whose policy starts at 1 and doubles
    while slices are small. *)
Class GoAlloc := {
  append_cap : nat -> nat;
  append_cap_grows : forall c, (c < append_cap c)%nat;
  append_cap_0 : append_cap 0 = 1%nat;
  append_cap_small : forall c, (0 < c <= 16)%nat -> append_cap c = (2 * c)%nat
}.

Definition append `{GoAlloc} (h : heap) (s : slice) (x : string) : heap * slice :=
  let a := array h s in
  if bool_decide (sl_len s < length a)%nat
  then (<[ sl_arr s := <[ sl_len s := x ]> a ]> h, mkSlice (sl_arr s) (S (sl_len s)))
  else (h ++ [a ++ x :: replicate (append_cap (length a) - length a - 1) ""],
        mkSlice (length h) (S (sl_len s))).

(** [sort.Strings(s)]: sorts the visible part of the array in place. *)
Definition sort_in_place `{GoSort} (h : heap) (s : slice) : heap :=
  <[ sl_arr s := sort_Strings (read h s) ++ drop (sl_len s) (array h s) ]> h.

(** The loop [for _, u := range src { if u not in dst { dst = append(dst, u) } }],
    whose iterations read [src] as it is at that moment. *)
Definition union_step `{GoAlloc} (src : slice) (acc : heap * slice) (i : nat) : heap * slice :=
  let '(h, dst) := acc in
  let u := read_at h src i in
  if existsb (str_eqb u) (read h dst) then (h, dst) else append h dst u.

Definition union_into `{GoAlloc} (h : heap) (dst src : slice) : heap * slice :=
  foldl (union_step src) (h, dst) (seq 0 (sl_len src)).

Definition double_cap (c : nat) : nat := if bool_decide (c = 0%nat) then 1%nat else (2 * c)%nat.

(** The doubling policy: an allocator meeting the contract. *)
#[refine, global] Instance double_GoAlloc : GoAlloc := {| append_cap := double_cap |}.
Proof.
  - intros c. unfold double_cap. case_bool_decide; lia.
  - done.
  - intros c Hc. unfold double_cap. case_bool_decide; lia.
Defined.

(** * Lemmas *)

(** A slice of the heap: its array exists and covers its length. *)
Definition slice_wf (h : heap) (s : slice) : Prop :=
  exists a, h !! sl_arr s = Some a /\ (sl_len s <= length a)%nat.

Lemma nil_slice_wf : slice_wf empty_heap nil_slice.
Proof. exists []. by split. Qed.

Lemma read_nil h : read h nil_slice = [].
Proof. done. Qed.

Lemma slice_wf_read_length h s : slice_wf h s -> length (read h s) = sl_len s.
Proof.
  intros (a & Ha & Hle). unfold read, array. rewrite Ha. simpl. rewrite length_take. lia.
Qed.

Lemma read_at_read h s i : (i < sl_len s)%nat -> slice_wf h s -> read h s !! i = Some (read_at h s i).
Proof.
  intros Hi (a & Ha & Hle). unfold read, read_at, array. rewrite Ha. simpl.
  rewrite lookup_take_lt by done. destruct (a !! i) eqn:E; [done|].
  apply lookup_ge_None in E. lia.
Qed.

(** A slice keeps its contents when arrays are only added. *)
Lemma heap_prefix_slice (h h' : heap) s :
  h `prefix_of` h' -> slice_wf h s -> slice_wf h' s /\ read h' s = read h s /\ array h' s = array h s.
Proof.
  intros Hp (a & Ha & Hle). pose proof (prefix_lookup_Some _ _ _ _ Ha Hp) as Ha'.
  unfold slice_wf, read, array. rewrite Ha, Ha'. eauto.
Qed.

Section Append.
Context `{GoAlloc}.

(** [append] to a full slice allocates: nothing already there changes. *)
Lemma append_full h s x :
  slice_wf h s -> sl_len s = length (array h s) ->
  let '(h', s') := append h s x in
  h `prefix_of` h' /\ slice_wf h' s' /\ read h' s' = read h s ++ [x] /\
  sl_len s' = S (sl_len s) /\ length (array h' s') = append_cap (sl_len s).
Proof.
  intros (a & Ha & Hle) Hfull. unfold append. rewrite bool_decide_eq_false_2 by lia.
  assert (Harr : array h s = a) by (unfold array; by rewrite Ha).
  rewrite Harr in *. pose proof (append_cap_grows (length a)) as Hg.
  unfold slice_wf, read, array; cbn [sl_arr sl_len]. rewrite lookup_app_r, Nat.sub_diag by lia.
  rewrite Ha. cbn. split_and!.
  - by apply prefix_app_r.
  - eexists. split; [done|]. rewrite length_app. simpl. lia.
  - rewrite Hfull, firstn_all. rewrite take_app_ge by lia.
    by replace (S (length a) - length a)%nat with 1%nat by lia.
  - done.
  - rewrite length_app. cbn. rewrite length_replicate, <-Hfull. rewrite Hfull. lia.
Qed.

(** [append] always shows the appended element last, whatever it overwrites. *)
Lemma append_read h s x :
  slice_wf h s ->
  let '(h', s') := append h s x in slice_wf h' s' /\ read h' s' = read h s ++ [x].
Proof.
  intros Hwf. destruct (decide (sl_len s < length (array h s))%nat) as [Hlt|Hge].
  - destruct Hwf as (a & Ha & Hle). unfold append. rewrite bool_decide_eq_true_2 by done.
    assert (Harr : array h s = a) by (unfold array; by rewrite Ha). rewrite Harr in *.
    pose proof (lookup_lt_Some _ _ _ Ha) as Hb.
    unfold slice_wf, read, array. cbn [sl_arr sl_len]. rewrite list_lookup_insert_eq by done. cbn.
    split; [eexists; split; [done|rewrite length_insert; lia]|].
    rewrite Ha. cbn. rewrite (take_S_r _ _ x) by (apply list_lookup_insert_eq; lia).
    f_equal. apply take_insert_ge. lia.
  - pose proof Hwf as (a & Ha & Hle).
    assert (Harr : array h s = a) by (unfold array; by rewrite Ha). rewrite Harr in *.
    pose proof (append_full h s x Hwf) as Hf. rewrite Harr in Hf. destruct (append h s x) as [h' s'].
    destruct Hf as (_ & ? & ? & _); [lia|done].
Qed.
End Append.
