(* ===== verification/Extract.v ===== *)
(** * Anchor extraction from a verified trusted list

    [src/trust/extract.go]: the identities of a service, its qualifications,
    [ExtractAnchors] and the merge of duplicate entries.  The [Uses] and
    [Qualifiers] of the anchors under construction are slices of the store of
    [Slices] (the two kinds never share an array, so each has its heap); the
    anchors returned are read from it once the loops are over, after which
    nothing appends to them. *)

From S2P Require Import Prelude Model Vocabulary Filter Tsl CertBody Slices.

Record ExtractionWarning := mkWarning {
  w_TSPName : string;
  w_ServiceName : string;
  w_Reason : string;
  w_Code : string;
  w_FingerprintSHA256 : string;
  w_KeyAlgorithm : string;
  w_Curve : string
}.

(** [Skipped]: the warnings that name a service. *)
Definition Skipped (warnings : list ExtractionWarning) : list SkippedService :=
  (fun w => mkSkipped (w_TSPName w) (w_ServiceName w) (w_Code w) (w_Reason w)
              (w_FingerprintSHA256 w) (w_KeyAlgorithm w) (w_Curve w)) <$>
  List.filter (fun w => negb (str_eqb (w_Code w) "")) warnings.

Record identity := mkIdentity {
  id_raw : bytes;
  id_fingerprintSHA256 : string;
  id_subject : string;
  id_notBefore : time;
  id_notAfter : time;
  id_keyAlgorithm : string;
  id_curve : string
}.

(** An anchor under construction: [ra_Anchor] with [Qualifiers] and [Uses] in
    the store. *)
Record rawAnchor := mkRaw { ra_Anchor : Anchor; ra_Qualifiers : slice; ra_Uses : slice }.

Definition ra_fp (r : rawAnchor) : string := a_FingerprintSHA256 (ra_Anchor r).

Definition set_a_slices (a : Anchor) (qualifiers uses : list string) : Anchor :=
  mkAnchor (a_Territory a) (a_Source a) (a_TSPName a) (a_ServiceName a) (a_ServiceType a)
    (a_Status a) (a_StatusStartingTime a) (a_CertDER a) (a_FingerprintSHA256 a) (a_Subject a)
    (a_NotBefore a) (a_NotAfter a) qualifiers (a_QCWithQSCD a) uses (a_KeyAlgorithm a) (a_Curve a)
    (a_Type a) (a_UseCases a) (a_TLSequence a).

Definition set_a_QCWithQSCD (a : Anchor) (b : bool) : Anchor :=
  mkAnchor (a_Territory a) (a_Source a) (a_TSPName a) (a_ServiceName a) (a_ServiceType a)
    (a_Status a) (a_StatusStartingTime a) (a_CertDER a) (a_FingerprintSHA256 a) (a_Subject a)
    (a_NotBefore a) (a_NotAfter a) (a_Qualifiers a) b (a_Uses a) (a_KeyAlgorithm a) (a_Curve a)
    (a_Type a) (a_UseCases a) (a_TLSequence a).

(** The anchor as a reader of the slices sees it. *)
Definition resolve (hq hu : heap) (r : rawAnchor) : Anchor :=
  set_a_slices (ra_Anchor r) (read hq (ra_Qualifiers r)) (read hu (ra_Uses r)).

Definition unsupportedCurveMessage : string := "unsupported elliptic curve".

Section Extract.
Context {X : X509} {AS : Asn1} {AL : GoAlloc} {SO : GoSort} {RA : GoRange}.

(** ** Identities of a service *)

Definition identityFromCertificate (cert : Certificate) : identity :=
  let '(keyAlgorithm, curve) := spkiAlgorithm (cert_Raw cert) in
  mkIdentity (cert_Raw cert) (Fingerprint cert) (cert_Subject cert) (cert_NotBefore cert)
    (cert_NotAfter cert) keyAlgorithm curve.

(** The body of the loop over the DER values: an identity or a skip. *)
Definition der_outcome (tspName serviceName : string) (der : bytes) : identity + ExtractionWarning :=
  match x509_ParseCertificate der with
  | Ok cert => inl (identityFromCertificate cert)
  | Err err =>
      let w reason alg curve :=
        mkWarning tspName serviceName reason SkipInvalidCertificate (fingerprintDER der) alg curve in
      let reason := "invalid X509 digital identity: " +:+ err_Error err in
      if negb (Contains (err_Error err) unsupportedCurveMessage) then
        let '(alg, curve) := spkiAlgorithm der in inr (w reason alg curve)
      else
        match decodeCertificateBody der with
        | Err berr => inr (w (reason +:+ "; structural read: " +:+ err_Error berr) "" "")
        | Ok body =>
            inl (mkIdentity der (fingerprintDER der) (cb_Subject body) (cb_NotBefore body)
                   (cb_NotAfter body) (cb_KeyAlgorithm body) (cb_Curve body))
        end
  end.

Definition left_of {A B} (x : A + B) : option A := match x with inl a => Some a | inr _ => None end.
Definition right_of {A B} (x : A + B) : option B := match x with inl _ => None | inr b => Some b end.

Definition serviceIdentities (tspName serviceName : string) (sdi : ServiceDigitalIdentity) :
    list identity * list ExtractionWarning :=
  match CertificateDERs sdi with
  | Err err =>
      ([], [mkWarning tspName serviceName ("invalid X509 digital identity: " +:+ err_Error err)
              SkipInvalidCertificate "" "" ""])
  | Ok ders =>
      let outcomes := der_outcome tspName serviceName <$> ders in
      (omap left_of outcomes, omap right_of outcomes)
  end.

(** ** Qualifications of a service *)

Record qualState := mkQual {
  qs_hq : heap;
  qs_hu : heap;
  qs_qualifiers : slice;
  qs_uses : slice;
  qs_qscd : bool
}.

(** The closure [addUse]. *)
Definition addUse (st : qualState) (u : string) : qualState :=
  if existsb (str_eqb u) (read (qs_hu st) (qs_uses st)) then st
  else let '(hu, uses) := append (qs_hu st) (qs_uses st) u in
       mkQual (qs_hq st) hu (qs_qualifiers st) uses (qs_qscd st).

Definition asi_step (st : qualState) (asi : option ASI) : qualState :=
  match asi with
  | None => st
  | Some asi =>
      if str_eqb (asi_URI asi) ASIForeSignatures then addUse st UseSignature
      else if str_eqb (asi_URI asi) ASIForeSeals then addUse st UseSeal
      else if str_eqb (asi_URI asi) ASIForWebSiteAuthentication then addUse st UseWebsite
      else st
  end.

Definition qscd_uri (uri : string) : bool :=
  str_eqb uri QualifierQCWithQSCD || str_eqb uri QualifierQCQSCDManagedOnBehalf.

Definition qualifier_step (st : qualState) (q : Qualifier) : qualState :=
  let '(hq, qualifiers) := append (qs_hq st) (qs_qualifiers st) (q_URI q) in
  mkQual hq (qs_hu st) qualifiers (qs_uses st)
    (if qscd_uri (q_URI q) then true else qs_qscd st).

Definition extension_step (st : qualState) (ext : Extension) : qualState :=
  let st := asi_step st (ext_AdditionalServiceInformation ext) in
  match ext_Qualifications ext with
  | None => st
  | Some qs => foldl (fun st qe => foldl qualifier_step st (qe_Qualifiers qe)) st (qs_Elements qs)
  end.

Definition serviceQualifications (hq hu : heap) (exts : list Extension) : qualState :=
  let st := foldl extension_step (mkQual hq hu nil_slice nil_slice false) exts in
  mkQual (sort_in_place (qs_hq st) (qs_qualifiers st)) (qs_hu st) (qs_qualifiers st) (qs_uses st)
    (qs_qscd st).

(** ** Merging a duplicate entry into the anchor kept *)

Definition mergeDuplicateAnchor (hq hu : heap) (kept dup : rawAnchor) : heap * heap * rawAnchor :=
  let '(hu, uses) := union_into hu (ra_Uses kept) (ra_Uses dup) in
  let '(hq, qualifiers) := union_into hq (ra_Qualifiers kept) (ra_Qualifiers dup) in
  (hq, hu, mkRaw (set_a_QCWithQSCD (ra_Anchor kept)
                    (a_QCWithQSCD (ra_Anchor kept) || a_QCWithQSCD (ra_Anchor dup)))
             qualifiers uses).

(** ** ExtractAnchors *)

(** The status and type sets built from the configuration. *)
Definition accepted_set (acceptedStatuses : list string) : gset string :=
  list_to_set (NormalizeStatus <$> acceptedStatuses).

Definition national_set (acceptedStatuses : list string) : gset string :=
  list_to_set (omap (fun s => nationalStatusEquivalent !! NormalizeStatus s) acceptedStatuses).

Definition types_set (acceptedTypes : list string) : gset string :=
  if bool_decide (length acceptedTypes = 0%nat) then {[ ServiceTypeCAQC ]}
  else list_to_set acceptedTypes.

Definition status_ok (acceptedStatuses : list string) (info : ServiceInformation) : bool :=
  if bool_decide (si_Status info ∈ accepted_set acceptedStatuses) then true
  else if bool_decide (si_TypeIdentifier info ∈ qualifiedSvctypes) then false
  else bool_decide (si_Status info ∈ national_set acceptedStatuses).

(** The services of a list in document order, each with its provider's name. *)
Definition services_of (tl : ProviderList) : list (string * ServiceInformation) :=
  flat_map (fun tsp =>
    (fun svc => (LocalizedText_String (pi_Name (tsp_Information tsp)), svc_Information svc)) <$>
      tsp_Services tsp) (pl_Providers tl).

Definition add_status (m : gmap string (gset string)) (fp status : string) :
    gmap string (gset string) :=
  <[ fp := {[ status ]} ∪ default ∅ (m !! fp) ]> m.

(** The first pass: the statuses seen per certificate over every admitted type. *)
Definition statusesByCert (types : gset string) (svcs : list (string * ServiceInformation)) :
    gmap string (gset string) :=
  foldl (fun m '(_, info) =>
    if bool_decide (si_TypeIdentifier info ∈ types) then
      foldl (fun m id => add_status m (id_fingerprintSHA256 id) (si_Status info)) m
        (serviceIdentities "" "" (si_DigitalIdentity info)).1
    else m) ∅ svcs.

Record extState := mkExt {
  e_hq : heap;
  e_hu : heap;
  e_anchors : list rawAnchor;
  e_warnings : list ExtractionWarning;
  e_skippedTypes : gmap string Z
}.

Definition raw_anchor (territory tspName : string) (info : ServiceInformation) (q : qualState)
    (id : identity) : rawAnchor :=
  mkRaw (mkAnchor territory SourceTL tspName (LocalizedText_String (si_Name info))
           (si_TypeIdentifier info) (si_Status info) (si_StatusStartingTime info) (id_raw id)
           (id_fingerprintSHA256 id) (id_subject id) (id_notBefore id) (id_notAfter id)
           [] (qs_qscd q) [] (id_keyAlgorithm id) (id_curve id)
           (TypeKey (si_TypeIdentifier info)) [] 0)
    (qs_qualifiers q) (qs_uses q).

(** The body of the second pass over one service. *)
Definition service_step (territory : string) (acceptedStatuses : list string) (types : gset string)
    (st : extState) (entry : string * ServiceInformation) : extState :=
  let '(tspName, info) := entry in
  if negb (bool_decide (si_TypeIdentifier info ∈ types)) then
    mkExt (e_hq st) (e_hu st) (e_anchors st) (e_warnings st)
      (<[ si_TypeIdentifier info := default 0 (e_skippedTypes st !! si_TypeIdentifier info) + 1 ]>
         (e_skippedTypes st))
  else if negb (status_ok acceptedStatuses info) then st
  else
    let serviceName := LocalizedText_String (si_Name info) in
    let '(ids, skipped) := serviceIdentities tspName serviceName (si_DigitalIdentity info) in
    let warnings := e_warnings st ++ skipped in
    if bool_decide (length ids = 0%nat) && bool_decide (length skipped = 0%nat) then
      mkExt (e_hq st) (e_hu st) (e_anchors st)
        (warnings ++ [mkWarning tspName serviceName "no X509Certificate digital identity"
                        SkipNoCertificate "" "" ""])
        (e_skippedTypes st)
    else if bool_decide (length ids = 0%nat) then
      mkExt (e_hq st) (e_hu st) (e_anchors st) warnings (e_skippedTypes st)
    else
      let q := serviceQualifications (e_hq st) (e_hu st) (si_Extensions info) in
      mkExt (qs_hq q) (qs_hu q) (e_anchors st ++ (raw_anchor territory tspName info q <$> ids))
        warnings (e_skippedTypes st).

Definition skipped_type_warning (skippedTypes : gmap string Z) (st : string) : ExtractionWarning :=
  mkWarning "" "" ("skipped " +:+ itoa (default 0 (skippedTypes !! st)) +:+
                   " service(s) with unaccepted service type " +:+ st) "" "" "" "".

(** What [anchor_less] compares. *)
Definition anchor_key (a : Anchor) : string * string * string :=
  (a_TSPName a, a_ServiceName a, a_FingerprintSHA256 a).

Definition anchor_less : rawAnchor -> rawAnchor -> bool :=
  key_then (fun r => a_TSPName (ra_Anchor r)) (key_then (fun r => a_ServiceName (ra_Anchor r))
    (fun a b => str_ltb (ra_fp a) (ra_fp b))).

Record dedupState := mkDedup {
  dd_hq : heap;
  dd_hu : heap;
  dd_seen : gmap string nat;
  dd_conflicted : gset string;
  dd_dedup : list rawAnchor;
  dd_warnings : list ExtractionWarning
}.

Definition conflict_warning (a : Anchor) : ExtractionWarning :=
  mkWarning (a_TSPName a) (a_ServiceName a)
    ("conflicting statuses across duplicate service entries for certificate " +:+
       a_FingerprintSHA256 a +:+ " — anchor dropped (fail closed)")
    SkipStatusConflict (a_FingerprintSHA256 a) "" "".

(** The body of the last loop.  [dedup] reuses the array of [anchors], but only
    at indices the range has already read, so a list of its own is the same. *)
Definition dedup_step (statuses : gmap string (gset string)) (st : dedupState) (a : rawAnchor) :
    dedupState :=
  let fp := ra_fp a in
  if bool_decide (1 < size (default ∅ (statuses !! fp)))%nat then
    if bool_decide (fp ∈ dd_conflicted st) then st
    else mkDedup (dd_hq st) (dd_hu st) (dd_seen st) ({[ fp ]} ∪ dd_conflicted st) (dd_dedup st)
           (dd_warnings st ++ [conflict_warning (ra_Anchor a)])
  else
    match dd_seen st !! fp with
    | Some i =>
        match dd_dedup st !! i with
        | Some kept =>
            let '(hq, hu, merged) := mergeDuplicateAnchor (dd_hq st) (dd_hu st) kept a in
            mkDedup hq hu (dd_seen st) (dd_conflicted st) (<[ i := merged ]> (dd_dedup st))
              (dd_warnings st)
        | None => st
        end
    | None =>
        mkDedup (dd_hq st) (dd_hu st) (<[ fp := length (dd_dedup st) ]> (dd_seen st))
          (dd_conflicted st) (dd_dedup st ++ [a]) (dd_warnings st)
    end.

(** The state after the second pass, from empty heaps. *)
Definition second_pass (territory : string) (acceptedStatuses : list string) (types : gset string)
    (svcs : list (string * ServiceInformation)) : extState :=
  foldl (service_step territory acceptedStatuses types)
    (mkExt empty_heap empty_heap [] [] ∅) svcs.

Definition ExtractAnchors (tl : TrustedList) (territory : string)
    (acceptedStatuses acceptedTypes : list string) (now : time) :
    result (list Anchor * list ExtractionWarning) :=
  let types := types_set acceptedTypes in
  match tl_ProviderList tl with
  | None => Err (errors_New ("trust: " +:+ territory +:+ " trusted list has no provider list"))
  | Some pl =>
      let svcs := services_of pl in
      let statuses := statusesByCert types svcs in
      let st := second_pass territory acceptedStatuses types svcs in
      let skipped := sort_Strings (map_range (e_skippedTypes st)).*1 in
      let warnings := e_warnings st ++ (skipped_type_warning (e_skippedTypes st) <$> skipped) in
      let anchors := sort_Slice anchor_less (e_anchors st) in
      let d := foldl (dedup_step statuses)
                 (mkDedup (e_hq st) (e_hu st) ∅ ∅ [] warnings) anchors in
      Ok (resolve (dd_hq d) (dd_hu d) <$> dd_dedup d, dd_warnings d)
  end.

(** * Lemmas *)

(** ** The [Uses] slices

    Only three values are ever appended, each once, and the runtime's small
    capacities are 1, 2 and 4: an append to a [Uses] slice always finds it full
    and copies, so no anchor sees another's. *)

Definition all_uses : list string := [UseSignature; UseSeal; UseWebsite].

Definition use_slice (h : heap) (s : slice) : Prop :=
  slice_wf h s /\ NoDup (read h s) /\ read h s ⊆ all_uses /\
  (sl_len s = length (array h s) \/ sl_len s = 3%nat).

Lemma use_slice_nil (h : heap) : empty_heap `prefix_of` h -> use_slice h nil_slice.
Proof.
  intros [h' ->]. unfold use_slice. rewrite read_nil. split_and!; [|constructor|set_solver|by left].
  exists []. by split.
Qed.

Lemma use_slice_prefix (h h' : heap) s : h `prefix_of` h' -> use_slice h s ->
  use_slice h' s /\ read h' s = read h s.
Proof.
  intros Hp (Hwf & Hnd & Hsub & Hlen). destruct (heap_prefix_slice h h' s Hp Hwf) as (Hwf' & Hr & Ha).
  unfold use_slice. by rewrite Hr, Ha.
Qed.

Lemma use_slice_full h s u :
  use_slice h s -> u ∈ all_uses -> u ∉ read h s -> (sl_len s < 3)%nat.
Proof.
  intros (Hwf & Hnd & Hsub & _) Hu Hni. rewrite <-(slice_wf_read_length _ _ Hwf).
  assert (Hlen : (length (u :: read h s) <= length all_uses)%nat); [|simpl in *; lia].
  apply submseteq_length, NoDup_submseteq; [by constructor|].
  intros x [->|Hx]%elem_of_cons; auto.
Qed.

Lemma append_use h s u :
  use_slice h s -> u ∈ all_uses -> u ∉ read h s ->
  let '(h', s') := append h s u in
  h `prefix_of` h' /\ use_slice h' s' /\ read h' s' = read h s ++ [u].
Proof.
  intros Hs Hu Hni. pose proof (use_slice_full h s u Hs Hu Hni) as Hlt.
  destruct Hs as (Hwf & Hnd & Hsub & [Hfull|]); [|lia].
  pose proof (append_full h s u Hwf Hfull) as Ha. destruct (append h s u) as [h' s'].
  destruct Ha as (Hp & Hwf' & Hr & Hl & Hc). split_and!; [done| |done].
  unfold use_slice. rewrite Hr, Hl, Hc. split_and!; [done| | |].
  - apply NoDup_app. split_and!; [done| |apply NoDup_singleton]. set_solver.
  - set_solver.
  - destruct (sl_len s) as [|[|[|]]]; [left|left|right; done|lia]; rewrite ?append_cap_0; [done|].
    by rewrite append_cap_small by lia.
Qed.

Lemma existsb_str u l : existsb (str_eqb u) l = true <-> u ∈ l.
Proof.
  rewrite List.existsb_exists. split.
  - intros (x & Hx & <-%str_eqb_eq). by apply list_elem_of_In.
  - intros Hu. exists u. split; [by apply list_elem_of_In|apply str_eqb_refl].
Qed.

Lemma existsb_str_false u l : existsb (str_eqb u) l = false <-> u ∉ l.
Proof. by rewrite <-not_true_iff_false, existsb_str. Qed.

(** One iteration of the union, when the element is a use. *)
Lemma union_step_use h dst src i :
  use_slice h dst -> use_slice h src -> (i < sl_len src)%nat ->
  let '(h', dst') := union_step src (h, dst) i in
  h `prefix_of` h' /\ use_slice h' dst' /\
  forall u, u ∈ read h' dst' <-> u ∈ read h dst \/ read h src !! i = Some u.
Proof.
  intros Hd Hs Hi. unfold union_step. pose proof Hs as (Hwf & _ & Hsub & _).
  pose proof (read_at_read h src i Hi Hwf) as Hr. set (x := read_at h src i) in *.
  destruct (existsb (str_eqb x) (read h dst)) eqn:E.
  - apply existsb_str in E. split_and!; [done|done|]. intros u. rewrite Hr. naive_solver.
  - apply existsb_str_false in E. pose proof (append_use h dst x Hd) as Ha.
    destruct (append h dst x) as [h' s']. destruct Ha as (? & ? & Hrd); [|done|].
    { apply Hsub. by eapply list_elem_of_lookup_2. }
    split_and!; [done..|]. intros u. rewrite Hrd, Hr. set_solver.
Qed.

Lemma union_into_use h dst src :
  use_slice h dst -> use_slice h src ->
  let '(h', dst') := union_into h dst src in
  h `prefix_of` h' /\ use_slice h' dst' /\
  forall u, u ∈ read h' dst' <-> u ∈ read h dst \/ u ∈ read h src.
Proof.
  intros Hd Hs. unfold union_into.
  assert (Hn : forall n, (n <= sl_len src)%nat ->
    let '(h', dst') := foldl (union_step src) (h, dst) (seq 0 n) in
    h `prefix_of` h' /\ use_slice h' dst' /\
    forall u, u ∈ read h' dst' <-> u ∈ read h dst \/ u ∈ take n (read h src)).
  { induction n as [|n IH]; intros Hle; [simpl; split_and!; [done..|set_solver]|].
    rewrite seq_S, foldl_app, Nat.add_0_l. cbn [foldl]. specialize (IH ltac:(lia)).
    destruct (foldl _ _ (seq 0 n)) as [h1 d1]. destruct IH as (Hp & Hd1 & Hr1).
    destruct (use_slice_prefix h h1 src Hp Hs) as [Hs1 Hrs].
    pose proof (union_step_use h1 d1 src n Hd1 Hs1 ltac:(lia)) as Hu.
    destruct (union_step src (h1, d1) n) as [h2 d2]. destruct Hu as (Hp2 & Hd2 & Hr2).
    split_and!; [by etrans|done|]. intros u. rewrite Hr2, Hr1, Hrs.
    pose proof (read_at_read h src n ltac:(lia) (proj1 Hs)) as Hat. rewrite Hat.
    rewrite (take_S_r _ _ _ Hat), elem_of_app, list_elem_of_singleton. naive_solver. }
  specialize (Hn (sl_len src) (le_n _)). destruct (foldl _ _ _) as [h' d'].
  rewrite take_ge in Hn; [done|]. by rewrite (slice_wf_read_length _ _ (proj1 Hs)).
Qed.

(** ** Qualifications *)

Definition use_of_uri (uri : string) : option string :=
  if str_eqb uri ASIForeSignatures then Some UseSignature
  else if str_eqb uri ASIForeSeals then Some UseSeal
  else if str_eqb uri ASIForWebSiteAuthentication then Some UseWebsite
  else None.

(** The uses a service's extensions state. *)
Definition uses_of (exts : list Extension) : list string :=
  omap (fun ext => ext_AdditionalServiceInformation ext ≫= (fun asi => use_of_uri (asi_URI asi))) exts.

(** Its qualifier URIs, in document order. *)
Definition qualifier_uris (exts : list Extension) : list string :=
  flat_map (fun ext => match ext_Qualifications ext with
                       | None => []
                       | Some qs => flat_map (fun qe => q_URI <$> qe_Qualifiers qe) (qs_Elements qs)
                       end) exts.

Definition qscd_of (exts : list Extension) : bool := existsb qscd_uri (qualifier_uris exts).

(** What a partly read service has produced over the heaps [hq0] and [hu0]. *)
Record qual_inv (hq0 hu0 : heap) (uses uris : list string) (st : qualState) : Prop := {
  qi_hu : hu0 `prefix_of` qs_hu st;
  qi_uses : use_slice (qs_hu st) (qs_uses st);
  qi_read : forall u, u ∈ read (qs_hu st) (qs_uses st) <-> u ∈ uses;
  qi_hq : hq0 `prefix_of` qs_hq st;
  qi_own : (length hq0 <= sl_arr (qs_qualifiers st))%nat \/ qs_qualifiers st = nil_slice;
  qi_wf : slice_wf (qs_hq st) (qs_qualifiers st);
  qi_quals : read (qs_hq st) (qs_qualifiers st) = uris;
  qi_qscd : qs_qscd st = existsb qscd_uri uris
}.

Lemma use_of_uri_use uri u : use_of_uri uri = Some u -> u ∈ all_uses.
Proof. unfold use_of_uri, all_uses. intros. simp_res; set_solver. Qed.

Lemma addUse_inv hq0 hu0 uses uris st u :
  qual_inv hq0 hu0 uses uris st -> u ∈ all_uses -> qual_inv hq0 hu0 (uses ++ [u]) uris (addUse st u).
Proof.
  intros [H1 H2 H3 H4 H5 H6 H7 H8] Hu. unfold addUse.
  destruct (existsb (str_eqb u) _) eqn:E.
  - apply existsb_str in E. split; try done. intros x. rewrite H3, elem_of_app, list_elem_of_singleton.
    apply H3 in E. naive_solver.
  - apply existsb_str_false in E. pose proof (append_use _ _ u H2 Hu E) as Ha.
    destruct (append _ _ u) as [h' s']. destruct Ha as (Hp & Hs & Hr).
    split; simpl; try done; [by etrans|]. intros x. rewrite Hr, !elem_of_app, H3. done.
Qed.

Lemma asi_step_inv hq0 hu0 uses uris st asi :
  qual_inv hq0 hu0 uses uris st ->
  qual_inv hq0 hu0 (uses ++ option_list (asi ≫= (fun asi => use_of_uri (asi_URI asi)))) uris
    (asi_step st asi).
Proof.
  intros Hi. destruct asi as [asi|]; simpl; [|by rewrite app_nil_r]. unfold use_of_uri.
  repeat case_match; simpl; rewrite ?app_nil_r; try done; apply addUse_inv; try done; by_decide.
Qed.

(** Appending to a slice allocated after [h0] leaves [h0]'s arrays alone. *)
Lemma append_own (h0 h : heap) s x :
  h0 `prefix_of` h -> slice_wf h s -> (length h0 <= sl_arr s)%nat \/ s = nil_slice ->
  empty_heap `prefix_of` h0 ->
  let '(h', s') := append h s x in h0 `prefix_of` h' /\ (length h0 <= sl_arr s')%nat.
Proof.
  intros [l ->] (a & Ha & Hle) Hown [l0 ->]. unfold append. case_bool_decide as Hlt.
  - destruct Hown as [Hge| ->]; [|simpl in Hlt; lia]. split; [|done].
    rewrite insert_app_r_alt by done. by apply prefix_app_r.
  - split; [by do 2 apply prefix_app_r|]. cbn [sl_arr]. rewrite !length_app. lia.
Qed.

Lemma qualifier_step_inv hq0 hu0 uses uris st q :
  empty_heap `prefix_of` hq0 ->
  qual_inv hq0 hu0 uses uris st -> qual_inv hq0 hu0 uses (uris ++ [q_URI q]) (qualifier_step st q).
Proof.
  intros He [H1 H2 H3 H4 H5 H6 H7 H8]. unfold qualifier_step.
  pose proof (append_own hq0 _ _ (q_URI q) H4 H6 H5 He) as Ho.
  pose proof (append_read _ _ (q_URI q) H6) as Hr.
  destruct (append _ _ _) as [h' s']. destruct Ho as [Hp Hl], Hr as [Hwf Hr].
  split; simpl; try done; [by left|by rewrite Hr, H7|].
  rewrite existsb_app, H8. simpl. rewrite orb_false_r. destruct (qscd_uri (q_URI q)); [by rewrite orb_true_r|].
  by rewrite orb_false_r.
Qed.

Lemma uses_of_one ext :
  uses_of [ext] = option_list (ext_AdditionalServiceInformation ext ≫= (fun asi => use_of_uri (asi_URI asi))).
Proof. unfold uses_of. csimpl. by destruct (_ ≫= _). Qed.

Lemma uses_of_cons ext exts : uses_of (ext :: exts) = uses_of [ext] ++ uses_of exts.
Proof. rewrite uses_of_one. unfold uses_of. csimpl. by destruct (_ ≫= _). Qed.

Lemma extension_step_inv hq0 hu0 uses uris st ext :
  empty_heap `prefix_of` hq0 -> qual_inv hq0 hu0 uses uris st ->
  qual_inv hq0 hu0 (uses ++ uses_of [ext]) (uris ++ qualifier_uris [ext]) (extension_step st ext).
Proof.
  intros He Hi. unfold extension_step, qualifier_uris. rewrite uses_of_one. simpl. rewrite app_nil_r.
  apply asi_step_inv with (asi := ext_AdditionalServiceInformation ext) in Hi.
  generalize dependent (uses ++ option_list (ext_AdditionalServiceInformation ext ≫=
    (fun asi => use_of_uri (asi_URI asi)))). intros uses'.
  generalize dependent (asi_step st (ext_AdditionalServiceInformation ext)).
  destruct (ext_Qualifications ext) as [qs|]; intros st' Hi; [|by rewrite app_nil_r].
  revert uris st' Hi. induction (qs_Elements qs) as [|qe qes IH]; intros uris st' Hi; simpl.
  { by rewrite app_nil_r. }
  rewrite app_assoc. apply IH. clear IH. revert uris st' Hi.
  induction (qe_Qualifiers qe) as [|q l IH]; intros uris st' Hi; simpl; [by rewrite app_nil_r|].
  rewrite cons_middle, app_assoc. by apply IH, qualifier_step_inv.
Qed.

Lemma extensions_inv hq0 hu0 uses uris st exts :
  empty_heap `prefix_of` hq0 -> qual_inv hq0 hu0 uses uris st ->
  qual_inv hq0 hu0 (uses ++ uses_of exts) (uris ++ qualifier_uris exts) (foldl extension_step st exts).
Proof.
  intros He. revert uses uris st. induction exts as [|ext exts IH]; intros uses uris st Hi; cbn [foldl].
  { by rewrite !app_nil_r. }
  rewrite uses_of_cons.
  replace (qualifier_uris (ext :: exts)) with (qualifier_uris [ext] ++ qualifier_uris exts)
    by (unfold qualifier_uris; simpl; by rewrite app_nil_r).
  rewrite !app_assoc. by apply IH, extension_step_inv.
Qed.

Lemma sort_in_place_own (h0 h : heap) s :
  h0 `prefix_of` h -> slice_wf h s -> (length h0 <= sl_arr s)%nat \/ s = nil_slice ->
  empty_heap `prefix_of` h0 ->
  h0 `prefix_of` sort_in_place h s /\ slice_wf (sort_in_place h s) s /\
  read (sort_in_place h s) s = sort_Strings (read h s).
Proof.
  intros Hp (a & Ha & Hle) Hown He. unfold sort_in_place.
  assert (Hb : (sl_arr s < length h)%nat) by (by eapply lookup_lt_Some).
  assert (Hl : length (sort_Strings (read h s)) = sl_len s).
  { unfold sort_Strings. rewrite sort_Slice_length. apply slice_wf_read_length. by exists a. }
  split_and!.
  - destruct Hown as [Hge| ->].
    + destruct Hp as [l ->]. rewrite insert_app_r_alt by done. by apply prefix_app_r.
    + rewrite read_nil. unfold sort_Strings. rewrite sort_Slice_nil. unfold array. rewrite Ha.
      rewrite list_insert_id; [done|]. rewrite Ha. simpl. by rewrite drop_0.
  - eexists. split; [by apply list_lookup_insert_eq|]. rewrite length_app, Hl. lia.
  - unfold read at 1, array at 1. rewrite list_lookup_insert_eq by done. cbn [default].
    by apply take_app_length'.
Qed.

Lemma serviceQualifications_spec (hq hu : heap) exts :
  empty_heap `prefix_of` hq -> empty_heap `prefix_of` hu ->
  let q := serviceQualifications hq hu exts in
  hu `prefix_of` qs_hu q /\ use_slice (qs_hu q) (qs_uses q) /\
  (forall u, u ∈ read (qs_hu q) (qs_uses q) <-> u ∈ uses_of exts) /\
  qs_qscd q = qscd_of exts /\ hq `prefix_of` qs_hq q /\
  slice_wf (qs_hq q) (qs_qualifiers q) /\
  read (qs_hq q) (qs_qualifiers q) = sort_Strings (qualifier_uris exts).
Proof.
  intros Hq Hu.
  assert (Hi : qual_inv hq hu [] [] (mkQual hq hu nil_slice nil_slice false)).
  { split; simpl; try done; [by apply use_slice_nil|by right|].
    destruct Hq as [l ->]. exists []. by split. }
  apply (extensions_inv _ _ _ _ _ exts) in Hi; [|done].
  destruct Hi as [H1 H2 H3 H4 H5 H6 H7 H8].
  destruct (sort_in_place_own hq _ _ H4 H6 H5 Hq) as (Hp & Hwf & Hr). rewrite H7 in Hr. by split_and!.
Qed.

(** ** The identities of a service do not depend on its names *)

Definition identities (sdi : ServiceDigitalIdentity) : list identity :=
  (serviceIdentities "" "" sdi).1.

Lemma serviceIdentities_ids tsp sn sdi : (serviceIdentities tsp sn sdi).1 = identities sdi.
Proof.
  unfold identities, serviceIdentities. destruct (CertificateDERs sdi) as [ders|e]; [|done].
  simpl. induction ders as [|der ders IH]; [done|]. csimpl. rewrite IH.
  assert (Hl : left_of (der_outcome tsp sn der) = left_of (der_outcome "" "" der)); [|by rewrite Hl].
  unfold der_outcome. repeat case_match; done.
Qed.

(** ** The first pass *)

(** A status under which an entry of an admitted type lists a certificate. *)
Definition lists_status (types : gset string) (svcs : list (string * ServiceInformation))
    (fp status : string) : Prop :=
  exists e id, e ∈ svcs /\ si_TypeIdentifier e.2 ∈ types /\ si_Status e.2 = status /\
    id ∈ identities (si_DigitalIdentity e.2) /\ id_fingerprintSHA256 id = fp.

Definition cert_statuses (m : gmap string (gset string)) (fp : string) : gset string :=
  default ∅ (m !! fp).

Lemma add_status_elem m fp status fp' s :
  s ∈ cert_statuses (add_status m fp status) fp' <->
  s ∈ cert_statuses m fp' \/ (fp' = fp /\ s = status).
Proof.
  unfold cert_statuses, add_status. destruct (decide (fp' = fp)) as [->|Hne].
  - rewrite lookup_insert_eq. simpl. set_solver.
  - rewrite lookup_insert_ne by done. naive_solver.
Qed.

Lemma add_statuses_elem m (ids : list identity) status fp' s :
  s ∈ cert_statuses (foldl (fun m id => add_status m (id_fingerprintSHA256 id) status) m ids) fp' <->
  s ∈ cert_statuses m fp' \/ (s = status /\ exists id, id ∈ ids /\ id_fingerprintSHA256 id = fp').
Proof.
  revert m. induction ids as [|id ids IH]; intros m; simpl; [set_solver|].
  rewrite IH, add_status_elem. set_solver.
Qed.

Lemma statusesByCert_elem types svcs fp s :
  s ∈ cert_statuses (statusesByCert types svcs) fp <-> lists_status types svcs fp s.
Proof.
  unfold statusesByCert.
  assert (Hg : forall m, s ∈ cert_statuses (foldl (fun m '(_, info) =>
     if bool_decide (si_TypeIdentifier info ∈ types) then
      foldl (fun m id => add_status m (id_fingerprintSHA256 id) (si_Status info)) m
        (serviceIdentities "" "" (si_DigitalIdentity info)).1
     else m) m svcs) fp <-> s ∈ cert_statuses m fp \/ lists_status types svcs fp s).
  { unfold lists_status. induction svcs as [|[tsp info] svcs IH]; intros m; cbn [foldl].
    { split; [by left|]. intros [?|(e & id & He & _)]; [done|]. by apply elem_of_nil in He. }
    rewrite IH. clear IH. case_bool_decide as Ht.
    - rewrite add_statuses_elem. fold (identities (si_DigitalIdentity info)).
      setoid_rewrite elem_of_cons. naive_solver.
    - setoid_rewrite elem_of_cons. naive_solver. }
  rewrite Hg. unfold cert_statuses. rewrite lookup_empty. set_solver.
Qed.

(** ** The second pass *)

Section SecondPass.
Context (territory : string) (sts : list string) (types : gset string).

(** An entry whose type is admitted and whose status is accepted. *)
Definition accepted (e : string * ServiceInformation) : bool :=
  bool_decide (si_TypeIdentifier e.2 ∈ types) && status_ok sts e.2.

Definition occurrence : Type := string * ServiceInformation * identity.

(** Every certificate of every accepted entry, in document order. *)
Definition occurrences (svcs : list (string * ServiceInformation)) : list occurrence :=
  flat_map (fun e => if accepted e then (fun id => (e.1, e.2, id)) <$> identities (si_DigitalIdentity e.2)
                     else []) svcs.

(** The anchor one occurrence gives, before any merge; its two slices aside. *)
Definition occ_anchor (o : occurrence) : Anchor :=
  let '(tsp, info, id) := o in
  mkAnchor territory SourceTL tsp (LocalizedText_String (si_Name info)) (si_TypeIdentifier info)
    (si_Status info) (si_StatusStartingTime info) (id_raw id) (id_fingerprintSHA256 id)
    (id_subject id) (id_notBefore id) (id_notAfter id) [] (qscd_of (si_Extensions info)) []
    (id_keyAlgorithm id) (id_curve id) (TypeKey (si_TypeIdentifier info)) [] 0.

Definition occ_uses (o : occurrence) : list string := uses_of (si_Extensions o.1.2).
Definition occ_fp (o : occurrence) : string := id_fingerprintSHA256 o.2.

Definition occ_raw (hu : heap) (r : rawAnchor) (o : occurrence) : Prop :=
  ra_Anchor r = occ_anchor o /\ use_slice hu (ra_Uses r) /\
  forall u, u ∈ read hu (ra_Uses r) <-> u ∈ occ_uses o.

Lemma occ_raw_prefix (h h' : heap) r o : h `prefix_of` h' -> occ_raw h r o -> occ_raw h' r o.
Proof.
  intros Hp (Ha & Hs & Hr). destruct (use_slice_prefix h h' _ Hp Hs) as [Hs' Hr'].
  unfold occ_raw. by rewrite Hr'.
Qed.

(** The warnings an accepted entry gives. *)
Definition service_warnings (e : string * ServiceInformation) : list ExtractionWarning :=
  if accepted e then
    let sn := LocalizedText_String (si_Name e.2) in
    let '(ids, skipped) := serviceIdentities e.1 sn (si_DigitalIdentity e.2) in
    if bool_decide (length ids = 0%nat) && bool_decide (length skipped = 0%nat) then
      [mkWarning e.1 sn "no X509Certificate digital identity" SkipNoCertificate "" "" ""]
    else skipped
  else [].

(** How many services of a list have a type that is not admitted. *)
Definition type_count (svcs : list (string * ServiceInformation)) (ty : string) : Z :=
  Z.of_nat (length (filter (fun e => si_TypeIdentifier e.2 = ty) svcs)).

Record pass_inv (svcs : list (string * ServiceInformation)) (st : extState) : Prop := {
  pi_hq : empty_heap `prefix_of` e_hq st;
  pi_hu : empty_heap `prefix_of` e_hu st;
  pi_anchors : Forall2 (occ_raw (e_hu st)) (e_anchors st) (occurrences svcs);
  pi_warnings : e_warnings st = flat_map service_warnings svcs;
  pi_skipped : forall ty, e_skippedTypes st !! ty =
    if bool_decide (ty ∈ types \/ type_count svcs ty = 0) then None else Some (type_count svcs ty)
}.

Lemma flat_map_snoc {A B} (f : A -> list B) l x : flat_map f (l ++ [x]) = flat_map f l ++ f x.
Proof. rewrite List.flat_map_app. simpl. by rewrite app_nil_r. Qed.

Lemma type_count_snoc svcs e ty :
  type_count (svcs ++ [e]) ty = type_count svcs ty + (if bool_decide (si_TypeIdentifier e.2 = ty) then 1 else 0).
Proof.
  unfold type_count. rewrite filter_app, length_app, filter_cons, filter_nil.
  case_bool_decide; [rewrite decide_True by done|rewrite decide_False by done]; simpl; lia.
Qed.

Lemma type_count_nonneg svcs ty : 0 <= type_count svcs ty.
Proof. unfold type_count. lia. Qed.

(** An entry of an admitted type leaves the skip counts as they are. *)
Lemma skipped_admitted svcs e st :
  si_TypeIdentifier e.2 ∈ types ->
  (forall ty, e_skippedTypes st !! ty =
    if bool_decide (ty ∈ types \/ type_count svcs ty = 0) then None else Some (type_count svcs ty)) ->
  forall ty, e_skippedTypes st !! ty =
    if bool_decide (ty ∈ types \/ type_count (svcs ++ [e]) ty = 0) then None
    else Some (type_count (svcs ++ [e]) ty).
Proof.
  intros Ht Hs ty. rewrite Hs, type_count_snoc. destruct (bool_decide (si_TypeIdentifier e.2 = ty)) eqn:E.
  - apply bool_decide_eq_true in E as <-. rewrite !bool_decide_eq_true_2 by tauto. done.
  - by rewrite Z.add_0_r.
Qed.

Lemma service_step_inv svcs st e :
  pass_inv svcs st -> pass_inv (svcs ++ [e]) (service_step territory sts types st e).
Proof.
  intros [Hq Hu Ha Hw Hs]. destruct e as [tsp info]. unfold service_step.
  assert (Hacc : accepted (tsp, info) = bool_decide (si_TypeIdentifier info ∈ types) && status_ok sts info) by done.
  case_bool_decide as Ht; cbn [negb].
  2: { simpl in Hacc. split; simpl; try done.
    - unfold occurrences. rewrite flat_map_snoc, Hacc, app_nil_r. done.
    - rewrite flat_map_snoc. unfold service_warnings at 2. by rewrite Hacc, app_nil_r.
    - intros ty. pose proof (type_count_nonneg svcs ty). rewrite type_count_snoc. cbn [snd].
      destruct (decide (ty = si_TypeIdentifier info)) as [->|Hne].
      + rewrite lookup_insert_eq, Hs. rewrite (bool_decide_eq_true_2 (_ = _)) by done.
        rewrite (bool_decide_eq_false_2 (_ \/ _ + _ = 0)) by (intros [|]; [done|lia]).
        case_bool_decide as Hc; [destruct Hc as [|Hc]; [done|]; by rewrite Hc|done].
      + rewrite lookup_insert_ne, Hs by done. rewrite (bool_decide_eq_false_2 (_ = _)) by congruence.
        by rewrite Z.add_0_r. }
  pose proof (skipped_admitted svcs (tsp, info) st Ht Hs) as Hs'.
  simpl in Hacc.
  destruct (status_ok sts info) eqn:Hok; cbn [negb].
  2: { split; try done; [unfold occurrences|]; rewrite flat_map_snoc; [|unfold service_warnings at 2];
         by rewrite Hacc, app_nil_r. }
  assert (Hocc : occurrences (svcs ++ [(tsp, info)]) =
    occurrences svcs ++ ((fun id => (tsp, info, id)) <$> identities (si_DigitalIdentity info))).
  { unfold occurrences. rewrite flat_map_snoc. by rewrite Hacc. }
  assert (Hws : flat_map service_warnings (svcs ++ [(tsp, info)]) =
    flat_map service_warnings svcs ++ service_warnings (tsp, info)) by apply flat_map_snoc.
  unfold service_warnings at 3 in Hws. rewrite Hacc in Hws. cbn [fst snd] in Hws.
  pose proof (serviceIdentities_ids tsp (LocalizedText_String (si_Name info)) (si_DigitalIdentity info)) as Hids.
  destruct (serviceIdentities tsp _ _) as [ids skipped]. simpl in Hids. subst ids.
  set (ids := identities _) in *.
  destruct (bool_decide (length ids = 0%nat)) eqn:E1; cbn [andb] in Hws |- *.
  - apply bool_decide_eq_true, length_zero_iff_nil in E1. rewrite E1, app_nil_r in Hocc.
    case_bool_decide as E2; split; simpl; try done; rewrite ?Hocc, ?Hws, ?Hw; try done.
    apply length_zero_iff_nil in E2. by rewrite E2, app_nil_r.
  - pose proof (serviceQualifications_spec (e_hq st) (e_hu st) (si_Extensions info) Hq Hu)
      as (Hp & Huse & Hread & Hqscd & Hpq & _).
    generalize dependent (serviceQualifications (e_hq st) (e_hu st) (si_Extensions info)).
    intros q Hp Huse Hread Hqscd Hpq. split; simpl; [by transitivity (e_hq st)|by transitivity (e_hu st)| |by rewrite Hws, Hw|done].
    rewrite Hocc. apply Forall2_app.
    + eapply Forall2_impl; [exact Ha|]. intros r o. by apply occ_raw_prefix.
    + apply Forall2_fmap, Forall_Forall2_diag, Forall_true. intros id.
      unfold occ_raw. simpl. by rewrite Hqscd.
Qed.

Lemma second_pass_inv svcs : pass_inv svcs (second_pass territory sts types svcs).
Proof.
  unfold second_pass.
  assert (Hg : forall pre st, pass_inv pre st ->
    pass_inv (pre ++ svcs) (foldl (service_step territory sts types) st svcs)).
  { induction svcs as [|e svcs IH]; intros pre st Hi; simpl; [by rewrite app_nil_r|].
    rewrite cons_middle, app_assoc. by apply IH, service_step_inv. }
  apply (Hg []). split; try done; simpl.
  intros ty. rewrite lookup_empty. rewrite bool_decide_eq_true_2; [done|]. by right.
Qed.
End SecondPass.

(** ** The last loop *)

Section Dedup.
Context (statuses : gmap string (gset string)) (hu0 : heap) (ws0 : list ExtractionWarning).

Definition conflict (fp : string) : Prop := (1 < size (cert_statuses statuses fp))%nat.

(** The anchor kept for a certificate, after the entries [P]. *)
Record kept_inv (P : list rawAnchor) (hu : heap) (r : rawAnchor) : Prop := {
  ki_use : use_slice hu (ra_Uses r);
  ki_conflict : ~ conflict (ra_fp r);
  ki_base : exists b, b ∈ P /\ ra_Anchor r = set_a_QCWithQSCD (ra_Anchor b) (a_QCWithQSCD (ra_Anchor r));
  ki_qscd : a_QCWithQSCD (ra_Anchor r) = true <->
    exists b, b ∈ P /\ ra_fp b = ra_fp r /\ a_QCWithQSCD (ra_Anchor b) = true;
  ki_read : forall u, u ∈ read hu (ra_Uses r) <->
    exists b, b ∈ P /\ ra_fp b = ra_fp r /\ u ∈ read hu0 (ra_Uses b)
}.

Record dedup_inv (P : list rawAnchor) (st : dedupState) : Prop := {
  di_hu : hu0 `prefix_of` dd_hu st;
  di_seen : forall fp i, dd_seen st !! fp = Some i <->
    exists r, dd_dedup st !! i = Some r /\ ra_fp r = fp;
  di_kept : forall r, r ∈ dd_dedup st -> kept_inv P (dd_hu st) r;
  di_all : forall b, b ∈ P -> ~ conflict (ra_fp b) -> ra_fp b ∈ ra_fp <$> dd_dedup st;
  di_conflicted : forall fp, fp ∈ dd_conflicted st <-> conflict fp /\ fp ∈ ra_fp <$> P;
  di_warnings : exists extra, dd_warnings st = ws0 ++ extra /\
    (forall w, w ∈ extra -> exists b, b ∈ P /\ conflict (ra_fp b) /\ w = conflict_warning (ra_Anchor b)) /\
    (forall fp, fp ∈ dd_conflicted st -> exists b, ra_fp b = fp /\ conflict_warning (ra_Anchor b) ∈ extra)
}.

(** An entry with another certificate changes nothing for the anchor kept. *)
Lemma kept_inv_other P hu r a :
  ra_fp a <> ra_fp r -> kept_inv P hu r -> kept_inv (P ++ [a]) hu r.
Proof.
  intros Hne [H1 H2 (b & Hb & Hbase) H4 H5]. split; [done|done| | |].
  - exists b. split; [|done]. set_solver.
  - rewrite H4. setoid_rewrite elem_of_app. setoid_rewrite list_elem_of_singleton. naive_solver.
  - intros u. rewrite H5. setoid_rewrite elem_of_app. setoid_rewrite list_elem_of_singleton. naive_solver.
Qed.

Lemma kept_inv_prefix P (hu hu' : heap) r :
  hu `prefix_of` hu' -> kept_inv P hu r -> kept_inv P hu' r.
Proof.
  intros Hp [H1 H2 H3 H4 H5]. destruct (use_slice_prefix hu hu' _ Hp H1) as [H1' Hr].
  split; try done. intros u. by rewrite Hr, H5.
Qed.

(** A first entry is kept as it is. *)
Lemma kept_inv_first P (hu : heap) a :
  hu0 `prefix_of` hu -> use_slice hu0 (ra_Uses a) -> ~ conflict (ra_fp a) -> ra_fp a ∉ ra_fp <$> P ->
  kept_inv (P ++ [a]) hu a.
Proof.
  intros Hp Hu Hc Hfresh. destruct (use_slice_prefix hu0 hu _ Hp Hu) as [Hu' Hr].
  assert (Hf : forall b, b ∈ P -> ra_fp b <> ra_fp a).
  { intros b Hb E. apply Hfresh, list_elem_of_fmap. eauto. }
  split; try done.
  - exists a. split; [set_solver|]. by destruct (ra_Anchor a).
  - split; [intros Hq; exists a; set_solver|].
    intros (b & [Hb| ->%list_elem_of_singleton]%elem_of_app & E & Hq); [by destruct (Hf b)|done].
  - intros u. rewrite Hr. split; [intros Hin; exists a; set_solver|].
    intros (b & [Hb| ->%list_elem_of_singleton]%elem_of_app & E & Hq); [by destruct (Hf b)|done].
Qed.

(** A further entry of the certificate merges into the anchor kept. *)
Lemma kept_inv_merge P hq (hu : heap) r a :
  hu0 `prefix_of` hu -> use_slice hu0 (ra_Uses a) -> ra_fp a = ra_fp r -> kept_inv P hu r ->
  let '(hq', hu', m) := mergeDuplicateAnchor hq hu r a in
  hu `prefix_of` hu' /\ ra_fp m = ra_fp r /\ kept_inv (P ++ [a]) hu' m.
Proof.
  intros Hp Ha Hfp [H1 H2 (b0 & Hb0 & Hbase) H4 H5]. unfold mergeDuplicateAnchor.
  destruct (use_slice_prefix hu0 hu _ Hp Ha) as [Ha' Hra].
  pose proof (union_into_use hu (ra_Uses r) (ra_Uses a) H1 Ha') as Hu.
  destruct (union_into hu _ _) as [hu' uses]. destruct Hu as (Hp' & Hu' & Hr').
  destruct (union_into hq _ _) as [hq' quals]. split_and!; [done|done|].
  split; simpl; try done.
  - exists b0. split; [set_solver|]. rewrite Hbase. by destruct (ra_Anchor b0).
  - rewrite orb_true_iff, H4. change (ra_fp (mkRaw _ _ _)) with (ra_fp r). split.
    + intros [(b & ? & ? & ?)|?]; [exists b|exists a]; set_solver.
    + intros (b & [Hb| ->%list_elem_of_singleton]%elem_of_app & E & Hq); [left; eauto|by right].
  - change (ra_fp (mkRaw _ _ _)) with (ra_fp r). intros u. rewrite Hr', H5, Hra. split.
    + intros [(b & ? & ? & ?)|?]; [exists b|exists a]; set_solver.
    + intros (b & [Hb| ->%list_elem_of_singleton]%elem_of_app & E & Hq); [left; eauto|by right].
Qed.

Lemma conflict_step P st a :
  conflict (ra_fp a) -> dedup_inv P st -> dedup_inv (P ++ [a]) (dedup_step statuses st a).
Proof.
  intros Hc [H1 H2 H3 H4 H5 (extra & Hw & He & Hcw)]. unfold dedup_step.
  rewrite bool_decide_eq_true_2 by done.
  assert (Hk : forall r, r ∈ dd_dedup st -> kept_inv (P ++ [a]) (dd_hu st) r).
  { intros r Hr. specialize (H3 r Hr). apply kept_inv_other; [|done]. intros E.
    apply (ki_conflict _ _ _ H3). by rewrite <-E. }
  assert (Hall : forall b, b ∈ P ++ [a] -> ~ conflict (ra_fp b) -> ra_fp b ∈ ra_fp <$> dd_dedup st).
  { intros b [Hb| ->%list_elem_of_singleton]%elem_of_app; [by auto|done]. }
  case_bool_decide as Hin; split; simpl; try done.
  - intros fp. rewrite H5, fmap_app, elem_of_app. simpl. rewrite list_elem_of_singleton.
    apply H5 in Hin. naive_solver.
  - exists extra. split_and!; [done| |done]. intros w Hx. destruct (He w Hx) as (b & ? & ?). exists b. set_solver.
  - intros fp. rewrite elem_of_union, elem_of_singleton, H5, fmap_app, elem_of_app. simpl.
    rewrite list_elem_of_singleton. naive_solver.
  - exists (extra ++ [conflict_warning (ra_Anchor a)]). split_and!; [by rewrite Hw, app_assoc| |].
    + intros w [Hx| ->%list_elem_of_singleton]%elem_of_app; [|exists a; set_solver].
      destruct (He w Hx) as (b & ? & ?). exists b. set_solver.
    + intros fp [->%elem_of_singleton|Hx]%elem_of_union; [exists a; set_solver|].
      destruct (Hcw fp Hx) as (b & ? & ?). exists b. set_solver.
Qed.

(** The parts of the invariant about conflicts, under an entry without one. *)
Lemma no_conflict_keeps P st (a : rawAnchor) :
  ~ conflict (ra_fp a) -> dedup_inv P st ->
  (forall fp, fp ∈ dd_conflicted st <-> conflict fp /\ fp ∈ ra_fp <$> (P ++ [a])) /\
  exists extra, dd_warnings st = ws0 ++ extra /\
    (forall w, w ∈ extra -> exists b, b ∈ P ++ [a] /\ conflict (ra_fp b) /\ w = conflict_warning (ra_Anchor b)) /\
    (forall fp, fp ∈ dd_conflicted st -> exists b, ra_fp b = fp /\ conflict_warning (ra_Anchor b) ∈ extra).
Proof.
  intros Hc Hi. split.
  - intros fp. rewrite (di_conflicted _ _ Hi), fmap_app, elem_of_app. simpl.
    rewrite list_elem_of_singleton. naive_solver.
  - destruct (di_warnings _ _ Hi) as (extra & Hw & He & Hcw). exists extra. split_and!; [done| |done].
    intros w Hx. destruct (He w Hx) as (b & ? & ?). exists b. set_solver.
Qed.

Lemma dedup_fps_unique P st i j r1 r2 :
  dedup_inv P st -> dd_dedup st !! i = Some r1 -> dd_dedup st !! j = Some r2 -> ra_fp r1 = ra_fp r2 -> i = j.
Proof.
  intros Hi H1 H2 E.
  assert (Hs1 : dd_seen st !! ra_fp r1 = Some i) by (apply (di_seen _ _ Hi); eauto).
  assert (Hs2 : dd_seen st !! ra_fp r1 = Some j) by (apply (di_seen _ _ Hi); eauto).
  congruence.
Qed.

Lemma first_step P st a :
  ~ conflict (ra_fp a) -> use_slice hu0 (ra_Uses a) -> dd_seen st !! ra_fp a = None ->
  dedup_inv P st -> dedup_inv (P ++ [a]) (dedup_step statuses st a).
Proof.
  intros Hc Hu Hseen Hi. pose proof (no_conflict_keeps P st a Hc Hi) as [Hcf Hcw].
  destruct Hi as [H1 H2 H3 H4 _ _]. unfold dedup_step.
  rewrite bool_decide_eq_false_2, Hseen by done.
  assert (Hfresh : forall r, r ∈ dd_dedup st -> ra_fp r <> ra_fp a).
  { intros r Hr E. apply list_elem_of_lookup in Hr as [i Hr].
    assert (dd_seen st !! ra_fp a = Some i) by (apply H2; eauto). congruence. }
  split; simpl; try done.
  - intros fp i. destruct (decide (fp = ra_fp a)) as [->|Hne].
    + rewrite lookup_insert_eq. split.
      * intros [= <-]. exists a. split; [|done]. by rewrite lookup_app_r, Nat.sub_diag by lia.
      * intros (r & Hr & E). f_equal. apply lookup_app_Some in Hr as [Hr|[Hle Hr]].
        -- destruct (Hfresh r); [by eapply list_elem_of_lookup_2|done].
        -- apply list_lookup_singleton_Some in Hr as [? _]. lia.
    + rewrite lookup_insert_ne, H2 by done. setoid_rewrite lookup_app_Some.
      setoid_rewrite list_lookup_singleton_Some. naive_solver.
  - intros r [Hr| ->%list_elem_of_singleton]%elem_of_app.
    + apply kept_inv_other; [|by apply H3]. intros E. by destruct (Hfresh r Hr).
    + apply kept_inv_first; try done. intros (b & E & Hb)%list_elem_of_fmap.
      assert (Hin : ra_fp b ∈ ra_fp <$> dd_dedup st) by (apply H4; [done|by rewrite <-E]).
      apply list_elem_of_fmap in Hin as (r & Er & Hr). destruct (Hfresh r Hr). congruence.
  - intros b [Hb| ->%list_elem_of_singleton]%elem_of_app Hnc; rewrite fmap_app, elem_of_app; simpl;
      [left; by apply H4|right; by apply list_elem_of_singleton].
Qed.

Lemma merge_step P st a i :
  ~ conflict (ra_fp a) -> use_slice hu0 (ra_Uses a) -> dd_seen st !! ra_fp a = Some i ->
  dedup_inv P st -> dedup_inv (P ++ [a]) (dedup_step statuses st a).
Proof.
  intros Hc Hu Hseen Hi. pose proof (no_conflict_keeps P st a Hc Hi) as [Hcf Hcw].
  pose proof (fun j r1 r2 => dedup_fps_unique P st i j r1 r2 Hi) as Huniq.
  destruct Hi as [H1 H2 H3 H4 _ _]. unfold dedup_step.
  rewrite bool_decide_eq_false_2, Hseen by done. apply H2 in Hseen as (r & Hr & E). rewrite Hr.
  pose proof (H3 r (list_elem_of_lookup_2 _ _ _ Hr)) as Hk.
  pose proof (kept_inv_merge P (dd_hq st) (dd_hu st) r a H1 Hu (eq_sym E) Hk) as Hm.
  destruct (mergeDuplicateAnchor _ _ _ _) as [[hq' hu'] m]. destruct Hm as (Hp & Em & Hm).
  assert (Hfps : ra_fp <$> <[i := m]> (dd_dedup st) = ra_fp <$> dd_dedup st).
  { rewrite list_fmap_insert, Em. apply list_insert_id. by rewrite list_lookup_fmap, Hr. }
  assert (Hlen : (i < length (dd_dedup st))%nat) by (by eapply lookup_lt_Some).
  split; simpl; try done; [by transitivity (dd_hu st)| | |].
  - intros fp j. rewrite H2. destruct (decide (i = j)) as [<-|Hne].
    + rewrite list_lookup_insert_eq, Hr by done. split; intros (r' & [= <-] & <-); eauto.
    + by rewrite list_lookup_insert_ne by done.
  - intros r' Hr'. apply list_elem_of_lookup in Hr' as [j Hr']. destruct (decide (i = j)) as [<-|Hne].
    + rewrite list_lookup_insert_eq in Hr' by done. by simplify_eq.
    + rewrite list_lookup_insert_ne in Hr' by done. eapply kept_inv_prefix; [exact Hp|].
      apply kept_inv_other; [|apply H3; by eapply list_elem_of_lookup_2].
      intros E'. apply Hne. eapply Huniq; [exact Hr|exact Hr'|congruence].
  - intros b [Hb| ->%list_elem_of_singleton]%elem_of_app Hnc; rewrite Hfps; [by apply H4|].
    apply list_elem_of_fmap. exists r. split; [done|]. by eapply list_elem_of_lookup_2.
Qed.

Lemma dedup_step_inv P st a :
  use_slice hu0 (ra_Uses a) -> dedup_inv P st -> dedup_inv (P ++ [a]) (dedup_step statuses st a).
Proof.
  intros Hu Hi. destruct (decide (1 < size (cert_statuses statuses (ra_fp a)))%nat) as [Hc|Hc].
  - by apply conflict_step.
  - destruct (dd_seen st !! ra_fp a) as [i|] eqn:Hs; [by eapply merge_step|by apply first_step].
Qed.

Lemma dedup_fold_inv hq rs :
  Forall (fun r => use_slice hu0 (ra_Uses r)) rs ->
  dedup_inv rs (foldl (dedup_step statuses) (mkDedup hq hu0 ∅ ∅ [] ws0) rs).
Proof.
  intros Hall.
  assert (Hg : forall P st, dedup_inv P st -> dedup_inv (P ++ rs) (foldl (dedup_step statuses) st rs)).
  { clear hq. induction Hall as [|r rs Hr Hall IH]; intros P st Hi; simpl; [by rewrite app_nil_r|].
    rewrite cons_middle, app_assoc. by apply IH, dedup_step_inv. }
  apply (Hg []). split; simpl; try done.
  - intros fp i. rewrite lookup_empty. split; [done|]. intros (r & Hr & _). by rewrite lookup_nil in Hr.
  - intros r Hr. by apply elem_of_nil in Hr.
  - intros b Hb. by apply elem_of_nil in Hb.
  - intros fp. set_solver.
  - exists []. rewrite app_nil_r. split_and!; set_solver.
Qed.

(** Merging keeps the names and the fingerprint of the anchor kept, so what the loop
    appends is met in the order of the list it ranges over. *)
Lemma dedup_step_keys st a :
  (anchor_key ∘ ra_Anchor <$> dd_dedup (dedup_step statuses st a)) `sublist_of`
  (anchor_key ∘ ra_Anchor <$> dd_dedup st) ++ [anchor_key (ra_Anchor a)].
Proof.
  unfold dedup_step. destruct (bool_decide _).
  { destruct (bool_decide _); by apply sublist_inserts_r. }
  destruct (dd_seen st !! _) as [i|]; simpl; [|by rewrite fmap_app].
  apply sublist_inserts_r. destruct (dd_dedup st !! i) as [k|] eqn:Hk; [|done].
  destruct (mergeDuplicateAnchor _ _ k a) as [[hq hu] m] eqn:Em. simpl.
  assert (Hm : (anchor_key ∘ ra_Anchor) m = (anchor_key ∘ ra_Anchor) k)
    by (unfold mergeDuplicateAnchor in Em; repeat case_match; by simplify_eq/=).
  rewrite list_fmap_insert, Hm, list_insert_id; [done|]. by rewrite list_lookup_fmap, Hk.
Qed.

Lemma dedup_fold_keys rs st :
  (anchor_key ∘ ra_Anchor <$> dd_dedup (foldl (dedup_step statuses) st rs)) `sublist_of`
  (anchor_key ∘ ra_Anchor <$> dd_dedup st) ++ (anchor_key ∘ ra_Anchor <$> rs).
Proof.
  revert st. induction rs as [|r rs IH]; intros st; simpl; [by rewrite app_nil_r|].
  etransitivity; [apply IH|]. rewrite cons_middle, app_assoc. apply sublist_app; [|done].
  apply dedup_step_keys.
Qed.
End Dedup.
End Extract.
