(* ===== verification/ExtractProps.v ===== *)
(** * Properties of the extraction

    What [ExtractAnchors] returns, in terms of the entries of the list: which
    certificates are served, with what metadata, and what is reported. *)

From S2P Require Import Prelude Model Vocabulary Filter Tsl CertBody Slices Extract Samples.

Section Props.
Context {X : X509} {AS : Asn1} {AL : GoAlloc} {SO : GoSort} {RA : GoRange}.

(** The order the comparator of [ExtractAnchors] means: by provider name, then
    service name, then fingerprint. *)
Definition key_less : string * string * string -> string * string * string -> bool :=
  key_then (fun k => k.1.1) (key_then (fun k => k.1.2) (fun x y => str_ltb x.2 y.2)).

Lemma key_less_tie x y : key_less x y = false -> key_less y x = false -> x = y.
Proof.
  unfold key_less. rewrite <-!not_true_iff_false, !key_then_true. intros Hxy Hyx.
  destruct x as [[x1 x2] x3], y as [[y1 y2] y3]; simpl in *.
  assert (x1 = y1) as <- by (apply str_ltb_total; apply not_true_iff_false; tauto).
  assert (x2 = y2) as <- by (apply str_ltb_total; apply not_true_iff_false; tauto).
  f_equal. apply str_ltb_total; apply not_true_iff_false; tauto.
Qed.

(** The run of [ExtractAnchors] that returns [(anchors, ws)]. *)
Lemma ExtractAnchors_run tl territory sts tys now anchors ws :
  ExtractAnchors tl territory sts tys now = Ok (anchors, ws) ->
  exists pl d rs hu0 ws0,
    tl_ProviderList tl = Some pl /\
    let svcs := services_of pl in let types := types_set tys in
    let st := second_pass territory sts types svcs in
    dedup_inv (statusesByCert types svcs) hu0 ws0 rs d /\
    anchors = (resolve (dd_hq d) (dd_hu d) <$> dd_dedup d) /\ ws = dd_warnings d /\
    (forall r, r ∈ rs -> exists o, o ∈ occurrences sts types svcs /\ occ_raw territory hu0 r o) /\
    (forall o, o ∈ occurrences sts types svcs -> exists r, r ∈ rs /\ occ_raw territory hu0 r o) /\
    ws0 = flat_map (service_warnings sts types) svcs ++
          (skipped_type_warning (e_skippedTypes st) <$> sort_Strings (map_range (e_skippedTypes st)).*1) /\
    StronglySorted (not_less key_less) (anchor_key <$> anchors).
Proof.
  unfold ExtractAnchors. destruct (tl_ProviderList tl) as [pl|]; [|done]. intros [= <- <-].
  pose proof (second_pass_inv territory sts (types_set tys) (services_of pl)) as [_ _ Ha Hw _].
  set (st := second_pass _ _ _ _) in *.
  assert (Hr : forall r, r ∈ sort_Slice anchor_less (e_anchors st) ->
    exists o, o ∈ occurrences sts (types_set tys) (services_of pl) /\ occ_raw territory (e_hu st) r o).
  { intros r Hr. rewrite elem_of_sort_Slice in Hr. apply list_elem_of_lookup in Hr as [i Hi].
    destruct (Forall2_lookup_l _ _ _ _ _ Ha Hi) as (o & Ho & ?). exists o.
    split; [by eapply list_elem_of_lookup_2|done]. }
  eexists pl, _, (sort_Slice anchor_less (e_anchors st)), (e_hu st), _.
  split; [done|]. split; [|split_and!; [done..|exact Hr| |by rewrite <-Hw|]].
  - apply dedup_fold_inv, Forall_forall. intros r Hin. by destruct (Hr r Hin) as (o & _ & _ & ? & _).
  - intros o Ho. apply list_elem_of_lookup in Ho as [i Hi].
    destruct (Forall2_lookup_r _ _ _ _ _ Ha Hi) as (r & Hr' & ?). exists r. split; [|done].
    rewrite elem_of_sort_Slice. by eapply list_elem_of_lookup_2.
  - rewrite <-list_fmap_compose. eapply StronglySorted_sublist; [apply (dedup_fold_keys _ _ (mkDedup _ _ _ _ _ _))|].
    apply (StronglySorted_fmap _ (not_less anchor_less)); [done|].
    apply sort_Slice_strongly_sorted. unfold anchor_less. apply _.
Qed.

Lemma occ_raw_fp territory hu r o : occ_raw territory hu r o -> ra_fp r = occ_fp o.
Proof. intros (Ha & _). unfold ra_fp. rewrite Ha. by destruct o as [[tsp info] id]. Qed.

(** Two different statuses is what [len(statusesByCert[fp]) > 1] tests. *)
Lemma conflict_iff types svcs fp :
  conflict (statusesByCert types svcs) fp <->
  exists s1 s2, s1 <> s2 /\ lists_status types svcs fp s1 /\ lists_status types svcs fp s2.
Proof.
  unfold conflict. setoid_rewrite <-statusesByCert_elem. set (S := cert_statuses _ fp). split.
  - intros Hs. destruct (set_choose_L S) as [s1 H1]; [intros E; rewrite E, size_empty in Hs; lia|].
    destruct (set_choose_L (S ∖ {[ s1 ]})) as [s2 H2].
    { intros E. assert (Hsub : S ⊆ {[ s1 ]}).
      { intros x Hx. destruct (decide (x = s1)) as [->|]; [set_solver|].
        assert (Hd : x ∈ S ∖ {[ s1 ]}) by set_solver. rewrite E in Hd. set_solver. }
      apply subseteq_size in Hsub. rewrite size_singleton in Hsub. lia. }
    exists s1, s2. set_solver.
  - intros (s1 & s2 & Hne & H1 & H2).
    assert (Hsub : ({[ s1; s2 ]} : gset string) ⊆ S) by set_solver.
    apply subseteq_size in Hsub. rewrite size_union, !size_singleton in Hsub by set_solver. lia.
Qed.

Lemma resolve_fp hq hu r : a_FingerprintSHA256 (resolve hq hu r) = ra_fp r.
Proof. done. Qed.

Lemma dedup_NoDup statuses hu0 ws0 rs d : dedup_inv statuses hu0 ws0 rs d -> NoDup (ra_fp <$> dd_dedup d).
Proof.
  intros Hi. apply NoDup_alt. intros i j fp Hii Hjj. rewrite list_lookup_fmap_Some in Hii, Hjj.
  destruct Hii as (r1 & -> & H1), Hjj as (r2 & E & H2). by eapply dedup_fps_unique.
Qed.

Lemma ExtractAnchors_NoDup tl territory sts tys now anchors ws :
  ExtractAnchors tl territory sts tys now = Ok (anchors, ws) -> NoDup (a_FingerprintSHA256 <$> anchors).
Proof.
  intros (pl & d & rs & hu0 & ws0 & _ & Hi & -> & _)%ExtractAnchors_run. rewrite <-list_fmap_compose.
  by apply dedup_NoDup in Hi.
Qed.

Lemma keys_strict anchors :
  NoDup (a_FingerprintSHA256 <$> anchors) -> StronglySorted (not_less key_less) (anchor_key <$> anchors) ->
  StronglySorted (fun x y => key_less x y = true) (anchor_key <$> anchors).
Proof.
  intros Hn. apply sorted_strict; [intros x y _ _; apply key_less_tie|].
  apply (NoDup_fmap_1 snd). by rewrite <-list_fmap_compose.
Qed.

(** C15 Extraction serves exactly the certificates it should, once each and in
    order: it fails only without a provider list; otherwise an anchor with a given
    fingerprint is returned if and only if an entry of an admitted type and an accepted
    status yields that certificate and no two entries of admitted types list it under
    different statuses (a conflict fails closed).  An entry yields its certificates
    when all its identities can be base64-decoded; one that cannot drops the entry
    whole.  What is returned is strictly increasing by provider name, service name and
    fingerprint. *)
Theorem extract_served_set tl territory sts tys now :
  match ExtractAnchors tl territory sts tys now with
  | Err _ => tl_ProviderList tl = None
  | Ok (anchors, _) => exists pl, tl_ProviderList tl = Some pl /\
      let svcs := services_of pl in let types := types_set tys in
      NoDup (a_FingerprintSHA256 <$> anchors) /\
      StronglySorted (fun x y => key_less x y = true) (anchor_key <$> anchors) /\
      forall fp, fp ∈ a_FingerprintSHA256 <$> anchors <->
        fp ∈ occ_fp <$> occurrences sts types svcs /\
        forall s1 s2, lists_status types svcs fp s1 -> lists_status types svcs fp s2 -> s1 = s2
  end.
Proof.
  destruct (ExtractAnchors tl territory sts tys now) as [[anchors ws]|e] eqn:E.
  2: { unfold ExtractAnchors in E. by destruct (tl_ProviderList tl). }
  pose proof (ExtractAnchors_NoDup _ _ _ _ _ _ _ E) as Hnd.
  apply ExtractAnchors_run in E as (pl & d & rs & hu0 & ws0 & Hpl & Hi & -> & _ & Hr & Ho & _ & Hsort).
  exists pl. split; [done|]. cbv zeta. split_and!; [done|by apply keys_strict|].
  rewrite <-list_fmap_compose. change (a_FingerprintSHA256 ∘ _) with ra_fp. intros fp. split.
  - intros (r & -> & Hin)%list_elem_of_fmap. apply (di_kept _ _ _ _ _ Hi) in Hin.
    destruct (ki_base _ _ _ _ _ Hin) as (b & Hb & Hbase).
    destruct (Hr b Hb) as (o & Hoin & Hor). split.
    + apply list_elem_of_fmap. exists o. split; [|done]. rewrite <-(occ_raw_fp _ _ _ _ Hor).
      unfold ra_fp. rewrite Hbase. by destruct (ra_Anchor b).
    + intros s1 s2 H1 H2. destruct (decide (s1 = s2)) as [|Hne]; [done|]. exfalso.
      apply (ki_conflict _ _ _ _ _ Hin), conflict_iff. eauto.
  - intros [(o & -> & Hoin)%list_elem_of_fmap Hs]. destruct (Ho o Hoin) as (r & Hrin & Hor).
    rewrite <-(occ_raw_fp _ _ _ _ Hor) in *. apply (di_all _ _ _ _ _ Hi); [done|].
    rewrite conflict_iff. intros (s1 & s2 & Hne & H1 & H2). by apply Hne, Hs.
Qed.

(** An anchor's fields as its entry states them: all but [Qualifiers], [Uses]
    and the QSCD flag, which merging may extend. *)
Definition same_entry (a b : Anchor) : Prop :=
  set_a_slices (set_a_QCWithQSCD a false) [] [] = set_a_slices (set_a_QCWithQSCD b false) [] [].

(** The entry an anchor's own fields come from. *)
Lemma extract_entry tl territory sts tys now anchors ws a :
  ExtractAnchors tl territory sts tys now = Ok (anchors, ws) -> a ∈ anchors ->
  exists pl o, tl_ProviderList tl = Some pl /\ o ∈ occurrences sts (types_set tys) (services_of pl) /\
    same_entry a (occ_anchor territory o).
Proof.
  intros E Ha. apply ExtractAnchors_run in E as (pl & d & rs & hu0 & ws0 & Hpl & Hi & -> & _ & Hr & Ho & _ & Hsort).
  apply list_elem_of_fmap in Ha as (r & -> & Hin).
  apply (di_kept _ _ _ _ _ Hi) in Hin as [Huse _ (b & Hb & Hbase) Hq Hu].
  destruct (Hr b Hb) as (o & Hoin & Hor & _). exists pl, o. split_and!; [done..|].
  unfold same_entry, resolve. rewrite <-Hor, Hbase. by destruct (ra_Anchor b).
Qed.

Lemma extract_territory tl territory sts tys now anchors ws a :
  ExtractAnchors tl territory sts tys now = Ok (anchors, ws) -> a ∈ anchors -> a_Territory a = territory.
Proof.
  intros E Ha. destruct (extract_entry _ _ _ _ _ _ _ _ E Ha) as (pl & o & _ & _ & Hs).
  apply (f_equal a_Territory) in Hs. simpl in Hs. rewrite Hs. by destruct o as [[tsp info] id].
Qed.

(** C16 Every anchor returned is the listing's: its territory, names, type,
    status, certificate, validity, key and taxonomy key come from one accepted
    entry listing the certificate; it is QSCD-flagged exactly when some accepted
    entry for that certificate carries a QSCD qualifier; and its uses are exactly
    the union of the uses of all those entries, without repetition. *)
Theorem extract_anchor_content tl territory sts tys now anchors ws pl a :
  ExtractAnchors tl territory sts tys now = Ok (anchors, ws) -> tl_ProviderList tl = Some pl ->
  a ∈ anchors ->
  let occs := occurrences sts (types_set tys) (services_of pl) in
  (exists o, o ∈ occs /\ same_entry a (occ_anchor territory o)) /\
  (a_QCWithQSCD a = true <-> exists o, o ∈ occs /\ occ_fp o = a_FingerprintSHA256 a /\
     qscd_of (si_Extensions o.1.2) = true) /\
  (forall u, u ∈ a_Uses a <-> exists o, o ∈ occs /\ occ_fp o = a_FingerprintSHA256 a /\ u ∈ occ_uses o) /\
  NoDup (a_Uses a).
Proof.
  intros E Hpl' Ha. destruct (extract_entry _ _ _ _ _ _ _ _ E Ha) as (pl0 & o0 & Hpl0 & Ho0 & Hs0).
  apply ExtractAnchors_run in E as (pl' & d & rs & hu0 & ws0 & Hpl & Hi & -> & _ & Hr & Ho & _ & Hsort).
  rewrite Hpl in Hpl'. injection Hpl' as ->. apply list_elem_of_fmap in Ha as (r & -> & Hin).
  apply (di_kept _ _ _ _ _ Hi) in Hin as [Huse _ _ Hq Hu].
  rewrite resolve_fp. cbv zeta. split_and!.
  - exists o0. rewrite Hpl in Hpl0. injection Hpl0 as <-. done.
  - change (a_QCWithQSCD (resolve _ _ r)) with (a_QCWithQSCD (ra_Anchor r)). rewrite Hq. split.
    + intros (c & Hc & Hfp & Hqc). destruct (Hr c Hc) as (o & Hoin & Hor). exists o.
      rewrite <-(occ_raw_fp _ _ _ _ Hor). split_and!; [done..|]. destruct Hor as (Hor & _).
      rewrite Hor in Hqc. by destruct o as [[tsp info] id].
    + intros (o & Hoin & Hfp & Hqc). destruct (Ho o Hoin) as (c & Hc & Hor). exists c.
      rewrite (occ_raw_fp _ _ _ _ Hor). split_and!; [done..|]. destruct Hor as (Hor & _).
      rewrite Hor. by destruct o as [[tsp info] id].
  - change (a_Uses (resolve _ _ r)) with (read (dd_hu d) (ra_Uses r)). intros u. rewrite Hu. split.
    + intros (c & Hc & Hfp & Huc). destruct (Hr c Hc) as (o & Hoin & Hor). exists o.
      rewrite <-(occ_raw_fp _ _ _ _ Hor). destruct Hor as (_ & _ & Hor). naive_solver.
    + intros (o & Hoin & Hfp & Huc). destruct (Ho o Hoin) as (c & Hc & Hor). exists c.
      rewrite (occ_raw_fp _ _ _ _ Hor). destruct Hor as (_ & _ & Hor). naive_solver.
  - by destruct Huse as (_ & ? & _).
Qed.

(** ** Reports *)

Lemma der_outcome_fp {L : X509Laws} tsp sn der :
  match der_outcome tsp sn der with
  | inl id => id_fingerprintSHA256 id = fingerprintDER der
  | inr w => w_FingerprintSHA256 w = fingerprintDER der /\ w_Code w = SkipInvalidCertificate
  end.
Proof.
  unfold der_outcome. destruct (x509_ParseCertificate der) as [cert|e] eqn:E.
  - unfold identityFromCertificate. destruct (spkiAlgorithm _). simpl. by apply Fingerprint_DER.
  - repeat case_match; simplify_eq/=; done.
Qed.

Lemma elem_of_omap_fmap {A B C} (f : A -> B) (g : B -> option C) (l : list A) x y :
  x ∈ l -> g (f x) = Some y -> y ∈ omap g (f <$> l).
Proof. intros Hx Hg. apply list_elem_of_omap. exists (f x). split; [|done]. by apply list_elem_of_fmap_2. Qed.

(** The report on an accepted entry: one on the entry when it yields no
    certificate at all, else each certificate served or reported. *)
Definition reported (anchors : list Anchor) (ws : list ExtractionWarning)
    (e : string * ServiceInformation) : Prop :=
  let about w := w_TSPName w = e.1 /\ w_ServiceName w = LocalizedText_String (si_Name e.2) in
  match CertificateDERs (si_DigitalIdentity e.2) with
  | Err _ => exists w, w ∈ ws /\ about w /\ w_Code w = SkipInvalidCertificate
  | Ok [] => exists w, w ∈ ws /\ about w /\ w_Code w = SkipNoCertificate
  | Ok ders => forall der, der ∈ ders ->
      (exists a, a ∈ anchors /\ a_FingerprintSHA256 a = fingerprintDER der) \/
      (exists w, w ∈ ws /\ w_FingerprintSHA256 w = fingerprintDER der /\
                 (w_Code w = SkipInvalidCertificate \/ w_Code w = SkipStatusConflict))
  end.

(** A certificate of an accepted entry that parsed is served, or its conflict
    is reported. *)
Lemma occurrence_reported statuses hu0 ws0 rs d territory (o : occurrence) r :
  dedup_inv statuses hu0 ws0 rs d -> r ∈ rs -> occ_raw territory hu0 r o ->
  (exists a, a ∈ resolve (dd_hq d) (dd_hu d) <$> dd_dedup d /\ a_FingerprintSHA256 a = occ_fp o) \/
  (exists w, w ∈ dd_warnings d /\ w_FingerprintSHA256 w = occ_fp o /\ w_Code w = SkipStatusConflict).
Proof.
  intros Hi Hr Hor. rewrite <-(occ_raw_fp _ _ _ _ Hor).
  destruct (decide (1 < size (cert_statuses statuses (ra_fp r)))%nat) as [Hc|Hc].
  - right. assert (Hin : ra_fp r ∈ dd_conflicted d).
    { apply (di_conflicted _ _ _ _ _ Hi). split; [done|]. by apply list_elem_of_fmap_2. }
    destruct (di_warnings _ _ _ _ _ Hi) as (extra & -> & _ & Hw).
    destruct (Hw _ Hin) as (b & E & Hb). exists (conflict_warning (ra_Anchor b)).
    split; [set_solver|done].
  - left. pose proof (di_all _ _ _ _ _ Hi r Hr Hc) as Hin. apply list_elem_of_fmap in Hin as (k & E & Hk).
    exists (resolve (dd_hq d) (dd_hu d) k). split; [by apply list_elem_of_fmap_2|done].
Qed.

(** C17 No certificate is dropped silently: for every entry of an admitted type
    and an accepted status whose identities are all base64, each certificate it lists
    is either returned or named by its fingerprint in a warning (unreadable, or dropped
    for conflicting statuses); an entry with an identity that is not base64, of which
    no certificate is taken, and an entry without certificates are named in a warning
    by provider and service. *)
Theorem extract_nothing_silent {L : X509Laws} tl territory sts tys now anchors ws pl e :
  ExtractAnchors tl territory sts tys now = Ok (anchors, ws) -> tl_ProviderList tl = Some pl ->
  e ∈ services_of pl -> accepted sts (types_set tys) e = true -> reported anchors ws e.
Proof.
  intros E Hpl' He Hacc. apply ExtractAnchors_run in E as (pl' & d & rs & hu0 & ws0 & Hpl & Hi & -> & -> & _ & Ho & Hws0 & _).
  rewrite Hpl in Hpl'. injection Hpl' as ->.
  assert (Hsub : forall w, w ∈ service_warnings sts (types_set tys) e -> w ∈ dd_warnings d).
  { intros w Hw. destruct (di_warnings _ _ _ _ _ Hi) as (extra & -> & _). rewrite Hws0.
    apply elem_of_app; left. apply elem_of_app; left. rewrite list_elem_of_In, in_flat_map.
    exists e. split; by apply list_elem_of_In. }
  unfold service_warnings in Hsub. rewrite Hacc in Hsub. unfold reported.
  pose proof (serviceIdentities_ids e.1 (LocalizedText_String (si_Name e.2)) (si_DigitalIdentity e.2)) as Hids.
  unfold serviceIdentities in Hsub, Hids. destruct (CertificateDERs _) as [[|der0 ders]|err] eqn:Ed.
  - eexists. split; [apply Hsub; by apply list_elem_of_here|done].
  - set (all := der0 :: ders) in *. intros der Hder.
    pose proof (der_outcome_fp e.1 (LocalizedText_String (si_Name e.2)) der) as Hfp.
    destruct (der_outcome e.1 (LocalizedText_String (si_Name e.2)) der) as [id|w] eqn:Eo.
    + assert (Hin : (e.1, e.2, id) ∈ occurrences sts (types_set tys) (services_of pl)).
      { unfold occurrences. rewrite list_elem_of_In, in_flat_map. exists e.
        rewrite <-!list_elem_of_In, Hacc. split; [done|]. apply list_elem_of_fmap_2. rewrite <-Hids.
        cbn [fst]. eapply elem_of_omap_fmap; [exact Hder|]. by rewrite Eo. }
      destruct (Ho _ Hin) as (r & Hr & Hor). rewrite <-Hfp. change (id_fingerprintSHA256 id) with (occ_fp (e.1, e.2, id)).
      destruct (occurrence_reported _ _ _ _ _ _ _ _ Hi Hr Hor) as [?|(w & ? & ? & ?)]; [by left|right; eauto].
    + right. exists w. destruct Hfp as [Hw Hc]. split_and!; [|done|by left]. apply Hsub. cbn [fst snd].
      assert (Hin : w ∈ omap right_of (der_outcome e.1 (LocalizedText_String (si_Name e.2)) <$> all)).
      { eapply elem_of_omap_fmap; [exact Hder|]. by rewrite Eo. }
      destruct (omap right_of _) as [|w' ws'] eqn:Er; [by apply elem_of_nil in Hin|].
      rewrite andb_comm. by rewrite bool_decide_eq_false_2 by done.
  - eexists. split; [apply Hsub; by apply list_elem_of_here|done].
Qed.

Lemma e_skippedTypes_keys territory sts types svcs ty :
  ty ∈ (map_range (e_skippedTypes (second_pass territory sts types svcs))).*1 <->
  ty ∉ types /\ type_count svcs ty <> 0.
Proof.
  pose proof (pi_skipped _ _ _ _ _ (second_pass_inv territory sts types svcs) ty) as Hs.
  rewrite list_elem_of_fmap. split.
  - intros ([k n] & -> & Hin). apply elem_of_map_range in Hin. simpl in *. rewrite Hs in Hin.
    case_bool_decide; [done|]. tauto.
  - intros Hn. exists (ty, type_count svcs ty). split; [done|]. apply elem_of_map_range. rewrite Hs.
    rewrite bool_decide_eq_false_2; [done|]. tauto.
Qed.

(** Services of types that are not admitted are counted, never silently
    dropped: the warnings without a code are, for each such type that occurs in
    the list, one warning with the exact number of its services. *)
Theorem extract_counts_unaccepted tl territory sts tys now anchors ws pl w :
  ExtractAnchors tl territory sts tys now = Ok (anchors, ws) -> tl_ProviderList tl = Some pl ->
  w ∈ ws /\ w_Code w = "" <->
  exists ty, ty ∉ types_set tys /\ type_count (services_of pl) ty <> 0 /\
    w = mkWarning "" "" ("skipped " +:+ itoa (type_count (services_of pl) ty) +:+
          " service(s) with unaccepted service type " +:+ ty) "" "" "" "".
Proof.
  intros E Hpl'. apply ExtractAnchors_run in E as (pl' & d & rs & hu0 & ws0 & Hpl & Hi & _ & -> & _ & _ & Hws0 & _).
  rewrite Hpl in Hpl'. injection Hpl' as ->.
  destruct (di_warnings _ _ _ _ _ Hi) as (extra & -> & Hx & _). rewrite Hws0. clear Hws0.
  set (svcs := services_of pl) in *. set (types := types_set tys) in *.
  pose proof (second_pass_inv territory sts types svcs) as [_ _ _ _ Hs].
  assert (Hwarn : forall ty, ty ∉ types -> type_count svcs ty <> 0 ->
    skipped_type_warning (e_skippedTypes (second_pass territory sts types svcs)) ty =
    mkWarning "" "" ("skipped " +:+ itoa (type_count svcs ty) +:+
      " service(s) with unaccepted service type " +:+ ty) "" "" "" "").
  { intros ty H1 H2. unfold skipped_type_warning. rewrite Hs.
    by rewrite bool_decide_eq_false_2 by (intros [|]; done). }
  rewrite !elem_of_app, list_elem_of_fmap. split.
  - intros [[[Hw|(ty & -> & Hty)]|Hw] Hc].
    + exfalso. rewrite list_elem_of_In, in_flat_map in Hw. destruct Hw as (e & _ & Hw).
      apply list_elem_of_In in Hw. unfold service_warnings, serviceIdentities in Hw.
      destruct (accepted _ _ _); [|by apply elem_of_nil in Hw].
      destruct (CertificateDERs _) as [ders|]; [|set_solver].
      case_match; [set_solver|]. apply list_elem_of_omap in Hw as (x & Hx' & Hw).
      apply list_elem_of_fmap in Hx' as (der & -> & _). unfold der_outcome in Hw.
      repeat case_match; by simplify_eq/=.
    + exists ty. unfold sort_Strings in Hty. rewrite elem_of_sort_Slice, e_skippedTypes_keys in Hty.
      destruct Hty. split_and!; [done..|by apply Hwarn].
    + destruct (Hx w Hw) as (b & _ & _ & ->). done.
  - intros (ty & H1 & H2 & ->). split; [|done]. left. right. exists ty. split; [by rewrite Hwarn|].
    unfold sort_Strings. by rewrite elem_of_sort_Slice, e_skippedTypes_keys.
Qed.
End Props.

(** ** On samples *)

#[local] Existing Instance toy_X509.
#[local] Existing Instance toy_Asn1.

(** Two certificates (the bytes X and Y): listed together by service A, with
    three qualifiers, and each again on its own by B and C; a third service of
    another type; one with an undecodable identity. *)
Definition sample_list : TrustedList :=
  national_list 7 "DE" [provider "T" [
    service "A" ServiceTypeCAQC StatusGranted ["WA=="; "WQ=="] [asi ASIForeSignatures; quals ["q1"; "q2"; "q3"]];
    service "B" ServiceTypeCAQC StatusGranted ["WA=="] [asi ASIForeSeals; quals [QualifierQCWithQSCD]];
    service "C" ServiceTypeCAQC StatusGranted ["WQ=="] [quals ["qY"]];
    service "D" "other-type" StatusGranted ["WA=="] [];
    service "E" ServiceTypeCAQC StatusGranted ["?"] []]].

Definition sample_run : result (list Anchor * list ExtractionWarning) :=
  ExtractAnchors sample_list "DE" ["granted"] [] 0.

Definition fpX : string := fingerprintDER "X".
Definition fpY : string := fingerprintDER "Y".

(** Merging duplicate entries can corrupt another anchor's qualifiers: the
    anchors of one service share its [Qualifiers] array, and when it has spare
    capacity the appends of [mergeDuplicateAnchor] for two of them land in the
    same cell.  Here certificate X, which entry B lists as QCWithQSCD, ends up
    with the qualifier of Y instead; its QSCD flag and uses are right. *)
Theorem shared_qualifiers_overwritten :
  match sample_run with
  | Ok (anchors, _) =>
      (fun a => (a_FingerprintSHA256 a, a_Qualifiers a, a_Uses a, a_QCWithQSCD a)) <$> anchors =
      [ (fpX, ["q1"; "q2"; "q3"; "qY"], ["signature"; "seal"], true);
        (fpY, ["q1"; "q2"; "q3"; "qY"], ["signature"], false) ]
  | Err _ => False
  end.
Proof. vm_compute. reflexivity. Qed.

Definition sample_anchors : list Anchor := match sample_run with Ok (a, _) => a | Err _ => [] end.
Definition sample_warnings : list ExtractionWarning := match sample_run with Ok (_, w) => w | Err _ => [] end.

Lemma sample_run_Ok : ExtractAnchors sample_list "DE" ["granted"] [] 0 = Ok (sample_anchors, sample_warnings).
Proof. vm_compute. reflexivity. Qed.

Definition sample_pl : ProviderList := default (mkProviderList []) (tl_ProviderList sample_list).

Lemma extract_anchor_content_witness :
  exists a, a ∈ sample_anchors /\ a_FingerprintSHA256 a = fpX /\ a_QCWithQSCD a = true /\ NoDup (a_Uses a).
Proof.
  destruct (sample_anchors) as [|a l] eqn:E; [vm_compute in E; discriminate E|].
  assert (Ha : a ∈ sample_anchors) by (rewrite E; apply list_elem_of_here).
  exists a. split; [rewrite <-E; exact Ha|].
  pose proof (extract_anchor_content sample_list "DE" ["granted"] [] 0 sample_anchors sample_warnings
    sample_pl a sample_run_Ok eq_refl Ha) as (_ & _ & _ & Hu).
  assert (Hfp : a_FingerprintSHA256 a = fpX /\ a_QCWithQSCD a = true)
    by (vm_compute in E; injection E as <- _; split; vm_compute; reflexivity).
  exact (conj (proj1 Hfp) (conj (proj2 Hfp) Hu)).
Defined.

Lemma extract_nothing_silent_witness :
  Forall (reported sample_anchors sample_warnings)
    (List.filter (accepted ["granted"] (types_set [])) (services_of sample_pl)).
Proof.
  apply Forall_forall. intros e He. apply elem_of_List_filter in He as [Hacc He].
  exact (extract_nothing_silent (L := toy_X509Laws) sample_list "DE" ["granted"] [] 0 _ _ sample_pl e
    sample_run_Ok eq_refl He Hacc).
Defined.

Lemma extract_counts_unaccepted_witness :
  exists w, w ∈ sample_warnings /\ w_Code w = "" /\
    w_Reason w = "skipped 1 service(s) with unaccepted service type other-type".
Proof.
  eexists. apply and_assoc. split.
  - apply (extract_counts_unaccepted sample_list "DE" ["granted"] [] 0 _ _ sample_pl _ sample_run_Ok eq_refl).
    exists "other-type". split_and!; [by_decide|by_decide|reflexivity].
  - vm_compute. reflexivity.
Defined.
