(* ===== verification/Internal.v ===== *)
(** * The operator-declared anchor source and the bootstrap certificates

    [src/trust/internal.go], [src/trust/certs.go] and [src/trust/bootstrap.go].
    The file system, [encoding/pem] decoding and the YAML decoder are the
    parameters [Files] and [Yaml]; the YAML document itself is a tree of nodes
    ([yaml.Node]) that the code walks as the source does. *)

From S2P Require Import Prelude GoTime Model Vocabulary CertBody Samples.

(** ** Parameters *)

(** Files change while the service runs: the number is the load they are read by,
    counted over all processes; one load sees one state of them. *)
Class Files := {
  os_ReadFile : nat -> string -> result bytes;
  os_IsDir : nat -> string -> result bool;                       (* [os.Stat] then [IsDir] *)
  os_ReadDir : nat -> string -> result (list (string * bool));   (* names, and whether a directory *)
  filepath_IsAbs : string -> bool;
  filepath_Join : string -> string -> string;
  filepath_Dir : string -> string;
  filepath_Ext : string -> string;
  (** [pem.Decode]: the block's type and bytes, and the rest of the input. *)
  pem_Decode : bytes -> option (string * bytes * bytes)
}.

(** A decoded block was taken from the input: what remains is shorter. *)
Class FilesLaws `{Files} : Prop := {
  pem_Decode_shorter : forall b ty blk rest,
    pem_Decode b = Some (ty, blk, rest) -> (String.length rest < String.length b)%nat
}.

(** ** YAML nodes *)

Inductive NodeKind := ZeroNode | DocumentNode | SequenceNode | MappingNode | ScalarNode | AliasNode.

#[global] Instance NodeKind_eq_dec : EqDecision NodeKind.
Proof. solve_decision. Defined.

Inductive Node := mkNode (kind : NodeKind) (value : string) (line : Z) (content : list Node) (alias : option Node).

Definition n_Kind (n : Node) : NodeKind := let 'mkNode k _ _ _ _ := n in k.
Definition n_Value (n : Node) : string := let 'mkNode _ v _ _ _ := n in v.
Definition n_Line (n : Node) : Z := let 'mkNode _ _ l _ _ := n in l.
Definition n_Content (n : Node) : list Node := let 'mkNode _ _ _ c _ := n in c.
Definition n_Alias (n : Node) : option Node := let 'mkNode _ _ _ _ a := n in a.

Record internalAnchor := mkInternalAnchor {
  in_Name : string;
  in_Type : string;
  in_Types : list string;
  in_Territory : string;
  in_Status : string;
  in_Certificate : string;
  in_CertificateFile : string;
  in_ValidUntil : time;
  in_UseCases : list string;
  in_hasType : bool;
  in_hasTypes : bool
}.

Record manifestSigner := mkManifestSigner { ms_Name : string; ms_Certificate : string }.
Record signerManifest := mkSignerManifest { sm_OJReference : string; sm_Signers : list manifestSigner }.

Class Yaml := {
  (** [yaml.Unmarshal] into a [yaml.Node]: the node tree. *)
  yaml_Unmarshal_node : bytes -> result Node;
  (** [Node.Decode] into an [internalFile]: its [Anchors]. *)
  node_Decode : Node -> result (list internalAnchor);
  (** [yaml.Unmarshal] into a [signerManifest]. *)
  yaml_Unmarshal_manifest : bytes -> result signerManifest
}.

Definition grantedStatusURI : string := "http://uri.etsi.org/TrstSvc/TrustedList/Svcstatus/granted".
Definition untypedAlias : string := "tsl_ca".
Definition errMalformedSource : error := errors_New "trust: internal trust source: malformed YAML".

(** [yamlKeys] of the two schema types: their yaml tags in field order. *)
Definition fileKeys : list string := ["anchors"].
Definition entryKeys : list string :=
  ["name"; "type"; "types"; "territory"; "status"; "certificate"; "certificateFile"; "validUntil"; "useCases"].

Definition entry_errf (e : internalAnchor) (msg : string) : error :=
  errors_New ("trust: internal anchor " +:+ Quote (in_Name e) +:+ ": " +:+ msg).

(** ** Walking the node tree *)

Definition resolveAlias (n : option Node) : option Node :=
  match n with
  | Some n' => if bool_decide (n_Kind n' = AliasNode) && bool_decide (is_Some (n_Alias n'))
               then n_Alias n' else n
  | None => None
  end.

(** The pairs of a mapping's content: [for i := 0; i+1 < len(c); i += 2]. *)
Fixpoint find_key (content : list Node) (key : string) : option Node :=
  match content with
  | k :: v :: rest => if str_eqb (n_Value k) key then Some v else find_key rest key
  | _ => None
  end.

Definition mappingValue (n : option Node) (key : string) : option Node :=
  match resolveAlias n with
  | Some n' => if bool_decide (n_Kind n' = MappingNode) then find_key (n_Content n') key else None
  | None => None
  end.

Definition sequenceItems (n : option Node) : list Node :=
  match resolveAlias n with
  | Some n' => if bool_decide (n_Kind n' = SequenceNode) then n_Content n' else []
  | None => []
  end.

(** The keys of a mapping's content: [for i := 0; i < len(c); i += 2]. *)
Fixpoint first_unknown (content : list Node) (accepted : list string) : option Z :=
  match content with
  | [] => None
  | k :: rest =>
      if negb (bool_decide (n_Value k ∈ accepted)) then Some (n_Line k)
      else match rest with [] => None | _ :: rest' => first_unknown rest' accepted end
  end.

Definition unknownKey (n : option Node) (accepted : list string) : option Z :=
  match n with
  | Some n' => if bool_decide (n_Kind n' = MappingNode) then first_unknown (n_Content n') accepted else None
  | None => None
  end.

(** ** Entries *)

Fixpoint declared_types_loop (e : internalAnchor) (out : list string) (raws : list string) :
    result (list string) :=
  match raws with
  | [] => Ok out
  | raw :: rest =>
      let t := TrimSpace raw in
      if str_eqb t "" || str_eqb t untypedAlias then
        Err (entry_errf e "types lists EUDI anchor types only; declare an untyped CA in an entry without types")
      else if negb (ValidAnchorType t) then Err (entry_errf e ("unknown type " +:+ Quote raw))
      else if bool_decide (t ∈ out) then Err (entry_errf e ("type " +:+ Quote t +:+ " listed twice"))
      else declared_types_loop e (out ++ [t]) rest
  end.

Definition declaredTypes (e : internalAnchor) : result (list string) :=
  if negb (in_hasTypes e) then
    let t := TrimSpace (in_Type e) in
    let t := if str_eqb t untypedAlias then "" else t in
    if negb (str_eqb t "") && negb (ValidAnchorType t)
    then Err (entry_errf e ("unknown type " +:+ Quote (in_Type e)))
    else Ok [t]
  else if in_hasType e then Err (entry_errf e "set either type or types, not both")
  else if bool_decide (length (in_Types e) = 0%nat) then
    Err (entry_errf e "types is empty (list at least one type, or use type)")
  else declared_types_loop e [] (in_Types e).

Definition is_upper (c : Ascii.ascii) : bool :=
  let n := Ascii.N_of_ascii c in ((65 <=? n) && (n <=? 90))%N.

(** On two bytes, the runes of the loop are letters exactly when the bytes are. *)
Definition validInternalTerritory (t : string) : bool :=
  bool_decide (String.length t = 2%nat) && forallb is_upper (String.list_ascii_of_string t).

Section Internal.
Context {X : X509} {AS : Asn1} {SO : GoSort} {FI : Files} {YA : Yaml} (load : nat).

(** The [pem.Decode] loop of [parseCerts]; each round consumes input, so the
    input's length is fuel enough. *)
Fixpoint pem_certs (fuel : nat) (rest : bytes) : result (list Certificate) :=
  match fuel with
  | O => Ok []
  | S fuel' =>
      match pem_Decode rest with
      | None => Ok []
      | Some (ty, blk, rest') =>
          if negb (str_eqb ty "CERTIFICATE") then pem_certs fuel' rest'
          else let? cert := x509_ParseCertificate blk in
               let? more := pem_certs fuel' rest' in
               Ok (cert :: more)
      end
  end.

Definition parseCerts (raw : bytes) : result (list Certificate) :=
  let? out := pem_certs (S (String.length raw)) raw in
  if bool_decide (0 < length out)%nat then Ok out
  else let? cert := map_err (fun e => errorf ("neither PEM nor DER certificate: " +:+ err_Error e) [e])
                      (x509_ParseCertificate raw) in
       Ok [cert].

Definition resolveInternalCertBytes (e : internalAnchor) (baseDir : string) : result bytes :=
  if negb (str_eqb (in_Certificate e) "") && negb (str_eqb (in_CertificateFile e) "") then
    Err (entry_errf e "exactly one of certificate/certificateFile must be set, both given")
  else if negb (str_eqb (in_Certificate e) "") then Ok (in_Certificate e)
  else if negb (str_eqb (in_CertificateFile e) "") then
    let p := in_CertificateFile e in
    let p := if negb (filepath_IsAbs p) then filepath_Join baseDir p else p in
    map_err (fun err => entry_errf e ("read certificateFile " +:+ p +:+ ": " +:+ err_Error err))
      (os_ReadFile load p)
  else Err (entry_errf e "missing certificate source (set certificate or certificateFile)").

Definition internal_anchor (e : internalAnchor) (territory status : string) (notAfter : time)
    (cert : Certificate) (keyAlgorithm curve t : string) : Anchor :=
  mkAnchor territory SourceInternal (in_Name e) (cert_CommonName cert) (TypeIdentifier t) status
    (cert_NotBefore cert) (cert_Raw cert) (Fingerprint cert) (cert_Subject cert) (cert_NotBefore cert)
    notAfter [] false [] keyAlgorithm curve t (in_UseCases e) 0.

Definition buildInternalAnchors (e : internalAnchor) (baseDir : string) (now : time) :
    result (list Anchor) :=
  let? types := declaredTypes e in
  let territory := ToUpper (TrimSpace (in_Territory e)) in
  if negb (validInternalTerritory territory) then
    Err (entry_errf e ("invalid territory " +:+ Quote (in_Territory e) +:+ " (want a 2-letter code or EU)"))
  else
  let? certBytes := resolveInternalCertBytes e baseDir in
  let? certs := map_err (fun err => entry_errf e ("parse certificate: " +:+ err_Error err))
                  (parseCerts certBytes) in
  match certs with
  | [cert] =>
      if time_After now (cert_NotAfter cert) then
        Err (entry_errf e ("certificate expired at " +:+ Format_RFC3339 (cert_NotAfter cert) +:+
                           " (fingerprint " +:+ Fingerprint cert +:+ ")"))
      else
        let notAfter := if negb (time_IsZero (in_ValidUntil e)) &&
                           time_Before (in_ValidUntil e) (cert_NotAfter cert)
                        then in_ValidUntil e else cert_NotAfter cert in
        let status := if str_eqb (in_Status e) "" then grantedStatusURI else in_Status e in
        let '(keyAlgorithm, curve) := spkiAlgorithm (cert_Raw cert) in
        Ok (internal_anchor e territory status notAfter cert keyAlgorithm curve <$> types)
  | _ => Err (entry_errf e ("expected exactly one certificate, got " +:+ itoa (Z.of_nat (length certs))))
  end.

Definition internalLess : Anchor -> Anchor -> bool :=
  key_then a_FingerprintSHA256 (fun a b => str_ltb (a_Type a) (a_Type b)).

Definition with_keys (e : internalAnchor) (node : option Node) : internalAnchor :=
  mkInternalAnchor (in_Name e) (in_Type e) (in_Types e) (in_Territory e) (in_Status e)
    (in_Certificate e) (in_CertificateFile e) (in_ValidUntil e) (in_UseCases e)
    (bool_decide (is_Some (mappingValue node "type"))) (bool_decide (is_Some (mappingValue node "types"))).

(** The loop over the entries, each with its node. *)
Fixpoint entries_loop (baseDir : string) (now : time) (seenBy : gmap string string)
    (entries : list (internalAnchor * Node)) : result (list Anchor) :=
  match entries with
  | [] => Ok []
  | (e, n) :: rest =>
      let node := resolveAlias (Some n) in
      match unknownKey node entryKeys with
      | Some line =>
          Err (entry_errf e ("unknown key at line " +:+ itoa line +:+ " (accepted: " +:+
                             Join entryKeys ", " +:+ ")"))
      | None =>
          let e := with_keys e node in
          let? built := buildInternalAnchors e baseDir now in
          let fp := from_option a_FingerprintSHA256 "" (head built) in
          match seenBy !! fp with
          | Some declaredBy =>
              Err (entry_errf e ("duplicate certificate (fingerprint " +:+ fp +:+
                                 " already declared by " +:+ Quote declaredBy +:+ ")"))
          | None =>
              let? more := entries_loop baseDir now (<[ fp := in_Name e ]> seenBy) rest in
              Ok (built ++ more)
          end
      end
  end.

Definition root_of (doc : Node) : option Node :=
  if bool_decide (n_Kind doc = DocumentNode) then head (n_Content doc) else Some doc.

Definition loadInternalBytes (raw : bytes) (baseDir : string) (now : time) : result (list Anchor) :=
  match yaml_Unmarshal_node raw with
  | Err _ => Err errMalformedSource
  | Ok doc =>
      match root_of doc with
      | None => Ok []
      | Some root =>
          if bool_decide (n_Kind root = ZeroNode) then Ok []
          else
            match node_Decode root with
            | Err _ => Err errMalformedSource
            | Ok file =>
                match unknownKey (Some root) fileKeys with
                | Some line =>
                    Err (errors_New ("trust: internal trust source: unknown key at line " +:+ itoa line +:+
                                     " (accepted: " +:+ Join fileKeys ", " +:+ ")"))
                | None =>
                    let entryNodes := sequenceItems (mappingValue (Some root) "anchors") in
                    if negb (bool_decide (length entryNodes = length file)) then Err errMalformedSource
                    else
                      let? anchors := entries_loop baseDir now ∅ (zip file entryNodes) in
                      Ok (sort_Slice internalLess anchors)
                end
            end
      end
  end.

Definition LoadInternal (path : string) (now : time) : result (list Anchor) :=
  if str_eqb path "" then Ok []
  else let? raw := map_err (fun e => errorf ("trust: internal trust source: " +:+ err_Error e) [e])
                     (os_ReadFile load path) in
       loadInternalBytes raw (filepath_Dir path) now.

(** ** Bootstrap certificates *)

Definition is_blank (c : Ascii.ascii) : bool :=
  let n := Ascii.N_of_ascii c in ((n =? 9) || (n =? 32))%N.

(** [(?m)^signers[ \t]*:] matches at the start of some line. *)
Definition signersKey_line (l : string) : bool :=
  HasPrefix l "signers" && HasPrefix (trim_left is_blank (String.substring 7 (String.length l) l)) ":".
Definition signersKeyRe_Match (raw : bytes) : bool :=
  existsb signersKey_line (split_on (Ascii.ascii_of_nat 10) raw).

Definition cert_exts : list string := [".pem"; ".crt"; ".cer"; ".der"].

Definition isSignerManifest (path : string) (raw : bytes) : bool :=
  let ext := ToLower (filepath_Ext path) in
  if bool_decide (ext ∈ [".yaml"; ".yml"]) then true
  else if bool_decide (ext ∈ cert_exts) then false
  else signersKeyRe_Match raw.

(** One signer of the manifest, the [i]-th from 0. *)
Definition manifest_cert (i : nat) (s : manifestSigner) : result Certificate :=
  let prefix := "trust: LOTL signer manifest: signer " +:+ itoa (Z.of_nat i + 1) +:+ " (" +:+
                Quote (ms_Name s) +:+ "): " in
  if str_eqb (TrimSpace (ms_Certificate s)) "" then Err (errors_New (prefix +:+ "missing certificate"))
  else
    let? certs := map_err (fun e => errorf (prefix +:+ err_Error e) [e]) (parseCerts (ms_Certificate s)) in
    match certs with
    | [c] => Ok c
    | _ => Err (errors_New (prefix +:+ "expected exactly one certificate, got " +:+
                            itoa (Z.of_nat (length certs))))
    end.

Definition loadSignerManifest (raw : bytes) : result (list Certificate * string) :=
  match yaml_Unmarshal_manifest raw with
  | Err _ => Err (errors_New "trust: LOTL signer manifest: malformed YAML")
  | Ok m =>
      if bool_decide (length (sm_Signers m) = 0%nat)
      then Err (errors_New "trust: LOTL signer manifest: no signers declared")
      else
        let? out := map_result (fun '(i, s) => manifest_cert i s)
                      (zip (seq 0 (length (sm_Signers m))) (sm_Signers m)) in
        Ok (out, sm_OJReference m)
  end.

Definition parseBootstrapFile (path : string) (raw : bytes) : result (list Certificate * string) :=
  if isSignerManifest path raw then loadSignerManifest raw
  else
    let? certs := map_err (fun e => errorf (path +:+ ": " +:+ err_Error e) [e]) (parseCerts raw) in
    if bool_decide (length certs = 0%nat) then Err (errors_New ("no certificates found at " +:+ path))
    else Ok (certs, "").

Definition loadBootstrap (path : string) : result (list Certificate * string) :=
  let? dir := os_IsDir load path in
  if negb dir then let? raw := os_ReadFile load path in parseBootstrapFile path raw
  else
    let? entries := os_ReadDir load path in
    let files := (fun e => filepath_Join path e.1) <$>
      List.filter (fun e => negb e.2 && bool_decide (ToLower (filepath_Ext e.1) ∈ cert_exts)) entries in
    let? out := map_result (fun f =>
      let? raw := os_ReadFile load f in
      map_err (fun e => errorf (f +:+ ": " +:+ err_Error e) [e]) (parseCerts raw)) (sort_Strings files) in
    if bool_decide (length (concat out) = 0%nat) then Err (errors_New ("no certificates found at " +:+ path))
    else Ok (concat out, "").

Definition SeedBootstrap (path : string) (now : time) : result Bootstrap :=
  let? (certs, ojRef) := map_err (fun e => errorf ("trust: load bootstrap certs: " +:+ err_Error e) [e])
                           (loadBootstrap path) in
  Ok (mkBootstrap 1 ojRef (cert_Raw <$> certs) now true).

(** * Lemmas *)

(** The fuel of the PEM loop is never what ends it. *)
Lemma pem_certs_fuel {L : FilesLaws} n m b :
  (String.length b < n)%nat -> (String.length b < m)%nat -> pem_certs n b = pem_certs m b.
Proof.
  revert m b. induction n as [|n IH]; intros [|m] b Hn Hm; try lia. simpl.
  destruct (pem_Decode b) as [[[ty blk] rest]|] eqn:E; [|done].
  apply pem_Decode_shorter in E. rewrite (IH m rest) by lia. done.
Qed.

(** The loop as its states: the certificates so far and the remaining input, or
    how it was left. *)
Inductive pem_state := PemLoop (out : list Certificate) (rest : bytes) | PemBreak (out : list Certificate) | PemReturn (err : error).

(** One round of the loop. *)
Definition pem_step (s : pem_state) : pem_state :=
  match s with
  | PemLoop out rest =>
      match pem_Decode rest with
      | None => PemBreak out
      | Some (ty, blk, rest') =>
          if negb (str_eqb ty "CERTIFICATE") then PemLoop out rest'
          else match x509_ParseCertificate blk with
               | Err err => PemReturn err
               | Ok cert => PemLoop (out ++ [cert]) rest'
               end
      end
  | _ => s
  end.

Lemma pem_loop_ends {L : FilesLaws} fuel out rest :
  (String.length rest < fuel)%nat ->
  exists n, (n <= S (String.length rest))%nat /\
    match Nat.iter n pem_step (PemLoop out rest), pem_certs fuel rest with
    | PemBreak all, Ok certs => all = out ++ certs
    | PemReturn err, Err e => err = e
    | _, _ => False
    end.
Proof.
  revert out rest. induction fuel as [|fuel IH]; intros out rest Hf; [lia|]. simpl.
  assert (Hnext : forall s n, Nat.iter n pem_step (pem_step s) = Nat.iter (S n) pem_step s)
    by (intros s n; by rewrite Nat.iter_succ_r).
  destruct (pem_Decode rest) as [[[ty blk] rest']|] eqn:E.
  - apply pem_Decode_shorter in E as Hlt. destruct (negb (str_eqb ty "CERTIFICATE")) eqn:Et.
    + destruct (IH out rest') as (n & Hn & H); [lia|]. exists (S n). split; [lia|].
      assert (Es : pem_step (PemLoop out rest) = PemLoop out rest') by (simpl; by rewrite E, Et).
      by rewrite <-Hnext, Es.
    + destruct (x509_ParseCertificate blk) as [cert|err] eqn:Ep; simpl.
      * destruct (IH (out ++ [cert]) rest') as (n & Hn & H); [lia|]. exists (S n). split; [lia|].
        assert (Es : pem_step (PemLoop out rest) = PemLoop (out ++ [cert]) rest') by (simpl; by rewrite E, Et, Ep).
        rewrite <-Hnext, Es. destruct (Nat.iter _ _ _), (pem_certs fuel rest'); simpl; try done.
        by rewrite H, <-app_assoc.
      * exists 1%nat. split; [lia|]. simpl. by rewrite E, Et, Ep.
  - exists 1%nat. split; [lia|]. simpl. by rewrite E, app_nil_r.
Qed.

Lemma parseCerts_nonempty raw certs : parseCerts raw = Ok certs -> certs <> [].
Proof.
  unfold parseCerts. intros H. intros ->. destruct (pem_certs _ raw) as [out|]; [|done].
  case_bool_decide; simp_res. simpl in *. lia.
Qed.

Lemma declared_types_loop_Ok e out raws ts :
  declared_types_loop e out raws = Ok ts -> NoDup out -> Forall (fun t => ValidAnchorType t = true) out ->
  NoDup ts /\ Forall (fun t => ValidAnchorType t = true) ts /\ length ts = (length out + length raws)%nat.
Proof.
  revert out. induction raws as [|raw raws IH]; intros out; simpl; [intros [= <-] ? ?; split_and!; [done..|lia]|].
  intros H Hnd Hv. simp_res. apply IH in H as (? & ? & Hl).
  - split_and!; [done..|]. rewrite Hl, length_app. simpl. lia.
  - apply NoDup_app. split_and!; [done| |apply NoDup_singleton].
    intros x Hx ->%list_elem_of_singleton.
    match goal with H : bool_decide _ = false |- _ => by apply bool_decide_eq_false in H end.
  - apply Forall_app. split; [done|]. repeat constructor.
    match goal with H : negb _ = false |- _ => by apply negb_false_iff in H end.
Qed.

(** A type an anchor may carry: untyped or one of the taxonomy. *)
Definition servable_type (t : string) : Prop := t = "" \/ ValidAnchorType t = true.

Lemma declaredTypes_Ok e ts :
  declaredTypes e = Ok ts -> ts <> [] /\ NoDup ts /\ Forall servable_type ts.
Proof.
  unfold declaredTypes. destruct (in_hasTypes e); simpl.
  - destruct (in_hasType e); [done|]. case_bool_decide as Hn; [done|].
    intros H. apply declared_types_loop_Ok in H as (Hnd & Hv & Hl); [|constructor..].
    split_and!; [|done|].
    + intros ->. simpl in Hl. by rewrite <-Hl in Hn.
    + eapply Forall_impl; [exact Hv|]. by right.
  - generalize (if str_eqb (TrimSpace (in_Type e)) untypedAlias then "" else TrimSpace (in_Type e)).
    intros t H. destruct (str_eqb t "") eqn:E1, (ValidAnchorType t) eqn:E2; simplify_eq/=;
      (split_and!; [done|apply NoDup_singleton|apply Forall_singleton]);
      [left; by apply str_eqb_eq|left; by apply str_eqb_eq|by right].
Qed.

Lemma validInternalTerritory_spec t :
  validInternalTerritory t = true -> exists a b, t = String a (String b "") /\ is_upper a = true /\ is_upper b = true.
Proof.
  unfold validInternalTerritory. rewrite andb_true_iff, bool_decide_eq_true.
  destruct t as [|a [|b [|c t]]]; simpl; try (intros [? _]; lia).
  rewrite !andb_true_iff. intros (_ & ? & ? & _). eauto.
Qed.

(** What is known of an anchor of the declared source, at the time it was
    loaded. *)
Record internal_ok (now : time) (a : Anchor) : Prop := {
  io_source : a_Source a = SourceInternal;
  io_type : servable_type (a_Type a);
  io_territory : validInternalTerritory (a_Territory a) = true;
  io_cert : exists cert der, x509_ParseCertificate der = Ok cert /\ a_CertDER a = cert_Raw cert /\
    a_FingerprintSHA256 a = Fingerprint cert /\ a_NotAfter a <= cert_NotAfter cert /\
    now <= cert_NotAfter cert;
  io_key : (a_KeyAlgorithm a, a_Curve a) = spkiAlgorithm (a_CertDER a)
}.

Lemma pem_certs_parsed fuel raw certs :
  pem_certs fuel raw = Ok certs -> Forall (fun c => exists der, x509_ParseCertificate der = Ok c) certs.
Proof.
  revert raw certs. induction fuel as [|fuel IH]; intros raw certs H; simpl in H; [simplify_eq; constructor|].
  simp_res; eauto.
Qed.

Lemma parseCerts_parsed raw certs :
  parseCerts raw = Ok certs -> Forall (fun c => exists der, x509_ParseCertificate der = Ok c) certs.
Proof.
  unfold parseCerts. intros H. destruct (pem_certs _ raw) as [out|] eqn:E; [|done].
  apply pem_certs_parsed in E. case_bool_decide; [by simplify_eq|].
  destruct (x509_ParseCertificate raw) eqn:Ep; simplify_eq/=. repeat constructor. eauto.
Qed.

Lemma buildInternalAnchors_Ok e baseDir now built :
  buildInternalAnchors e baseDir now = Ok built ->
  exists fp, built <> [] /\ NoDup (a_Type <$> built) /\
    Forall (fun a => a_FingerprintSHA256 a = fp /\ internal_ok now a) built.
Proof.
  unfold buildInternalAnchors. intros H.
  destruct (declaredTypes e) as [types|] eqn:Ht; [|done].
  destruct (validInternalTerritory _) eqn:Hv; simpl in H; [|done].
  destruct (resolveInternalCertBytes e baseDir) as [cb|] eqn:Hcb; [|done].
  destruct (parseCerts cb) as [certs|] eqn:Hc; simpl in H; [|done].
  destruct certs as [|cert [|c2 certs]]; try done. destruct (time_After _ _) eqn:Hexp; [done|].
  destruct (spkiAlgorithm _) as [alg curve] eqn:Hspki. injection H as <-.
  apply declaredTypes_Ok in Ht as (Hne & Hnd & Htys). apply parseCerts_parsed in Hc.
  apply Forall_cons in Hc as [[der Hder] _].
  exists (Fingerprint cert). split_and!.
  - by destruct types.
  - rewrite <-list_fmap_compose. change (NoDup (id <$> types)). by rewrite list_fmap_id.
  - apply Forall_fmap. eapply Forall_impl; [exact Htys|]. intros t Hty. split; [done|].
    split; try done. exists cert, der. unfold time_After in Hexp. apply Z.ltb_ge in Hexp.
    split_and!; try done. simpl. unfold time_Before.
    destruct (negb _ && _) eqn:E; [|done]. apply andb_true_iff in E as [_ E%Z.ltb_lt]. lia.
Qed.

(** ** The loop over the entries *)

Definition fp_type (a : Anchor) : string * string := (a_FingerprintSHA256 a, a_Type a).

(** An accepted file: what each entry built, in order. *)
Lemma entries_loop_Ok baseDir now seenBy entries anchors :
  entries_loop baseDir now seenBy entries = Ok anchors ->
  exists builts,
    Forall2 (fun en built => unknownKey (resolveAlias (Some en.2)) entryKeys = None /\
      buildInternalAnchors (with_keys en.1 (resolveAlias (Some en.2))) baseDir now = Ok built)
      entries builts /\
    anchors = concat builts /\ NoDup (fp_type <$> anchors) /\
    Forall (fun a => seenBy !! a_FingerprintSHA256 a = None) anchors.
Proof.
  revert seenBy anchors. induction entries as [|[e n] rest IH]; intros seenBy anchors; simpl.
  { intros [= <-]. exists []. split_and!; constructor. }
  destruct (unknownKey _ _) eqn:Hk; [done|].
  destruct (buildInternalAnchors _ _ _) as [built|] eqn:Hb; [|done].
  pose proof Hb as (fp & Hne & Hnd & Hall)%buildInternalAnchors_Ok.
  destruct built as [|a0 built]; [done|]. cbn [head from_option].
  assert (Hfp : a_FingerprintSHA256 a0 = fp) by (by apply Forall_cons in Hall as [[? _] _]). rewrite Hfp.
  destruct (seenBy !! fp) eqn:Hs; [done|].
  destruct (entries_loop _ _ _ rest) as [more|] eqn:Hr; [|done]. intros [= <-].
  apply IH in Hr as (builts & Hf & -> & Hndm & Hseen).
  assert (Hfresh : forall a, a ∈ concat builts -> a_FingerprintSHA256 a <> fp /\ seenBy !! a_FingerprintSHA256 a = None).
  { intros a Ha. rewrite Forall_forall in Hseen. specialize (Hseen a Ha). cbn beta in Hseen.
    destruct (decide (a_FingerprintSHA256 a = fp)) as [E|Hn]; [by rewrite E, lookup_insert_eq in Hseen|].
    by rewrite lookup_insert_ne in Hseen. }
  assert (Hall' : forall a, a ∈ a0 :: built -> a_FingerprintSHA256 a = fp).
  { intros a Ha. rewrite Forall_forall in Hall. by apply Hall. }
  exists ((a0 :: built) :: builts). split_and!; [by constructor|done| |].
  - change (a0 :: built ++ concat builts) with ((a0 :: built) ++ concat builts).
    rewrite fmap_app. apply NoDup_app. split_and!; [|  |done].
    + eapply (NoDup_fmap_1 snd). by rewrite <-list_fmap_compose.
    + intros ft (a & -> & Ha)%list_elem_of_fmap (b & E & Hb')%list_elem_of_fmap.
      destruct (Hfresh b Hb') as [Hn _]. apply Hn. injection E as E _. rewrite <-E. by apply Hall'.
  - change (a0 :: built ++ concat builts) with ((a0 :: built) ++ concat builts).
    apply Forall_app. split; apply Forall_forall; intros a Ha; [by rewrite (Hall' a Ha)|by apply Hfresh].
Qed.

#[global] Instance internalLess_strict_weak : StrictWeak internalLess.
Proof. apply key_then_strict_weak, by_key_strict_weak. Qed.

Lemma loadInternalBytes_Ok raw baseDir now anchors :
  loadInternalBytes raw baseDir now = Ok anchors ->
  anchors = [] \/
  exists entries builts,
    Forall2 (fun en built => unknownKey (resolveAlias (Some en.2)) entryKeys = None /\
      buildInternalAnchors (with_keys en.1 (resolveAlias (Some en.2))) baseDir now = Ok built)
      entries builts /\
    anchors = sort_Slice internalLess (concat builts) /\ NoDup (fp_type <$> concat builts).
Proof.
  unfold loadInternalBytes. destruct (yaml_Unmarshal_node raw) as [doc|]; [|done].
  destruct (root_of doc) as [root|]; [|intros [= <-]; by left].
  case_bool_decide; [intros [= <-]; by left|]. destruct (node_Decode root) as [file|]; [|done].
  destruct (unknownKey _ fileKeys); [done|]. destruct (negb _); [done|].
  destruct (entries_loop _ _ _ _) as [as_|] eqn:E; [|done]. intros [= <-].
  apply entries_loop_Ok in E as (builts & Hf & -> & Hnd & _). right. by eexists _, builts.
Qed.

Lemma LoadInternal_wf path now anchors :
  LoadInternal path now = Ok anchors ->
  Forall (internal_ok now) anchors /\ NoDup (fp_type <$> anchors) /\
  Sorted (not_less internalLess) anchors.
Proof.
  unfold LoadInternal. intros H. destruct (str_eqb path ""); [simplify_eq; split_and!; constructor|].
  destruct (os_ReadFile load path) as [raw|]; simpl in H; [|done].
  apply loadInternalBytes_Ok in H as [->|(entries & builts & Hf & -> & Hnd)]; [split_and!; constructor|].
  split_and!.
  - apply Forall_forall. intros a Ha. rewrite elem_of_sort_Slice in Ha.
    apply list_elem_of_In, in_concat in Ha as (built & Hb%list_elem_of_In & Ha%list_elem_of_In).
    apply list_elem_of_lookup in Hb as [i Hb]. destruct (Forall2_lookup_r _ _ _ _ _ Hf Hb) as (en & _ & _ & Hbuild).
    apply buildInternalAnchors_Ok in Hbuild as (fp & _ & _ & Hall).
    rewrite Forall_forall in Hall. by apply Hall.
  - rewrite (fmap_Permutation _ _ _ (sort_Slice_perm _ _)). done.
  - apply sort_Slice_sorted, _.
Qed.

(** The declared source fails closed and well-formed: when [LoadInternal]
    returns a set, every anchor in it is an internal one with a known type, a
    two-letter territory, a certificate that parsed, is not expired and whose
    own end of validity is never exceeded; no certificate has two anchors of one
    type; and the set is sorted by fingerprint and type. *)
Theorem load_internal_ok path now anchors :
  LoadInternal path now = Ok anchors ->
  Forall (internal_ok now) anchors /\ NoDup (fp_type <$> anchors) /\
  Sorted (not_less internalLess) anchors.
Proof. apply LoadInternal_wf. Qed.

(** C40 The certificate reader always comes to an end: on any input the loop over
    PEM blocks is left after at most one round more than the input has bytes, by
    its break or by the first certificate that does not parse, with exactly what
    [parseCerts] goes on with; no input makes it spin. *)
Theorem pem_loop_terminates {L : FilesLaws} raw :
  exists n, (n <= S (String.length raw))%nat /\
    match Nat.iter n pem_step (PemLoop [] raw) with
    | PemLoop _ _ => False
    | PemBreak out => pem_certs (S (String.length raw)) raw = Ok out
    | PemReturn err => parseCerts raw = Err err
    end.
Proof.
  destruct (pem_loop_ends (S (String.length raw)) [] raw) as (n & Hn & H); [lia|]. exists n. split; [done|].
  unfold parseCerts. destruct (pem_certs (S (String.length raw)) raw) as [certs|e], (Nat.iter _ _ _);
    try done; simpl in H; by subst.
Qed.

(** The parsed file behind a load. *)
Definition declared_file (path : string) : option (list (internalAnchor * Node)) :=
  match os_ReadFile load path with
  | Err _ => None
  | Ok raw =>
      match yaml_Unmarshal_node raw with
      | Err _ => None
      | Ok doc =>
          match root_of doc with
          | None => None
          | Some root =>
              if bool_decide (n_Kind root = ZeroNode) then None
              else match node_Decode root with
                   | Err _ => None
                   | Ok file => Some (zip file (sequenceItems (mappingValue (Some root) "anchors")))
                   end
          end
      end
  end.

(** An entry in effect: an anchor for each of its types, all of its certificate and
    with what it declares. *)
Record in_effect (baseDir : string) (now : time) (en : internalAnchor * Node) (built : list Anchor) : Prop := {
  ie_types : declaredTypes (with_keys en.1 (resolveAlias (Some en.2))) = Ok (a_Type <$> built);
  ie_some : built <> [];
  ie_cert : exists raw cert, resolveInternalCertBytes en.1 baseDir = Ok raw /\ parseCerts raw = Ok [cert] /\
    now <= cert_NotAfter cert /\
    Forall (fun a => a_CertDER a = cert_Raw cert /\ a_FingerprintSHA256 a = Fingerprint cert /\
      a_NotAfter a = (if time_IsZero (in_ValidUntil en.1) then cert_NotAfter cert
                      else Z.min (in_ValidUntil en.1) (cert_NotAfter cert))) built;
  ie_entry : Forall (fun a => a_TSPName a = in_Name en.1 /\ a_Territory a = ToUpper (TrimSpace (in_Territory en.1)) /\
    a_Source a = SourceInternal /\ a_UseCases a = in_UseCases en.1 /\
    a_Status a = (if str_eqb (in_Status en.1) "" then grantedStatusURI else in_Status en.1)) built
}.

Lemma buildInternalAnchors_effect e n baseDir now built :
  buildInternalAnchors (with_keys e (resolveAlias (Some n))) baseDir now = Ok built -> in_effect baseDir now (e, n) built.
Proof.
  unfold buildInternalAnchors. intros H.
  destruct (declaredTypes _) as [types|] eqn:Ht; [|done].
  destruct (validInternalTerritory _) eqn:Hv; simpl in H; [|done].
  destruct (resolveInternalCertBytes _ baseDir) as [cb|] eqn:Hcb; [|done].
  destruct (parseCerts cb) as [certs|] eqn:Hc; simpl in H; [|done].
  destruct certs as [|cert [|c2 certs]]; try done. destruct (time_After _ _) eqn:Hexp; [done|].
  destruct (spkiAlgorithm _) as [alg curve]. injection H as <-.
  apply declaredTypes_Ok in Ht as Hok. destruct Hok as (Hne & _). split.
  - rewrite <-list_fmap_compose. change (declaredTypes (with_keys e (resolveAlias (Some n))) = Ok (id <$> types)).
    by rewrite list_fmap_id.
  - by destruct types.
  - exists cb, cert. split_and!; [exact Hcb|done|by apply Z.ltb_ge|]. apply Forall_fmap, Forall_true. intros t.
    split_and!; [done..|]. simpl. unfold time_Before. destruct (time_IsZero _); [done|]. simpl.
    destruct (Z.ltb_spec (in_ValidUntil e) (cert_NotAfter cert)); lia.
  - by apply Forall_fmap, Forall_true.
Qed.

(** C35 All or nothing: when [LoadInternal] accepts a file, what is in effect is
    exactly what is written in it.  The anchors are, sorted and each once, those of
    its entries: for every entry one under each of the types it declares, with the
    one certificate the entry names, which has not expired, and with the entry's
    name, territory, status, use cases and end of validity.  An entry that cannot be
    served makes the whole load fail instead of being dropped. *)
Theorem load_internal_complete path now anchors entries :
  LoadInternal path now = Ok anchors -> path <> "" -> declared_file path = Some entries ->
  exists builts, Forall2 (in_effect (filepath_Dir path) now) entries builts /\
    anchors ≡ₚ concat builts /\ NoDup (fp_type <$> anchors) /\ Sorted (not_less internalLess) anchors.
Proof.
  intros H Hp Hf. destruct (LoadInternal_wf path now anchors H) as (_ & Hnd & Hso). revert H Hp Hf.
  unfold LoadInternal, declared_file. intros H Hp%str_eqb_neq Hf. rewrite Hp in H.
  destruct (os_ReadFile load path) as [raw|]; simpl in H; [|done]. unfold loadInternalBytes in H.
  destruct (yaml_Unmarshal_node raw) as [doc|]; [|done]. destruct (root_of doc) as [root|]; [|done].
  case_bool_decide; [done|]. destruct (node_Decode root) as [file|]; [|done]. injection Hf as <-.
  destruct (unknownKey _ fileKeys); [done|]. destruct (negb _); [done|].
  destruct (entries_loop _ _ _ _) as [as_|] eqn:E; [|done]. injection H as <-.
  apply entries_loop_Ok in E as (builts & Hf & -> & _). exists builts.
  split_and!; [|by rewrite sort_Slice_perm|done|done].
  eapply Forall2_impl; [exact Hf|]. intros [e n] built [_ Hb]. by apply buildInternalAnchors_effect.
Qed.
End Internal.

(** ** On a sample file *)

Definition scalar (v : string) : Node := mkNode ScalarNode v 1 [] None.
Definition mapping (kvs : list Node) : Node := mkNode MappingNode "" 1 kvs None.
Definition sequence (l : list Node) : Node := mkNode SequenceNode "" 1 l None.

(** Two entries: one certificate under two roles, and an untyped one. *)
Definition sample_doc : Node :=
  mkNode DocumentNode "" 1 [mapping [scalar "anchors"; sequence [
    mapping [scalar "name"; scalar "one"; scalar "types"; sequence [scalar "access_ca"; scalar "wrprc_issuer"];
             scalar "territory"; scalar "de"; scalar "certificate"; scalar "X"];
    mapping [scalar "name"; scalar "two"; scalar "territory"; scalar "EU"; scalar "certificate"; scalar "Y"]]]] None.

Definition sample_entries : list internalAnchor :=
  [ mkInternalAnchor "one" "" ["access_ca"; " wrprc_issuer"] "de" "" "X" "" 0 ["login"] false false;
    mkInternalAnchor "two" "" [] "EU" "" "Y" "" 1500 [] false false ].

Definition toy_Files : Files := {|
  os_ReadFile := fun _ _ => Ok "doc"; os_IsDir := fun _ _ => Ok false; os_ReadDir := fun _ _ => Ok [];
  filepath_IsAbs := fun p => HasPrefix p "/"; filepath_Join := fun a b => a +:+ "/" +:+ b;
  filepath_Dir := fun _ => "."; filepath_Ext := fun _ => ""; pem_Decode := fun _ => None |}.

Definition toy_Yaml : Yaml := {|
  yaml_Unmarshal_node := fun _ => Ok sample_doc; node_Decode := fun _ => Ok sample_entries;
  yaml_Unmarshal_manifest := fun _ => Err (errors_New "yaml") |}.

Definition sample_load (now : time) : result (list Anchor) :=
  @LoadInternal toy_X509 toy_Asn1 merge_GoSort toy_Files toy_Yaml 0 "internal.yaml" now.

Definition sample_declared : list Anchor := match sample_load 100 with Ok l => l | Err _ => [] end.

Lemma load_internal_ok_witness :
  length sample_declared = 3%nat /\ Forall (@internal_ok toy_X509 toy_Asn1 100) sample_declared.
Proof.
  split; [vm_compute; reflexivity|].
  exact (proj1 (@load_internal_ok toy_X509 toy_Asn1 merge_GoSort toy_Files toy_Yaml 0 "internal.yaml" 100
                  sample_declared ltac:(vm_compute; reflexivity))).
Defined.

Lemma load_internal_complete_witness :
  exists one two, Forall2 (@in_effect toy_X509 toy_Files 0 "." 100)
      (zip sample_entries (sequenceItems (mappingValue (head (n_Content sample_doc)) "anchors"))) [one; two] /\
    sample_declared ≡ₚ one ++ two.
Proof.
  destruct (@load_internal_complete toy_X509 toy_Asn1 merge_GoSort toy_Files toy_Yaml 0 "internal.yaml" 100
    sample_declared (zip sample_entries (sequenceItems (mappingValue (head (n_Content sample_doc)) "anchors")))
    ltac:(vm_compute; reflexivity) ltac:(discriminate) ltac:(reflexivity)) as (builts & Hf & Hp & _).
  pose proof (Forall2_length _ _ _ Hf) as Hl. destruct builts as [|one [|two [|]]]; try discriminate Hl.
  exists one, two. split; [exact Hf|]. simpl in Hp. rewrite app_nil_r in Hp. exact Hp.
Defined.

(** A file of one-byte blocks, two certificates and a key. *)
Definition toy_pem : bytes -> option (string * bytes * bytes) := fun b =>
  match b with
  | String c rest => let blk := String c "" in Some (if str_eqb blk "K" then "PRIVATE KEY" else "CERTIFICATE", blk, rest)
  | EmptyString => None
  end.

Definition pem_Files : Files := {|
  os_ReadFile := fun _ _ => Ok "XKY"; os_IsDir := fun _ _ => Ok false; os_ReadDir := fun _ _ => Ok [];
  filepath_IsAbs := fun p => HasPrefix p "/"; filepath_Join := fun a b => a +:+ "/" +:+ b;
  filepath_Dir := fun _ => "."; filepath_Ext := fun _ => ""; pem_Decode := toy_pem |}.

Lemma pem_FilesLaws : @FilesLaws pem_Files.
Proof. split. intros [|c b] ty blk rest; simpl; [done|]. intros [= _ _ <-]. lia. Qed.

Lemma pem_loop_terminates_witness :
  exists n, (n <= 4)%nat /\
    match Nat.iter n (@pem_step toy_X509 pem_Files) (PemLoop [] "XKY") with PemBreak out => length out = 2%nat | _ => False end.
Proof.
  destruct (@pem_loop_terminates toy_X509 pem_Files pem_FilesLaws "XKY") as (n & Hn & H). exists n. split; [exact Hn|].
  destruct (Nat.iter _ _ _) as [out rest|out|err]; [exact H| |vm_compute in H; discriminate H].
  vm_compute in H. injection H as <-. reflexivity.
Defined.
