(* ===== verification/Store.v ===== *)
(** * The snapshot stores

    [src/store/store.go] (the contract), [src/store/memory.go] and
    [src/store/fs.go].  [encoding/json] on the two stored types is the parameter
    [Codec].  The contract [Store] is a class with its laws; both stores are
    instances, and the manager is verified against the class. *)

From S2P Require Import Prelude GoTime Model Samples.

(** ** The codec *)

Class Codec := {
  marshal_snapshot : Snapshot -> result bytes;
  unmarshal_snapshot : bytes -> result Snapshot;
  marshal_bootstrap : Bootstrap -> result bytes;
  unmarshal_bootstrap : bytes -> result Bootstrap
}.

(** What JSON keeps of a snapshot: everything but [DeclaredLoad] (json:"-"). *)
Definition stored (s : Snapshot) : Snapshot := set_s_DeclaredLoad s None.

(** Decoding what was encoded gives the value back. *)
Class CodecLaws `{Codec} : Prop := {
  snapshot_roundtrip : forall s b, marshal_snapshot s = Ok b -> unmarshal_snapshot b = Ok (stored s);
  bootstrap_roundtrip : forall b r, marshal_bootstrap b = Ok r -> unmarshal_bootstrap r = Ok b
}.

(** [cloneSnapshot] of [src/ingest/manager.go]. *)
Definition cloneSnapshot `{Codec} (s : Snapshot) : result Snapshot :=
  let? b := marshal_snapshot s in unmarshal_snapshot b.

(** ** The contract *)

(** The interface; [Reopen] is not a method of it but what the store of a new
    process is, given the one of the process before. *)
Class Store (St : Type) := {
  SaveSnapshot : Snapshot -> eff St unit;
  LoadLatestSnapshot : St -> result (option Snapshot);
  SaveBootstrap : Bootstrap -> eff St unit;
  LoadLatestBootstrap : St -> result (option Bootstrap);
  Reopen : St -> St
}.

(** What a store promises, in terms of what it holds ([snap], [boot]).  A load
    tells what is held or fails: a store that cannot be read is never taken for an
    empty one.  A successful save is what is held from then on, a failed one leaves
    the old object or the new one behind the latest pointer, and each kind of
    object leaves the other alone.  A bootstrap is saved only where there is none:
    which of two would be the latest is not promised.  A lasting store shows a new
    process what it held; one that is not starts empty. *)
Record store_contract {St} `{Store St} (snap : St -> result (option Snapshot)) (boot : St -> result (option Bootstrap))
    (lasting : St -> bool) : Prop := {
  sc_load_snapshot : forall st, LoadLatestSnapshot st = snap st \/ exists e, LoadLatestSnapshot st = Err e;
  sc_load_bootstrap : forall st, LoadLatestBootstrap st = boot st \/ exists e, LoadLatestBootstrap st = Err e;
  sc_save_snapshot : forall s st st', SaveSnapshot s st = (Ok tt, st') -> snap st' = Ok (Some (stored s));
  sc_save_failed : forall s st e st',
    SaveSnapshot s st = (Err e, st') -> snap st' = snap st \/ snap st' = Ok (Some (stored s));
  sc_snapshot_bootstrap : forall s st, boot (SaveSnapshot s st).2 = boot st;
  sc_save_bootstrap : forall b st st', boot st = Ok None -> SaveBootstrap b st = (Ok tt, st') -> boot st' = Ok (Some b);
  sc_bootstrap_snapshot : forall b st, snap (SaveBootstrap b st).2 = snap st;
  sc_reopen : forall st, if lasting st then snap (Reopen st) = snap st /\ boot (Reopen st) = boot st
                         else snap (Reopen st) = Ok None /\ boot (Reopen st) = Ok None;
  sc_lasting : forall st, lasting (Reopen st) = lasting st /\
    (forall s, lasting (SaveSnapshot s st).2 = lasting st) /\ (forall b, lasting (SaveBootstrap b st).2 = lasting st)
}.

Class StoreLaws (St : Type) `{Store St} := {
  held_snapshot : St -> result (option Snapshot);
  held_bootstrap : St -> result (option Bootstrap);
  lasting : St -> bool;
  held_contract : store_contract held_snapshot held_bootstrap lasting
}.

Section Contract.
Context {St : Type} `{StoreLaws St}.

Lemma loaded_snapshot st o : LoadLatestSnapshot st = Ok o -> held_snapshot st = Ok o.
Proof. intros Hl. destruct (sc_load_snapshot _ _ _ held_contract st) as [E|[e E]]; congruence. Qed.

Lemma loaded_bootstrap st o : LoadLatestBootstrap st = Ok o -> held_bootstrap st = Ok o.
Proof. intros Hl. destruct (sc_load_bootstrap _ _ _ held_contract st) as [E|[e E]]; congruence. Qed.

Lemma save_held_snapshot s st st' : SaveSnapshot s st = (Ok tt, st') -> held_snapshot st' = Ok (Some (stored s)).
Proof. apply (sc_save_snapshot _ _ _ held_contract). Qed.

Lemma save_failed_snapshot s st e st' :
  SaveSnapshot s st = (Err e, st') -> held_snapshot st' = held_snapshot st \/ held_snapshot st' = Ok (Some (stored s)).
Proof. apply (sc_save_failed _ _ _ held_contract). Qed.

Lemma save_snapshot_bootstrap s st : held_bootstrap (SaveSnapshot s st).2 = held_bootstrap st.
Proof. apply (sc_snapshot_bootstrap _ _ _ held_contract). Qed.

Lemma save_held_bootstrap b st st' :
  held_bootstrap st = Ok None -> SaveBootstrap b st = (Ok tt, st') -> held_bootstrap st' = Ok (Some b).
Proof. apply (sc_save_bootstrap _ _ _ held_contract). Qed.

Lemma save_bootstrap_snapshot b st : held_snapshot (SaveBootstrap b st).2 = held_snapshot st.
Proof. apply (sc_bootstrap_snapshot _ _ _ held_contract). Qed.

Lemma reopen_held st :
  lasting st = true -> held_snapshot (Reopen st) = held_snapshot st /\ held_bootstrap (Reopen st) = held_bootstrap st.
Proof. intros Hl. pose proof (sc_reopen _ _ _ held_contract st) as Hr. by rewrite Hl in Hr. Qed.

Lemma reopen_empty st :
  lasting st = false -> held_snapshot (Reopen st) = Ok None /\ held_bootstrap (Reopen st) = Ok None.
Proof. intros Hl. pose proof (sc_reopen _ _ _ held_contract st) as Hr. by rewrite Hl in Hr. Qed.

Lemma reopen_snapshot st o :
  held_snapshot (Reopen st) = Ok (Some o) -> held_snapshot st = Ok (Some o) /\ lasting st = true.
Proof.
  destruct (lasting st) eqn:Hl; [by destruct (reopen_held st Hl) as [-> _]|]. by destruct (reopen_empty st Hl) as [-> _].
Qed.

Lemma lasting_reopen st : lasting (Reopen st) = lasting st.
Proof. apply (sc_lasting _ _ _ held_contract). Qed.

Lemma lasting_save s st : lasting (SaveSnapshot s st).2 = lasting st.
Proof. apply (sc_lasting _ _ _ held_contract). Qed.

Lemma lasting_bootstrap b st : lasting (SaveBootstrap b st).2 = lasting st.
Proof. apply (sc_lasting _ _ _ held_contract). Qed.
End Contract.

(** ** Keys *)

Definition pad4 (s : string) : string := String.substring 0 (4 - String.length s) "0000" +:+ s.

Definition snapshotKey (snap : Snapshot) : string :=
  "snapshots/" +:+ format_compact (s_GeneratedAt snap) +:+ "-" +:+ String.substring 0 16 (s_ID snap) +:+ ".json".
Definition bootstrapKey (b : Bootstrap) : string := "bootstrap/v" +:+ pad4 (itoa (b_Version b)) +:+ ".json".

Definition latestSnapshotKey : string := "snapshot-latest.json".
Definition latestBootstrapKey : string := "bootstrap-latest.json".

(** ** The in-memory store *)

Record Memory := mkMemory { objects : gmap string bytes }.

Definition NewMemory : Memory := mkMemory ∅.

Definition memory_put (key : string) (v : result bytes) : eff Memory unit := fun m =>
  match v with
  | Err e => (Err e, m)
  | Ok b => (Ok tt, mkMemory (<[ key := b ]> (objects m)))
  end.

Definition memory_get {A} (dec : bytes -> result A) (key : string) (m : Memory) : result (option A) :=
  match objects m !! key with
  | None => Ok None
  | Some b => let? a := dec b in Ok (Some a)
  end.

#[export] Instance Memory_Store `{Codec} : Store Memory := {|
  SaveSnapshot := fun snap =>
    let* _ := memory_put (snapshotKey snap) (marshal_snapshot snap) in
    memory_put latestSnapshotKey (marshal_snapshot snap);
  LoadLatestSnapshot := memory_get unmarshal_snapshot latestSnapshotKey;
  SaveBootstrap := fun b =>
    let* _ := memory_put (bootstrapKey b) (marshal_bootstrap b) in
    memory_put latestBootstrapKey (marshal_bootstrap b);
  LoadLatestBootstrap := memory_get unmarshal_bootstrap latestBootstrapKey;
  Reopen := fun _ => NewMemory
|}.

(** ** The filesystem store *)

(** What the n-th file operation does: succeed, or fail; a failed write has
    written some prefix of its data.  Whether reads fail after the n-th. *)
Class Disk := { disk_fault : nat -> option nat; disk_unreadable : nat -> bool }.

Record FS := mkFS { fs_files : gmap string bytes; fs_ops : nat }.

Definition disk_error : error := errors_New "input/output error".

Section FileStore.
Context `{Codec, Disk} (dir : string).

Definition fs_path (key : string) : string := dir +:+ "/" +:+ key.

(** [os.MkdirAll]: directories are not part of the file contents. *)
Definition os_MkdirAll : eff FS unit := fun f =>
  (match disk_fault (fs_ops f) with None => Ok tt | Some _ => Err disk_error end,
   mkFS (fs_files f) (S (fs_ops f))).

Definition os_WriteFile (path : string) (b : bytes) : eff FS unit := fun f =>
  match disk_fault (fs_ops f) with
  | None => (Ok tt, mkFS (<[ path := b ]> (fs_files f)) (S (fs_ops f)))
  | Some n => (Err disk_error, mkFS (<[ path := String.substring 0 n b ]> (fs_files f)) (S (fs_ops f)))
  end.

(** [os.Rename] replaces the target in one step, or does nothing. *)
Definition os_Rename (src dst : string) : eff FS unit := fun f =>
  match disk_fault (fs_ops f), fs_files f !! src with
  | None, Some b => (Ok tt, mkFS (<[ dst := b ]> (delete src (fs_files f))) (S (fs_ops f)))
  | _, _ => (Err disk_error, mkFS (fs_files f) (S (fs_ops f)))
  end.

Definition fs_put (key : string) (v : result bytes) : eff FS unit :=
  let* b := eff_of_result v in
  let path := fs_path key in
  let* _ := os_MkdirAll in
  let tmp := path +:+ ".tmp" in
  let* _ := os_WriteFile tmp b in
  os_Rename tmp path.

Definition os_ReadFile_fs (path : string) (f : FS) : result (option bytes) :=
  if disk_unreadable (fs_ops f) then Err disk_error else Ok (fs_files f !! path).

Definition fs_get {A} (dec : bytes -> result A) (key : string) (f : FS) : result (option A) :=
  match os_ReadFile_fs (fs_path key) f with
  | Err err => Err err
  | Ok None => Ok None
  | Ok (Some b) => let? a := dec b in Ok (Some a)
  end.

Definition FS_Store : Store FS := {|
  SaveSnapshot := fun snap =>
    let* _ := fs_put (snapshotKey snap) (marshal_snapshot snap) in
    fs_put latestSnapshotKey (marshal_snapshot snap);
  LoadLatestSnapshot := fs_get unmarshal_snapshot latestSnapshotKey;
  SaveBootstrap := fun b =>
    let* _ := fs_put (bootstrapKey b) (marshal_bootstrap b) in
    fs_put latestBootstrapKey (marshal_bootstrap b);
  LoadLatestBootstrap := fs_get unmarshal_bootstrap latestBootstrapKey;
  Reopen := fun f => f
|}.
End FileStore.

(** * Lemmas *)

(** ** Keys are distinct *)

Lemma append_length_s s t : String.length (s +:+ t) = (String.length s + String.length t)%nat.
Proof. induction s as [|c s IH]; [done|]. rewrite app_cons_s. simpl. by rewrite IH. Qed.

Lemma snapshotKey_latest s :
  snapshotKey s <> latestSnapshotKey /\ snapshotKey s <> latestBootstrapKey.
Proof. split; done. Qed.

Lemma bootstrapKey_latest b :
  bootstrapKey b <> latestSnapshotKey /\ bootstrapKey b <> latestBootstrapKey.
Proof. split; done. Qed.

(** ** The in-memory store *)

Lemma memory_contract `{Codec} {L : CodecLaws} : store_contract (St := Memory) LoadLatestSnapshot LoadLatestBootstrap (fun _ => false).
Proof.
  split.
  - by left.
  - by left.
  - intros s [m] st'. simpl. unfold eff_bind, memory_put, memory_get.
    destruct (marshal_snapshot s) as [b|] eqn:E; [|done]. intros [= <-]. simpl.
    rewrite lookup_insert_eq. by rewrite (snapshot_roundtrip _ _ E).
  - intros s [m] e st'. simpl. unfold eff_bind, memory_put.
    destruct (marshal_snapshot s); [done|]. intros [= _ <-]. by left.
  - intros s [m]. simpl. unfold eff_bind, memory_put, memory_get.
    destruct (marshal_snapshot s); [|done]. simpl.
    by rewrite !lookup_insert_ne by (apply snapshotKey_latest || done).
  - intros b [m] st' _. simpl. unfold eff_bind, memory_put, memory_get.
    destruct (marshal_bootstrap b) as [r|] eqn:E; [|done]. intros [= <-]. simpl.
    rewrite lookup_insert_eq. by rewrite (bootstrap_roundtrip _ _ E).
  - intros b [m]. simpl. unfold eff_bind, memory_put, memory_get.
    destruct (marshal_bootstrap b); [|done]. simpl.
    by rewrite !lookup_insert_ne by (apply bootstrapKey_latest || done).
  - done.
  - done.
Qed.

#[export] Instance Memory_StoreLaws `{Codec} {L : CodecLaws} : StoreLaws Memory := {| held_contract := memory_contract |}.

(** ** The filesystem store *)

Section FileLemmas.
Context `{Codec} {L : CodecLaws} `{Disk} (dir : string).

(** [put] is atomic for every key but its own temporary file: whatever fails,
    the key holds the old object or the new one, whole, and other keys keep
    theirs; when it succeeds it holds the new one. *)
Lemma fs_put_atomic key v f r f' :
  fs_put dir key v f = (r, f') ->
  (forall p, p <> fs_path dir key -> p <> fs_path dir key +:+ ".tmp" -> fs_files f' !! p = fs_files f !! p) /\
  match r with
  | Ok _ => exists b, v = Ok b /\ fs_files f' !! fs_path dir key = Some b
  | Err _ => fs_files f' !! fs_path dir key = fs_files f !! fs_path dir key
  end.
Proof.
  assert (Hne : fs_path dir key +:+ ".tmp" <> fs_path dir key).
  { intros E. apply (f_equal String.length) in E. rewrite append_length_s in E. simpl in E. lia. }
  unfold fs_put, eff_bind, eff_of_result. destruct v as [b|e]; [|by intros [= <- <-]].
  unfold os_MkdirAll. destruct (disk_fault (fs_ops f)); [by intros [= <- <-]|].
  unfold os_WriteFile. simpl. destruct (disk_fault _) as [n|].
  { intros [= <- <-]. simpl. split; [intros p _ Hp|]; by rewrite lookup_insert_ne. }
  unfold os_Rename. simpl. rewrite lookup_insert_eq. destruct (disk_fault _) as [n|].
  { intros [= <- <-]. simpl. split; [intros p _ Hp|]; by rewrite lookup_insert_ne. }
  intros [= <- <-]. simpl. split.
  - intros p Hp Hp'. by rewrite lookup_insert_ne, lookup_delete_ne, lookup_insert_ne.
  - exists b. split; [done|]. by rewrite lookup_insert_eq.
Qed.

Lemma fs_path_inj k1 k2 : fs_path dir k1 = fs_path dir k2 -> k1 = k2.
Proof. unfold fs_path. intros E%(inj (String.append dir)). by apply (inj (String.append "/")) in E. Qed.

Lemma fs_path_tmp k1 k2 : fs_path dir k1 = fs_path dir k2 +:+ ".tmp" -> k1 = k2 +:+ ".tmp".
Proof. unfold fs_path. rewrite !app_assoc_s. intros E%(inj (String.append dir)). by apply (inj (String.append "/")) in E. Qed.

(** What the directory holds behind a key, whether it can be read or not. *)
Definition fs_held {A} (dec : bytes -> result A) (key : string) (f : FS) : result (option A) :=
  match fs_files f !! fs_path dir key with
  | None => Ok None
  | Some b => let? a := dec b in Ok (Some a)
  end.

Lemma fs_get_held {A} (dec : bytes -> result A) key f :
  fs_get dir dec key f = fs_held dec key f \/ exists e, fs_get dir dec key f = Err e.
Proof. unfold fs_get, fs_held, os_ReadFile_fs. destruct (disk_unreadable _); [right; eauto|left]. by destruct (_ !! _). Qed.

(** A put leaves the objects of other keys alone. *)
Lemma fs_put_other {A} (dec : bytes -> result A) key v key' f :
  key' <> key -> key' <> key +:+ ".tmp" -> fs_held dec key' (fs_put dir key v f).2 = fs_held dec key' f.
Proof.
  intros H1 H2. destruct (fs_put dir key v f) as [r f'] eqn:E. apply fs_put_atomic in E as [E _].
  unfold fs_held. simpl. rewrite E; [done|by intros ?%fs_path_inj|by intros ?%fs_path_tmp].
Qed.

Lemma tmp_key_other k1 k2 : k1 <> k2 -> String.length k1 <> (String.length k2 + 4)%nat -> k1 <> k2 +:+ ".tmp".
Proof. intros _ Hl E. apply Hl. rewrite E, append_length_s. done. Qed.

Lemma snapshotKey_tmp s :
  latestSnapshotKey <> snapshotKey s +:+ ".tmp" /\ latestBootstrapKey <> snapshotKey s +:+ ".tmp".
Proof. split; done. Qed.

Lemma bootstrapKey_tmp b :
  latestSnapshotKey <> bootstrapKey b +:+ ".tmp" /\ latestBootstrapKey <> bootstrapKey b +:+ ".tmp".
Proof. split; done. Qed.

(** Running two puts and looking at a key neither of them writes. *)
Lemma fs_put2_other {A} (dec : bytes -> result A) k1 k2 v key' f :
  key' <> k1 -> key' <> k1 +:+ ".tmp" -> key' <> k2 -> key' <> k2 +:+ ".tmp" ->
  fs_held dec key' (eff_bind (fs_put dir k1 v) (fun _ => fs_put dir k2 v) f).2 = fs_held dec key' f.
Proof.
  intros H1 H2 H3 H4. unfold eff_bind. pose proof (fs_put_other dec k1 v key' f H1 H2) as E1.
  destruct (fs_put dir k1 v f) as [[a|e] f1]; simpl in *; [|done].
  rewrite <-E1. by apply fs_put_other.
Qed.

(** The versioned put, then the latest pointer. *)
Lemma fs_save_latest {A} (dec : bytes -> result A) k1 k2 v a f r f' :
  k2 <> k1 -> k2 <> k1 +:+ ".tmp" -> (forall b, v = Ok b -> dec b = Ok a) ->
  eff_bind (fs_put dir k1 v) (fun _ => fs_put dir k2 v) f = (r, f') ->
  match r with
  | Ok _ => fs_held dec k2 f' = Ok (Some a)
  | Err _ => fs_held dec k2 f' = fs_held dec k2 f
  end.
Proof.
  intros H1 H2 Hd. unfold eff_bind. pose proof (fs_put_other dec k1 v k2 f H1 H2) as E1.
  destruct (fs_put dir k1 v f) as [[x|e] f1]; simpl in *; [|intros [= <- <-]; done].
  intros Hp. apply fs_put_atomic in Hp as [_ Hp]. destruct r as [[]|e].
  - destruct Hp as (b & -> & Hb). unfold fs_held. rewrite Hb. by rewrite (Hd b).
  - rewrite <-E1. unfold fs_held. by rewrite Hp.
Qed.

Lemma fs_contract :
  store_contract (H := FS_Store dir) (fs_held unmarshal_snapshot latestSnapshotKey) (fs_held unmarshal_bootstrap latestBootstrapKey)
    (fun _ => true).
Proof.
  split.
  - intros f. apply fs_get_held.
  - intros f. apply fs_get_held.
  - intros s f f' Hs. eapply (fs_save_latest unmarshal_snapshot) in Hs; [exact Hs|done|done|].
    intros b. apply snapshot_roundtrip.
  - intros s f e f' Hs. left. eapply (fs_save_latest unmarshal_snapshot _ _ _ (stored s)) in Hs; [exact Hs|done|done|].
    intros b. apply snapshot_roundtrip.
  - intros s f. apply fs_put2_other; done.
  - intros b f f' _ Hs. eapply (fs_save_latest unmarshal_bootstrap) in Hs; [exact Hs|done|done|].
    intros r. apply bootstrap_roundtrip.
  - intros b f. apply fs_put2_other; done.
  - done.
  - done.
Qed.
End FileLemmas.

(** The filesystem store meets the store contract whatever file operations
    fail: a successful save is what the directory holds from then on (after a
    restart, say), a failed one leaves a complete object, old or new, behind the
    latest pointer, snapshots and bootstraps do not disturb each other, and a load
    tells what is held or fails. *)
Theorem fs_store_contract `{Codec} {L : CodecLaws} `{Disk} (dir : string) :
  store_contract (H := FS_Store dir) (fs_held dir unmarshal_snapshot latestSnapshotKey)
    (fs_held dir unmarshal_bootstrap latestBootstrapKey) (fun _ => true).
Proof. apply fs_contract. Qed.

(** ** On samples *)

Definition sample_bootstrap : Bootstrap := mkBootstrap 1 "OJ-1" ["X"] 10 true.

(** A codec that knows two snapshots and one bootstrap. *)
Definition toy_Codec : Codec := {|
  marshal_snapshot := fun s =>
    if bool_decide (stored s = sample_prev) then Ok "p"
    else if bool_decide (stored s = sample_next) then Ok "n" else Err (errors_New "json");
  unmarshal_snapshot := fun b =>
    if str_eqb b "p" then Ok sample_prev else if str_eqb b "n" then Ok sample_next else Err (errors_New "json");
  marshal_bootstrap := fun b => if bool_decide (b = sample_bootstrap) then Ok "b" else Err (errors_New "json");
  unmarshal_bootstrap := fun b => if str_eqb b "b" then Ok sample_bootstrap else Err (errors_New "json")
|}.

Lemma toy_CodecLaws : @CodecLaws toy_Codec.
Proof.
  split.
  - intros s b. simpl. case_bool_decide as E; [intros [= <-]; by rewrite E|].
    case_bool_decide as E'; [intros [= <-]; by rewrite E'|done].
  - intros b r. simpl. case_bool_decide as E; [intros [= <-]; by rewrite E|done].
Qed.

(** The fourth file operation fails after three bytes. *)
Definition toy_Disk : Disk := {| disk_fault := fun n => if bool_decide (n = 4%nat) then Some 3%nat else None; disk_unreadable := fun n => bool_decide (6 < n)%nat |}.

(** The latest pointer survives the failed write. *)
Lemma fs_store_contract_witness :
  let st0 := mkFS {[ fs_path "/data" latestSnapshotKey := "p" ]} 0 in
  match @SaveSnapshot FS (@FS_Store toy_Codec toy_Disk "/data") sample_next st0 with
  | (Err _, st) => @fs_held "/data" _ (@unmarshal_snapshot toy_Codec) latestSnapshotKey st = Ok (Some sample_prev)
  | (Ok _, _) => False
  end.
Proof.
  intros st0.
  destruct (@SaveSnapshot FS (@FS_Store toy_Codec toy_Disk "/data") sample_next st0) as [[u|e] st] eqn:E;
    [vm_compute in E; discriminate E|].
  destruct (sc_save_failed _ _ _ (@fs_store_contract toy_Codec toy_CodecLaws toy_Disk "/data")
    sample_next st0 e st E) as [H|H]; rewrite H; [vm_compute; reflexivity|].
  exfalso. vm_compute in E. injection E as _ <-. vm_compute in H. discriminate H.
Defined.
