(* ===== verification/Codec.v ===== *)
(** * The stored documents

    The JSON of the stored types: the struct tags of [src/trust/anchor.go] and
    [src/trust/diff.go], field by field, for [Snapshot], [Bootstrap] and what they
    contain.  Every backend of [src/store] writes and reads these documents, and
    [cloneSnapshot] of the manager goes through them.

    [json_Codec] is the codec the stores and the manager are verified against.
    Its domain is the values of the Go types whose text is valid UTF-8. *)

From S2P Require Import Prelude GoTime Model Base64 Json JsonText Wire Samples Store.

(** ** Anchors *)

Definition Anchor_zero : Anchor := mkAnchor "" "" "" "" "" "" 0 "" "" "" 0 0 [] false [] "" "" "" [] 0.

Definition anchor_fields (a : Anchor) : list fspec :=
  [ fld "territory" w_string (a_Territory a); fld "source" w_string (a_Source a);
    fld "tspName" w_string (a_TSPName a); fld "serviceName" w_string (a_ServiceName a);
    fld "serviceType" w_string (a_ServiceType a); fld "status" w_string (a_Status a);
    fld "statusStartingTime" w_time (a_StatusStartingTime a); fld "certDer" w_bytes (a_CertDER a);
    fld "fingerprintSha256" w_string (a_FingerprintSHA256 a); fld "subject" w_string (a_Subject a);
    fld "notBefore" w_time (a_NotBefore a); fld "notAfter" w_time (a_NotAfter a);
    fldo "qualifiers" (w_slice w_string) (a_Qualifiers a); fld "qcWithQscd" w_bool (a_QCWithQSCD a);
    fldo "uses" (w_slice w_string) (a_Uses a); fldo "keyAlgorithm" w_string (a_KeyAlgorithm a);
    fldo "curve" w_string (a_Curve a); fldo "type" w_string (a_Type a);
    fldo "useCases" (w_slice w_string) (a_UseCases a); fldo "tlSequence" w_int64 (a_TLSequence a) ].

Definition w_anchor : wire Anchor := {|
  w_zero := Anchor_zero; w_empty := fun _ => false;
  w_ok := fun a => struct_ok (anchor_fields a); w_enc := fun a => struct_enc (anchor_fields a);
  w_dec := dec_struct "trust.Anchor" (fun kvs z =>
    let? territory := dec_field w_string "territory" kvs (a_Territory z) in
    let? source := dec_field w_string "source" kvs (a_Source z) in
    let? tspName := dec_field w_string "tspName" kvs (a_TSPName z) in
    let? serviceName := dec_field w_string "serviceName" kvs (a_ServiceName z) in
    let? serviceType := dec_field w_string "serviceType" kvs (a_ServiceType z) in
    let? status := dec_field w_string "status" kvs (a_Status z) in
    let? starting := dec_field w_time "statusStartingTime" kvs (a_StatusStartingTime z) in
    let? certDer := dec_field w_bytes "certDer" kvs (a_CertDER z) in
    let? fingerprint := dec_field w_string "fingerprintSha256" kvs (a_FingerprintSHA256 z) in
    let? subject := dec_field w_string "subject" kvs (a_Subject z) in
    let? notBefore := dec_field w_time "notBefore" kvs (a_NotBefore z) in
    let? notAfter := dec_field w_time "notAfter" kvs (a_NotAfter z) in
    let? qualifiers := dec_field (w_slice w_string) "qualifiers" kvs (a_Qualifiers z) in
    let? qscd := dec_field w_bool "qcWithQscd" kvs (a_QCWithQSCD z) in
    let? uses := dec_field (w_slice w_string) "uses" kvs (a_Uses z) in
    let? alg := dec_field w_string "keyAlgorithm" kvs (a_KeyAlgorithm z) in
    let? curve := dec_field w_string "curve" kvs (a_Curve z) in
    let? type := dec_field w_string "type" kvs (a_Type z) in
    let? useCases := dec_field (w_slice w_string) "useCases" kvs (a_UseCases z) in
    let? seq := dec_field w_int64 "tlSequence" kvs (a_TLSequence z) in
    Ok (mkAnchor territory source tspName serviceName serviceType status starting certDer fingerprint subject
          notBefore notAfter qualifiers qscd uses alg curve type useCases seq)) |}.

#[export] Instance w_anchor_laws : WireLaws w_anchor.
Proof. split; [struct_total w_anchor anchor_fields|struct_roundtrip w_anchor anchor_fields|done]. Qed.

(** ** Territories *)

Definition SkippedService_zero : SkippedService := mkSkipped "" "" "" "" "" "" "".

Definition skipped_fields (s : SkippedService) : list fspec :=
  [ fld "tspName" w_string (sk_TSPName s); fld "serviceName" w_string (sk_ServiceName s);
    fld "reason" w_string (sk_Reason s); fldo "detail" w_string (sk_Detail s);
    fldo "fingerprintSha256" w_string (sk_FingerprintSHA256 s);
    fldo "keyAlgorithm" w_string (sk_KeyAlgorithm s); fldo "curve" w_string (sk_Curve s) ].

Definition w_skipped : wire SkippedService := {|
  w_zero := SkippedService_zero; w_empty := fun _ => false;
  w_ok := fun s => struct_ok (skipped_fields s); w_enc := fun s => struct_enc (skipped_fields s);
  w_dec := dec_struct "trust.SkippedService" (fun kvs z =>
    let? tspName := dec_field w_string "tspName" kvs (sk_TSPName z) in
    let? serviceName := dec_field w_string "serviceName" kvs (sk_ServiceName z) in
    let? reason := dec_field w_string "reason" kvs (sk_Reason z) in
    let? detail := dec_field w_string "detail" kvs (sk_Detail z) in
    let? fingerprintSha256 := dec_field w_string "fingerprintSha256" kvs (sk_FingerprintSHA256 z) in
    let? keyAlgorithm := dec_field w_string "keyAlgorithm" kvs (sk_KeyAlgorithm z) in
    let? curve := dec_field w_string "curve" kvs (sk_Curve z) in
    Ok (mkSkipped tspName serviceName reason detail fingerprintSha256 keyAlgorithm curve)) |}.

#[export] Instance w_skipped_laws : WireLaws w_skipped.
Proof. split; [struct_total w_skipped skipped_fields|struct_roundtrip w_skipped skipped_fields|done]. Qed.

Definition Territory_zero : Territory := mkTerritory "" 0 0 None "" false "" false "" [] [].

Definition territory_fields (t : Territory) : list fspec :=
  [ fld "code" w_string (t_Code t); fld "tlSequence" w_uint64 (t_TLSequence t);
    fld "issueTime" w_time (t_IssueTime t); fldo "nextUpdate" (w_ptr w_time) (t_NextUpdate t);
    fldo "sourceDigest" w_string (t_SourceDigest t); fldo "carriedOver" w_bool (t_CarriedOver t);
    fldo "carriedOverReason" w_string (t_CarriedOverReason t); fldo "failed" w_bool (t_Failed t);
    fldo "failureReason" w_string (t_FailureReason t); fld "anchors" (w_slice w_anchor) (t_Anchors t);
    fldo "skipped" (w_slice w_skipped) (t_Skipped t) ].

Definition w_territory : wire Territory := {|
  w_zero := Territory_zero; w_empty := fun _ => false;
  w_ok := fun t => struct_ok (territory_fields t); w_enc := fun t => struct_enc (territory_fields t);
  w_dec := dec_struct "trust.Territory" (fun kvs z =>
    let? code := dec_field w_string "code" kvs (t_Code z) in
    let? tlSequence := dec_field w_uint64 "tlSequence" kvs (t_TLSequence z) in
    let? issueTime := dec_field w_time "issueTime" kvs (t_IssueTime z) in
    let? nextUpdate := dec_field (w_ptr w_time) "nextUpdate" kvs (t_NextUpdate z) in
    let? sourceDigest := dec_field w_string "sourceDigest" kvs (t_SourceDigest z) in
    let? carriedOver := dec_field w_bool "carriedOver" kvs (t_CarriedOver z) in
    let? carriedOverReason := dec_field w_string "carriedOverReason" kvs (t_CarriedOverReason z) in
    let? failed := dec_field w_bool "failed" kvs (t_Failed z) in
    let? failureReason := dec_field w_string "failureReason" kvs (t_FailureReason z) in
    let? anchors := dec_field (w_slice w_anchor) "anchors" kvs (t_Anchors z) in
    let? skipped := dec_field (w_slice w_skipped) "skipped" kvs (t_Skipped z) in
    Ok (mkTerritory code tlSequence issueTime nextUpdate sourceDigest carriedOver carriedOverReason failed
          failureReason anchors skipped)) |}.

#[export] Instance w_territory_laws : WireLaws w_territory.
Proof. split; [struct_total w_territory territory_fields|struct_roundtrip w_territory territory_fields|done]. Qed.
#[export] Instance w_territory_nonnull : WireNonNull w_territory.
Proof. intros a. apply struct_enc_nonnull. Qed.

Definition PendingAnchor_zero : PendingAnchor := mkPending Anchor_zero 0.

Definition pending_fields (p : PendingAnchor) : list fspec :=
  [ fld "anchor" w_anchor (p_Anchor p); fld "firstSeen" w_time (p_FirstSeen p) ].

Definition w_pending : wire PendingAnchor := {|
  w_zero := PendingAnchor_zero; w_empty := fun _ => false;
  w_ok := fun p => struct_ok (pending_fields p); w_enc := fun p => struct_enc (pending_fields p);
  w_dec := dec_struct "trust.PendingAnchor" (fun kvs z =>
    let? anchor := dec_field w_anchor "anchor" kvs (p_Anchor z) in
    let? firstSeen := dec_field w_time "firstSeen" kvs (p_FirstSeen z) in
    Ok (mkPending anchor firstSeen)) |}.

#[export] Instance w_pending_laws : WireLaws w_pending.
Proof. split; [struct_total w_pending pending_fields|struct_roundtrip w_pending pending_fields|done]. Qed.

(** ** Bootstrap *)

Definition Bootstrap_zero : Bootstrap := mkBootstrap 0 "" [] 0 false.

Definition bootstrap_fields (b : Bootstrap) : list fspec :=
  [ fld "version" w_int (b_Version b); fld "ojReference" w_string (b_OJReference b);
    fld "certsDer" (w_slice w_bytes) (b_CertsDER b); fld "activatedAt" w_time (b_ActivatedAt b);
    fldo "seeded" w_bool (b_Seeded b) ].

Definition w_bootstrap : wire Bootstrap := {|
  w_zero := Bootstrap_zero; w_empty := fun _ => false;
  w_ok := fun b => struct_ok (bootstrap_fields b); w_enc := fun b => struct_enc (bootstrap_fields b);
  w_dec := dec_struct "trust.Bootstrap" (fun kvs z =>
    let? version := dec_field w_int "version" kvs (b_Version z) in
    let? ojReference := dec_field w_string "ojReference" kvs (b_OJReference z) in
    let? certsDer := dec_field (w_slice w_bytes) "certsDer" kvs (b_CertsDER z) in
    let? activatedAt := dec_field w_time "activatedAt" kvs (b_ActivatedAt z) in
    let? seeded := dec_field w_bool "seeded" kvs (b_Seeded z) in
    Ok (mkBootstrap version ojReference certsDer activatedAt seeded)) |}.

#[export] Instance w_bootstrap_laws : WireLaws w_bootstrap.
Proof. split; [struct_total w_bootstrap bootstrap_fields|struct_roundtrip w_bootstrap bootstrap_fields|done]. Qed.
#[export] Instance w_bootstrap_nonnull : WireNonNull w_bootstrap.
Proof. intros a. apply struct_enc_nonnull. Qed.

(** ** Snapshots *)

Definition ListPointer_zero : ListPointer := mkListPointer "" "" [] "".

Definition pointer_fields (p : ListPointer) : list fspec :=
  [ fld "territory" w_string (lp_Territory p); fld "url" w_string (lp_URL p);
    fldo "signersDer" (w_slice w_bytes) (lp_SignersDER p); fldo "failure" w_string (lp_Failure p) ].

Definition w_pointer : wire ListPointer := {|
  w_zero := ListPointer_zero; w_empty := fun _ => false;
  w_ok := fun p => struct_ok (pointer_fields p); w_enc := fun p => struct_enc (pointer_fields p);
  w_dec := dec_struct "trust.ListPointer" (fun kvs z =>
    let? territory := dec_field w_string "territory" kvs (lp_Territory z) in
    let? url := dec_field w_string "url" kvs (lp_URL z) in
    let? signersDer := dec_field (w_slice w_bytes) "signersDer" kvs (lp_SignersDER z) in
    let? failure := dec_field w_string "failure" kvs (lp_Failure z) in
    Ok (mkListPointer territory url signersDer failure)) |}.

#[export] Instance w_pointer_laws : WireLaws w_pointer.
Proof. split; [struct_total w_pointer pointer_fields|struct_roundtrip w_pointer pointer_fields|done]. Qed.

Definition DiffEntry_zero : DiffEntry := mkDiffEntry "" "" "" "" "" "" "" "" "".

Definition diff_entry_fields (e : DiffEntry) : list fspec :=
  [ fld "kind" w_string (de_Kind e); fld "territory" w_string (de_Territory e);
    fld "fingerprint" w_string (de_Fingerprint e); fldo "type" w_string (de_Type e);
    fld "tspName" w_string (de_TSPName e); fld "serviceName" w_string (de_ServiceName e);
    fld "status" w_string (de_Status e); fldo "detail" w_string (de_Detail e);
    fld "source" w_string (de_Source e) ].

Definition w_diff_entry : wire DiffEntry := {|
  w_zero := DiffEntry_zero; w_empty := fun _ => false;
  w_ok := fun e => struct_ok (diff_entry_fields e); w_enc := fun e => struct_enc (diff_entry_fields e);
  w_dec := dec_struct "trust.DiffEntry" (fun kvs z =>
    let? kind := dec_field w_string "kind" kvs (de_Kind z) in
    let? territory := dec_field w_string "territory" kvs (de_Territory z) in
    let? fingerprint := dec_field w_string "fingerprint" kvs (de_Fingerprint z) in
    let? type := dec_field w_string "type" kvs (de_Type z) in
    let? tspName := dec_field w_string "tspName" kvs (de_TSPName z) in
    let? serviceName := dec_field w_string "serviceName" kvs (de_ServiceName z) in
    let? status := dec_field w_string "status" kvs (de_Status z) in
    let? detail := dec_field w_string "detail" kvs (de_Detail z) in
    let? source := dec_field w_string "source" kvs (de_Source z) in
    Ok (mkDiffEntry kind territory fingerprint type tspName serviceName status detail source)) |}.

#[export] Instance w_diff_entry_laws : WireLaws w_diff_entry.
Proof. split; [struct_total w_diff_entry diff_entry_fields|struct_roundtrip w_diff_entry diff_entry_fields|done]. Qed.

Definition DiffT_zero : DiffT := mkDiff "" [].

Definition diff_fields (d : DiffT) : list fspec :=
  [ fldo "prevId" w_string (d_PrevID d); fldo "entries" (w_slice w_diff_entry) (d_Entries d) ].

Definition w_diff : wire DiffT := {|
  w_zero := DiffT_zero; w_empty := fun _ => false;
  w_ok := fun d => struct_ok (diff_fields d); w_enc := fun d => struct_enc (diff_fields d);
  w_dec := dec_struct "trust.Diff" (fun kvs z =>
    let? prevId := dec_field w_string "prevId" kvs (d_PrevID z) in
    let? entries := dec_field (w_slice w_diff_entry) "entries" kvs (d_Entries z) in
    Ok (mkDiff prevId entries)) |}.

#[export] Instance w_diff_laws : WireLaws w_diff.
Proof. split; [struct_total w_diff diff_fields|struct_roundtrip w_diff diff_fields|done]. Qed.
#[export] Instance w_diff_nonnull : WireNonNull w_diff.
Proof. intros a. apply struct_enc_nonnull. Qed.

Definition Snapshot_zero : Snapshot := mkSnapshot "" "" 0 0 0 None [] 0 "" [] "" "" 0 [] [] [] None None.

Definition snapshot_fields (s : Snapshot) : list fspec :=
  [ fld "id" w_string (s_ID s); fldo "prevId" w_string (s_PrevID s);
    fld "generatedAt" w_time (s_GeneratedAt s); fld "lotlSequence" w_uint64 (s_LOTLSequence s);
    fld "lotlIssueTime" w_time (s_LOTLIssueTime s); fldo "lotlNextUpdate" (w_ptr w_time) (s_LOTLNextUpdate s);
    fld "lotlSignersDer" (w_slice w_bytes) (s_LOTLSignersDER s);
    fld "lotlPivotSeq" w_uint64 (s_LOTLPivotSeq s); fldo "lotlDigest" w_string (s_LOTLDigest s);
    fldo "lotlPointers" (w_slice w_pointer) (s_LOTLPointers s);
    fldo "advertisedOj" w_string (s_AdvertisedOJ s); fldo "bootstrapOjRef" w_string (s_BootstrapOJRef s);
    fldo "bootstrapVersion" w_int (s_BootstrapVersion s);
    fld "territories" (w_slice (w_elem w_territory)) (s_Territories s);
    fldo "internal" (w_slice w_anchor) (s_Internal s); fldo "pending" (w_slice w_pending) (s_Pending s);
    fldo "diff" (w_ptr w_diff) (s_Diff s) ].

(** [DeclaredLoad] has the tag [-]: it is not written, and left alone by a decoder. *)
Definition w_snapshot : wire Snapshot := {|
  w_zero := Snapshot_zero; w_empty := fun _ => false;
  w_ok := fun s => bool_decide (s_DeclaredLoad s = None) && struct_ok (snapshot_fields s); w_enc := fun s => struct_enc (snapshot_fields s);
  w_dec := dec_struct "trust.Snapshot" (fun kvs z =>
    let? id := dec_field w_string "id" kvs (s_ID z) in
    let? prevId := dec_field w_string "prevId" kvs (s_PrevID z) in
    let? generatedAt := dec_field w_time "generatedAt" kvs (s_GeneratedAt z) in
    let? lotlSequence := dec_field w_uint64 "lotlSequence" kvs (s_LOTLSequence z) in
    let? lotlIssueTime := dec_field w_time "lotlIssueTime" kvs (s_LOTLIssueTime z) in
    let? lotlNextUpdate := dec_field (w_ptr w_time) "lotlNextUpdate" kvs (s_LOTLNextUpdate z) in
    let? lotlSignersDer := dec_field (w_slice w_bytes) "lotlSignersDer" kvs (s_LOTLSignersDER z) in
    let? lotlPivotSeq := dec_field w_uint64 "lotlPivotSeq" kvs (s_LOTLPivotSeq z) in
    let? lotlDigest := dec_field w_string "lotlDigest" kvs (s_LOTLDigest z) in
    let? lotlPointers := dec_field (w_slice w_pointer) "lotlPointers" kvs (s_LOTLPointers z) in
    let? advertisedOj := dec_field w_string "advertisedOj" kvs (s_AdvertisedOJ z) in
    let? bootstrapOjRef := dec_field w_string "bootstrapOjRef" kvs (s_BootstrapOJRef z) in
    let? bootstrapVersion := dec_field w_int "bootstrapVersion" kvs (s_BootstrapVersion z) in
    let? territories := dec_field (w_slice (w_elem w_territory)) "territories" kvs (s_Territories z) in
    let? internal := dec_field (w_slice w_anchor) "internal" kvs (s_Internal z) in
    let? pending := dec_field (w_slice w_pending) "pending" kvs (s_Pending z) in
    let? diff := dec_field (w_ptr w_diff) "diff" kvs (s_Diff z) in
    Ok (mkSnapshot id prevId generatedAt lotlSequence lotlIssueTime lotlNextUpdate lotlSignersDer
          lotlPivotSeq lotlDigest lotlPointers advertisedOj bootstrapOjRef bootstrapVersion territories internal
          pending diff (s_DeclaredLoad z))) |}.

#[export] Instance w_snapshot_laws : WireLaws w_snapshot.
Proof.
  split; [|..|done].
  { intros s Ho. apply andb_true_iff in Ho as [_ Ho]. revert s Ho. struct_total w_snapshot snapshot_fields. }
  intros s j Ho H. apply andb_true_iff in Ho as [Hl%bool_decide_eq_true Ho].
  revert s j Ho H Hl. struct_roundtrip w_snapshot snapshot_fields. destruct a. simpl in *. by subst.
Qed.
#[export] Instance w_snapshot_nonnull : WireNonNull w_snapshot.
Proof. intros a. apply struct_enc_nonnull. Qed.

(** ** The codec *)

(** The values a store can hold: integers in the range of their types, years of
    four digits, text in UTF-8. *)
Definition snapshot_storable (s : Snapshot) : bool := w_ok w_snapshot (stored s).
Definition bootstrap_storable (b : Bootstrap) : bool := w_ok w_bootstrap b.

Definition outside_domain : error := errors_New "json: value outside the modelled types".

(** [json.Marshal] and [json.Unmarshal] on the stored types, on the domain of the
    model. *)
Definition json_Codec : Codec := {|
  marshal_snapshot := fun s => if snapshot_storable s then json_Marshal w_snapshot s else Err outside_domain;
  unmarshal_snapshot := fun b => json_Unmarshal w_snapshot b Snapshot_zero;
  marshal_bootstrap := fun b => if bootstrap_storable b then json_Marshal w_bootstrap b else Err outside_domain;
  unmarshal_bootstrap := fun b => json_Unmarshal w_bootstrap b Bootstrap_zero
|}.

Lemma Marshal_stored s : json_Marshal w_snapshot s = json_Marshal w_snapshot (stored s).
Proof. done. Qed.

Lemma Marshal_deterministic {A} (W : wire A) `{!WireLaws W} a b :
  w_ok W a = true -> json_Marshal W a = Ok b -> json_Unmarshal W b (w_zero W) = Ok a.
Proof. intros Ho H. destruct (Marshal_Unmarshal W a Ho) as (b' & Hb & Hd). rewrite H in Hb. by injection Hb as ->. Qed.

Lemma json_CodecLaws : @CodecLaws json_Codec.
Proof.
  split; simpl.
  - intros s b. destruct (snapshot_storable s) eqn:E; [|done]. rewrite Marshal_stored.
    by apply (Marshal_deterministic w_snapshot).
  - intros b r. destruct (bootstrap_storable b) eqn:E; [|done]. by apply (Marshal_deterministic w_bootstrap).
Qed.

(** * Properties *)

(** C13 Nothing is lost on the way through a store: the JSON document of a
    snapshot or of a bootstrap can be written, and reading it gives back every
    field of every anchor, territory, pointer, pending entry and diff, to the
    nanosecond and the byte; only the report of the declared load is not kept.
    Two snapshots with the same document are the same. *)
Theorem stored_document_roundtrip s b :
  snapshot_storable s = true -> bootstrap_storable b = true ->
  (exists doc, json_Marshal w_snapshot s = Ok doc /\ json_Unmarshal w_snapshot doc Snapshot_zero = Ok (stored s)) /\
  (exists doc, json_Marshal w_bootstrap b = Ok doc /\ json_Unmarshal w_bootstrap doc Bootstrap_zero = Ok b) /\
  (forall s', snapshot_storable s' = true -> json_Marshal w_snapshot s' = json_Marshal w_snapshot s -> stored s' = stored s).
Proof.
  intros Hs Hb. destruct (Marshal_Unmarshal w_snapshot (stored s) Hs) as (doc & Hd & Hu). rewrite (Marshal_stored s).
  split_and!; [by exists doc|apply (Marshal_Unmarshal w_bootstrap b Hb)|]. intros s' Hs'.
  destruct (Marshal_Unmarshal w_snapshot (stored s') Hs') as (doc' & Hd' & Hu'). rewrite (Marshal_stored s'), Hd, Hd'.
  intros [= ->]. congruence.
Qed.

Lemma stored_document_roundtrip_witness :
  exists doc, json_Marshal w_snapshot sample_next = Ok doc /\ json_Unmarshal w_snapshot doc Snapshot_zero = Ok (stored sample_next).
Proof.
  exact (proj1 (stored_document_roundtrip sample_next sample_bootstrap
    ltac:(vm_compute; reflexivity) ltac:(vm_compute; reflexivity))).
Defined.
