(* ===== verification/RemoteStores.v ===== *)
(** * The remote stores

    [src/store/s3.go] and [src/store/postgres.go].  The object storage is a
    parameter: what a request does to its contents is stated by [ObjectLaws].  The
    database is that of [Procedures].  A request may always fail. *)

From S2P Require Import Prelude GoTime Model Json JsonText Wire Procedures Samples Store Codec.

(** ** S3 *)

(** What reading an object gives: its content, the error response of a key that
    does not exist, or another failure at [GetObject] or while reading. *)
Inductive s3_read := S3Body (b : bytes) | S3NoSuchKey | S3GetFailed (e : error) | S3ReadFailed (e : error).

Class ObjectClient (Bk : Type) := {
  minio_PutObject : string -> string -> bytes -> eff Bk unit;   (* bucket, key, content *)
  minio_GetObject : string -> string -> Bk -> s3_read
}.

(** A put that succeeds is what the bucket holds under the key; one that fails
    may have been applied or not; other keys are not touched; a read that answers
    tells what the bucket holds. *)
Class ObjectLaws (Bk : Type) `{ObjectClient Bk} (bucket : string) := {
  holds : Bk -> string -> option bytes;
  put_holds : forall key b st r st', minio_PutObject bucket key b st = (r, st') ->
    (forall key', key' <> key -> holds st' key' = holds st key') /\
    (holds st' key = Some b \/ (exists e, r = Err e) /\ holds st' key = holds st key);
  get_body : forall key st b, minio_GetObject bucket key st = S3Body b -> holds st key = Some b;
  get_none : forall key st, minio_GetObject bucket key st = S3NoSuchKey -> holds st key = None
}.

Record S3 := mkS3 { s3_bucket : string; s3_prefix : string }.

Record S3Options := mkS3Options {
  so_Endpoint : string; so_AccessKey : string; so_SecretKey : string; so_UseSSL : bool; so_Bucket : string; so_Prefix : string
}.

Definition ends_with_slash (s : string) : bool :=
  match str_rev s with String c _ => bool_decide (c = Ascii.ascii_of_nat 47) | EmptyString => false end.

(** [NewS3], given what [minio.New] answers for the options. *)
Definition NewS3 (minio_New : S3Options -> result unit) (opts : S3Options) : result S3 :=
  let? _ := map_err (fun e => errorf ("store: s3 client: " +:+ err_Error e) [e]) (minio_New opts) in
  let prefix := so_Prefix opts in
  let prefix := if negb (str_eqb prefix "") && negb (ends_with_slash prefix) then prefix +:+ "/" else prefix in
  Ok (mkS3 (so_Bucket opts) prefix).

Section S3Store.
Context {CO : Codec} {Bk : Type} {OC : ObjectClient Bk} (s3 : S3).

Definition s3_put (key : string) (v : result bytes) : eff Bk unit :=
  let* b := eff_of_result v in
  eff_wrap (fun e => errorf ("store: s3 put " +:+ key +:+ ": " +:+ err_Error e) [e])
    (minio_PutObject (s3_bucket s3) (s3_prefix s3 +:+ key) b).

Definition s3_get {A} (dec : bytes -> result A) (key : string) (st : Bk) : result (option A) :=
  match minio_GetObject (s3_bucket s3) (s3_prefix s3 +:+ key) st with
  | S3GetFailed e => Err (errorf ("store: s3 get " +:+ key +:+ ": " +:+ err_Error e) [e])
  | S3NoSuchKey => Ok None
  | S3ReadFailed e => Err (errorf ("store: s3 read " +:+ key +:+ ": " +:+ err_Error e) [e])
  | S3Body b => let? a := dec b in Ok (Some a)
  end.

Definition S3_Store : Store Bk := {|
  SaveSnapshot := fun snap =>
    let* _ := s3_put (snapshotKey snap) (marshal_snapshot snap) in
    s3_put latestSnapshotKey (marshal_snapshot snap);
  LoadLatestSnapshot := s3_get unmarshal_snapshot latestSnapshotKey;
  SaveBootstrap := fun b =>
    let* _ := s3_put (bootstrapKey b) (marshal_bootstrap b) in
    s3_put latestBootstrapKey (marshal_bootstrap b);
  LoadLatestBootstrap := s3_get unmarshal_bootstrap latestBootstrapKey;
  Reopen := fun st => st
|}.

Context {OL : ObjectLaws Bk (s3_bucket s3)}.

(** What the bucket holds behind a key, decoded. *)
Definition s3_holds {A} (dec : bytes -> result A) (key : string) (st : Bk) : result (option A) :=
  match holds st (s3_prefix s3 +:+ key) with
  | None => Ok None
  | Some b => let? a := dec b in Ok (Some a)
  end.

Lemma s3_get_honest {A} (dec : bytes -> result A) key st :
  s3_get dec key st = s3_holds dec key st \/ exists e, s3_get dec key st = Err e.
Proof.
  unfold s3_get, s3_holds. destruct (minio_GetObject _ _ _) as [b| |e|e] eqn:E; [left|left|right; eauto..].
  - by rewrite (get_body _ _ _ E).
  - by rewrite (get_none _ _ E).
Qed.

Lemma s3_put_holds key v st r st' :
  s3_put key v st = (r, st') ->
  (forall A (dec : bytes -> result A) key', key' <> key -> s3_holds dec key' st' = s3_holds dec key' st) /\
  ((exists b, v = Ok b /\ holds st' (s3_prefix s3 +:+ key) = Some b) \/
   (exists e, r = Err e) /\ forall A (dec : bytes -> result A), s3_holds dec key st' = s3_holds dec key st).
Proof.
  unfold s3_put, eff_bind, eff_of_result. destruct v as [b|e]; [|intros [= <- <-]; eauto 6].
  unfold eff_wrap. destruct (minio_PutObject _ _ _ _) as [r0 st0] eqn:E. intros [= <- <-].
  apply put_holds in E as [Hk Hp]. split.
  - intros A dec key' Hne. unfold s3_holds. rewrite Hk; [done|]. by intros ?%(inj (String.append _)).
  - destruct Hp as [Hp|[[e ->] Hp]]; [left; eauto|right]. split; [simpl; eauto|]. intros A dec. unfold s3_holds. by rewrite Hp.
Qed.

(** The versioned put, then the latest pointer. *)
Lemma s3_save_latest {A} (dec : bytes -> result A) k1 k2 v a st r st' :
  k2 <> k1 -> (forall b, v = Ok b -> dec b = Ok a) ->
  eff_bind (s3_put k1 v) (fun _ => s3_put k2 v) st = (r, st') ->
  s3_holds dec k2 st' = Ok (Some a) \/ (exists e, r = Err e) /\ s3_holds dec k2 st' = s3_holds dec k2 st.
Proof.
  intros Hne Hd. unfold eff_bind. destruct (s3_put k1 v st) as [[u|e] st1] eqn:E1.
  - apply s3_put_holds in E1 as [H1 _]. intros E2. apply s3_put_holds in E2 as [_ [(b & Hv & Hb)|[He Hs]]].
    + left. unfold s3_holds. by rewrite Hb, (Hd b Hv).
    + right. split; [done|]. by rewrite Hs, H1.
  - intros [= <- <-]. apply s3_put_holds in E1 as [H1 _]. right. split; [eauto|by rewrite H1].
Qed.

Lemma s3_save_other {A} (dec : bytes -> result A) k1 k2 v key st :
  key <> k1 -> key <> k2 -> s3_holds dec key (eff_bind (s3_put k1 v) (fun _ => s3_put k2 v) st).2 = s3_holds dec key st.
Proof.
  intros H1 H2. unfold eff_bind. destruct (s3_put k1 v st) as [[u|e] st1] eqn:E1; apply s3_put_holds in E1 as [E1 _].
  - destruct (s3_put k2 v st1) as [r st2] eqn:E2. apply s3_put_holds in E2 as [E2 _]. simpl. by rewrite E2, E1.
  - simpl. by rewrite E1.
Qed.

Lemma S3_contract {CL : CodecLaws} :
  store_contract (H := S3_Store) (s3_holds unmarshal_snapshot latestSnapshotKey) (s3_holds unmarshal_bootstrap latestBootstrapKey)
    (fun _ => true).
Proof.
  split.
  - intros st. apply s3_get_honest.
  - intros st. apply s3_get_honest.
  - intros s st st' Hs. apply (s3_save_latest unmarshal_snapshot _ _ _ (stored s)) in Hs as [|[[e ?] _]];
      [done|done|done|]. intros b. apply snapshot_roundtrip.
  - intros s st e st' Hs. apply (s3_save_latest unmarshal_snapshot _ _ _ (stored s)) in Hs as [|[_ ?]];
      [by right|by left|done|]. intros b. apply snapshot_roundtrip.
  - intros s st. by apply s3_save_other.
  - intros b st st' _ Hs. apply (s3_save_latest unmarshal_bootstrap _ _ _ b) in Hs as [|[[e ?] _]];
      [done|done|done|]. intros r. apply bootstrap_roundtrip.
  - intros b st. by apply s3_save_other.
  - done.
  - done.
Qed.
End S3Store.

(** ** PostgreSQL *)

(** [json.RawMessage]: [None] is an empty message. *)
Definition w_raw : wire (option json) := {|
  w_zero := None; w_empty := fun o => match o with None => true | Some _ => false end;
  w_ok := from_option json_wf true;
  w_enc := fun o => Ok (default JNull o); w_dec := fun j _ => Ok (Some j) |}.

Record envelope := mkEnvelope { en_Result : string; en_Data : option json; en_Code : string; en_Message : string }.
Definition envelope_zero : envelope := mkEnvelope "" None "" "".

Definition w_envelope : wire envelope := {|
  w_zero := envelope_zero; w_empty := fun _ => false;
  w_ok := fun e => utf8_valid (en_Result e) && utf8_valid (en_Code e) && utf8_valid (en_Message e) &&
                   from_option json_wf true (en_Data e);
  w_enc := fun e => struct_enc [fld "result" w_string (en_Result e); fld "data" w_raw (en_Data e);
                                fld "code" w_string (en_Code e); fld "message" w_string (en_Message e)];
  w_dec := dec_struct "store.envelope" (fun kvs z =>
    let? res := dec_field w_string "result" kvs (en_Result z) in
    let? data := dec_field w_raw "data" kvs (en_Data z) in
    let? code := dec_field w_string "code" kvs (en_Code z) in
    let? message := dec_field w_string "message" kvs (en_Message z) in
    Ok (mkEnvelope res data code message)) |}.

(** A struct with one raw field, as the two loads decode their payload into. *)
Definition dec_raw_struct (name : string) : json -> result (option json) :=
  fun j => dec_struct "struct" (fun kvs z => dec_field w_raw name kvs z) j None.

(** [json.Unmarshal] of a raw message: an empty one is no document. *)
Definition raw_Unmarshal {A} (dec : json -> result A) (raw : option json) : result A :=
  match raw with Some j => dec j | None => Err (errors_New "unexpected end of JSON input") end.

Section PgStore.
Context {PE : PgEngine}.

Definition proc_error (proc : string) (env : envelope) : error :=
  errors_New ("store: " +:+ proc +:+ ": " +:+ en_Code env +:+ ": " +:+ en_Message env).

(** The error of a failed [QueryRow]. *)
Definition pg_raised (proc : string) (code message : string) (err : error) : error :=
  let plain := errorf ("store: " +:+ proc +:+ ": " +:+ err_Error err) [err] in
  if str_eqb code "P0001" then
    match json_Unmarshal w_envelope message envelope_zero with
    | Ok env => if str_eqb (en_Result env) "error" then proc_error proc env else plain
    | Err _ => plain
    end
  else plain.

Definition pg_decode (proc : string) (out : bytes) : result (option json) :=
  let? env := map_err (fun e => errorf ("store: " +:+ proc +:+ ": decode result: " +:+ err_Error e) [e])
                (json_Unmarshal w_envelope out envelope_zero) in
  if negb (str_eqb (en_Result env) "success") then Err (proc_error proc env) else Ok (en_Data env).

Definition pg_call (proc : string) (input : result bytes) : eff PgDb (option json) := fun st =>
  match map_err (fun e => errorf ("store: marshal input: " +:+ err_Error e) [e]) input with
  | Err e => (Err e, st)
  | Ok inJSON =>
      let '(ans, st') := pg_QueryRow (pg_call_query proc) inJSON st in
      (match ans with
       | PgError code message err => Err (pg_raised proc code message err)
       | PgFailed err => Err (errorf ("store: " +:+ proc +:+ ": " +:+ err_Error err) [err])
       | PgRow out => pg_decode proc out
       end, st')
  end.

(** [struct{}{}] *)
Definition empty_input : result bytes := Ok (json_text (JObj []) "").

(** The two loads, which differ in the procedure, the field and the type. *)
Definition pg_load {A} (W : wire A) (proc field : string) (st : PgDb) : result (option A) :=
  let? data := (pg_call proc empty_input st).1 in
  let? res := map_err (fun e => errorf ("store: load " +:+ field +:+ ": decode: " +:+ err_Error e) [e])
                (raw_Unmarshal (dec_raw_struct field) data) in
  match res with
  | None | Some JNull => Ok None
  | Some j => let? a := map_err (fun e => errorf ("store: load " +:+ field +:+ ": decode " +:+ field +:+ ": " +:+ err_Error e) [e])
                          (w_dec W j (w_zero W)) in Ok (Some a)
  end.

Definition Postgres_Store : Store PgDb := {|
  SaveSnapshot := fun snap => let* _ := pg_call save_snapshot_proc (@marshal_snapshot json_Codec snap) in eff_ret tt;
  LoadLatestSnapshot := pg_load w_snapshot load_snapshot_proc "snapshot";
  SaveBootstrap := fun b => let* _ := pg_call save_bootstrap_proc (@marshal_bootstrap json_Codec b) in eff_ret tt;
  LoadLatestBootstrap := pg_load w_bootstrap load_bootstrap_proc "bootstrap";
  Reopen := fun st => st
|}.
End PgStore.

Section PgLemmas.
Context {PE : PgEngine} {PL : PgEngineLaws}.

(** What the version held by the database decodes to. *)
Definition pg_holds {A} (W : wire A) (field : string) (latest : PgDb -> option document) (st : PgDb) : result (option A) :=
  match latest st with
  | None => Ok None
  | Some d => let? a := map_err (fun e => errorf ("store: load " +:+ field +:+ ": decode " +:+ field +:+ ": " +:+ err_Error e) [e])
                          (w_dec W (doc_value d) (w_zero W)) in Ok (Some a)
  end.

(** A call that leaves the tables alone and whose answer is no row, or one that was
    executed, whether its answer arrived or not. *)
Lemma pg_QueryRow_cases query input st ans st' :
  pg_QueryRow query input st = (ans, st') ->
  (db_snapshot st' = db_snapshot st /\ db_bootstrap st' = db_bootstrap st /\ forall out, ans <> PgRow out) \/
  exists v po db, jsonb_in input = Ok v /\ run_procedure query v st = Some (Returned po db) /\ st' = called db /\
    forall out, ans = PgRow out -> out = jsonb_out po.
Proof.
  assert (Hx : forall a db, execute query input st = (a, db) ->
    db = st /\ (forall out, a <> PgRow out) \/
    exists v po, jsonb_in input = Ok v /\ run_procedure query v st = Some (Returned po db) /\ a = PgRow (jsonb_out po)).
  { unfold execute. intros a db. destruct (jsonb_in input) as [v|e]; [|intros [= <- <-]; by left].
    destruct (run_procedure query v st) as [[po db'|msg]|] eqn:E; intros [= <- <-]; [right; eauto|by left..]. }
  unfold pg_QueryRow. destruct (execute query input st) as [a db] eqn:E.
  destruct (Hx a db eq_refl) as [[-> Ha]|(v & po & Hv & Hr & ->)].
  - destruct (pg_connection _) as [|[] e]; intros [= <- <-]; left; split_and!; done.
  - destruct (pg_connection _) as [|[] e]; intros [= <- <-]; [right|right|left; split_and!; done];
      exists v, po, db; split_and!; try done. by intros out [= <-].
Qed.

Lemma decode_success proc d :
  jsonb_ok d = true -> pg_decode proc (jsonb_out (result_success (Some d))) = Ok (Some d).
Proof using PL.
  intros Hd. assert (Hs : jsonb_ok (result_success (Some d)) = true).
  { rewrite result_success_eq. unfold jsonb_ok in *. apply andb_true_iff in Hd as [Hw Hc]. simpl. by rewrite Hw, Hc. }
  unfold pg_decode, json_Unmarshal. rewrite (jsonb_text _ Hs), result_success_eq. done.
Qed.

Lemma decode_error proc code message :
  utf8_valid code = true -> utf8_valid message = true ->
  is_Ok (pg_decode proc (jsonb_out (result_error code message))) = false.
Proof using PL.
  intros Hc Hm. assert (Hs : jsonb_ok (result_error code message) = true).
  { change (result_error code message) with (JObj [("code", JStr code); ("result", JStr "error"); ("message", JStr message)]).
    unfold jsonb_ok. simpl. by rewrite Hc, Hm. }
  unfold pg_decode, json_Unmarshal. rewrite (jsonb_text _ Hs). done.
Qed.

(** ** Loads *)

Lemma pg_load_honest {A} (W : wire A) proc field latest st :
  (forall v, exists code, run_procedure (pg_call_query proc) v st = Some (guarded code (let? _ := statement st in
     Ok (result_success (Some (jsonb_build_object [(field, from_option doc_value JNull (latest st))])), st)))) ->
  utf8_valid field = true ->
  pg_load W proc field st = pg_holds W field latest st \/ exists e, pg_load W proc field st = Err e.
Proof using PL.
  intros Hl Hf. unfold pg_load, pg_call, empty_input. cbn [map_err].
  destruct (pg_QueryRow _ _ st) as [[out|code message e|e] st'] eqn:E; simpl; [|right; eauto..].
  apply pg_QueryRow_cases in E as [(_ & _ & Hn)|(v & po & db & _ & Hr & _ & Ho)]; [by destruct (Hn out)|].
  rewrite (Ho out eq_refl). destruct (Hl v) as [code Hc]. rewrite Hc in Hr. clear Hc Hl Ho.
  destruct (statement st); [|done]. injection Hr as <- <-. rewrite jsonb_build_one.
  rewrite decode_success; [left|].
  - simpl. rewrite EqualFold_refl. unfold pg_holds. by destruct (latest st).
  - unfold jsonb_ok. simpl. destruct (latest st) as [d|]; simpl; rewrite Hf; [|done].
    pose proof (doc_ok d) as Hd. unfold jsonb_ok in Hd. simpl in Hd. apply andb_true_iff in Hd as [-> ->]. done.
Qed.

(** ** Saves *)

(** What a call does to the versions of one kind: the document was added as the
    latest (if [fresh] holds of the state), or nothing has changed and the answer
    tells so. *)
Definition call_saves (proc : string) (fresh : PgDb -> Prop) (latest : PgDb -> option document) (st st' : PgDb) (input : bytes)
    (ans : pg_answer) : Prop :=
  (exists v d, jsonb_in input = Ok v /\ doc_value d = jb_value v /\ (fresh st -> latest st' = Some d)) \/
  latest st' = latest st /\ forall out, ans = PgRow out -> is_Ok (pg_decode proc out) = false.

Lemma call_save_snapshot input st ans st' :
  pg_QueryRow (pg_call_query save_snapshot_proc) input st = (ans, st') ->
  db_bootstrap st' = db_bootstrap st /\ call_saves save_snapshot_proc (fun _ => True) latest_snapshot st st' input ans.
Proof using PL.
  intros [(Hs & Hb & Hn)|(v & po & db & Hv & Hr & -> & Ho)]%pg_QueryRow_cases; unfold call_saves.
  - split; [done|]. right. unfold latest_snapshot. rewrite Hs. split; [done|]. intros out ->. by destruct (Hn out).
  - injection Hr as Hr. apply save_snapshot_returns in Hr as (Hb & _ & [(d & Hl & Hd)|[-> ->]]); (split; [done|]).
    + left. exists v, d. split_and!; done.
    + right. split; [done|]. intros out ->%Ho. by apply decode_error.
Qed.

Lemma call_save_bootstrap input st ans st' :
  pg_QueryRow (pg_call_query save_bootstrap_proc) input st = (ans, st') ->
  db_snapshot st' = db_snapshot st /\
  call_saves save_bootstrap_proc (fun st => latest_bootstrap st = None) latest_bootstrap st st' input ans.
Proof using PL.
  intros [(Hs & Hb & Hn)|(v & po & db & Hv & Hr & -> & Ho)]%pg_QueryRow_cases; unfold call_saves.
  - split; [done|]. right. unfold latest_bootstrap. rewrite Hb. split; [done|]. intros out ->. by destruct (Hn out).
  - injection Hr as Hr. apply save_bootstrap_returns in Hr as (Hb & _ & [(d & Hl & Hd)|[-> ->]]); (split; [done|]).
    + left. exists v, d. split_and!; done.
    + right. split; [done|]. intros out ->%Ho. by apply decode_error.
Qed.

Lemma pg_save_lemma {A} (W : wire A) `{!WireLaws W} proc fresh field latest (a : A) (v : result bytes) st r st' :
  (forall input ans, pg_QueryRow (pg_call_query proc) input st = (ans, st') -> call_saves proc fresh latest st st' input ans) ->
  (v = json_Marshal W a /\ w_ok W a = true \/ exists e, v = Err e) ->
  eff_bind (pg_call proc v) (fun _ => eff_ret tt) st = (r, st') ->
  (fresh st -> pg_holds W field latest st' = Ok (Some a)) \/
  (exists e, r = Err e) /\ pg_holds W field latest st' = pg_holds W field latest st.
Proof using PL.
  intros Hs Hv. unfold eff_bind. destruct (pg_call proc v st) as [r1 st1] eqn:E.
  intros H. assert (st1 = st' /\ ((exists e, r1 = Err e) -> exists e, r = Err e)) as [-> He]
    by (destruct r1; injection H as <- <-; split; [done|by intros [? ?]|done|eauto]). clear H.
  destruct Hv as [[-> Ho]|[e ->]]; [|simpl in E; injection E as <- <-; eauto 6].
  revert E. unfold pg_call, json_Marshal. pose proof (wire_total a Ho) as Ht.
  destruct (w_enc W a) as [j|] eqn:Ej; [|done]. cbn [map_err].
  destruct (wire_roundtrip a j Ho Ej) as [Hw Hd]. pose proof (read_json_text j Hw) as Hr.
  destruct (pg_QueryRow _ _ st) as [ans st2] eqn:E. intros [= <- <-].
  destruct (Hs _ _ E) as [(x & d & Hx & Hdv & Hl)|[Hl Hn]].
  - left. intros Hf. unfold pg_holds. rewrite (Hl Hf), Hdv, (Hd _ (jsonb_keeps _ _ _ Hr Hx)). done.
  - right. split; [|unfold pg_holds; by rewrite Hl]. apply He.
    destruct ans as [out|code message e|e]; [|eauto..]. specialize (Hn out eq_refl). destruct (pg_decode proc out); [done|eauto].
Qed.

Lemma snapshot_input s :
  @marshal_snapshot json_Codec s = json_Marshal w_snapshot (stored s) /\ w_ok w_snapshot (stored s) = true \/
  exists e, @marshal_snapshot json_Codec s = Err e.
Proof using. simpl. destruct (snapshot_storable s) eqn:E; [by left|right; eauto]. Qed.

Lemma bootstrap_input b :
  @marshal_bootstrap json_Codec b = json_Marshal w_bootstrap b /\ w_ok w_bootstrap b = true \/
  exists e, @marshal_bootstrap json_Codec b = Err e.
Proof using. simpl. destruct (bootstrap_storable b) eqn:E; [by left|right; eauto]. Qed.

(** A save leaves the other table alone. *)
Lemma pg_call_other {A} (table : PgDb -> A) proc v st :
  (forall db, table (called db) = table db) ->
  (forall input ans st', pg_QueryRow (pg_call_query proc) input st = (ans, st') -> table st' = table st) ->
  table (eff_bind (pg_call proc v) (fun _ => eff_ret tt) st).2 = table st.
Proof using.
  intros Hc Ho. unfold eff_bind, pg_call. destruct v as [b|e]; simpl; [|done].
  destruct (pg_QueryRow _ b st) as [ans st'] eqn:E. apply Ho in E. destruct ans as [out| |]; simpl; [|done..].
  by destruct (pg_decode _ _).
Qed.

Lemma Postgres_contract :
  store_contract (H := Postgres_Store) (pg_holds w_snapshot "snapshot" latest_snapshot)
    (pg_holds w_bootstrap "bootstrap" latest_bootstrap) (fun _ => true).
Proof using PL.
  assert (Hs : forall s st r st', SaveSnapshot (Store := Postgres_Store) s st = (r, st') -> _) by
    (intros s st r st'; apply (pg_save_lemma w_snapshot save_snapshot_proc (fun _ => True) "snapshot" latest_snapshot (stored s));
     [intros input ans Hq; by apply call_save_snapshot in Hq as [_ ?]|apply snapshot_input]).
  assert (Hb : forall b st r st', SaveBootstrap (Store := Postgres_Store) b st = (r, st') -> _) by
    (intros b st r st'; apply (pg_save_lemma w_bootstrap save_bootstrap_proc (fun st => latest_bootstrap st = None) "bootstrap" latest_bootstrap b);
     [intros input ans Hq; by apply call_save_bootstrap in Hq as [_ ?]|apply bootstrap_input]).
  split.
  - intros st. apply pg_load_honest; [|done]. by eexists.
  - intros st. apply pg_load_honest; [|done]. by eexists.
  - intros s st st' [H|[[e H] _]]%Hs; [by apply H|done].
  - intros s st e st' [H|[_ H]]%Hs; auto.
  - intros s st. unfold pg_holds, latest_bootstrap. cbn [SaveSnapshot Postgres_Store].
    rewrite (pg_call_other db_bootstrap); [done|done|]. intros input ans st' Hq. by apply call_save_snapshot in Hq as [? _].
  - intros b st st' Hn [H|[[e H] _]]%Hb; [|done]. apply H. unfold pg_holds in Hn.
    destruct (latest_bootstrap st) as [d|]; [|done]. by destruct (w_dec _ _ _).
  - intros b st. unfold pg_holds, latest_snapshot. cbn [SaveBootstrap Postgres_Store].
    rewrite (pg_call_other db_snapshot); [done|done|]. intros input ans st' Hq. by apply call_save_bootstrap in Hq as [? _].
  - done.
  - done.
Qed.
End PgLemmas.

(** * Properties *)

(** The S3 store keeps the store contract over a network: a save that succeeds
    is what the bucket holds from then on, whole; a save that fails leaves the old
    latest object or the new one; snapshots and bootstraps do not disturb each
    other; and a load returns what the bucket holds or an error - a bucket that
    cannot be reached is never taken for one that holds nothing. *)
Theorem s3_store_contract {CO : Codec} {CL : CodecLaws} {Bk : Type} {OC : ObjectClient Bk} (s3 : S3)
    {OL : ObjectLaws Bk (s3_bucket s3)} :
  store_contract (H := S3_Store s3) (s3_holds s3 unmarshal_snapshot latestSnapshotKey)
    (s3_holds s3 unmarshal_bootstrap latestBootstrapKey) (fun _ => true).
Proof. exact (S3_contract s3). Qed.

(** The PostgreSQL store keeps the same contract through its procedures: the
    envelope a procedure returns, or the structured error it raises, decides
    whether a save happened; what a load decodes is the document that was saved,
    field by field, though the column has put its members in another order; a failed
    call is an error and never an absent snapshot. *)
Theorem pg_store_contract {PE : PgEngine} {PL : PgEngineLaws} :
  store_contract (H := Postgres_Store) (pg_holds w_snapshot "snapshot" latest_snapshot)
    (pg_holds w_bootstrap "bootstrap" latest_bootstrap) (fun _ => true).
Proof. exact Postgres_contract. Qed.

(** ** On samples *)

(** A bucket that is reachable or not. *)
Record ToyBucket := mkToyBucket { tb_objects : gmap string bytes; tb_up : bool }.

Definition toy_down : error := errors_New "connection refused".

Definition toy_Client : ObjectClient ToyBucket := {|
  minio_PutObject := fun _ key b st =>
    if tb_up st then (Ok tt, mkToyBucket (<[ key := b ]> (tb_objects st)) true) else (Err toy_down, st);
  minio_GetObject := fun _ key st =>
    if tb_up st then match tb_objects st !! key with Some b => S3Body b | None => S3NoSuchKey end else S3ReadFailed toy_down
|}.

#[refine] Definition toy_ObjectLaws bucket : @ObjectLaws ToyBucket toy_Client bucket := {| holds := fun st key => tb_objects st !! key |}.
Proof.
  - intros key b [m []] r st' E; simpl in E; injection E as <- <-; simpl; split; eauto.
    + intros key' Hne. by rewrite lookup_insert_ne.
    + left. apply lookup_insert_eq.
  - intros key [m []] b; simpl; [|done]. by destruct (m !! key) as [b'|]; intros [= ->].
  - intros key [m []]; simpl; [|done]. by destruct (m !! key).
Defined.

Definition toy_s3 : S3 := mkS3 "bucket" "trust/".

(** After a save the connection drops: the load is an error, and what the bucket
    holds is the snapshot. *)
Lemma s3_store_contract_witness :
  match SaveSnapshot (Store := @S3_Store json_Codec ToyBucket toy_Client toy_s3) sample_next (mkToyBucket ∅ true) with
  | (Ok tt, st) =>
      @s3_holds ToyBucket toy_Client toy_s3 (toy_ObjectLaws "bucket") _ (@unmarshal_snapshot json_Codec) latestSnapshotKey st =
        Ok (Some (stored sample_next)) /\
      is_Ok (LoadLatestSnapshot (Store := @S3_Store json_Codec ToyBucket toy_Client toy_s3) (mkToyBucket (tb_objects st) false)) = false
  | (Err _, _) => False
  end.
Proof.
  destruct (SaveSnapshot (Store := @S3_Store json_Codec ToyBucket toy_Client toy_s3) sample_next (mkToyBucket ∅ true))
    as [[[]|e] st] eqn:E; [|vm_compute in E; discriminate E].
  split; [|reflexivity].
  exact (sc_save_snapshot _ _ _ (@s3_store_contract json_Codec json_CodecLaws ToyBucket toy_Client toy_s3 (toy_ObjectLaws "bucket"))
    sample_next _ st E).
Defined.

(** An engine that keeps members in the canonical order, whose connection is lost
    after the commit of its third call. *)
Fixpoint jsonb_norm (j : json) : json :=
  match j with
  | JArr l => JArr (map jsonb_norm l)
  | JObj kvs => JObj (go_sort (fun a b => jsonb_key_lt a.1 b.1) (map (fun kv => (kv.1, jsonb_norm kv.2)) kvs))
  | j => j
  end.

Lemma jsonb_norm_keeps j : keeps_value j (jsonb_norm j).
Proof.
  induction j as [|b|n|s|l IH|l IH] using json_rect'; cbn [jsonb_norm]; constructor; [done|..].
  - induction IH; simpl; constructor; done.
  - intros _. pose proof (merge_sort_Permutation (not_less (fun a b : string * json => jsonb_key_lt a.1 b.1))
      (map (fun kv => (kv.1, jsonb_norm kv.2)) l)) as Hs.
    apply Permutation_map_inv in Hs as (m & E & Hp). exists m. split; [done|].
    unfold go_sort. rewrite E. assert (Hm : Forall (fun kv => keeps_value kv.2 (jsonb_norm kv.2)) m) by (by rewrite <-Hp).
    clear - Hm. induction Hm; simpl; constructor; done.
Qed.

Definition from_text {A} (parse : string -> option A) (s : string) : result A :=
  match parse s with Some a => Ok a | None => Err (errors_New ("invalid input syntax: " +:+ s)) end.

Definition toy_jsonb (b : bytes) : result jsonb :=
  match read_json b with
  | Some j => match Bool.bool_dec (jsonb_ok (jsonb_norm j)) true with
              | left ok => Ok (mkJsonb (jsonb_norm j) ok)
              | right _ => Err (errors_New "invalid input syntax for type json")
              end
  | None => Err (errors_New "invalid input syntax for type json")
  end.

Definition toy_Engine : PgEngine := {|
  jsonb_in := toy_jsonb; jsonb_out := fun j => json_text j "";
  timestamptz_in := from_text Parse_RFC3339; bigint_in := from_text parse_int; integer_in := from_text parse_int;
  boolean_in := fun s => Ok (str_eqb s "true");
  pg_now := Z.of_nat; statement_fault := fun _ => None;
  pg_connection := fun n => if bool_decide (n = 2%nat) then LinkLost true toy_down else LinkUp |}.

Lemma toy_EngineLaws : @PgEngineLaws toy_Engine.
Proof.
  split.
  - intros b j v Hj. simpl. unfold toy_jsonb. rewrite Hj. destruct (Bool.bool_dec _ _); [|done]. intros [= <-].
    apply jsonb_norm_keeps.
  - intros j Hj. simpl. apply read_json_text. by apply andb_true_iff in Hj as [? _].
Qed.

(** Two saves, then a third whose answer is lost: an error, with the snapshot in the
    table. *)
Definition toy_saves : list (bool * option string) :=
  let st := Postgres_Store (PE := toy_Engine) in
  let show '(r, db) := (is_Ok (A := unit) r, match LoadLatestSnapshot (Store := st) db with Ok o => s_ID <$> o | Err _ => None end) in
  let s1 := SaveSnapshot (Store := st) sample_prev empty_db in
  let s2 := SaveSnapshot (Store := st) sample_next s1.2 in
  let s3 := SaveSnapshot (Store := st) sample_prev s2.2 in
  [show s1; show s3].

Example toy_saves_are : toy_saves = [(true, Some "prev"); (false, Some "prev")].
Proof. vm_compute. reflexivity. Qed.

Lemma pg_store_contract_witness :
  match SaveSnapshot (Store := @Postgres_Store toy_Engine) sample_next empty_db with
  | (Ok tt, st) =>
      pg_holds w_snapshot "snapshot" latest_snapshot st = Ok (Some (stored sample_next)) /\
      LoadLatestSnapshot (Store := @Postgres_Store toy_Engine) st = Ok (Some (stored sample_next))
  | (Err _, _) => False
  end.
Proof.
  destruct (SaveSnapshot (Store := @Postgres_Store toy_Engine) sample_next empty_db) as [[[]|e] st] eqn:E;
    [|vm_compute in E; discriminate E].
  pose proof (sc_save_snapshot _ _ _ (@pg_store_contract toy_Engine toy_EngineLaws) sample_next _ st E) as H.
  split; [exact H|]. vm_compute in E. injection E as <-. vm_compute. reflexivity.
Defined.

(** A bootstrap saved after one of a higher version is not the latest. *)
Definition pg_bootstraps (versions : list Z) : PgDb :=
  foldl (fun db n => (SaveBootstrap (Store := @Postgres_Store toy_Engine) (mkBootstrap n "" ["X"] 0 false) db).2) empty_db versions.

Example lower_version_not_latest :
  LoadLatestBootstrap (Store := @Postgres_Store toy_Engine) (pg_bootstraps [3; 1; 2]) =
    Ok (Some (mkBootstrap 3 "" ["X"] 0 false)).
Proof. vm_compute. reflexivity. Qed.
