(* ===== verification/Fetcher.v ===== *)
(** * The egress-controlled fetcher

    [src/ingest/fetcher.go].  Effects are threaded through a [world]: the two
    host sets of the fetcher, the trace of requests sent, the events emitted and
    the declared-source gauge.  The network is the parameter [Net]: the answer to
    the n-th request, and the clock at that moment. *)

From S2P Require Import Prelude Model Samples.

(** ** The world *)

Record URL := mkURL { u_Scheme : string; u_Hostname : string }.

(** The reply to one request: its status, its Location header and its body, a
    byte stream that may break with an error. *)
Inductive HttpReply :=
| HttpFailure (e : error)
| HttpResponse (status : Z) (location : string) (body : bytes) (broken : option error).

Class Net := {
  url_Parse : string -> result URL;
  (** [req.URL.Parse(location)], printed back. *)
  url_Resolve : string -> string -> result string;
  (** the transport's answer to the n-th request *)
  http_RoundTrip : nat -> string -> HttpReply;
  (** [time.Now] after n requests *)
  wall_clock : nat -> time
}.

Inductive Event :=
| EvEgressBlocked (territory detail : string)
| EvRefreshFailure (source detail : string)
| EvStale (territory : string) (nextUpdate : time)
| EvInternalSourceError (detail : string)
| EvPendingApproved (fingerprint actor how : string)
| EvAnchorChange (kind territory fingerprint ty tspName serviceName status detail : string) (pending : bool)
| EvAuthzDenied (requiredScope actor path : string).

(** A request sent, and whether it was the client following a redirect. *)
Record Request := mkRequest { rq_URL : string; rq_redirect : bool }.

Record world := mkWorld {
  w_allowed : gset string;
  w_httpAllowed : gset string;
  w_trace : list Request;
  w_events : list Event;
  w_declaredFailed : gmap string bool;
  w_loads : nat
}.

Definition emit (ev : Event) : eff world unit :=
  eff_modify (fun w => mkWorld (w_allowed w) (w_httpAllowed w) (w_trace w) (w_events w ++ [ev]) (w_declaredFailed w) (w_loads w)).

Definition setDeclaredSourceFailed (key : string) (failed : bool) : eff world unit :=
  eff_modify (fun w => mkWorld (w_allowed w) (w_httpAllowed w) (w_trace w) (w_events w)
                         (<[ key := failed ]> (w_declaredFailed w)) (w_loads w)).

(** The operator's files may be edited between two loads: [w_loads] counts the loads
    made so far, and what the n-th load reads is a parameter of the model. *)
Definition next_load (w : world) : world :=
  mkWorld (w_allowed w) (w_httpAllowed w) (w_trace w) (w_events w) (w_declaredFailed w) (S (w_loads w)).

Definition read_load : eff world nat := fun w => (Ok (w_loads w), next_load w).

(** [w'] comes after [w]: events are appended to and loads counted on. *)
Record later (w w' : world) : Prop := {
  la_events : w_events w `prefix_of` w_events w';
  la_loads : (w_loads w <= w_loads w')%nat
}.

#[export] Instance later_refl : Reflexive later.
Proof. by split. Qed.
#[export] Instance later_trans : Transitive later.
Proof. intros w1 w2 w3 [] []. split; [by etrans|lia]. Qed.

Lemma emit_later ev w : later w (emit ev w).2.
Proof. split; simpl; [by eexists|lia]. Qed.

Lemma next_load_later w : later w (next_load w).
Proof. split; simpl; [done|lia]. Qed.

(** [now := p.now()]: the clock, read without an effect on the world. *)
Definition read_clock `{Net} : eff world time := fun w => (Ok (wall_clock (length (w_trace w))), w).

(** ** Allow-list *)

Definition Allow (host : string) : eff world unit :=
  eff_modify (fun w =>
    if str_eqb host "" then w
    else mkWorld ({[ ToLower host ]} ∪ w_allowed w) (w_httpAllowed w) (w_trace w) (w_events w) (w_declaredFailed w) (w_loads w)).

(** [NewFetcher]: the allow-list starts with the given hosts. *)
Definition NewFetcher (initialHosts : list string) (w : world) : world :=
  foldl (fun w h => (Allow h w).2) (mkWorld ∅ ∅ (w_trace w) (w_events w) (w_declaredFailed w) (w_loads w)) initialHosts.

Definition schemeOK (httpAllowed : gset string) (u : URL) : bool :=
  if str_eqb (u_Scheme u) "https" then true
  else if negb (str_eqb (u_Scheme u) "http") then false
  else bool_decide (ToLower (u_Hostname u) ∈ httpAllowed).

(** An error of the standard library: it wraps none of the sentinels. *)
Definition plain (e : error) : error := errors_New (err_Error e).

Definition invalid_url (raw : string) (e : error) : error :=
  errorf ("ingest: invalid URL " +:+ Quote raw +:+ ": " +:+ err_Error e) [plain e].

Definition egress_blocked (what : string) : error :=
  mkError ("ingest: egress blocked: " +:+ what) [ErrEgressBlocked].

Section Fetcher.
Context {N : Net}.

Definition AllowHTTPFor (raw : string) : eff world unit :=
  let* u := eff_of_result (map_err (invalid_url raw) (url_Parse raw)) in
  if str_eqb (u_Hostname u) "" then eff_throw (errors_New ("ingest: URL " +:+ Quote raw +:+ " has no host"))
  else eff_modify (fun w => mkWorld (w_allowed w) ({[ ToLower (u_Hostname u) ]} ∪ w_httpAllowed w)
                              (w_trace w) (w_events w) (w_declaredFailed w) (w_loads w)).

Definition AllowURL (raw : string) : eff world unit :=
  let* u := eff_of_result (map_err (invalid_url raw) (url_Parse raw)) in
  fun w =>
    if negb (schemeOK (w_httpAllowed w) u)
    then (Err (egress_blocked (Quote raw +:+ " is not https")), w)
    else Allow (u_Hostname u) w.

(** ** The HTTP client *)

Definition send (url : string) (redirect : bool) : eff world HttpReply := fun w =>
  (Ok (http_RoundTrip (length (w_trace w)) url),
   mkWorld (w_allowed w) (w_httpAllowed w) (w_trace w ++ [mkRequest url redirect]) (w_events w) (w_declaredFailed w) (w_loads w)).

Definition is_redirect (status : Z) : bool := bool_decide (status ∈ [301; 302; 303; 307; 308]).

(** [http.Client.Do] of a GET without a [CheckRedirect] of its own: redirects
    are followed wherever they point, ten requests at most. *)
Fixpoint client_Do (fuel : nat) (redirect : bool) (url : string) : eff world (Z * bytes * option error) :=
  match fuel with
  | O => eff_throw (errors_New ("Get " +:+ Quote url +:+ ": stopped after 10 redirects"))
  | S fuel' =>
      let* reply := send url redirect in
      match reply with
      | HttpFailure e => eff_throw (plain e)
      | HttpResponse status location body broken =>
          if is_redirect status && negb (str_eqb location "") then
            let* url' := eff_of_result (map_err plain (url_Resolve url location)) in
            client_Do fuel' true url'
          else eff_ret (status, body, broken)
      end
  end.

(** [int64] arithmetic wraps. *)
Definition int64 (z : Z) : Z := (z + 2 ^ 63) mod 2 ^ 64 - 2 ^ 63.

(** [io.ReadAll(io.LimitReader(body, n))]: reading stops at [n] bytes, so a
    failure of the stream past them is not seen. *)
Definition read_limited (n : Z) (body : bytes) (broken : option error) : result bytes :=
  if bool_decide (Z.to_nat n <= String.length body)%nat
  then Ok (String.substring 0 (Z.to_nat n) body)
  else match broken with Some e => Err (plain e) | None => Ok body end.

Definition Fetch (maxSize : Z) (rawURL : string) : eff world bytes :=
  let* u := eff_of_result (map_err (invalid_url rawURL) (url_Parse rawURL)) in
  let* ok := (fun w => (if negb (schemeOK (w_httpAllowed w) u)
                        then Err (egress_blocked (Quote rawURL +:+ " is not https"))
                        else if negb (bool_decide (ToLower (u_Hostname u) ∈ w_allowed w))
                        then Err (egress_blocked ("host " +:+ Quote (u_Hostname u) +:+ " not in allow-list"))
                        else Ok tt, w)) in
  let* (status, body, broken) :=
    eff_wrap (fun e => errorf ("ingest: fetch " +:+ rawURL +:+ ": " +:+ err_Error e) [e])
      (client_Do 10 false rawURL) in
  if negb (status =? 200) then
    eff_throw (errors_New ("ingest: fetch " +:+ rawURL +:+ ": unexpected status " +:+ itoa status))
  else
    let* b := eff_of_result (map_err (fun e => errorf ("ingest: read " +:+ rawURL +:+ ": " +:+ err_Error e) [e])
                               (read_limited (int64 (maxSize + 1)) body broken)) in
    if maxSize <? Z.of_nat (String.length b) then
      eff_throw (errors_New ("ingest: " +:+ rawURL +:+ " exceeds size cap of " +:+ itoa maxSize +:+ " bytes"))
    else eff_ret b.

(** [strings.LastIndex] of a one-byte string, -1 when absent. *)
Fixpoint last_index_from (i : Z) (c : Ascii.ascii) (s : string) (found : Z) : Z :=
  match s with
  | EmptyString => found
  | String d s' => last_index_from (i + 1) c s' (if bool_decide (d = c) then i else found)
  end.
Definition LastIndex (s : string) (c : Ascii.ascii) : Z := last_index_from 0 c s (-1).

Definition digestURL (listURL : string) : string :=
  let i := LastIndex listURL (Ascii.ascii_of_nat 46) in
  if LastIndex listURL (Ascii.ascii_of_nat 47) <? i
  then String.substring 0 (Z.to_nat i) listURL +:+ ".sha2"
  else listURL +:+ ".sha2".

Definition FetchDigest (maxSize : Z) (listURL : string) : eff world string :=
  let* body := Fetch maxSize (digestURL listURL) in
  eff_ret (ToLower (TrimSpace body)).

(** * Lemmas *)

(** ** Egress

    The rule the fetcher enforces on the requests it starts: a parseable URL
    whose scheme is https, or http on a host opted in, and whose host is on the
    allow-list.  The sets only grow, so it can be read on the final ones. *)

Definition permitted (allowed httpAllowed : gset string) (url : string) : Prop :=
  exists u, url_Parse url = Ok u /\ schemeOK httpAllowed u = true /\ ToLower (u_Hostname u) ∈ allowed.

Definition egress_ok (w : world) : Prop :=
  forall r, r ∈ w_trace w -> rq_redirect r = false -> permitted (w_allowed w) (w_httpAllowed w) (rq_URL r).

Lemma schemeOK_mono (h h' : gset string) u : h ⊆ h' -> schemeOK h u = true -> schemeOK h' u = true.
Proof.
  unfold schemeOK. intros Hs. destruct (str_eqb _ "https"); [done|]. destruct (negb _); [done|].
  rewrite !bool_decide_eq_true. set_solver.
Qed.

Lemma permitted_mono (a a' h h' : gset string) url :
  a ⊆ a' -> h ⊆ h' -> permitted a h url -> permitted a' h' url.
Proof.
  intros Ha Hh (u & Hu & Hs & Hin). exists u. split_and!; [done|by eapply schemeOK_mono|set_solver].
Qed.

(** A step that leaves the trace alone and only adds hosts. *)
Lemma egress_grow w w' :
  w_trace w' = w_trace w -> w_allowed w ⊆ w_allowed w' -> w_httpAllowed w ⊆ w_httpAllowed w' ->
  egress_ok w -> egress_ok w'.
Proof.
  intros Ht Ha Hh Hw r Hr Hrd. rewrite Ht in Hr. eapply permitted_mono; [exact Ha|exact Hh|]. auto.
Qed.

Lemma emit_egress ev : eff_inv egress_ok (emit ev).
Proof. intros w. by apply egress_grow. Qed.

Lemma load_egress : eff_inv egress_ok read_load.
Proof. by intros w. Qed.

Lemma gauge_egress key b : eff_inv egress_ok (setDeclaredSourceFailed key b).
Proof. intros w. by apply egress_grow. Qed.

Lemma clock_egress : eff_inv egress_ok read_clock.
Proof. by intros w. Qed.

Lemma Allow_egress host : eff_inv egress_ok (Allow host).
Proof.
  intros w. simpl. destruct (str_eqb host ""); [done|]. apply egress_grow; simpl; [done|set_solver|done].
Qed.

Lemma AllowHTTPFor_egress raw : eff_inv egress_ok (AllowHTTPFor raw).
Proof.
  apply eff_inv_bind; [apply eff_inv_of_result|]. intros u. destruct (str_eqb _ _); [apply eff_inv_throw|].
  intros w. apply egress_grow; simpl; [done|done|set_solver].
Qed.

Lemma AllowURL_egress raw : eff_inv egress_ok (AllowURL raw).
Proof.
  apply eff_inv_bind; [apply eff_inv_of_result|]. intros u w Hw.
  destruct (negb _); [done|]. by apply Allow_egress.
Qed.

(** A redirected request is never counted against the rule. *)
Lemma send_redirect_egress url : eff_inv egress_ok (send url true).
Proof.
  intros w Hw r Hr Hrd. simpl in *. apply elem_of_app in Hr as [Hr| ->%list_elem_of_singleton]; [by apply Hw|done].
Qed.

Lemma client_Do_egress fuel url : eff_inv egress_ok (client_Do fuel true url).
Proof.
  revert url. induction fuel as [|fuel IH]; intros url; simpl; [apply eff_inv_throw|].
  apply eff_inv_bind; [apply send_redirect_egress|]. intros [e|status loc body broken]; [apply eff_inv_throw|].
  destruct (_ && _); [|apply eff_inv_ret]. apply eff_inv_bind; [apply eff_inv_of_result|done].
Qed.

(** The first request of a fetch meets the rule when its URL is permitted. *)
Lemma client_Do_first_egress fuel url w :
  permitted (w_allowed w) (w_httpAllowed w) url -> egress_ok w -> egress_ok (client_Do fuel false url w).2.
Proof.
  intros Hp Hw. destruct fuel as [|fuel]; [done|]. simpl. unfold eff_bind, send.
  match goal with |- context [mkWorld ?a ?h ?t ?e ?d ?n] => set (w1 := mkWorld a h t e d n) end.
  assert (Hw1 : egress_ok w1).
  { intros r Hr Hrd. simpl in *. apply elem_of_app in Hr as [Hr| ->%list_elem_of_singleton]; [by apply Hw|done]. }
  destruct (http_RoundTrip _ _); [exact Hw1|]. destruct (_ && _); [|exact Hw1].
  unfold eff_of_result. destruct (map_err _ _); [|exact Hw1]. by apply client_Do_egress.
Qed.

Lemma Fetch_egress maxSize url : eff_inv egress_ok (Fetch maxSize url).
Proof.
  intros w Hw. unfold Fetch. generalize 10%nat as fuel. intros fuel.
  unfold eff_bind, eff_of_result. destruct (url_Parse url) as [u|e] eqn:Hu; [|exact Hw]. simpl.
  destruct (schemeOK _ u) eqn:Hs; [|exact Hw]. case_bool_decide as Hin; [|exact Hw]. simpl.
  pose proof (client_Do_first_egress fuel url w) as Hc. unfold eff_wrap.
  destruct (client_Do fuel false url w) as [r w']. simpl in Hc.
  assert (Hw' : egress_ok w') by (apply Hc; [by exists u|done]).
  destruct r as [[[status body] broken]|]; simpl; [|exact Hw']. destruct (negb _); [exact Hw'|].
  destruct (map_err _ _); [|exact Hw']. destruct (_ <? _); exact Hw'.
Qed.

Lemma FetchDigest_egress maxSize url : eff_inv egress_ok (FetchDigest maxSize url).
Proof. apply eff_inv_bind; [apply Fetch_egress|]. intros; apply eff_inv_ret. Qed.

(** ** What a fetch returns *)

(** A computation whose errors never carry the unchanged mark. *)
Definition never_unchanged {A} (c : eff world A) : Prop :=
  forall w e w', c w = (Err e, w') -> errors_Is e ErrUnchanged = false.

Lemma errorf_Is msg e s : errors_Is (errorf msg [e]) s = errors_Is e s.
Proof. unfold errors_Is, errorf. simpl. by rewrite app_nil_r. Qed.

Lemma never_unchanged_bind {A B} (c : eff world A) (k : A -> eff world B) :
  never_unchanged c -> (forall a, never_unchanged (k a)) -> never_unchanged (eff_bind c k).
Proof.
  intros Hc Hk w e w'. unfold eff_bind. destruct (c w) as [[a|e'] w1] eqn:E; [apply Hk|].
  intros [= -> ->]. by eapply Hc.
Qed.

Lemma never_unchanged_result {A} (r : result A) :
  (forall e, r = Err e -> errors_Is e ErrUnchanged = false) -> never_unchanged (eff_of_result r).
Proof. intros Hr w e w' [= ? _]. by apply Hr. Qed.

Lemma client_Do_never_unchanged fuel rd url : never_unchanged (client_Do fuel rd url).
Proof.
  revert rd url. induction fuel as [|fuel IH]; intros rd url; simpl; [by intros w e w' [= <- _]|].
  apply never_unchanged_bind; [done|]. intros [e|status loc body broken]; [by intros w e' w' [= <- _]|].
  destruct (_ && _); [|done]. apply never_unchanged_bind; [|done]. apply never_unchanged_result.
  intros e. destruct (url_Resolve _ _); simpl; [done|]. by intros [= <-].
Qed.

Lemma Fetch_never_unchanged maxSize url : never_unchanged (Fetch maxSize url).
Proof.
  unfold Fetch. generalize 10%nat as fuel. intros fuel.
  apply never_unchanged_bind; [apply never_unchanged_result; intros e; destruct (url_Parse url); simpl; [done|];
    by intros [= <-]|]. intros u.
  apply never_unchanged_bind; [intros w e w'; repeat case_match; intros [= <- _]; done|]. intros [].
  apply never_unchanged_bind.
  { intros w e w'. unfold eff_wrap. destruct (client_Do fuel false url w) as [[a|e'] w1] eqn:E; [done|].
    simpl. intros [= <- _]. rewrite errorf_Is. by eapply client_Do_never_unchanged. }
  intros [[status body] broken]. destruct (negb _); [by intros w e w' [= <- _]|].
  apply never_unchanged_bind.
  { apply never_unchanged_result. intros e. unfold read_limited. case_bool_decide; simpl; [done|].
    destruct broken; simpl; [|done]. by intros [= <-]. }
  intros b. destruct (_ <? _); [by intros w e w' [= <- _]|done].
Qed.

Lemma AllowURL_never_unchanged raw : never_unchanged (AllowURL raw).
Proof.
  apply never_unchanged_bind; [apply never_unchanged_result; intros e; destruct (url_Parse raw); simpl; [done|];
    by intros [= <-]|]. intros u w e w'. destruct (negb _); [by intros [= <- _]|done].
Qed.

Lemma AllowHTTPFor_never_unchanged raw : never_unchanged (AllowHTTPFor raw).
Proof.
  apply never_unchanged_bind; [apply never_unchanged_result; intros e; destruct (url_Parse raw); simpl; [done|];
    by intros [= <-]|]. intros u w e w'. destruct (str_eqb _ _); [by intros [= <- _]|done].
Qed.

Lemma client_Do_Ok fuel rd url w status body broken w' :
  client_Do fuel rd url w = (Ok (status, body, broken), w') ->
  exists n url' loc, http_RoundTrip n url' = HttpResponse status loc body broken /\
    rq_URL <$> last (w_trace w') = Some url' /\ n = pred (length (w_trace w')).
Proof.
  revert rd url w. induction fuel as [|fuel IH]; intros rd url w; simpl; [done|].
  intros (reply & w1 & Hs & Hk)%eff_bind_Ok. unfold send in Hs. injection Hs as <- <-.
  destruct (http_RoundTrip _ _) as [e|st loc bd br] eqn:Hr; [done|].
  destruct (is_redirect st && _).
  - apply eff_bind_Ok in Hk as (url' & w2 & Hu & Hk). unfold eff_of_result in Hu. injection Hu as _ <-. by eapply IH.
  - injection Hk as -> -> -> <-. exists (length (w_trace w)), url, loc. split; [done|]. simpl.
    rewrite last_snoc, length_app. simpl. split; [done|]. lia.
Qed.

Lemma substring_full n s : (String.length s <= n)%nat -> String.substring 0 n s = s.
Proof.
  revert n. induction s as [|c s IH]; intros [|n]; simpl; try done; [lia|]. intros. f_equal. apply IH. lia.
Qed.

Lemma substring_length n s : (n <= String.length s)%nat -> String.length (String.substring 0 n s) = n.
Proof.
  revert n. induction s as [|c s IH]; intros [|n]; simpl; try done; [lia|]. intros. f_equal. apply IH. lia.
Qed.

(** C26 A fetch never returns a truncated or over-sized document: what it returns
    is the complete body of a status-200 response, no longer than the size cap
    (for any cap below the [int64] maximum), and that response answered the last
    request sent. *)
Theorem fetch_complete_body maxSize url w b w' :
  0 <= maxSize < 2 ^ 63 - 1 -> Fetch maxSize url w = (Ok b, w') ->
  Z.of_nat (String.length b) <= maxSize /\
  exists url' loc, http_RoundTrip (pred (length (w_trace w'))) url' = HttpResponse 200 loc b None /\
    rq_URL <$> last (w_trace w') = Some url'.
Proof.
  intros Hm. unfold Fetch. generalize 10%nat as fuel. intros fuel.
  intros (u & w1 & Hu & H)%eff_bind_Ok. apply eff_bind_Ok in H as ([] & w2 & _ & H).
  apply eff_bind_Ok in H as ([[status body] broken] & w3 & Hc & H).
  apply eff_wrap_Ok, client_Do_Ok in Hc as (n & url' & loc & Hr & Hl & ->).
  destruct (Z.eqb_spec status 200) as [->|]; simpl in H; [|done].
  apply eff_bind_Ok in H as (b' & w4 & Hb & H). unfold eff_of_result in Hb. injection Hb as Hb <-.
  destruct (Z.ltb_spec maxSize (Z.of_nat (String.length b'))); [done|]. injection H as <- <-.
  split; [lia|]. exists url', loc. split; [|done]. rewrite Hr. f_equal.
  all: unfold read_limited, int64 in Hb; rewrite Z.mod_small in Hb by lia;
    replace (maxSize + 1 + 2 ^ 63 - 2 ^ 63) with (maxSize + 1) in Hb by lia;
    case_bool_decide as Hlen; simpl in Hb.
  1,3: injection Hb as <-; rewrite substring_length in * by done; lia.
  all: destruct broken; simpl in Hb; by simplify_eq.
Qed.
End Fetcher.

(** ** On a sample network *)

(** Every URL is https://name or http://name; the first request is redirected,
    the rest answered. *)
Definition toy_url (raw : string) : result URL :=
  if HasPrefix raw "https://" then Ok (mkURL "https" (String.substring 8 (String.length raw) raw))
  else if HasPrefix raw "http://" then Ok (mkURL "http" (String.substring 7 (String.length raw) raw))
  else Err (errors_New "parse error").

Definition redirecting_Net : Net := {|
  url_Parse := toy_url;
  url_Resolve := fun _ loc => Ok loc;
  http_RoundTrip := fun n _ => match n with
    | O => HttpResponse 302 "http://elsewhere" "" None
    | _ => HttpResponse 200 "" "list" None end;
  wall_clock := fun _ => 100 |}.

Definition sample_world : world := NewFetcher ["lotl.example"] (mkWorld ∅ ∅ [] [] ∅ 0).

(** The allow-list does not bind redirects: a fetch of an allowed https URL
    whose server answers with a redirect sends the next request to a plain-http
    host that is not on the allow-list, and returns its body. *)
Theorem redirect_escapes_allow_list :
  let '(r, w) := @Fetch redirecting_Net 1000 "https://lotl.example" sample_world in
  r = Ok "list" /\ w_trace w = [mkRequest "https://lotl.example" false; mkRequest "http://elsewhere" true] /\
  ~ @permitted redirecting_Net (w_allowed w) (w_httpAllowed w) "http://elsewhere".
Proof.
  destruct (@Fetch redirecting_Net 1000 "https://lotl.example" sample_world) as [r w] eqn:E.
  vm_compute in E. injection E as <- <-. split_and!; [done|done|].
  intros (u & Hu & Hs & _). vm_compute in Hu. injection Hu as <-. vm_compute in Hs. done.
Qed.

Lemma fetch_complete_body_witness :
  let '(r, w') := @Fetch redirecting_Net 1000 "https://lotl.example" sample_world in
  exists url' loc, @http_RoundTrip redirecting_Net (pred (length (w_trace w'))) url' = HttpResponse 200 loc "list" None.
Proof.
  destruct (@Fetch redirecting_Net 1000 "https://lotl.example" sample_world) as [r w'] eqn:E.
  assert (Hr : r = Ok "list") by (vm_compute in E; injection E as <- _; reflexivity). subst r.
  destruct (@fetch_complete_body redirecting_Net 1000 "https://lotl.example" sample_world "list" w'
    ltac:(lia) E) as (_ & url' & loc & H & _). exists url', loc. exact H.
Defined.

#[export] Hint Resolve emit_egress load_egress gauge_egress clock_egress AllowHTTPFor_egress AllowURL_egress
  Fetch_egress FetchDigest_egress : go.
