(* ===== verification/Events.v ===== *)
(** * Security events

    [src/events/events.go] and the denial of [requireScope] in
    [src/routes/router.go]: how each event of the service becomes the envelope
    that is handed to the security-event library - its type, severity, outcome
    and attributes - and the emitter itself.  The rest of the library records
    what is emitted as [Event] values; here they are rendered. *)

From S2P Require Import Prelude GoTime Model Fetcher.

(** ** The library's vocabulary *)

Inductive Severity := SeverityInfo | SeverityWarning | SeverityHigh.
Inductive Outcome := OutcomeSuccess | OutcomeFailure | OutcomeDenied.

#[global] Instance Severity_eq_dec : EqDecision Severity.
Proof. solve_decision. Defined.
#[global] Instance Outcome_eq_dec : EqDecision Outcome.
Proof. solve_decision. Defined.

(** The name of the severity attribute, the text of a severity, and whether
    delivering an envelope succeeds, are the library's. *)
Class SecEvents := {
  AttrSeverity : string;
  severity_text : Severity -> string
}.

Class SecEventsLaws `{SecEvents} : Prop := {
  severity_text_inj : forall s t, severity_text s = severity_text t -> s = t;
  (** the attribute is the library's own: none of the service's *)
  AttrSeverity_reserved : AttrSeverity ∉
    ["kind"; "territory"; "fingerprint"; "tsp_name"; "service_name"; "status"; "anchor_type"; "detail"; "pending"; "stage";
     "reason"; "error"; "next_update"; "target"; "policy"; "actor_id"; "how"; "required_scope"; "path"]
}.

Inductive Attr := AStr (s : string) | ABool (b : bool).

#[global] Instance Attr_eq_dec : EqDecision Attr.
Proof. solve_decision. Defined.

Record Envelope := mkEnv {
  ev_Type : string;
  ev_Categories : list string;
  ev_Outcome : Outcome;
  ev_Attributes : gmap string Attr
}.

Definition CategorySecurity : string := "security".

(** ** Event types *)

Definition EventAnchorChange : string := "trust.anchor_change".
Definition EventPendingApproved : string := "trust.pending_approved".
Definition EventRefreshFailure : string := "trust.refresh_failure".
Definition EventStale : string := "trust.stale".
Definition EventEgressViolation : string := "egress.violation".
Definition EventInternalSourceError : string := "trust.internal_source_error".
Definition EventAuthzDenied : string := "authz.denied".

Section Rendering.
Context `{SecEvents}.

(** [Emitter.Emit]: a nil emitter does nothing; [None] is no envelope.  A nil
    attribute map is an empty one. *)
Definition Emit (present : bool) (eventType : string) (sev : Severity) (outcome : Outcome) (attrs : option (gmap string Attr)) :
    option Envelope :=
  if negb present then None
  else Some (mkEnv eventType [CategorySecurity] outcome
               (<[ AttrSeverity := AStr (severity_text sev) ]> (default ∅ attrs))).

(** The attributes of [AnchorChange]; the last three are set only when they say
    something. *)
Definition change_attrs (kind territory fingerprint anchorType tspName serviceName status detail : string) (pending : bool) :
    gmap string Attr :=
  let attrs : gmap string Attr :=
    {[ "kind" := AStr kind; "territory" := AStr territory; "fingerprint" := AStr fingerprint; "tsp_name" := AStr tspName;
       "service_name" := AStr serviceName; "status" := AStr status ]} in
  let attrs := if negb (str_eqb anchorType "") then <[ "anchor_type" := AStr anchorType ]> attrs else attrs in
  let attrs := if negb (str_eqb detail "") then <[ "detail" := AStr detail ]> attrs else attrs in
  if pending then <[ "pending" := ABool true ]> attrs else attrs.

Definition AnchorChange (kind territory fingerprint anchorType tspName serviceName status detail : string) (pending : bool) :
    option Envelope :=
  let sev := if str_eqb kind "added" || str_eqb kind "removed" then SeverityWarning else SeverityInfo in
  Emit true EventAnchorChange sev OutcomeSuccess
    (Some (change_attrs kind territory fingerprint anchorType tspName serviceName status detail pending)).

Definition RefreshFailure (stage reason : string) : option Envelope :=
  Emit true EventRefreshFailure SeverityWarning OutcomeFailure (Some {[ "stage" := AStr stage; "reason" := AStr reason ]}).

Definition InternalSourceError (err : string) : option Envelope :=
  Emit true EventInternalSourceError SeverityWarning OutcomeFailure (Some {[ "error" := AStr err ]}).

Definition Stale (territory : string) (nextUpdate : time) : option Envelope :=
  Emit true EventStale SeverityWarning OutcomeSuccess
    (Some {[ "territory" := AStr territory; "next_update" := AStr (Format_RFC3339 nextUpdate) ]}).

Definition EgressBlocked (target reason : string) : option Envelope :=
  Emit true EventEgressViolation SeverityHigh OutcomeDenied
    (Some {[ "target" := AStr target; "policy" := AStr "trusted-list-allowlist"; "reason" := AStr reason ]}).

Definition PendingApproved (fingerprint actor how : string) : option Envelope :=
  Emit true EventPendingApproved SeverityWarning OutcomeSuccess
    (Some {[ "fingerprint" := AStr fingerprint; "actor_id" := AStr actor; "how" := AStr how ]}).

(** The event of [requireScope]. *)
Definition AuthzDenied (requiredScope actor path : string) : option Envelope :=
  Emit true EventAuthzDenied SeverityWarning OutcomeDenied
    (Some {[ "required_scope" := AStr requiredScope; "actor_id" := AStr actor; "path" := AStr path ]}).

(** The envelope of each event the other components record. *)
Definition render (e : Event) : option Envelope :=
  match e with
  | EvEgressBlocked target reason => EgressBlocked target reason
  | EvRefreshFailure stage reason => RefreshFailure stage reason
  | EvStale territory nextUpdate => Stale territory nextUpdate
  | EvInternalSourceError detail => InternalSourceError detail
  | EvPendingApproved fingerprint actor how => PendingApproved fingerprint actor how
  | EvAnchorChange kind territory fingerprint ty tspName serviceName status detail pending =>
      AnchorChange kind territory fingerprint ty tspName serviceName status detail pending
  | EvAuthzDenied requiredScope actor path => AuthzDenied requiredScope actor path
  end.
End Rendering.

(** * Properties *)

(** The operator's manual (the table of security events in [src/README.md]): the
    types and the severities each may have. *)
Definition manual : list (string * list Severity) :=
  [("trust.anchor_change", [SeverityWarning; SeverityInfo]); ("trust.pending_approved", [SeverityWarning]);
   ("trust.refresh_failure", [SeverityWarning]); ("trust.stale", [SeverityWarning]);
   ("trust.internal_source_error", [SeverityWarning]); ("egress.violation", [SeverityHigh]);
   ("authz.denied", [SeverityWarning])].

(** The type the manual gives each event. *)
Definition manual_type (e : Event) : string :=
  match e with
  | EvAnchorChange _ _ _ _ _ _ _ _ _ => "trust.anchor_change"
  | EvPendingApproved _ _ _ => "trust.pending_approved"
  | EvRefreshFailure _ _ => "trust.refresh_failure"
  | EvStale _ _ => "trust.stale"
  | EvInternalSourceError _ => "trust.internal_source_error"
  | EvEgressBlocked _ _ => "egress.violation"
  | EvAuthzDenied _ _ _ => "authz.denied"
  end.

(** The change of an anchor that stays: neither an addition nor a removal. *)
Definition metadata_change (e : Event) : Prop :=
  exists kind territory fingerprint ty tspName serviceName status detail pending,
    e = EvAnchorChange kind territory fingerprint ty tspName serviceName status detail pending /\
    kind <> "added" /\ kind <> "removed".

(** Events that say the same: the time of a staleness warning is given to the
    second. *)
Definition says_same (e1 e2 : Event) : Prop :=
  match e1, e2 with
  | EvStale t1 n1, EvStale t2 n2 => t1 = t2 /\ Format_RFC3339 n1 = Format_RFC3339 n2
  | _, _ => e1 = e2
  end.

Section Properties.
Context `{SE : SecEvents} {SL : SecEventsLaws}.

Lemma emitted_attr ty sev out (attrs : gmap string Attr) env key :
  key <> AttrSeverity -> Emit true ty sev out (Some attrs) = Some env -> ev_Attributes env !! key = attrs !! key.
Proof. intros Hk [= <-]. simpl. by rewrite lookup_insert_ne. Qed.

(** Two envelopes with the same attributes agree on every attribute of the
    service. *)
Lemma same_attr ty1 ty2 s1 s2 o1 o2 (a1 a2 : gmap string Attr) key :
  key <> AttrSeverity -> Emit true ty1 s1 o1 (Some a1) = Emit true ty2 s2 o2 (Some a2) -> a1 !! key = a2 !! key.
Proof.
  intros Hk H. destruct (Emit true ty1 s1 o1 (Some a1)) as [env|] eqn:E; [|done].
  rewrite <-(emitted_attr _ _ _ _ _ _ Hk E). symmetry in H. by rewrite (emitted_attr _ _ _ _ _ _ Hk H).
Qed.

Lemma change_attrs_lookup k t f y p n s d b :
  let m := change_attrs k t f y p n s d b in
  m !! "kind" = Some (AStr k) /\ m !! "territory" = Some (AStr t) /\ m !! "fingerprint" = Some (AStr f) /\
  m !! "tsp_name" = Some (AStr p) /\ m !! "service_name" = Some (AStr n) /\ m !! "status" = Some (AStr s) /\
  m !! "anchor_type" = (if str_eqb y "" then None else Some (AStr y)) /\
  m !! "detail" = (if str_eqb d "" then None else Some (AStr d)) /\
  m !! "pending" = (if b then Some (ABool true) else None).
Proof.
  unfold change_attrs. destruct (str_eqb y ""), (str_eqb d ""), b; cbn [negb]; split_and!; reflexivity.
Qed.

Lemma optional_inj (v1 v2 : string) :
  (if str_eqb v1 "" then None else Some (AStr v1)) = (if str_eqb v2 "" then None else Some (AStr v2)) -> v1 = v2.
Proof.
  destruct (str_eqb v1 "") eqn:E1, (str_eqb v2 "") eqn:E2; intros H; simplify_eq; [|done].
  apply str_eqb_eq in E1, E2. congruence.
Qed.

Ltac key_ne :=
  let E := fresh in intros E; apply AttrSeverity_reserved; rewrite <-E;
  by repeat (first [apply list_elem_of_here|apply list_elem_of_further]).

(** [attr key H] reads one attribute off an equation of envelopes. *)
Ltac attr key H :=
  let E := fresh "E" in pose proof (same_attr _ _ _ _ _ _ _ _ key ltac:(key_ne) H) as E.

Lemma anchor_change_inj k1 t1 f1 y1 p1 n1 s1 d1 b1 k2 t2 f2 y2 p2 n2 s2 d2 b2 :
  AnchorChange k1 t1 f1 y1 p1 n1 s1 d1 b1 = AnchorChange k2 t2 f2 y2 p2 n2 s2 d2 b2 ->
  EvAnchorChange k1 t1 f1 y1 p1 n1 s1 d1 b1 = EvAnchorChange k2 t2 f2 y2 p2 n2 s2 d2 b2.
Proof using SL.
  intros H. unfold AnchorChange in H. attr "kind" H. attr "territory" H. attr "fingerprint" H. attr "tsp_name" H.
  attr "service_name" H. attr "status" H. attr "anchor_type" H. attr "detail" H. attr "pending" H. clear H.
  pose proof (change_attrs_lookup k1 t1 f1 y1 p1 n1 s1 d1 b1) as (L1&L2&L3&L4&L5&L6&L7&L8&L9).
  pose proof (change_attrs_lookup k2 t2 f2 y2 p2 n2 s2 d2 b2) as (R1&R2&R3&R4&R5&R6&R7&R8&R9).
  rewrite L1, R1 in *. rewrite L2, R2 in *. rewrite L3, R3 in *. rewrite L4, R4 in *. rewrite L5, R5 in *.
  rewrite L6, R6 in *. rewrite L7, R7 in *. rewrite L8, R8 in *. rewrite L9, R9 in *.
  apply optional_inj in E5, E6.
  destruct b1, b2; simplify_eq; done.
Qed.

(** The severity an envelope shows. *)
Definition shows (env : Envelope) (sev : Severity) : Prop :=
  ev_Attributes env !! AttrSeverity = Some (AStr (severity_text sev)).

Lemma shows_unique env s1 s2 : shows env s1 -> shows env s2 -> s1 = s2.
Proof using SL. unfold shows. intros -> [= E]. by apply severity_text_inj. Qed.

(** Every envelope shows one severity, the manual's for its type. *)
Lemma rendered_severity e env :
  render e = Some env ->
  exists sev sevs, shows env sev /\ (ev_Type env, sevs) ∈ manual /\ sev ∈ sevs /\
    (sev = SeverityHigh <-> ev_Type env = "egress.violation") /\ (sev = SeverityInfo <-> metadata_change e).
Proof.
  intros H. destruct e as [| | | | |kind t f y p n st d b|]; simpl in H; injection H as <-;
    lazymatch goal with
    | |- context [if ?c then _ else _] => idtac
    | _ => eexists ?[s], [?s]; split_and!; [apply lookup_insert_eq|unfold manual; by_decide|apply list_elem_of_here|
        done|split; [done|intros (? & ? & ? & ? & ? & ? & ? & ? & ? & ? & _); done]]
    end.
  eexists _, [SeverityWarning; SeverityInfo]. split_and!; [apply lookup_insert_eq|apply list_elem_of_here| | |].
  - destruct (_ || _); set_solver.
  - simpl. split; [by destruct (_ || _)|done].
  - destruct (str_eqb kind "added" || str_eqb kind "removed") eqn:E.
    + apply orb_true_iff in E. rewrite !str_eqb_eq in E. split; [done|].
      intros (? & ? & ? & ? & ? & ? & ? & ? & ? & [= <- _ _ _ _ _ _ _ _] & ? & ?). tauto.
    + apply orb_false_iff in E. rewrite !str_eqb_neq in E. split; [|done]. intros _. unfold metadata_change. naive_solver.
Qed.

(** C39 The security stream says what happened and tells events apart: the
    envelope of an event has the type and a severity the operator's manual gives
    it - high exactly for a blocked fetch, information exactly for the change of an
    anchor that is neither added nor removed; its outcome is a denial exactly for a
    blocked fetch and a refused request, a failure exactly for a failed refresh or a
    declared file that does not load; and two events with the same envelope say the
    same - no attribute is dropped, an optional one is absent exactly when it is
    empty, and the severity attribute hides none of them. *)
Theorem events_told_apart e1 e2 env :
  render e1 = Some env ->
  ev_Type env = manual_type e1 /\ ev_Categories env = [CategorySecurity] /\
  (exists sev sevs, shows env sev /\ (ev_Type env, sevs) ∈ manual /\ sev ∈ sevs) /\
  (shows env SeverityHigh <-> ev_Type env = "egress.violation") /\
  (shows env SeverityInfo <-> metadata_change e1) /\
  (ev_Outcome env = OutcomeDenied <-> ev_Type env ∈ ["egress.violation"; "authz.denied"]) /\
  (ev_Outcome env = OutcomeFailure <-> ev_Type env ∈ ["trust.refresh_failure"; "trust.internal_source_error"]) /\
  (render e2 = Some env -> says_same e1 e2).
Proof using SL.
  intros H1. destruct (rendered_severity e1 env H1) as (sev & sevs & Hs & Hm & Hin & Hh & Hi). split_and!.
  - by destruct e1; simpl in H1; injection H1 as <-.
  - by destruct e1; simpl in H1; injection H1 as <-.
  - eauto.
  - rewrite <-Hh. split; [intros Hs'; by eapply shows_unique|by intros <-].
  - rewrite <-Hi. split; [intros Hs'; by eapply shows_unique|by intros <-].
  - destruct e1; simpl in H1; injection H1 as <-; by_decide.
  - destruct e1; simpl in H1; injection H1 as <-; by_decide.
  - intros H2. rewrite <-H1 in H2. clear H1.
    destruct e1, e2; try (by injection H2); cbn [render] in H2; cbn [says_same].
    + attr "target" H2. attr "reason" H2. by simplify_map_eq.
    + attr "stage" H2. attr "reason" H2. by simplify_map_eq.
    + unfold Stale in H2. revert H2. generalize (Format_RFC3339 nextUpdate) (Format_RFC3339 nextUpdate0). intros x y H2.
      attr "territory" H2. attr "next_update" H2. by simplify_map_eq.
    + attr "error" H2. by simplify_map_eq.
    + attr "fingerprint" H2. attr "actor_id" H2. attr "how" H2. by simplify_map_eq.
    + symmetry. by apply anchor_change_inj.
    + attr "required_scope" H2. attr "actor_id" H2. attr "path" H2. by simplify_map_eq.
Qed.
End Properties.

(** ** On samples *)

Definition toy_SecEvents : SecEvents := {|
  AttrSeverity := "severity";
  severity_text := fun s => match s with SeverityInfo => "info" | SeverityWarning => "warning" | SeverityHigh => "high" end |}.

Lemma toy_SecEventsLaws : @SecEventsLaws toy_SecEvents.
Proof. split; [by intros [] []|]. by_decide. Qed.

(** The approval of an anchor of type [access_ca] and that of an untyped one. *)
Lemma events_told_apart_witness :
  let e ty := EvAnchorChange "added" "DE" "aa" ty "TSP" "Service" "granted" "" false in
  match @render toy_SecEvents (e "access_ca") with
  | Some env => @render toy_SecEvents (e "") <> Some env
  | None => False
  end.
Proof.
  intros e. destruct (@render toy_SecEvents (e "access_ca")) as [env|] eqn:E; [|discriminate E].
  intros E2. destruct (@events_told_apart toy_SecEvents toy_SecEventsLaws (e "access_ca") (e "") env E)
    as (_ & _ & _ & _ & _ & _ & _ & H).
  discriminate (H E2).
Defined.
