(* ===== verification/Verify.v ===== *)
(** * Signature verification of trusted lists

    [src/tsl/verify.go].  The XML tree library (etree) and the signature library
    (go-xmldsig) are the parameters [XmlDsig]; which signature is validated,
    against what, at which time, and which bytes are returned is defined here. *)

From S2P Require Import Prelude Model Base64 Tsl Samples.

Record Attr := mkAttr { at_Space : string; at_Key : string; at_Value : string }.

Inductive Element := mkElement (space tag : string) (attrs : list Attr) (text : string) (children : list Element).

Definition el_Space (e : Element) : string := let 'mkElement s _ _ _ _ := e in s.
Definition el_Tag (e : Element) : string := let 'mkElement _ t _ _ _ := e in t.
Definition el_Attr (e : Element) : list Attr := let 'mkElement _ _ a _ _ := e in a.
Definition el_Text (e : Element) : string := let 'mkElement _ _ _ t _ := e in t.
Definition ChildElements (e : Element) : list Element := let 'mkElement _ _ _ _ c := e in c.

Class XmlDsig := {
  (** [doc.ReadFromBytes(raw)] and [doc.Root()] *)
  etree_Root : bytes -> result (option Element);
  (** [ValidateSignature(root, sig)] of a context with these roots, this ID
      attribute and this clock; the signature is the root's n-th child.  It
      returns one element per digest-checked reference. *)
  ValidateSignature : list Certificate -> string -> time -> Element -> nat -> result (list Element);
  (** exclusive C14N 1.0 serialisation *)
  Canonicalize : Element -> result bytes
}.

Definition dsigNamespace : string := "http://www.w3.org/2000/09/xmldsig#".

(** The test on one attribute in [resolveNamespace]. *)
Definition declares (prefix : string) (attr : Attr) : bool :=
  (str_eqb prefix "" && str_eqb (at_Space attr) "" && str_eqb (at_Key attr) "xmlns") ||
  (negb (str_eqb prefix "") && str_eqb (at_Space attr) "xmlns" && str_eqb (at_Key attr) prefix).

(** [resolveNamespace]: [chain] is the element followed by its ancestors. *)
Fixpoint resolveNamespace (chain : list Element) (prefix : string) : string :=
  match chain with
  | [] => ""
  | e :: parents =>
      match List.find (declares prefix) (el_Attr e) with
      | Some attr => at_Value attr
      | None => resolveNamespace parents prefix
      end
  end.

Definition in_dsig (chain : list Element) (tag : string) : bool :=
  match chain with
  | e :: _ => str_eqb (el_Tag e) tag && str_eqb (resolveNamespace chain (el_Space e)) dsigNamespace
  | [] => false
  end.

(** The first child that is a signature, with its index. *)
Definition findEnvelopedSignature (root : Element) : result (nat * Element) :=
  match list_find (fun child => in_dsig [child; root] "Signature" = true) (ChildElements root) with
  | Some (i, child) => Ok (i, child)
  | None => Err (errors_New ("tsl: no enveloped XML signature found as direct child of " +:+ el_Tag root))
  end.

(** The closure [walk] of [signerCertificate]: the first KeyInfo certificate in
    document order. *)
Fixpoint walk (parents : list Element) (el : Element) : option Element :=
  if in_dsig (el :: parents) "X509Certificate" then Some el
  else
    (fix walk_list (cs : list Element) : option Element :=
       match cs with
       | [] => None
       | c :: cs' => match walk (el :: parents) c with
                     | Some found => Some found
                     | None => walk_list cs'
                     end
       end) (ChildElements el).

(** The certificates a signature carries: every dsig X509Certificate in it, in
    document order. *)
Fixpoint key_certs (parents : list Element) (el : Element) : list Element :=
  if in_dsig (el :: parents) "X509Certificate" then [el]
  else flat_map (key_certs (el :: parents)) (ChildElements el).

(** What the signature library promises: a signature validates only when the
    certificate of its KeyInfo is byte-identical to one of the roots. *)
Class XmlDsigLaws `{XmlDsig} : Prop := {
  validate_pinned : forall roots idAttr at_ root i sig validated,
    ValidateSignature roots idAttr at_ root i = Ok validated -> ChildElements root !! i = Some sig ->
    exists el c, el ∈ key_certs [root] sig /\ c ∈ roots /\ DecodeString (strip_space (el_Text el)) = Ok (cert_Raw c)
}.

Section Verify.
Context {X : X509} {XD : XmlDsig} {XM : XML}.

Definition signerCertificate (root sig : Element) : result Certificate :=
  match walk [root] sig with
  | None => Err (errors_New "tsl: signature carries no KeyInfo X509Certificate")
  | Some certEl =>
      let? der := map_err (fun e => errorf ("tsl: decode KeyInfo certificate: " +:+ err_Error e) [e])
                    (DecodeString (strip_space (el_Text certEl))) in
      map_err (fun e => errorf ("tsl: parse KeyInfo certificate: " +:+ err_Error e) [e])
        (x509_ParseCertificate der)
  end.

(** [verify]: [wall] is the clock the library reads when no time is pinned. *)
Definition verify (wall : time) (raw : bytes) (signers : list Certificate) (at_ : option time) :
    result (bytes * Certificate) :=
  if bool_decide (length signers = 0%nat)
  then Err (errors_New "tsl: no expected signer certificates configured")
  else
  let? root := map_err (fun e => errorf ("tsl: parse XML for signature verification: " +:+ err_Error e) [e])
                 (etree_Root raw) in
  match root with
  | None => Err (errors_New "tsl: document has no root element")
  | Some root =>
      let? (i, sig) := findEnvelopedSignature root in
      let? validated := map_err (fun e => errorf ("tsl: XML signature verification failed: " +:+ err_Error e) [e])
                          (ValidateSignature signers "Id" (default wall at_) root i) in
      let? signer := signerCertificate root sig in
      match List.find (fun el => str_eqb (el_Tag el) (el_Tag root)) validated with
      | None => Err (errors_New ("tsl: signature does not cover the " +:+ el_Tag root +:+ " document root"))
      | Some verifiedRoot =>
          let? b := map_err (fun e => errorf ("tsl: serialize verified document: " +:+ err_Error e) [e])
                      (Canonicalize verifiedRoot) in
          Ok (b, signer)
      end
  end.

Definition Verify (wall : time) (raw : bytes) (signers : list Certificate) : result (bytes * Certificate) :=
  verify wall raw signers None.

Definition VerifyAt (wall : time) (raw : bytes) (signers : list Certificate) (at_ : time) :
    result (bytes * Certificate) :=
  verify wall raw signers (Some at_).

Definition VerifyAndParse (wall : time) (raw : bytes) (signers : list Certificate) : result TrustedList :=
  let? (verified, _) := Verify wall raw signers in Parse verified.

(** * Lemmas *)

(** The document [b] is signed content of [raw]: the canonical form of an
    element, named as the root, that a signature sitting directly under the root
    covers and that validated against the given certificates at [at_]. *)
Definition signed_content (raw : bytes) (signers : list Certificate) (at_ : time) (b : bytes) : Prop :=
  signers <> [] /\
  exists root i sig validated el,
    etree_Root raw = Ok (Some root) /\ ChildElements root !! i = Some sig /\
    el_Tag sig = "Signature" /\ resolveNamespace [sig; root] (el_Space sig) = dsigNamespace /\
    ValidateSignature signers "Id" at_ root i = Ok validated /\
    el ∈ validated /\ el_Tag el = el_Tag root /\ Canonicalize el = Ok b.

Lemma findEnvelopedSignature_Ok root i sig :
  findEnvelopedSignature root = Ok (i, sig) ->
  ChildElements root !! i = Some sig /\ el_Tag sig = "Signature" /\
  resolveNamespace [sig; root] (el_Space sig) = dsigNamespace.
Proof.
  unfold findEnvelopedSignature. destruct (list_find _ _) as [[j c]|] eqn:E; [|done]. intros [= -> ->].
  apply list_find_Some in E as (Hi & Hd & _). split; [done|]. unfold in_dsig in Hd.
  by apply andb_true_iff in Hd as [?%str_eqb_eq ?%str_eqb_eq].
Qed.

Fixpoint walk_first (parents : list Element) (el : Element) {struct el} :
  walk parents el = head (key_certs parents el).
Proof.
  destruct el as [sp tag attrs text children]. cbn [walk key_certs].
  destruct (in_dsig _ _); [done|]. cbn [ChildElements].
  generalize (mkElement sp tag attrs text children :: parents) as ps. intros ps.
  induction children as [|c cs IH]; [done|]. cbn [flat_map]. rewrite walk_first, IH.
  by destruct (key_certs ps c).
Qed.

Lemma signerCertificate_Ok root sig signer :
  signerCertificate root sig = Ok signer ->
  exists el rest der, key_certs [root] sig = el :: rest /\ DecodeString (strip_space (el_Text el)) = Ok der /\
    x509_ParseCertificate der = Ok signer.
Proof.
  unfold signerCertificate. rewrite walk_first. destruct (key_certs [root] sig) as [|el rest]; [done|]. simpl.
  destruct (DecodeString _) as [der|] eqn:Hd; simpl; [|done].
  destruct (x509_ParseCertificate der) as [c|] eqn:Hc; simpl; [|done]. intros [= ->]. by exists el, rest, der.
Qed.

(** C27 Only signed content leaves the verifier: whatever [verify] returns is the
    canonical serialisation of an element that a signature placed directly under
    the document root covers, that validated against the pinned certificates at
    the pinned (or current) time, and that is the document root by name; an empty
    pinned set verifies nothing.  The signer it reports is the first certificate
    that signature carries and, when it carries no other (what the list profile
    prescribes), byte for byte one of the pinned certificates. *)
Theorem verify_signed_content {XL : X509Laws} {DL : XmlDsigLaws} wall raw signers at_ b signer :
  verify wall raw signers at_ = Ok (b, signer) ->
  signed_content raw signers (default wall at_) b /\
  exists root i sig el rest, etree_Root raw = Ok (Some root) /\ ChildElements root !! i = Some sig /\
    in_dsig [sig; root] "Signature" = true /\ key_certs [root] sig = el :: rest /\
    DecodeString (strip_space (el_Text el)) = Ok (cert_Raw signer) /\
    (rest = [] -> exists c, c ∈ signers /\ cert_Raw c = cert_Raw signer).
Proof.
  unfold verify. case_bool_decide as Hl; [done|]. intros H.
  destruct (etree_Root raw) as [[root|]|] eqn:Hr; simpl in H; try done.
  destruct (findEnvelopedSignature root) as [[i sig]|] eqn:Hf; simpl in H; [|done].
  destruct (ValidateSignature _ _ _ _ _) as [validated|] eqn:Hv; simpl in H; [|done].
  destruct (signerCertificate root sig) as [signer'|] eqn:Hs; [|done].
  destruct (List.find _ validated) as [el|] eqn:He; [|done].
  destruct (Canonicalize el) eqn:Hc; simpl in H; [|done]. injection H as -> ->.
  apply findEnvelopedSignature_Ok in Hf as (Hi & Ht & Hn).
  apply List.find_some in He as [Hin%list_elem_of_In Htag%str_eqb_eq]. split.
  - split; [by intros ->|]. by exists root, i, sig, validated, el.
  - apply signerCertificate_Ok in Hs as (k & rest & der & Hk & Hd & Hp). apply parse_Raw in Hp as <-.
    exists root, i, sig, k, rest. split_and!; try done.
    + unfold in_dsig. by rewrite Ht, Hn, !(proj2 (str_eqb_eq _ _)).
    + intros ->. destruct (validate_pinned _ _ _ _ _ _ _ Hv Hi) as (k' & c & Hin' & Hcin & Hd').
      rewrite Hk in Hin'. apply list_elem_of_singleton in Hin' as ->. exists c. split; [done|]. congruence.
Qed.
End Verify.

(** ** On a sample document *)

Definition sample_sig : Element :=
  mkElement "ds" "Signature" [mkAttr "xmlns" "ds" dsigNamespace] ""
    [mkElement "ds" "KeyInfo" [] "" [mkElement "ds" "X509Certificate" [] "WA==" []]].
Definition sample_root : Element := mkElement "" "TrustServiceStatusList" [] "" [sample_sig].

(** A signature library that accepts a signature whose first certificate is one of
    the roots. *)
Definition toy_XmlDsig : XmlDsig := {|
  etree_Root := fun b => Ok (Some sample_root);
  ValidateSignature := fun roots _ _ root i =>
    match (ChildElements root !! i) ≫= (fun sig => head (key_certs [root] sig)) with
    | Some el =>
        match DecodeString (strip_space (el_Text el)) with
        | Ok der => if existsb (fun c => str_eqb (cert_Raw c) der) roots then Ok [root]
                    else Err (errors_New "invalid signature")
        | Err e => Err e
        end
    | None => Err (errors_New "no certificate")
    end;
  Canonicalize := fun e => Ok (el_Tag e) |}.

Lemma toy_XmlDsigLaws : @XmlDsigLaws toy_XmlDsig.
Proof.
  split. intros roots idAttr at_ root i sig validated Hv Hi. cbn in Hv. rewrite Hi in Hv. cbn in Hv.
  destruct (key_certs [root] sig) as [|el rest]; [done|]. cbn in Hv.
  destruct (DecodeString _) as [der|] eqn:Hd; [|done]. destruct (existsb _ roots) eqn:Hex; [|done].
  apply List.existsb_exists in Hex as (c & Hc%list_elem_of_In & <-%str_eqb_eq). exists el, c.
  split; [apply list_elem_of_here|done].
Qed.

Definition certX : Certificate := mkCertificate "X" "CN=X" "X" 1 2000.

Lemma verify_signed_content_witness :
  @signed_content toy_XmlDsig "<doc/>" [certX] 77 "TrustServiceStatusList" /\
  exists c, c ∈ [certX] /\ cert_Raw c = "X".
Proof.
  destruct (@verify_signed_content toy_X509 toy_XmlDsig toy_X509Laws toy_XmlDsigLaws 77 "<doc/>" [certX] None
    "TrustServiceStatusList" certX ltac:(vm_compute; reflexivity)) as [Hc (root & i & sig & el & rest & Hr & Hi & Hs & Hk & _ & Hp)].
  split; [exact Hc|]. injection Hr as <-. destruct i as [|i]; [|destruct i; discriminate Hi]. injection Hi as <-.
  vm_compute in Hk. injection Hk as _ <-. exact (Hp eq_refl).
Defined.
