(* ===== verification/Sources.v ===== *)
(** * The list-shaped sources

    [src/source/source.go] (the adapter contract), [src/ingest/source_lotl.go],
    [src/ingest/pivot.go], [src/ingest/source_national.go],
    [src/ingest/pointers.go] and [src/ingest/oj.go]. *)

From S2P Require Import Prelude GoTime Model Tsl CertBody Slices Extract Fetcher Verify Internal Samples.

(** ** The adapter contract *)

Record Raw := mkRaw_ { raw_Bytes : bytes; raw_Digest : string; raw_Sequence : Z }.

Definition errUnchanged : error := mkError "source: unchanged since last fetch" [ErrUnchanged].

(** [source.Source]: [St] is the adapter instance, which [Verify] and [Extract]
    update (they cache what they parsed). *)
Class Source (St : Type) := {
  src_Type : string;
  src_ID : St -> string;
  src_Fetch : St -> option Raw -> eff world Raw;
  src_Verify : St -> Raw -> list bytes -> eff world (bytes * St);
  src_Extract : St -> bytes -> result (list Anchor * St)
}.

Definition TypeEULOTL : string := "eu-lotl".
Definition TypeNationalTL : string := "national-tl".

(** ** Pinned signer sets *)

Definition certInSet (c : Certificate) (set : list Certificate) : bool :=
  existsb (fun s => str_eqb (cert_Raw s) (cert_Raw c)) set.

Definition certsDER (certs : list Certificate) : list bytes := cert_Raw <$> certs.

Definition parseDERCerts `{X509} (der : list bytes) : result (list Certificate) :=
  map_result x509_ParseCertificate der.

(** ** Territory pointers *)

(** [pointerSet]: its list. *)
Definition pointerSet := list ListPointer.

Section Pointers.
Context `{GoSort}.

Definition list_pointer (lotl : TrustedList) (code : string) : ListPointer :=
  match PointerFor lotl code with
  | Err e => mkListPointer code "" [] (err_Error e)
  | Ok ptr =>
      match Pointer_CertificateDERs ptr with
      | Err e => mkListPointer code (TSLLocation ptr) [] ("pointer certs for " +:+ code +:+ ": " +:+ err_Error e)
      | Ok ders => mkListPointer code (TSLLocation ptr) ders ""
      end
  end.

Definition lotlPointerSet (lotl : TrustedList) : pointerSet := list_pointer lotl <$> Territories lotl.

Definition carriedPointerSet (list : list ListPointer) : pointerSet := list.

Definition ps_territories (s : pointerSet) : list string := lp_Territory <$> s.

Definition ps_pointerFor (s : pointerSet) (code : string) : result ListPointer :=
  match List.find (fun lp => str_eqb (lp_Territory lp) code) s with
  | None => Err (ErrNoXMLPointer code)
  | Some lp => if negb (str_eqb (lp_Failure lp) "") then Err (errors_New (lp_Failure lp)) else Ok lp
  end.
End Pointers.

(** ** References read off URIs *)

Definition is_digit (c : Ascii.ascii) : bool :=
  let n := Ascii.N_of_ascii c in ((48 <=? n) && (n <=? 57))%N.
Definition digit_val (c : Ascii.ascii) : Z := Z.of_N (Ascii.N_of_ascii c) - 48.

(** The longest prefix whose bytes satisfy [p], and the rest. *)
Fixpoint span_str (p : Ascii.ascii -> bool) (s : string) : string * string :=
  match s with
  | EmptyString => ("", "")
  | String c s' => if p c then let '(a, b) := span_str p s' in (String c a, b) else ("", s)
  end.

(** [strings.CutPrefix]. *)
Fixpoint cut_prefix (p s : string) : option string :=
  match p, s with
  | EmptyString, _ => Some s
  | String c p', String d s' => if bool_decide (c = d) then cut_prefix p' s' else None
  | String _ _, EmptyString => None
  end.

Fixpoint decimal (acc : Z) (s : string) : Z :=
  match s with EmptyString => acc | String c s' => decimal (acc * 10 + digit_val c) s' end.

(** [strconv.ParseUint(s, 10, 64)] of a non-empty digit string. *)
Definition ParseUint64 (s : string) : option Z :=
  let n := decimal 0 s in if n <? 2 ^ 64 then Some n else None.

(** The captured digits of [/eu-lotl-pivot-(\d+)\.xml$], matched from the end. *)
Definition pivot_digits (u : string) : option string :=
  match cut_prefix "lmx." (str_rev u) with
  | None => None
  | Some rest =>
      let '(ds, before) := span_str is_digit rest in
      if str_eqb ds "" then None
      else match cut_prefix (str_rev "/eu-lotl-pivot-") before with
           | None => None
           | Some _ => Some (str_rev ds)
           end
  end.

Record pivotRef := mkPivotRef { pr_url : string; pr_seq : Z }.

Definition pivot_ref (u : string) : option pivotRef :=
  match pivot_digits u with
  | None => None
  | Some ds => match ParseUint64 ds with None => None | Some seq => Some (mkPivotRef u seq) end
  end.

Definition pivotRefs `{GoSort} (uris : list string) : list pivotRef :=
  sort_Slice (fun a b => pr_seq a <? pr_seq b) (omap pivot_ref uris).

(** [/eli/([A-Z]+/\d{4}/\d+)/oj] at the start of [s]: the captured group. *)
Definition oj_here (s : string) : option string :=
  match cut_prefix "/eli/" s with
  | None => None
  | Some s1 =>
      let '(series, s2) := span_str is_upper s1 in
      match cut_prefix "/" s2 with
      | None => None
      | Some s3 =>
          let '(year, s4) := span_str is_digit s3 in
          match cut_prefix "/" s4 with
          | None => None
          | Some s5 =>
              let '(num, s6) := span_str is_digit s5 in
              if negb (str_eqb series "") && bool_decide (String.length year = 4%nat) &&
                 negb (str_eqb num "") && HasPrefix s6 "/oj"
              then Some (series +:+ "/" +:+ year +:+ "/" +:+ num) else None
          end
      end
  end.

(** The leftmost match. *)
Fixpoint oj_search (s : string) : option string :=
  match oj_here s with
  | Some m => Some m
  | None => match s with EmptyString => None | String _ s' => oj_search s' end
  end.

Fixpoint advertisedOJReference (uris : list string) : string :=
  match uris with
  | [] => ""
  | u :: rest => match oj_search u with Some m => m | None => advertisedOJReference rest end
  end.

Section Sources.
Context {X : X509} {AS : Asn1} {AL : GoAlloc} {SO : GoSort} {RA : GoRange} {N : Net} {XD : XmlDsig} {XM : XML}
  {FI : Files} (maxSize : Z).

(** [tsl.Verify] called now: the signature library reads the clock. *)
Definition Verify_now (raw : bytes) (signers : list Certificate) : eff world (bytes * Certificate) :=
  fun w => (Verify (wall_clock (length (w_trace w))) raw signers, w).
Definition VerifyAt_ (raw : bytes) (signers : list Certificate) (at_ : time) : eff world (bytes * Certificate) :=
  fun w => (VerifyAt (wall_clock (length (w_trace w))) raw signers at_, w).

(** ** Pivots *)

Definition pivot_err (seq : Z) (what : string) (e : error) : error :=
  errorf ("pivot " +:+ itoa seq +:+ ": " +:+ what +:+ err_Error e) [e].
Definition pivot_refuse (seq : Z) (what : string) : error :=
  errors_New ("pivot " +:+ itoa seq +:+ ": " +:+ what).

(** One pivot newer than the last processed: the signer set it rotates to. *)
Definition process_pivot (ref : pivotRef) (signers : list Certificate) : eff world (list Certificate) :=
  let seq := pr_seq ref in
  let* _ := eff_wrap (pivot_err seq "") (AllowURL (pr_url ref)) in
  let* raw := eff_wrap (pivot_err seq "") (Fetch maxSize (pr_url ref)) in
  let* pre := eff_of_result (map_err (pivot_err seq "pre-parse: ") (Parse raw)) in
  let issued := ListIssueDateTime (tl_SchemeInformation pre) in
  let* (verified, pivotSigner) := eff_wrap (pivot_err seq "") (VerifyAt_ raw signers issued) in
  let* pivot := eff_of_result (map_err (pivot_err seq "parse verified: ") (Parse verified)) in
  let info := tl_SchemeInformation pivot in
  if negb (ListIssueDateTime info =? issued) then
    eff_throw (pivot_refuse seq "issue time differs between unverified and verified content")
  else if negb (str_eqb (si_TSLType info) TSLTypeEUListOfTheLists) then
    eff_throw (pivot_refuse seq ("unexpected TSLType " +:+ Quote (si_TSLType info)))
  else if negb (TSLSequenceNumber info =? seq) then
    eff_throw (pivot_refuse seq ("content sequence " +:+ itoa (TSLSequenceNumber info) +:+ " does not match URL"))
  else
    let* self := eff_of_result (map_err (pivot_err seq "") (SelfPointer pivot)) in
    let* next := eff_of_result (map_err (pivot_err seq "signer certs: ") (Pointer_Certificates self)) in
    if bool_decide (length next = 0%nat) then eff_throw (pivot_refuse seq "empty signer set")
    else if negb (certInSet pivotSigner next) then
      eff_throw (pivot_refuse seq
        ("PIVOT_SIGNER_CERT_NOT_AUTHENTICATED_BY_PIVOT: the pivot's signing certificate (" +:+
         cert_CommonName pivotSigner +:+ ") is not in the pivot's own EU self-pointer set"))
    else eff_ret next.

Fixpoint walkPivots (refs : list pivotRef) (signers : list Certificate) (lastProcessed : Z) :
    eff world (list Certificate * Z) :=
  match refs with
  | [] => eff_ret (signers, lastProcessed)
  | ref :: rest =>
      if pr_seq ref <=? lastProcessed then walkPivots rest signers lastProcessed
      else let* next := process_pivot ref signers in walkPivots rest next (pr_seq ref)
  end.

(** ** The digest pre-check both sources share: does the sibling digest name the
    list already held? *)
Definition digest_unchanged (url : string) (prevFresh : bool) (last : option Raw) : eff world bool :=
  match last with
  | Some l =>
      if prevFresh && negb (str_eqb (raw_Digest l) "") then
        eff_catch (FetchDigest maxSize url) (fun r =>
          eff_ret (match r with Ok d => str_eqb d (raw_Digest l) | Err _ => false end))
      else eff_ret false
  | None => eff_ret false
  end.

Definition sha256hex (b : bytes) : string := hex_EncodeToString (sha256_Sum256 b).

(** ** The list of the lists *)

Record euLOTLSource := mkLOTL {
  eu_url : string;
  eu_now : time;
  eu_pivotSeq : Z;
  eu_prevFresh : bool;
  eu_list : option TrustedList;
  eu_signers : list Certificate
}.

Definition lotl_Fetch (s : euLOTLSource) (last : option Raw) : eff world Raw :=
  let* _ := AllowURL (eu_url s) in
  let* unchanged := digest_unchanged (eu_url s) (eu_prevFresh s) last in
  if unchanged : bool then eff_throw errUnchanged
  else
    let* raw := eff_wrap (fun e => errorf ("ingest: fetch LOTL: " +:+ err_Error e) [e]) (Fetch maxSize (eu_url s)) in
    eff_ret (mkRaw_ raw (sha256hex raw) 0).

Definition lotlSignerSelfConsistent (signer : Certificate) (lotl : TrustedList) : result unit :=
  let wrap e := errorf ("ingest: LOTL self-consistency: " +:+ err_Error e) [e] in
  let? self := map_err wrap (SelfPointer lotl) in
  let? own := map_err wrap (Pointer_Certificates self) in
  if negb (certInSet signer own) then
    Err (errors_New ("ingest: LOTL_SIGNER_CERT_NOT_AUTHENTICATED_BY_LOTL: the LOTL's signing certificate (" +:+
      cert_CommonName signer +:+ ") is not in the LOTL's own EU self-pointer set"))
  else Ok tt.

(** The signer part of [Verify]: direct verification, else the pivot walk.
    Returns the verified bytes, the signer, the signer set, the pivot progress
    and whether verification was direct. *)
Definition lotl_authenticate (s : euLOTLSource) (raw : bytes) (refs : list pivotRef) (signers : list Certificate) :
    eff world (bytes * Certificate * list Certificate * Z * bool) :=
  let maxPivot := from_option pr_seq 0 (last refs) in
  eff_catch (Verify_now raw signers) (fun r =>
    match r with
    | Ok (verified, lotlSigner) =>
        eff_ret (verified, lotlSigner, signers,
                 (if eu_pivotSeq s <? maxPivot then maxPivot else eu_pivotSeq s), true)
    | Err verr =>
        let* (signers', seq) :=
          eff_wrap (fun e => errorf ("ingest: pivot chain: " +:+ err_Error e +:+
                                     " (after direct verification failed: " +:+ err_Error verr +:+ ")") [e; verr])
            (walkPivots refs signers (eu_pivotSeq s)) in
        let* (verified, lotlSigner) :=
          eff_wrap (fun e => errorf ("ingest: LOTL verification failed after pivot processing: " +:+ err_Error e) [e])
            (Verify_now raw signers') in
        eff_ret (verified, lotlSigner, signers', seq, false)
    end).

Definition lotl_Verify (s : euLOTLSource) (raw : Raw) (pinnedSignersDER : list bytes) :
    eff world (bytes * euLOTLSource) :=
  let* pre := eff_of_result (map_err (fun e => errorf ("ingest: pre-parse LOTL: " +:+ err_Error e) [e])
                (Parse (raw_Bytes raw))) in
  let refs := pivotRefs (SchemeInformationURI (tl_SchemeInformation pre)) in
  let* signers := eff_of_result (parseDERCerts pinnedSignersDER) in
  let* (verified, lotlSigner, signers, pivotSeq, direct) := lotl_authenticate s (raw_Bytes raw) refs signers in
  let* lotl := eff_of_result (map_err (fun e => errorf ("ingest: parse verified LOTL: " +:+ err_Error e) [e])
                 (Parse verified)) in
  let info := tl_SchemeInformation lotl in
  if negb (str_eqb (si_TSLType info) TSLTypeEUListOfTheLists) then
    eff_throw (errors_New ("ingest: LOTL has unexpected TSLType " +:+ Quote (si_TSLType info)))
  else if match NextUpdate info with Some nu => time_After (eu_now s) nu | None => false end then
    eff_throw (errors_New ("ingest: LOTL_NEXTUPDATE_PASSED: the LOTL's NextUpdate " +:+
      from_option Format_RFC3339 "" (NextUpdate info) +:+ " has passed — refusing to authenticate an expired list"))
  else
    let* _ := if direct then eff_of_result (lotlSignerSelfConsistent lotlSigner lotl) else eff_ret tt in
    eff_ret (verified, mkLOTL (eu_url s) (eu_now s) pivotSeq (eu_prevFresh s) (Some lotl) signers).

#[export] Instance euLOTL_Source : Source euLOTLSource := {|
  src_Type := TypeEULOTL;
  src_ID := fun _ => TypeEULOTL;
  src_Fetch := lotl_Fetch;
  src_Verify := lotl_Verify;
  src_Extract := fun s _ => Ok ([], s)
|}.

(** ** A national list *)

Record nationalTLSource := mkNational {
  nt_code : string;
  nt_url : string;
  nt_allowHTTP : bool;
  nt_prevFresh : bool;
  nt_prevSeq : Z;
  nt_hasPrev : bool;
  nt_acceptedStatuses : list string;
  nt_acceptedTypes : list string;
  nt_now : time;
  nt_list : option TrustedList;
  nt_warnings : list ExtractionWarning
}.

Definition national_Fetch (s : nationalTLSource) (last : option Raw) : eff world Raw :=
  let* _ := if nt_allowHTTP s then AllowHTTPFor (nt_url s) else eff_ret tt in
  let* _ := AllowURL (nt_url s) in
  let* unchanged := digest_unchanged (nt_url s) (nt_prevFresh s) last in
  if unchanged : bool then eff_throw errUnchanged
  else
    let* raw := Fetch maxSize (nt_url s) in
    eff_ret (mkRaw_ raw (sha256hex raw) 0).

Definition national_Verify (s : nationalTLSource) (raw : Raw) (pinnedSignersDER : list bytes) :
    eff world (bytes * nationalTLSource) :=
  let wrap e := errorf ("territory " +:+ nt_code s +:+ ": " +:+ err_Error e) [e] in
  let* signers := eff_of_result (map_err (fun e => errorf ("pointer certs for " +:+ nt_code s +:+ ": " +:+ err_Error e) [e])
                    (parseDERCerts pinnedSignersDER)) in
  let* (verified, _) := eff_wrap wrap (Verify_now (raw_Bytes raw) signers) in
  let* tl := eff_of_result (map_err wrap (Parse verified)) in
  let info := tl_SchemeInformation tl in
  if negb (str_eqb (si_SchemeTerritory info) (nt_code s)) then
    eff_throw (errors_New ("territory " +:+ nt_code s +:+ ": list declares SchemeTerritory " +:+
                           Quote (si_SchemeTerritory info)))
  else if nt_hasPrev s && (TSLSequenceNumber info <? nt_prevSeq s) then
    eff_throw (errors_New ("territory " +:+ nt_code s +:+ ": sequence regression: " +:+
                           itoa (TSLSequenceNumber info) +:+ " < " +:+ itoa (nt_prevSeq s)))
  else eff_ret (verified, mkNational (nt_code s) (nt_url s) (nt_allowHTTP s) (nt_prevFresh s) (nt_prevSeq s)
                            (nt_hasPrev s) (nt_acceptedStatuses s) (nt_acceptedTypes s) (nt_now s) (Some tl)
                            (nt_warnings s)).

Definition national_Extract (s : nationalTLSource) (_ : bytes) : result (list Anchor * nationalTLSource) :=
  match nt_list s with
  | None => Err (errors_New ("territory " +:+ nt_code s +:+ ": extract called before a successful verify"))
  | Some tl =>
      let? (anchors, warnings) := ExtractAnchors tl (nt_code s) (nt_acceptedStatuses s) (nt_acceptedTypes s) (nt_now s) in
      Ok (anchors, mkNational (nt_code s) (nt_url s) (nt_allowHTTP s) (nt_prevFresh s) (nt_prevSeq s)
                     (nt_hasPrev s) (nt_acceptedStatuses s) (nt_acceptedTypes s) (nt_now s) (nt_list s) warnings)
  end.

#[export] Instance nationalTL_Source : Source nationalTLSource := {|
  src_Type := TypeNationalTL;
  src_ID := nt_code;
  src_Fetch := national_Fetch;
  src_Verify := national_Verify;
  src_Extract := national_Extract
|}.

(** * Lemmas *)

(** ** Rotation of the signer set

    [rotation s l s' l']: starting from the signer set [s] with pivots up to [l]
    processed, a chain of pivots of increasing sequence numbers, each signed by
    the set before it (at its own issue time) and listing its own signer, leads
    to the set [s'] and the sequence [l']. *)

Record pivot_ok (s : list Certificate) (seq : Z) (s' : list Certificate) : Prop := {
  pv_doc : exists raw issued verified signer pivot wall,
    VerifyAt wall raw s issued = Ok (verified, signer) /\ Parse verified = Ok pivot /\
    ListIssueDateTime (tl_SchemeInformation pivot) = issued /\
    si_TSLType (tl_SchemeInformation pivot) = TSLTypeEUListOfTheLists /\
    TSLSequenceNumber (tl_SchemeInformation pivot) = seq /\
    certInSet signer s' = true /\
    exists self, SelfPointer pivot = Ok self /\ Pointer_Certificates self = Ok s';
  pv_nonempty : s' <> []
}.

Inductive rotation : list Certificate -> Z -> list Certificate -> Z -> Prop :=
| rotation_refl s l : rotation s l s l
| rotation_step s l s1 l1 s2 l2 :
    l < l1 -> pivot_ok s l1 s1 -> rotation s1 l1 s2 l2 -> rotation s l s2 l2.

Lemma process_pivot_Ok ref signers w next w' :
  process_pivot ref signers w = (Ok next, w') -> pivot_ok signers (pr_seq ref) next.
Proof.
  unfold process_pivot. intros H. step_Ok H. step_Ok H. step_Ok H.
  apply eff_bind_Ok in H as ([verified signer] & w4 & Hv & H).
  apply eff_wrap_Ok in Hv. unfold VerifyAt_ in Hv. injection Hv as Hv _.
  step_Ok H. rename a2 into pivot.
  destruct (Z.eqb_spec (ListIssueDateTime (tl_SchemeInformation pivot)) (ListIssueDateTime (tl_SchemeInformation a1)))
    as [Hi|]; simpl in H; [|done].
  destruct (str_eqb _ _) eqn:Ht; simpl in H; [|done]. apply str_eqb_eq in Ht.
  destruct (Z.eqb_spec (TSLSequenceNumber (tl_SchemeInformation pivot)) (pr_seq ref)) as [Hq|]; simpl in H; [|done].
  step_Ok H. step_Ok H. case_bool_decide as Hl; [done|].
  destruct (certInSet signer _) eqn:Hc; simpl in H; [|done]. injection H as <- <-.
  split; [|by intros ->]. eexists _, _, verified, signer, pivot, _. split_and!; try done. eauto.
Qed.

Lemma walkPivots_rotation refs signers l w s' l' w' :
  walkPivots refs signers l w = (Ok (s', l'), w') -> rotation signers l s' l'.
Proof.
  revert signers l w. induction refs as [|ref refs IH]; intros signers l w; simpl.
  - intros [= -> -> _]. constructor.
  - destruct (Z.leb_spec (pr_seq ref) l); [apply IH|]. intros (next & w1 & Hp & H')%eff_bind_Ok.
    eapply rotation_step; [done|by eapply process_pivot_Ok|by eapply IH].
Qed.

Lemma rotation_monotone s l s' l' : rotation s l s' l' -> l <= l' /\ (s <> [] -> s' <> []).
Proof.
  induction 1 as [|s l s1 l1 s2 l2 Hlt Hp _ [IH1 IH2]]; [done|]. split; [lia|]. intros _. apply IH2, Hp.
Qed.

(** ** What a verified list of the lists is *)

Record lotl_ok (s s' : euLOTLSource) (pinned : list Certificate) (raw : bytes) (lotl : TrustedList) : Prop := {
  lo_list : eu_list s' = Some lotl;
  lo_signed : exists wall verified signer,
    Verify wall raw (eu_signers s') = Ok (verified, signer) /\ Parse verified = Ok lotl;
  lo_type : si_TSLType (tl_SchemeInformation lotl) = TSLTypeEUListOfTheLists;
  lo_fresh : forall nu, NextUpdate (tl_SchemeInformation lotl) = Some nu -> eu_now s <= nu;
  lo_signers : (eu_signers s' = pinned /\ eu_pivotSeq s <= eu_pivotSeq s') \/
               rotation pinned (eu_pivotSeq s) (eu_signers s') (eu_pivotSeq s')
}.

Lemma lotl_authenticate_Ok s raw refs signers w verified signer s' seq direct w' :
  lotl_authenticate s raw refs signers w = (Ok (verified, signer, s', seq, direct), w') ->
  (exists wall, Verify wall raw s' = Ok (verified, signer)) /\
  ((s' = signers /\ eu_pivotSeq s <= seq) \/ rotation signers (eu_pivotSeq s) s' seq).
Proof.
  unfold lotl_authenticate, eff_catch, Verify_now.
  destruct (Verify _ raw signers) as [[v sg]|e] eqn:Hv.
  - intros [= <- <- <- <- <- <-]. split; [eauto|]. left. split; [done|].
    destruct (Z.ltb_spec (eu_pivotSeq s) (from_option pr_seq 0 (last refs))); lia.
  - intros H. apply eff_bind_Ok in H as ([s1 l1] & w1 & Hw & H).
    apply eff_wrap_Ok, walkPivots_rotation in Hw.
    apply eff_bind_Ok in H as ([v sg] & w2 & Hv' & H). apply eff_wrap_Ok in Hv'.
    injection Hv' as Hv' <-. injection H as <- <- <- <- _ <-. split; [eauto|by right].
Qed.

Lemma lotl_Verify_Ok s raw pinnedDER w b s' w' :
  lotl_Verify s raw pinnedDER w = (Ok (b, s'), w') ->
  exists pinned lotl, parseDERCerts pinnedDER = Ok pinned /\ lotl_ok s s' pinned (raw_Bytes raw) lotl.
Proof.
  unfold lotl_Verify. intros H. step_Ok H. step_Ok H.
  apply eff_bind_Ok in H as ([[[[verified signer] signers] seq] direct] & w3 & Ha & H).
  apply lotl_authenticate_Ok in Ha as [[wall Hv] Hs1].
  step_Ok H. rename a1 into lotl.
  destruct (str_eqb _ _) eqn:Ht; simpl in H; [|done]. apply str_eqb_eq in Ht.
  destruct (match NextUpdate _ with Some nu => _ | None => _ end) eqn:Hn; [done|].
  apply eff_bind_Ok in H as ([] & w4 & _ & H). injection H as <- <- <-.
  eexists _, lotl. split; [done|]. split; simpl; try done; [by eauto|].
  intros nu Hnu. rewrite Hnu in Hn. by apply Z.ltb_ge in Hn.
Qed.

(** ** What a verified national list is *)

Record national_ok (s s' : nationalTLSource) (pinned : list Certificate) (raw : bytes) (tl : TrustedList) : Prop := {
  na_list : nt_list s' = Some tl;
  na_signed : exists wall verified signer,
    Verify wall raw pinned = Ok (verified, signer) /\ Parse verified = Ok tl;
  na_territory : si_SchemeTerritory (tl_SchemeInformation tl) = nt_code s;
  na_sequence : nt_hasPrev s = true -> nt_prevSeq s <= TSLSequenceNumber (tl_SchemeInformation tl);
  na_same : nt_code s' = nt_code s /\ nt_acceptedStatuses s' = nt_acceptedStatuses s /\
            nt_acceptedTypes s' = nt_acceptedTypes s /\ nt_now s' = nt_now s
}.

Lemma national_Verify_Ok s raw pinnedDER w b s' w' :
  national_Verify s raw pinnedDER w = (Ok (b, s'), w') ->
  exists pinned tl, parseDERCerts pinnedDER = Ok pinned /\ national_ok s s' pinned (raw_Bytes raw) tl.
Proof.
  unfold national_Verify. intros H. step_Ok H.
  apply eff_bind_Ok in H as ([verified signer] & w2 & Hv & H). apply eff_wrap_Ok in Hv.
  injection Hv as Hv <-. step_Ok H. rename a0 into tl.
  destruct (str_eqb _ _) eqn:Ht; simpl in H; [|done]. apply str_eqb_eq in Ht.
  destruct (nt_hasPrev s && _) eqn:Hq; [done|]. injection H as <- <- <-.
  eexists _, tl. split; [done|]. split; simpl; try done; [by eauto|].
  intros Hp. rewrite Hp in Hq. by apply Z.ltb_ge in Hq.
Qed.

Lemma national_Extract_Ok s b anchors s' :
  national_Extract s b = Ok (anchors, s') ->
  exists tl, nt_list s = Some tl /\ nt_list s' = Some tl /\
    ExtractAnchors tl (nt_code s) (nt_acceptedStatuses s) (nt_acceptedTypes s) (nt_now s) = Ok (anchors, nt_warnings s').
Proof.
  unfold national_Extract. destruct (nt_list s) as [tl|] eqn:Hl; [|done].
  destruct (ExtractAnchors _ _ _ _ _) as [[as_ ws]|] eqn:He; [|done]. intros [= -> <-]. by exists tl.
Qed.

(** ** Fetching through a source *)

Lemma digest_unchanged_false url fresh last w b w' :
  digest_unchanged url fresh last w = (Ok b, w') -> b = true ->
  exists l, last = Some l /\ fresh = true /\ raw_Digest l <> "".
Proof.
  unfold digest_unchanged. destruct last as [l|]; [|by intros [= <- _]].
  destruct fresh; [|by intros [= <- _]]. destruct (str_eqb (raw_Digest l) "") eqn:E; [by intros [= <- _]|].
  apply str_eqb_neq in E. eauto.
Qed.

(** Reading the clock and verifying keep any predicate on the world. *)
Lemma Verify_now_inv P raw signers : eff_inv P (Verify_now raw signers).
Proof. by intros w. Qed.
Lemma VerifyAt_inv P raw signers at_ : eff_inv P (VerifyAt_ raw signers at_).
Proof. by intros w. Qed.
Lemma read_clock_inv P : eff_inv P read_clock.
Proof. by intros w. Qed.
End Sources.

#[export] Hint Resolve Verify_now_inv VerifyAt_inv read_clock_inv : go.

(** Proves that a computation keeps a predicate, following its structure; the
    calls it makes are in the hint database. *)
Ltac keeps :=
  repeat first
    [ apply eff_inv_ret | apply eff_inv_throw | apply eff_inv_of_result
    | solve [eauto with go]
    | apply eff_inv_wrap
    | apply eff_inv_bind; [|intros]
    | apply eff_inv_catch; [|intros]
    | case_match ].
