(* ===== verification/Pipeline.v ===== *)
(** * The ingestion pipeline

    [src/ingest/pipeline.go]: one cycle from the list of the lists through the
    national lists to a snapshot, the declared sources and hold mode.  Logging is
    left out; events, gauges, hosts and requests are in the [world]. *)

From S2P Require Import Prelude Model ContentId Diff Tsl CertBody Slices Extract Internal Store.
From S2P Require Import Fetcher Verify Sources Samples.

Definition ModeAuto : string := "auto".
Definition ModeHold : string := "hold".

Record Config := mkConfig {
  LOTLURL : string;
  cfg_Territories : list string;
  AcceptedStatuses : list string;
  AcceptedServiceTypes : list string;
  ActivationMode : string;
  HoldAutoRelease : duration;
  InternalTrustSource : string;
  StaleGrace : duration;
  AllowHTTPTerritories : list string;
  MaxSize : Z
}.

Definition allowsHTTP (c : Config) (code : string) : bool :=
  existsb (fun t => str_eqb t code) (AllowHTTPTerritories c).

Definition TerritoryGroupEU : string := "EU".

(** ** Territory expansion *)

(** The closure [add] over its [seen] set and [out] list. *)
Definition add_code (acc : gset string * list string) (code : string) : gset string * list string :=
  let '(seen, out) := acc in
  if bool_decide (code ∈ seen) then acc else ({[ code ]} ∪ seen, out ++ [code]).

Definition expandTerritories `{GoSort} (configured : list string) (ps : pointerSet) : list string :=
  sort_Strings (foldl (fun acc code =>
    if str_eqb code TerritoryGroupEU then foldl add_code acc (ps_territories ps) else add_code acc code)
    (∅, []) configured).2.

(** ** Hold mode *)

Definition prevActive (prev : option Snapshot) : gset string :=
  match prev with
  | None => ∅
  | Some p => list_to_set (flat_map (fun t =>
      (fun a => t_Code t +:+ "/" +:+ a_FingerprintSHA256 a) <$> t_Anchors t) (s_Territories p))
  end.

Definition pending_key (pa : PendingAnchor) : string :=
  a_Territory (p_Anchor pa) +:+ "/" +:+ a_FingerprintSHA256 (p_Anchor pa).

Definition prevPending (prev : option Snapshot) : gmap string PendingAnchor :=
  match prev with
  | None => ∅
  | Some p => foldl (fun m pa => <[ pending_key pa := pa ]> m) ∅ (s_Pending p)
  end.

(** What happens to one anchor of the cycle. *)
Inductive Fate := Keep | Release | Hold (firstSeen : time) (isNew : bool).

Definition hold_fate (autoRelease : duration) (prev : option Snapshot) (now : time) (code : string) (a : Anchor) : Fate :=
  let key := code +:+ "/" +:+ a_FingerprintSHA256 a in
  if bool_decide (key ∈ prevActive prev) || bool_decide (prev = None) then Keep
  else match prevPending prev !! key with
       | Some pa =>
           if (0 <? autoRelease) && (autoRelease <=? time_Sub now (p_FirstSeen pa)) then Release
           else Hold (p_FirstSeen pa) false
       | None => Hold now true
       end.

(** The inner loop over a territory's anchors: kept, newly pending. *)
Fixpoint hold_anchors (autoRelease : duration) (prev : option Snapshot) (now : time) (code : string)
    (anchors : list Anchor) : eff world (list Anchor * list PendingAnchor) :=
  match anchors with
  | [] => eff_ret ([], [])
  | a :: rest =>
      match hold_fate autoRelease prev now code a with
      | Keep =>
          let* (kept, pending) := hold_anchors autoRelease prev now code rest in eff_ret (a :: kept, pending)
      | Release =>
          let* _ := emit (EvPendingApproved (a_FingerprintSHA256 a) "system" "auto-release") in
          let* (kept, pending) := hold_anchors autoRelease prev now code rest in eff_ret (a :: kept, pending)
      | Hold firstSeen isNew =>
          let* _ := if isNew
                    then emit (EvAnchorChange DiffAdded code (a_FingerprintSHA256 a) (a_Type a) (a_TSPName a)
                                 (a_ServiceName a) (a_Status a) "held for approval" true)
                    else eff_ret tt in
          let* (kept, pending) := hold_anchors autoRelease prev now code rest in
          eff_ret (kept, mkPending a firstSeen :: pending)
      end
  end.

Fixpoint hold_territories (autoRelease : duration) (prev : option Snapshot) (now : time) (ts : list Territory) :
    eff world (list Territory * list PendingAnchor) :=
  match ts with
  | [] => eff_ret ([], [])
  | t :: rest =>
      let* (kept, pending) := hold_anchors autoRelease prev now (t_Code t) (t_Anchors t) in
      let* (ts', pending') := hold_territories autoRelease prev now rest in
      eff_ret (set_t_Anchors t kept :: ts', pending ++ pending')
  end.

Definition pending_less (a b : PendingAnchor) : bool :=
  str_ltb (a_FingerprintSHA256 (p_Anchor a)) (a_FingerprintSHA256 (p_Anchor b)).

Definition applyHoldMode `{GoSort} (cfg : Config) (prev : option Snapshot) (next : Snapshot) (now : time) :
    eff world Snapshot :=
  if negb (str_eqb (ActivationMode cfg) ModeHold) then eff_ret next
  else
    let* (ts, pending) := hold_territories (HoldAutoRelease cfg) prev now (s_Territories next) in
    eff_ret (set_s_Pending (set_s_Territories next ts) (sort_Slice pending_less (s_Pending next ++ pending))).

Definition declaredSourceInternal : string := "internal".

Section Pipeline.
Context {X : X509} {AS : Asn1} {AL : GoAlloc} {SO : GoSort} {RA : GoRange} {N : Net} {XD : XmlDsig} {XM : XML}
  {FI : Files} {YA : Yaml} {CO : Codec} (cfg : Config).

Let maxSize : Z := MaxSize cfg.

(** ** Declared sources *)

Definition declaredSet (key : string) (configured : bool) (prevSet : list Anchor) (load : result (list Anchor))
    (emit_error : error -> eff world unit) : eff world (list Anchor * DeclaredSourceState) :=
  match load with
  | Err err =>
      let* _ := emit_error err in
      let* _ := setDeclaredSourceFailed key true in
      eff_ret (prevSet, mkDeclaredState configured true (err_Error err) (Z.of_nat (length prevSet)))
  | Ok set =>
      let* _ := setDeclaredSourceFailed key false in
      eff_ret (set, mkDeclaredState configured false "" (Z.of_nat (length set)))
  end.

Definition applyDeclaredSources (prev : option Snapshot) (next : Snapshot) (now : time) :
    eff world (Snapshot * DeclaredReport) :=
  let prevInternal := from_option s_Internal [] prev in
  let* load := read_load in
  let* (set, state) :=
    declaredSet declaredSourceInternal (negb (str_eqb (InternalTrustSource cfg) "")) prevInternal
      (LoadInternal load (InternalTrustSource cfg) now) (fun err => emit (EvInternalSourceError (err_Error err))) in
  let rep := mkDeclaredReport state in
  eff_ret (set_s_DeclaredLoad (set_s_Internal next set) (Some rep), rep).

(** [RefreshDeclared]: the rebuilt snapshot when the declared sets changed. *)
Definition RefreshDeclared (prev : option Snapshot) (now : time) :
    eff world (option Snapshot * DeclaredReport) :=
  match prev with
  | None => eff_throw (errors_New "ingest: declared-source reconcile requires a previous snapshot")
  | Some p =>
      let* next := eff_of_result (cloneSnapshot p) in
      let* (next, rep) := applyDeclaredSources prev next now in
      let next := ComputeID next in
      if str_eqb (s_ID next) (s_ID p) then eff_ret (None, rep)
      else
        let next := set_s_PrevID (set_s_GeneratedAt next now) (s_ID p) in
        eff_ret (Some (set_s_Diff next (Some (ComputeDiff prev next))), rep)
  end.

(** ** The list of the lists *)

Record lotlResult := mkLotlResult {
  lr_sequence : Z;
  lr_issueTime : time;
  lr_nextUpdate : option time;
  lr_pivotSeq : Z;
  lr_advertisedOJ : string;
  lr_signersDER : list bytes;
  lr_digest : string;
  lr_pointers : pointerSet
}.

(** The condition under which the digest may spare the download. *)
Definition lotl_skip_ok (prev : option Snapshot) (now : time) : bool :=
  match prev with
  | None => false
  | Some p =>
      negb (str_eqb (s_LOTLDigest p) "") && bool_decide (0 < length (s_LOTLPointers p))%nat &&
      bool_decide (0 < length (s_LOTLSignersDER p))%nat &&
      match s_LOTLNextUpdate p with None => false | Some nu => time_Before now nu end
  end.

Definition carried_lotl (p : Snapshot) : lotlResult :=
  mkLotlResult (s_LOTLSequence p) (s_LOTLIssueTime p) (s_LOTLNextUpdate p) (s_LOTLPivotSeq p)
    (s_AdvertisedOJ p) (s_LOTLSignersDER p) (s_LOTLDigest p) (carriedPointerSet (s_LOTLPointers p)).

(** The pinned set and the pivot progress a cycle starts from. *)
Definition lotl_pinned (prev : option Snapshot) (boot : Bootstrap) : result (list bytes * Z) :=
  match prev with
  | Some p =>
      if bool_decide (0 < length (s_LOTLSignersDER p))%nat then Ok (s_LOTLSignersDER p, s_LOTLPivotSeq p)
      else let? certs := Bootstrap_Certificates boot in Ok (certsDER certs, 0)
  | None => let? certs := Bootstrap_Certificates boot in Ok (certsDER certs, 0)
  end.

Definition fresh_lotl (src : euLOTLSource) (raw : Raw) (lotl : TrustedList) : lotlResult :=
  let info := tl_SchemeInformation lotl in
  mkLotlResult (TSLSequenceNumber info) (ListIssueDateTime info) (NextUpdate info) (eu_pivotSeq src)
    (advertisedOJReference (SchemeInformationURI info)) (certsDER (eu_signers src)) (raw_Digest raw)
    (lotlPointerSet lotl).

Definition ingestLOTL (prev : option Snapshot) (boot : Bootstrap) (now : time) : eff world lotlResult :=
  let prevFresh := lotl_skip_ok prev now in
  let src := mkLOTL (LOTLURL cfg) now 0 prevFresh None [] in
  let last := if prevFresh
              then (fun p => mkRaw_ "" (s_LOTLDigest p) (s_LOTLSequence p)) <$> prev else None in
  eff_catch (lotl_Fetch maxSize src last) (fun fetched =>
    match fetched with
    | Err err =>
        if errors_Is err ErrUnchanged
        then match prev with Some p => eff_ret (carried_lotl p) | None => eff_throw err end
        else eff_throw err
    | Ok raw =>
        let* (pinned, pivotSeq) := eff_of_result (lotl_pinned prev boot) in
        let src := mkLOTL (LOTLURL cfg) now pivotSeq prevFresh None [] in
        let* (_, src) := lotl_Verify maxSize src raw pinned in
        match eu_list src with
        | Some lotl => eff_ret (fresh_lotl src raw lotl)
        | None => eff_throw (errors_New "nil list")
        end
    end).

(** ** Territories *)

(** Stamping every anchor with the list's sequence number, as [int64]. *)
Definition stamp_sequence (seq : Z) (a : Anchor) : Anchor :=
  mkAnchor (a_Territory a) (a_Source a) (a_TSPName a) (a_ServiceName a) (a_ServiceType a)
    (a_Status a) (a_StatusStartingTime a) (a_CertDER a) (a_FingerprintSHA256 a) (a_Subject a)
    (a_NotBefore a) (a_NotAfter a) (a_Qualifiers a) (a_QCWithQSCD a) (a_Uses a) (a_KeyAlgorithm a) (a_Curve a)
    (a_Type a) (a_UseCases a) (int64 seq).

Definition emit_stale (t : Territory) (now : time) : eff world unit :=
  if StaleAt t now (StaleGrace cfg)
  then match t_NextUpdate t with Some nu => emit (EvStale (t_Code t) nu) | None => eff_ret tt end
  else eff_ret tt.

Definition national_source (code url : string) (prevT : option Territory) (now : time) : nationalTLSource :=
  mkNational code url (allowsHTTP cfg code)
    (match prevT with
     | Some t => negb (str_eqb (t_SourceDigest t) "") && bool_decide (is_Some (t_NextUpdate t)) &&
                 negb (StaleAt t now (StaleGrace cfg))
     | None => false
     end)
    (from_option t_TLSequence 0 prevT) (bool_decide (is_Some prevT))
    (AcceptedStatuses cfg) (AcceptedServiceTypes cfg) now None [].

Definition new_territory (code : string) (raw : Raw) (tl : TrustedList) (anchors : list Anchor)
    (warnings : list ExtractionWarning) : Territory :=
  let info := tl_SchemeInformation tl in
  mkTerritory code (TSLSequenceNumber info) (ListIssueDateTime info) (NextUpdate info) (raw_Digest raw)
    false "" false "" (stamp_sequence (TSLSequenceNumber info) <$> anchors) (Skipped warnings).

Definition fetchTerritory (ps : pointerSet) (code : string) (prev : option Snapshot) (now : time) :
    eff world Territory :=
  let* lp := eff_of_result (ps_pointerFor ps code) in
  let prevT := prev ≫= (fun p => Snapshot_Territory p code) in
  let src := national_source code (lp_URL lp) prevT now in
  let last := (fun t => mkRaw_ "" (t_SourceDigest t) (t_TLSequence t)) <$> prevT in
  eff_catch (national_Fetch maxSize src last) (fun fetched =>
    match fetched with
    | Err err =>
        if errors_Is err ErrUnchanged
        then match prevT with Some t => eff_ret (set_t_CarriedOver t false) | None => eff_throw err end
        else eff_throw err
    | Ok raw =>
        let* (_, src) := national_Verify src raw (lp_SignersDER lp) in
        let* (anchors, src) := eff_of_result (national_Extract src "") in
        match nt_list src with
        | Some tl =>
            let t := new_territory code raw tl anchors (nt_warnings src) in
            let* _ := emit_stale t now in
            eff_ret t
        | None => eff_throw (errors_New "nil list")
        end
    end).

Definition ingestTerritory (ps : pointerSet) (code : string) (prev : option Snapshot) (now : time) :
    eff world Territory :=
  eff_catch (fetchTerritory ps code prev now) (fun r =>
    match r with
    | Ok t => eff_ret t
    | Err err =>
        let* _ := if errors_Is err ErrEgressBlocked then emit (EvEgressBlocked code (err_Error err))
                  else emit (EvRefreshFailure ("territory:" +:+ code) (err_Error err)) in
        match prev ≫= (fun p => Snapshot_Territory p code) with
        | Some prevT =>
            if t_Failed prevT then
              eff_throw (errorf ("ingest: territory " +:+ code +:+
                " failed with no previous data to fall back on: " +:+ err_Error err) [err])
            else
              let carried := set_t_CarriedOverReason (set_t_CarriedOver prevT true) (err_Error err) in
              let* _ := emit_stale carried now in
              eff_ret carried
        | None =>
            eff_throw (errorf ("ingest: territory " +:+ code +:+
              " failed with no previous data to fall back on: " +:+ err_Error err) [err])
        end
    end).

Definition failed_territory (code : string) (err : error) : Territory :=
  mkTerritory code 0 0 None "" false "" true (err_Error err) [] [].

(** The loop over the territories: the entries, and how many hold data. *)
Fixpoint ingest_territories (ps : pointerSet) (codes : list string) (prev : option Snapshot) (now : time) :
    eff world (list Territory * nat) :=
  match codes with
  | [] => eff_ret ([], 0%nat)
  | code :: rest =>
      eff_catch (ingestTerritory ps code prev now) (fun r =>
        let* (ts, withData) := ingest_territories ps rest prev now in
        match r with
        | Err err => eff_ret (failed_territory code err :: ts, withData)
        | Ok t => eff_ret (t :: ts, S withData)
        end)
  end.

(** ** One cycle *)

Definition lotl_snapshot (res : lotlResult) (boot : Bootstrap) (now : time) (ts : list Territory) : Snapshot :=
  mkSnapshot "" "" now (lr_sequence res) (lr_issueTime res) (lr_nextUpdate res) (lr_signersDER res)
    (lr_pivotSeq res) (lr_digest res) (lr_pointers res) (lr_advertisedOJ res) (b_OJReference boot) (b_Version boot)
    ts [] [] None None.

Definition Refresh (prev : option Snapshot) (boot : Bootstrap) : eff world Snapshot :=
  let* now := read_clock in
  let* res := ingestLOTL prev boot now in
  if match prev with Some p => lr_sequence res <? s_LOTLSequence p | None => false end then
    eff_throw (errors_New ("ingest: LOTL sequence regression: " +:+ itoa (lr_sequence res) +:+ " < " +:+
                           itoa (from_option s_LOTLSequence 0 prev)))
  else
    let territories := expandTerritories (cfg_Territories cfg) (lr_pointers res) in
    let* (ts, withData) := ingest_territories (lr_pointers res) territories prev now in
    if bool_decide (0 < length territories)%nat && bool_decide (withData = 0%nat) then
      eff_throw (errors_New "ingest: every configured territory failed and none has previous data — refusing to build a snapshot with zero verified territories")
    else
      let* (next, _) := applyDeclaredSources prev (lotl_snapshot res boot now ts) now in
      let* next := applyHoldMode cfg prev next now in
      let next := ComputeID next in
      let next := match prev with Some p => set_s_PrevID next (s_ID p) | None => next end in
      eff_ret (set_s_Diff next (Some (ComputeDiff prev next))).
End Pipeline.
