(* ===== verification/InPlace.v ===== *)
(** * Hold mode in place

    [applyHoldMode] of [src/ingest/pipeline.go] filters a territory's anchors in the
    backing array they are in ([kept := t.Anchors[:0]] and [append]), and
    [fetchTerritory] and [ingestTerritory] copy the anchors of a territory they reuse
    or carry over.  Here arrays are explicit: the loop is shown to compute what
    [Pipeline.hold_territories] computes, and the arrays of the snapshot being served,
    which requests read meanwhile, are never written. *)

From S2P Require Import Prelude Model Slices Wire Codec Fetcher Sources Pipeline Samples.

(** ** Arrays of anchors *)

Abbreviation arrays := (list (list Anchor)).

(** A slice from the start of an array. *)
Record window := mkWindow { wi_arr : nat; wi_len : nat }.

Definition wi_array (h : arrays) (v : window) : list Anchor := default [] (h !! wi_arr v).
Definition wi_read (h : arrays) (v : window) : list Anchor := take (wi_len v) (wi_array h v).

(** [s[j] = a] *)
Definition store_at (h : arrays) (arr j : nat) (a : Anchor) : arrays :=
  <[ arr := <[ j := a ]> (default [] (h !! arr)) ]> h.

(** A territory of the snapshot under construction: the struct and its slice. *)
Record part := mkPart { pt_struct : Territory; pt_anchors : window }.

Definition pt_value (h : arrays) (p : part) : Territory := set_t_Anchors (pt_struct p) (wi_read h (pt_anchors p)).

(** ** Placing the anchors *)

(** Where a territory's anchors come from: extracted from a list in this cycle, or
    those of the previous snapshot ([reused], [carried]). *)
Inductive origin := Extracted (l : list Anchor) | Previous (v : window).

(** [append([]trust.Anchor(nil), prevT.Anchors...)] allocates an array, maybe with
    room to spare. *)
Definition place `{GoAlloc} (h : arrays) (o : origin) : arrays * window :=
  match o with
  | Extracted l => (h ++ [l], mkWindow (length h) (length l))
  | Previous v =>
      let l := wi_read h v in
      (h ++ [l ++ replicate (append_cap (length l) - length l) Anchor_zero], mkWindow (length h) (length l))
  end.

Fixpoint place_all `{GoAlloc} (h : arrays) (ts : list (Territory * origin)) : arrays * list part :=
  match ts with
  | [] => (h, [])
  | (t, o) :: ts =>
      let '(h1, v) := place h o in
      let '(h2, ps) := place_all h1 ts in
      (h2, mkPart t v :: ps)
  end.

(** ** The loop *)

(** [for _, a := range t.Anchors] from index [i], [n] rounds to go, with [j] anchors
    kept so far.  The element is read from the array when its turn comes. *)
Fixpoint hold_loop (autoRelease : duration) (prev : option Snapshot) (now : time) (code : string) (arr : nat)
    (n i j : nat) (h : arrays) : eff world (arrays * nat * list PendingAnchor) :=
  match n with
  | O => eff_ret (h, j, [])
  | S n =>
      match default [] (h !! arr) !! i with
      | None => eff_throw (errors_New "runtime error: index out of range")
      | Some a =>
          match hold_fate autoRelease prev now code a with
          | Keep => hold_loop autoRelease prev now code arr n (S i) (S j) (store_at h arr j a)
          | Release =>
              let* _ := emit (EvPendingApproved (a_FingerprintSHA256 a) "system" "auto-release") in
              hold_loop autoRelease prev now code arr n (S i) (S j) (store_at h arr j a)
          | Hold firstSeen isNew =>
              let* _ := if isNew
                        then emit (EvAnchorChange DiffAdded code (a_FingerprintSHA256 a) (a_Type a) (a_TSPName a)
                                     (a_ServiceName a) (a_Status a) "held for approval" true)
                        else eff_ret tt in
              let* (hj, pending) := hold_loop autoRelease prev now code arr n (S i) j h in
              eff_ret (hj, mkPending a firstSeen :: pending)
          end
      end
  end.

Fixpoint hold_parts (autoRelease : duration) (prev : option Snapshot) (now : time) (ps : list part) (h : arrays) :
    eff world (arrays * list part * list PendingAnchor) :=
  match ps with
  | [] => eff_ret (h, [], [])
  | p :: ps =>
      let v := pt_anchors p in
      let* (hj, pending) :=
        hold_loop autoRelease prev now (t_Code (pt_struct p)) (wi_arr v) (wi_len v) 0 0 h in
      let* (hps, pending') := hold_parts autoRelease prev now ps hj.1 in
      eff_ret (hps.1, mkPart (pt_struct p) (mkWindow (wi_arr v) hj.2) :: hps.2, pending ++ pending')
  end.

(** ** Lemmas *)

Definition window_ok (h : arrays) (v : window) : Prop :=
  exists a, h !! wi_arr v = Some a /\ (wi_len v <= length a)%nat.

(** What the loop does to one array: the kept anchors at its front, the rest of it
    and every other array as they were. *)
Lemma hold_loop_run ar prev now code arr n : forall i j h w a,
  h !! arr = Some a -> (j <= i)%nat -> (i + n <= length a)%nat ->
  exists h' kept pending w' a',
    hold_anchors ar prev now code (take n (drop i a)) w = (Ok (kept, pending), w') /\
    hold_loop ar prev now code arr n i j h w = (Ok (h', (j + length kept)%nat, pending), w') /\
    h' !! arr = Some a' /\ length a' = length a /\ take j a' = take j a /\ take (length kept) (drop j a') = kept /\
    (forall k, k <> arr -> h' !! k = h !! k) /\ length h' = length h.
Proof.
  induction n as [|n IH]; intros i j h w a Ha Hji Hn.
  - exists h, [], [], w, a. simpl. rewrite Nat.add_0_r. done.
  - destruct (lookup_lt_is_Some_2 a i) as [x Hx]; [lia|].
    assert (Hlt : (arr < length h)%nat) by (by eapply lookup_lt_Some).
    cbn [hold_loop]. rewrite Ha. cbn [default from_option id]. rewrite Hx. rewrite (drop_S _ _ _ Hx). cbn [take hold_anchors].
    assert (Hkeep : forall w, exists h' kept pending w' a',
      hold_anchors ar prev now code (take n (drop (S i) a)) w = (Ok (kept, pending), w') /\
      hold_loop ar prev now code arr n (S i) (S j) (store_at h arr j x) w = (Ok (h', (j + length (x :: kept))%nat, pending), w') /\
      h' !! arr = Some a' /\ length a' = length a /\ take j a' = take j a /\ take (length (x :: kept)) (drop j a') = x :: kept /\
      (forall k, k <> arr -> h' !! k = h !! k) /\ length h' = length h).
    { intros w1. set (a1 := <[ j := x ]> a).
      assert (Ha1 : store_at h arr j x !! arr = Some a1) by (unfold store_at; rewrite Ha; by apply list_lookup_insert_eq).
      destruct (IH (S i) (S j) (store_at h arr j x) w1 a1 Ha1) as (h' & kept & pending & w' & a' & H1 & H2 & H3 & H4 & H5 & H6 & H7 & H8).
      { lia. } { unfold a1. rewrite length_insert. lia. }
      assert (Hd : drop (S i) a1 = drop (S i) a) by (unfold a1; apply drop_insert_lt; lia). rewrite Hd in H1.
      assert (Hl1 : length a1 = length a) by (unfold a1; by rewrite length_insert).
      exists h', kept, pending, w', a'. split_and!; [done| |done|lia| | | |].
      - rewrite H2. simpl. by rewrite Nat.add_succ_r.
      - apply (f_equal (take j)) in H5. rewrite !take_take in H5. replace (j `min` S j)%nat with j in H5 by lia.
        rewrite H5. unfold a1. by apply take_insert_ge.
      - assert (Hj : a' !! j = Some x).
        { rewrite <-(lookup_take_lt _ (S j)) by lia. rewrite H5, lookup_take_lt by lia. unfold a1.
          apply list_lookup_insert_eq. lia. }
        rewrite (drop_S _ _ _ Hj). simpl. by rewrite H6.
      - intros k Hk. rewrite H7 by done. unfold store_at. by apply list_lookup_insert_ne.
      - rewrite H8. unfold store_at. by rewrite length_insert. }
    destruct (hold_fate ar prev now code x) as [| |fs new].
    + destruct (Hkeep w) as (h' & kept & pending & w' & a' & H1 & H2 & ?). exists h', (x :: kept), pending, w', a'.
      unfold eff_bind. by rewrite H1.
    + unfold eff_bind. cbn [emit].
      destruct (Hkeep (emit (EvPendingApproved (a_FingerprintSHA256 x) "system" "auto-release") w).2)
        as (h' & kept & pending & w' & a' & H1 & H2 & ?). exists h', (x :: kept), pending, w', a'.
      destruct (emit _ w) as [[[]|e] w1] eqn:E; [|done]. simpl in *. by rewrite H1.
    + set (ev := EvAnchorChange _ _ _ _ _ _ _ _ _).
      destruct (IH (S i) j h (if new then (emit ev w).2 else w) a Ha) as (h' & kept & pending & w' & a' & H1 & H2 & ?); [lia..|].
      exists h', kept, (mkPending x fs :: pending), w', a'. unfold eff_bind.
      destruct new; [change (emit ev w) with (Ok tt, (emit ev w).2)|change (eff_ret tt w) with (Ok tt, w)];
        cbv iota beta; rewrite H1, H2; done.
Qed.

Lemma wi_read_eq (h h' : arrays) v : h' !! wi_arr v = h !! wi_arr v -> wi_read h' v = wi_read h v.
Proof. unfold wi_read, wi_array. by intros ->. Qed.

Lemma pt_value_eq (h h' : arrays) p : h' !! wi_arr (pt_anchors p) = h !! wi_arr (pt_anchors p) -> pt_value h' p = pt_value h p.
Proof. intros H. unfold pt_value. by rewrite (wi_read_eq h h'). Qed.

(** The whole pass, on parts with arrays of their own. *)
Lemma hold_parts_run ar prev now ps : forall h w,
  Forall (fun p => window_ok h (pt_anchors p)) ps -> NoDup (wi_arr ∘ pt_anchors <$> ps) ->
  exists h' ps' pending w',
    hold_parts ar prev now ps h w = (Ok (h', ps', pending), w') /\
    hold_territories ar prev now (pt_value h <$> ps) w = (Ok (pt_value h' <$> ps', pending), w') /\
    wi_arr ∘ pt_anchors <$> ps' = wi_arr ∘ pt_anchors <$> ps /\
    (forall k, k ∉ wi_arr ∘ pt_anchors <$> ps -> h' !! k = h !! k) /\ length h' = length h.
Proof.
  induction ps as [|p ps IH]; intros h w Hok Hnd; [by exists h, [], [], w|].
  apply Forall_cons in Hok as [(a & Ha & Hl) Hok]. rewrite fmap_cons in Hnd. apply NoDup_cons in Hnd as [Hni Hnd].
  set (v := pt_anchors p) in *. set (code := t_Code (pt_struct p)).
  destruct (hold_loop_run ar prev now code (wi_arr v) (wi_len v) 0 0 h w a Ha) as
    (h1 & kept & pd & w1 & a1 & H1 & H2 & H3 & H4 & _ & H6 & H7 & H8); [lia..|].
  destruct (IH h1 w1) as (h2 & ps' & pd' & w2 & E1 & E2 & E3 & E4 & E5); [|done|].
  { rewrite Forall_forall in *. intros q Hq. destruct (Hok q Hq) as (b & Hb & Hbl). exists b. split; [|done].
    rewrite H7; [done|]. intros E. apply Hni, list_elem_of_fmap. by exists q. }
  exists h2, (mkPart (pt_struct p) (mkWindow (wi_arr v) (length kept)) :: ps'), (pd ++ pd'), w2.
  assert (Hv : wi_read h2 (mkWindow (wi_arr v) (length kept)) = kept).
  { rewrite <-H6 at 2. unfold wi_read, wi_array. simpl. by rewrite E4, H3 by done. }
  assert (Hr : wi_read h v = take (wi_len v) (drop 0 a)) by (unfold wi_read, wi_array; by rewrite Ha).
  assert (Heq : pt_value h1 <$> ps = pt_value h <$> ps).
  { apply list_fmap_ext. intros k q Hq. apply pt_value_eq, H7. intros E.
    apply Hni, list_elem_of_fmap. exists q. split; [done|]. by eapply list_elem_of_lookup_2. }
  split_and!.
  - cbn [hold_parts]. fold v code. unfold eff_bind. rewrite H2. cbn [fst snd]. rewrite E1. done.
  - rewrite !fmap_cons. cbn [hold_territories]. change (t_Anchors (pt_value h p)) with (wi_read h v). rewrite Hr.
    change (t_Code (pt_value h p)) with code. unfold eff_bind. rewrite H1, <-Heq, E2.
    unfold pt_value at 3. cbn [pt_struct pt_anchors]. by rewrite Hv.
  - rewrite !fmap_cons, E3. done.
  - intros k Hk. rewrite fmap_cons, not_elem_of_cons in Hk. destruct Hk as [Hk1 Hk2]. rewrite E4 by done. by apply H7.
  - lia.
Qed.

(** *** Placement *)

Definition origin_value (h : arrays) (o : origin) : list Anchor :=
  match o with Extracted l => l | Previous v => wi_read h v end.

Definition origin_ok (h : arrays) (o : origin) : Prop := match o with Extracted _ => True | Previous v => window_ok h v end.

Lemma window_prefix (h h' : arrays) v : h `prefix_of` h' -> window_ok h v -> window_ok h' v /\ wi_read h' v = wi_read h v.
Proof.
  intros Hp (a & Ha & Hl). pose proof (prefix_lookup_Some _ _ _ _ Ha Hp) as Ha'. split; [by exists a|].
  apply wi_read_eq. congruence.
Qed.

Lemma place_spec `{GoAlloc} h o h' v : place h o = (h', v) ->
  h `prefix_of` h' /\ wi_arr v = length h /\ length h' = S (length h) /\ window_ok h' v /\ wi_read h' v = origin_value h o.
Proof.
  assert (Hg : forall l k, h `prefix_of` h ++ [l ++ k] /\ length (h ++ [l ++ k]) = S (length h) /\
    window_ok (h ++ [l ++ k]) (mkWindow (length h) (length l)) /\ wi_read (h ++ [l ++ k]) (mkWindow (length h) (length l)) = l).
  { intros l k. split; [by apply prefix_app_r|]. rewrite length_app, Nat.add_1_r. split; [done|]. split.
    - exists (l ++ k). simpl. rewrite lookup_app_r, Nat.sub_diag by lia. split; [done|]. rewrite length_app. lia.
    - unfold wi_read, wi_array. simpl. rewrite lookup_app_r, Nat.sub_diag by lia. simpl. by rewrite take_app_length. }
  destruct o as [l|u]; intros [= <- <-]; [|by destruct (Hg (wi_read h u) (replicate (append_cap (length (wi_read h u)) - length (wi_read h u)) Anchor_zero)) as (?&?&?&?)].
  destruct (Hg l []) as (H1 & H2 & H3 & H4). rewrite app_nil_r in *. done.
Qed.

Lemma place_all_spec `{GoAlloc} ts : forall h h' ps, Forall (fun to => origin_ok h to.2) ts -> place_all h ts = (h', ps) ->
  h `prefix_of` h' /\ Forall (fun p => window_ok h' (pt_anchors p)) ps /\
  Forall (fun p => (length h <= wi_arr (pt_anchors p))%nat) ps /\ NoDup (wi_arr ∘ pt_anchors <$> ps) /\
  pt_value h' <$> ps = (fun to => set_t_Anchors to.1 (origin_value h to.2)) <$> ts.
Proof.
  induction ts as [|[t o] ts IH]; intros h h' ps Hok; simpl; [intros [= <- <-]; by repeat split; try constructor|].
  apply Forall_cons in Hok as [_ Hok]. destruct (place h o) as [h1 v] eqn:E1. destruct (place_all h1 ts) as [h2 ps2] eqn:E2.
  intros [= <- <-]. apply place_spec in E1 as (P1 & Hv & Hl & W1 & R1).
  apply IH in E2 as (P2 & W2 & G2 & N2 & V2).
  - assert (Hge : Forall (fun p => (S (length h) <= wi_arr (pt_anchors p))%nat) ps2) by (by rewrite <-Hl).
    destruct (window_prefix _ _ _ P2 W1) as [W1' R1']. split_and!.
    + by etrans.
    + by constructor.
    + constructor; [simpl; lia|]. eapply Forall_impl; [exact Hge|]. simpl. lia.
    + constructor; [|done]. intros (p & Hp & Hin)%list_elem_of_fmap. rewrite Forall_forall in Hge. apply Hge in Hin.
      simpl in Hp. lia.
    + rewrite !fmap_cons, V2. f_equal; [unfold pt_value; simpl; by rewrite R1', R1|].
      apply list_fmap_ext. intros k [t' o'] Hk. simpl. rewrite Forall_forall in Hok.
      apply list_elem_of_lookup_2, Hok in Hk. destruct o' as [l'|u]; [done|]. simpl in *.
      by rewrite (proj2 (window_prefix _ _ _ P1 Hk)).
  - eapply Forall_impl; [exact Hok|]. intros [t' [l'|u]]; [done|]. intros Hu. simpl in *.
    by apply (window_prefix _ _ _ P1).
Qed.

(** ** Properties *)

(** C24 Hold mode filters in place and is right to: with the anchors of every
    territory in an array of this cycle's own, extracted or copied from the previous
    snapshot, the loop that overwrites the front of each array while it ranges over
    it keeps, holds and reports exactly what a filter of the values does, never runs
    out of range, and leaves every slice of the snapshot being served - the ones the
    copies were taken from included - reading what it read before. *)
Theorem hold_in_place_exact `{GoAlloc} ar prev now (ts : list (Territory * origin)) (h : arrays) (served : list window) w :
  Forall (fun to => origin_ok h to.2) ts -> Forall (window_ok h) served ->
  let '(h1, ps) := place_all h ts in
  exists h2 ps' pending w',
    hold_parts ar prev now ps h1 w = (Ok (h2, ps', pending), w') /\
    hold_territories ar prev now ((fun to => set_t_Anchors to.1 (origin_value h to.2)) <$> ts) w =
      (Ok (pt_value h2 <$> ps', pending), w') /\
    Forall (fun v => wi_read h2 v = wi_read h v) served.
Proof.
  intros Hok Hs. destruct (place_all h ts) as [h1 ps] eqn:E.
  apply place_all_spec in E as (P & W & G & Nd & V); [|done].
  destruct (hold_parts_run ar prev now ps h1 w W Nd) as (h2 & ps' & pending & w' & E1 & E2 & _ & E4 & _).
  exists h2, ps', pending, w'. rewrite <-V. split_and!; [done..|]. eapply Forall_impl; [exact Hs|]. intros v Hv.
  rewrite <-(proj2 (window_prefix _ _ _ P Hv)). apply wi_read_eq, E4. intros (p & Hp & Hin)%list_elem_of_fmap.
  rewrite Forall_forall in G. apply G in Hin. destruct Hv as (a & Ha & _). apply lookup_lt_Some in Ha. simpl in Hp. lia.
Qed.

(** A previous snapshot with one served anchor and one territory reused: of the two
    anchors listed now, the known one is kept and the other one held. *)
Definition ip_old : Anchor := sample_anchor "LV" "aa" "TSP" [].
Definition ip_new : Anchor := sample_anchor "LV" "bb" "TSP" [].
Definition ip_prev : Snapshot :=
  set_s_Territories sample_prev [set_t_Anchors (mkTerritory "LV" 1 0 None "" false "" false "" [] []) [ip_old]].
Definition ip_ts : list (Territory * origin) :=
  [(mkTerritory "LV" 2 0 None "" false "" false "" [] [], Extracted [ip_new; ip_old]);
   (mkTerritory "EE" 1 0 None "" false "" false "" [] [], Previous (mkWindow 0 1))].

Lemma hold_in_place_exact_witness :
  exists h2 ps' pending w',
    hold_parts 0 (Some ip_prev) 100 (place_all [[ip_old]] ip_ts).2 (place_all [[ip_old]] ip_ts).1 (mkWorld ∅ ∅ [] [] ∅ 0) =
      (Ok (h2, ps', pending), w') /\ wi_read h2 (mkWindow 0 1) = [ip_old].
Proof.
  assert (Hw : window_ok [[ip_old]] (mkWindow 0 1)) by (exists [ip_old]; split; [reflexivity|simpl; lia]).
  destruct (hold_in_place_exact 0 (Some ip_prev) 100 ip_ts [[ip_old]] [mkWindow 0 1] (mkWorld ∅ ∅ [] [] ∅ 0))
    as (h2 & ps' & pending & w' & E & _ & F).
  - constructor; [exact I|]. constructor; [exact Hw|constructor].
  - constructor; [exact Hw|constructor].
  - exists h2, ps', pending, w'. split; [exact E|]. exact (List.Forall_inv F).
Defined.
