(* ===== verification/Demo.v ===== *)
(** * A concrete environment

    Instances of every parameter of the pipeline with which a whole cycle can be
    run: a list of the lists pointing at one national list, served over https
    with their digests.  The theorems' concrete instances use it. *)

From S2P Require Import Prelude Model Tsl CertBody Slices Extract Internal Store Fetcher Verify Sources Pipeline Samples.

(** ** Documents: a document's bytes are its name *)

Definition lotl_pointer (ty terr url : string) (certs : list string) : TSLPointer :=
  mkTSLPointer [sdi certs] url [mkOtherInformation ty terr MimeTypeTSLXML].

Definition demo_lotl (seq : Z) : TrustedList :=
  mkTrustedList
    (mkSchemeInformation 6 seq TSLTypeEUListOfTheLists "EU"
       ["https://lotl.example/eu-lotl-pivot-300.xml"; "https://eur-lex.europa.eu/eli/C/2026/1944/oj"] 50 (Some 5000)
       [lotl_pointer TSLTypeEUListOfTheLists "EU" "https://lotl.example/lotl.xml" ["WA=="];
        lotl_pointer "http://uri.etsi.org/TrstSvc/TrustedList/TSLType/EUgeneric" "DE" "https://de.example/tl.xml" ["WA=="]]
       (text "operator"))
    None.

Definition demo_national (seq : Z) (svcs : list Service) : TrustedList :=
  mkTrustedList (mkSchemeInformation 6 seq "" "DE" [] 60 (Some 4000) [] (text "operator"))
    (Some (mkProviderList [provider "T" svcs])).

Definition svcA : Service := service "A" ServiceTypeCAQC StatusGranted ["WA=="] [].
Definition svcB : Service := service "B" ServiceTypeCAQC StatusGranted ["WQ=="] [].

Definition demo_XML : XML := {|
  xml_Unmarshal := fun raw =>
    if str_eqb raw "lotl" then Ok (demo_lotl 390)
    else if str_eqb raw "de-1" then Ok (demo_national 7 [svcA])
    else if str_eqb raw "de-2" then Ok (demo_national 8 [svcA; svcB])
    else Err (errors_New "EOF") |}.

(** Every document is signed by certificate X, directly under its root. *)
Definition demo_XmlDsig : XmlDsig := {|
  etree_Root := fun b => Ok (Some (mkElement "" b [] "" [sample_sig]));
  ValidateSignature := fun roots _ _ root _ =>
    if existsb (fun c => str_eqb (cert_Raw c) "X") roots then Ok [root] else Err (errors_New "invalid signature");
  Canonicalize := fun e => Ok (el_Tag e) |}.

(** ** The network *)

Definition not_slash (c : Ascii.ascii) : bool := negb (bool_decide (c = Ascii.ascii_of_nat 47)).

Definition demo_url (raw : string) : result URL :=
  match cut_prefix "https://" raw, cut_prefix "http://" raw with
  | Some rest, _ => Ok (mkURL "https" (span_str not_slash rest).1)
  | None, Some rest => Ok (mkURL "http" (span_str not_slash rest).1)
  | None, None => Err (errors_New "parse error")
  end.

(** The published files: the national list is [de], or missing. *)
Definition demo_reply (de : option string) (url : string) : HttpReply :=
  let ok b := HttpResponse 200 "" b None in
  if str_eqb url "https://lotl.example/lotl.xml" then ok "lotl"
  else if str_eqb url "https://lotl.example/lotl.sha2" then ok (hex_EncodeToString (pad_to 32 "lotl"))
  else match de with
       | None => HttpFailure (errors_New "connection refused")
       | Some doc =>
           if str_eqb url "https://de.example/tl.xml" then ok doc
           else if str_eqb url "https://de.example/tl.sha2" then ok (hex_EncodeToString (pad_to 32 doc))
           else HttpResponse 404 "" "" None
       end.

Definition demo_Net (de : option string) (now : time) : Net := {|
  url_Parse := demo_url;
  url_Resolve := fun _ loc => Ok loc;
  http_RoundTrip := fun _ url => demo_reply de url;
  wall_clock := fun _ => now |}.

Definition demo_world : world := NewFetcher ["lotl.example"] (mkWorld ∅ ∅ [] [] ∅ 0).

Definition demo_config (mode : string) : Config :=
  mkConfig "https://lotl.example/lotl.xml" ["EU"] ["granted"] [] mode 100 "" 0 [] 1000000.

Definition demo_boot : Bootstrap := mkBootstrap 1 "C/2026/1944" ["X"] 10 true.

(** ** Cycles *)

Definition demo_Refresh (de : option string) (now : time) (mode : string) (prev : option Snapshot) :
    result Snapshot * world :=
  @Refresh toy_X509 toy_Asn1 double_GoAlloc merge_GoSort list_GoRange (demo_Net de now) demo_XmlDsig demo_XML
    toy_Files toy_Yaml (demo_config mode) prev demo_boot demo_world.

Definition get_snapshot (r : result Snapshot * world) : Snapshot :=
  match r.1 with Ok s => s | Err _ => sample_prev end.

(** A first cycle, and the next one, where the list has grown by one service. *)
Definition demo_first : Snapshot := get_snapshot (demo_Refresh (Some "de-1") 100 ModeHold None).
Definition demo_second : Snapshot := get_snapshot (demo_Refresh (Some "de-2") 200 ModeHold (Some demo_first)).

Example demo_first_serves :
  (fun t => (t_Code t, t_TLSequence t, a_FingerprintSHA256 <$> t_Anchors t)) <$> s_Territories demo_first =
    [("DE", 7, [hex_EncodeToString (pad_to 32 "X")])] /\ s_AdvertisedOJ demo_first = "C/2026/1944" /\
  s_LOTLPivotSeq demo_first = 300.
Proof. vm_compute. done. Qed.

Example demo_second_holds :
  (fun t => (t_Code t, t_TLSequence t, a_FingerprintSHA256 <$> t_Anchors t)) <$> s_Territories demo_second =
    [("DE", 8, [hex_EncodeToString (pad_to 32 "X")])] /\
  (fun p => (a_FingerprintSHA256 (p_Anchor p), p_FirstSeen p)) <$> s_Pending demo_second =
    [(hex_EncodeToString (pad_to 32 "Y"), 200)].
Proof. vm_compute. done. Qed.
