(* ===== verification/PipelineProps.v ===== *)
(** * Properties of the pipeline *)

From S2P Require Import Prelude Model ContentId Diff Tsl CertBody Slices Extract Internal Store.
From S2P Require Import Fetcher Verify Sources Pipeline Samples Demo.

(** ** Invariants of a whole cycle

    A predicate on the world that the basic effects keep (events, gauge, adding
    an allowed host, a fetch, and the plain-http opt-in of a territory the
    operator named) is kept by every step of a cycle. *)

Section CycleInv.
Context {X : X509} {AS : Asn1} {AL : GoAlloc} {SO : GoSort} {RA : GoRange} {N : Net} {XD : XmlDsig} {XM : XML}
  {FI : Files} {YA : Yaml} {CO : Codec} (cfg : Config) (P : world -> Prop).
Hypothesis P_emit : forall ev, eff_inv P (emit ev).
Hypothesis P_gauge : forall key b, eff_inv P (setDeclaredSourceFailed key b).
Hypothesis P_AllowURL : forall raw, eff_inv P (AllowURL raw).
Hypothesis P_Fetch : forall maxSize raw, eff_inv P (Fetch maxSize raw).
Hypothesis P_load : eff_inv P read_load.

(** The opt-in of a territory's own location, as the pointer set has it. *)
Definition opted_in (ps : pointerSet) : Prop :=
  forall code lp, allowsHTTP cfg code = true -> ps_pointerFor ps code = Ok lp -> eff_inv P (AllowHTTPFor (lp_URL lp)).

#[local] Hint Resolve P_emit P_gauge P_AllowURL P_Fetch P_load : go.

Lemma FetchDigest_inv maxSize url : eff_inv P (FetchDigest maxSize url).
Proof using P_Fetch. unfold FetchDigest. keeps. Qed.
#[local] Hint Resolve FetchDigest_inv : go.

Lemma digest_unchanged_inv maxSize url fresh last : eff_inv P (digest_unchanged maxSize url fresh last).
Proof using P_Fetch. unfold digest_unchanged. keeps. Qed.

Lemma process_pivot_inv maxSize ref signers : eff_inv P (process_pivot maxSize ref signers).
Proof using P_AllowURL P_Fetch. unfold process_pivot. keeps. Qed.
#[local] Hint Resolve digest_unchanged_inv process_pivot_inv : go.

Lemma walkPivots_inv maxSize refs signers l : eff_inv P (walkPivots maxSize refs signers l).
Proof using P_AllowURL P_Fetch. revert signers l. induction refs as [|ref refs IH]; intros signers l; simpl; keeps. Qed.
#[local] Hint Resolve walkPivots_inv : go.

Lemma lotl_Fetch_inv maxSize s last : eff_inv P (lotl_Fetch maxSize s last).
Proof using P_AllowURL P_Fetch. unfold lotl_Fetch. keeps. Qed.

Lemma lotl_Verify_inv maxSize s raw pinned : eff_inv P (lotl_Verify maxSize s raw pinned).
Proof using P_AllowURL P_Fetch. unfold lotl_Verify, lotl_authenticate. keeps. Qed.

Lemma national_Fetch_inv maxSize s last :
  (nt_allowHTTP s = true -> eff_inv P (AllowHTTPFor (nt_url s))) -> eff_inv P (national_Fetch maxSize s last).
Proof using P_AllowURL P_Fetch.
  intros Hh. unfold national_Fetch. apply eff_inv_bind; [destruct (nt_allowHTTP s); keeps|]. intros _. keeps.
Qed.

Lemma national_Verify_inv s raw pinned : eff_inv P (national_Verify s raw pinned).
Proof using. unfold national_Verify. keeps. Qed.
#[local] Hint Resolve lotl_Fetch_inv lotl_Verify_inv national_Verify_inv : go.

Lemma ingestLOTL_inv prev boot now : eff_inv P (ingestLOTL cfg prev boot now).
Proof using P_AllowURL P_Fetch. unfold ingestLOTL. keeps. Qed.

Section Territories.
Context (ps : pointerSet) (Hps : opted_in ps).

Lemma fetchTerritory_inv code prev now : eff_inv P (fetchTerritory cfg ps code prev now).
Proof using P_emit P_AllowURL P_Fetch Hps.
  unfold fetchTerritory, emit_stale. apply eff_inv_bind_Ok; [keeps|]. intros lp w w' [= Hlp _].
  apply eff_inv_catch; [apply national_Fetch_inv; intros Hh; exact (Hps code lp Hh Hlp)|]. intros [raw|err]; keeps.
Qed.
#[local] Hint Resolve fetchTerritory_inv : go.

Lemma ingestTerritory_inv code prev now : eff_inv P (ingestTerritory cfg ps code prev now).
Proof using P_emit P_AllowURL P_Fetch Hps. unfold ingestTerritory, emit_stale. keeps. Qed.
#[local] Hint Resolve ingestTerritory_inv : go.

Lemma ingest_territories_inv codes prev now : eff_inv P (ingest_territories cfg ps codes prev now).
Proof using P_emit P_AllowURL P_Fetch Hps. induction codes as [|code codes IH]; simpl; keeps. Qed.
End Territories.

Lemma applyDeclaredSources_inv prev next now : eff_inv P (applyDeclaredSources cfg prev next now).
Proof using P_emit P_gauge P_load. unfold applyDeclaredSources, declaredSet. keeps. Qed.

Lemma hold_anchors_inv ar prev now code anchors : eff_inv P (hold_anchors ar prev now code anchors).
Proof using P_emit. induction anchors as [|a anchors IH]; simpl; keeps. Qed.
#[local] Hint Resolve applyDeclaredSources_inv hold_anchors_inv : go.

Lemma hold_territories_inv ar prev now ts : eff_inv P (hold_territories ar prev now ts).
Proof using P_emit. induction ts as [|t ts IH]; simpl; keeps. Qed.
#[local] Hint Resolve hold_territories_inv : go.

Lemma applyHoldMode_inv prev next now : eff_inv P (applyHoldMode cfg prev next now).
Proof using P_emit. unfold applyHoldMode. keeps. Qed.
#[local] Hint Resolve applyHoldMode_inv : go.

Lemma Refresh_inv prev boot :
  (forall now w res w', ingestLOTL cfg prev boot now w = (Ok res, w') -> opted_in (lr_pointers res)) ->
  eff_inv P (Refresh cfg prev boot).
Proof using P_emit P_gauge P_AllowURL P_Fetch P_load.
  intros Ho. unfold Refresh. apply eff_inv_bind; [by intros w|]. intros now.
  apply eff_inv_bind_Ok; [apply ingestLOTL_inv|]. intros res w w' Hr.
  pose proof (ingest_territories_inv (lr_pointers res) (Ho _ _ _ _ Hr)). keeps.
Qed.
End CycleInv.

(** ** Egress of a whole cycle *)

Section Egress.
Context {X : X509} {AS : Asn1} {AL : GoAlloc} {SO : GoSort} {RA : GoRange} {N : Net} {XD : XmlDsig} {XM : XML}
  {FI : Files} {YA : Yaml} {CO : Codec} (cfg : Config).

Lemma Refresh_egress prev boot : eff_inv egress_ok (Refresh cfg prev boot).
Proof. apply Refresh_inv; [eauto with go..|]. intros now w res w' _ code lp _ _. eauto with go. Qed.

(** The plain-http hosts: those of [h0], and the host of the location the cycle's
    list of lists publishes for a territory the operator named. *)
Definition http_source (prev : option Snapshot) (boot : Bootstrap) (host : string) : Prop :=
  exists code now w1 res w2 lp u, code ∈ AllowHTTPTerritories cfg /\
    ingestLOTL cfg prev boot now w1 = (Ok res, w2) /\ ps_pointerFor (lr_pointers res) code = Ok lp /\
    url_Parse (lp_URL lp) = Ok u /\ host = ToLower (u_Hostname u).

Definition http_from (h0 : gset string) (prev : option Snapshot) (boot : Bootstrap) (w : world) : Prop :=
  forall host, host ∈ w_httpAllowed w -> host ∈ h0 \/ http_source prev boot host.

Lemma client_Do_http h0 prev boot fuel rd url : eff_inv (http_from h0 prev boot) (client_Do fuel rd url).
Proof.
  revert rd url. induction fuel as [|fuel IH]; intros rd url; simpl; [apply eff_inv_throw|].
  apply eff_inv_bind; [by intros w|]. intros [e|status loc body broken]; keeps.
Qed.

Lemma Fetch_http h0 prev boot maxSize url : eff_inv (http_from h0 prev boot) (Fetch maxSize url).
Proof.
  unfold Fetch. generalize 10%nat as fuel. intros fuel.
  apply eff_inv_bind; [apply eff_inv_of_result|]. intros u. apply eff_inv_bind; [by intros w|]. intros [].
  apply eff_inv_bind; [apply eff_inv_wrap, client_Do_http|]. intros [[status body] broken]. keeps.
Qed.

Lemma AllowURL_http h0 prev boot raw : eff_inv (http_from h0 prev boot) (AllowURL raw).
Proof.
  apply eff_inv_bind; [apply eff_inv_of_result|]. intros u w Hw. destruct (negb _); [done|].
  simpl. by destruct (str_eqb _ _).
Qed.

Lemma Refresh_http h0 prev boot : eff_inv (http_from h0 prev boot) (Refresh cfg prev boot).
Proof.
  apply Refresh_inv; [by intros ev w|by intros key b w|apply AllowURL_http|apply Fetch_http|by intros w|].
  intros now w1 res w2 Hl code lp Hc Hlp. unfold allowsHTTP in Hc.
  apply List.existsb_exists in Hc as (t & Ht%list_elem_of_In & ->%str_eqb_eq).
  unfold AllowHTTPFor. apply eff_inv_bind_Ok; [apply eff_inv_of_result|]. intros u w w' [= Hu _].
  destruct (str_eqb _ _); [apply eff_inv_throw|]. intros w3 Hw host. simpl. rewrite elem_of_union, elem_of_singleton.
  intros [->|Hin]; [right|by apply Hw]. unfold invalid_url, map_err in Hu.
  destruct (url_Parse (lp_URL lp)) as [u'|] eqn:E; [|done]. injection Hu as ->.
  by exists code, now, w1, res, w2, lp, u.
Qed.

(** C25 Egress safety of a whole cycle: however the cycle goes and whatever the
    network and the lists say, every request the fetcher starts (the redirects
    its HTTP client follows by itself aside) has a parseable URL whose host is on
    the allow-list; its scheme is https or, only when the host is the one the list
    of the lists publishes in this cycle for a territory the operator named (or was
    opted in before the cycle), http. *)
Theorem refresh_egress_safe prev boot w :
  egress_ok w ->
  let w' := (Refresh cfg prev boot w).2 in
  forall r, r ∈ w_trace w' -> rq_redirect r = false ->
    exists u, url_Parse (rq_URL r) = Ok u /\ ToLower (u_Hostname u) ∈ w_allowed w' /\
      (u_Scheme u = "https" \/
       u_Scheme u = "http" /\
         (ToLower (u_Hostname u) ∈ w_httpAllowed w \/ http_source prev boot (ToLower (u_Hostname u)))).
Proof.
  intros He w' r Hr Hrd.
  destruct (Refresh_egress prev boot w He r Hr Hrd) as (u & Hu & Hs & Ha). fold w' in Hs, Ha.
  exists u. split_and!; [done..|]. unfold schemeOK in Hs.
  destruct (str_eqb (u_Scheme u) "https") eqn:E; [left; by apply str_eqb_eq|].
  destruct (str_eqb (u_Scheme u) "http") eqn:E'; simpl in Hs; [|done]. apply str_eqb_eq in E'.
  apply bool_decide_eq_true in Hs. right. split; [done|].
  apply (Refresh_http (w_httpAllowed w) prev boot w); [by left|exact Hs].
Qed.
End Egress.

(** ** Territory expansion *)

Section Expand.
Context {SO : GoSort}.

Definition codes_inv (acc : gset string * list string) : Prop := acc.1 = list_to_set acc.2 /\ NoDup acc.2.

Lemma add_code_inv acc code :
  codes_inv acc -> codes_inv (add_code acc code) /\ forall c, c ∈ (add_code acc code).2 <-> c ∈ acc.2 \/ c = code.
Proof.
  destruct acc as [seen out]. intros [Hs Hnd]. simpl in *. unfold add_code. case_bool_decide as Hin.
  - split; [done|]. intros c. rewrite Hs in Hin. apply elem_of_list_to_set in Hin. simpl. naive_solver.
  - split; [split|]; simpl.
    + rewrite list_to_set_app_L, Hs. set_solver.
    + apply NoDup_app. split_and!; [done| |apply NoDup_singleton].
      intros x Hx ->%list_elem_of_singleton. apply Hin. rewrite Hs. by apply elem_of_list_to_set.
    + intros c. rewrite elem_of_app, list_elem_of_singleton. done.
Qed.

Lemma add_codes_inv codes acc :
  codes_inv acc ->
  codes_inv (foldl add_code acc codes) /\ forall c, c ∈ (foldl add_code acc codes).2 <-> c ∈ acc.2 \/ c ∈ codes.
Proof.
  revert acc. induction codes as [|code codes IH]; intros acc Hi; simpl; [set_solver|].
  destruct (add_code_inv acc code Hi) as [Hi' Hc]. destruct (IH _ Hi') as [Hi'' Hc']. split; [done|].
  intros c. rewrite Hc', Hc, elem_of_cons. tauto.
Qed.

Lemma expandTerritories_spec configured ps :
  NoDup (expandTerritories configured ps) /\
  Sorted (not_less str_ltb) (expandTerritories configured ps) /\
  forall c, c ∈ expandTerritories configured ps <->
    (c ∈ configured /\ c <> TerritoryGroupEU) \/ (TerritoryGroupEU ∈ configured /\ c ∈ ps_territories ps).
Proof.
  unfold expandTerritories, sort_Strings.
  assert (Hg : forall acc, codes_inv acc ->
    let acc' := foldl (fun acc code => if str_eqb code TerritoryGroupEU then foldl add_code acc (ps_territories ps)
                                       else add_code acc code) acc configured in
    codes_inv acc' /\ forall c, c ∈ acc'.2 <-> c ∈ acc.2 \/ (c ∈ configured /\ c <> TerritoryGroupEU) \/
      (TerritoryGroupEU ∈ configured /\ c ∈ ps_territories ps)).
  { induction configured as [|code rest IH]; intros acc Hi; simpl; [set_solver|].
    destruct (str_eqb code TerritoryGroupEU) eqn:E.
    - apply str_eqb_eq in E as ->. destruct (add_codes_inv (ps_territories ps) acc Hi) as [Hi' Hc].
      destruct (IH _ Hi') as [Hi'' Hc']. split; [done|]. intros c. rewrite Hc', Hc, !elem_of_cons. naive_solver.
    - apply str_eqb_neq in E. destruct (add_code_inv acc code Hi) as [Hi' Hc].
      destruct (IH _ Hi') as [Hi'' Hc']. split; [done|]. intros c. rewrite Hc', Hc, !elem_of_cons. naive_solver. }
  destruct (Hg (∅, [])) as [[_ Hnd] Hc]; [by split; [|constructor]|]. split_and!.
  - by apply NoDup_sort_Slice.
  - apply sort_Slice_sorted, _.
  - intros c. rewrite elem_of_sort_Slice, Hc. simpl. set_solver.
Qed.

(** The configured territory list is never silently narrowed: the territories
    of a cycle are the codes configured (the group EU aside) plus, when EU is
    configured, every territory the list of the lists has a pointer for; each
    once, in byte order. *)
Theorem expand_territories_exact configured ps :
  NoDup (expandTerritories configured ps) /\
  Sorted (not_less str_ltb) (expandTerritories configured ps) /\
  forall c, c ∈ expandTerritories configured ps <->
    (c ∈ configured /\ c <> TerritoryGroupEU) \/ (TerritoryGroupEU ∈ configured /\ c ∈ ps_territories ps).
Proof. apply expandTerritories_spec. Qed.
End Expand.

(** ** Hold mode *)

Section Hold.
Context {SO : GoSort} (cfg : Config).

Definition is_held (f : Fate) : bool := match f with Hold _ _ => true | _ => false end.
Definition held_as (a : Anchor) (f : Fate) : option PendingAnchor :=
  match f with Hold firstSeen _ => Some (mkPending a firstSeen) | _ => None end.

Lemma hold_anchors_run ar prev now code anchors w :
  exists w', hold_anchors ar prev now code anchors w =
    (Ok (List.filter (fun a => negb (is_held (hold_fate ar prev now code a))) anchors,
         omap (fun a => held_as a (hold_fate ar prev now code a)) anchors), w').
Proof.
  revert w. induction anchors as [|a anchors IH]; intros w; csimpl; [eauto|].
  destruct (hold_fate ar prev now code a) as [| |fs []] eqn:E; unfold eff_bind, emit, eff_modify, eff_ret; csimpl;
    match goal with |- context [hold_anchors _ _ _ _ _ ?w1] => destruct (IH w1) as [w' ->] end; eauto.
Qed.

Definition hold_result (prev : option Snapshot) (now : time) (t : Territory) : Territory :=
  set_t_Anchors t (List.filter (fun a => negb (is_held (hold_fate (HoldAutoRelease cfg) prev now (t_Code t) a))) (t_Anchors t)).
Definition hold_pending (prev : option Snapshot) (now : time) (t : Territory) : list PendingAnchor :=
  omap (fun a => held_as a (hold_fate (HoldAutoRelease cfg) prev now (t_Code t) a)) (t_Anchors t).

Lemma hold_territories_run prev now ts w :
  exists w', hold_territories (HoldAutoRelease cfg) prev now ts w =
    (Ok (hold_result prev now <$> ts, flat_map (hold_pending prev now) ts), w').
Proof.
  revert w. induction ts as [|t ts IH]; intros w; simpl; [eauto|]. unfold eff_bind.
  destruct (hold_anchors_run (HoldAutoRelease cfg) prev now (t_Code t) (t_Anchors t) w) as [w1 ->].
  destruct (IH w1) as [w2 ->]. unfold eff_ret. eauto.
Qed.

Lemma applyHoldMode_run prev next now w :
  exists w', applyHoldMode cfg prev next now w =
    (Ok (if str_eqb (ActivationMode cfg) ModeHold
         then set_s_Pending (set_s_Territories next (hold_result prev now <$> s_Territories next))
                (sort_Slice pending_less (s_Pending next ++ flat_map (hold_pending prev now) (s_Territories next)))
         else next), w').
Proof.
  unfold applyHoldMode. destruct (str_eqb (ActivationMode cfg) ModeHold); simpl; [|eauto].
  unfold eff_bind. destruct (hold_territories_run prev now (s_Territories next) w) as [w' ->]. eauto.
Qed.

Definition hold_key (code : string) (a : Anchor) : string := code +:+ "/" +:+ a_FingerprintSHA256 a.

(** Held before, for at least the automatic release period. *)
Definition released (p : Snapshot) (now : time) (key : string) : Prop :=
  exists pa, prevPending (Some p) !! key = Some pa /\ 0 < HoldAutoRelease cfg /\
             HoldAutoRelease cfg <= time_Sub now (p_FirstSeen pa).

Lemma hold_fate_spec p now code a :
  let key := hold_key code a in
  match hold_fate (HoldAutoRelease cfg) (Some p) now code a with
  | Keep => key ∈ prevActive (Some p)
  | Release => key ∉ prevActive (Some p) /\ released p now key
  | Hold fs isNew => key ∉ prevActive (Some p) /\ ~ released p now key /\
      fs = from_option p_FirstSeen now (prevPending (Some p) !! key) /\
      isNew = bool_decide (prevPending (Some p) !! key = None)
  end.
Proof.
  unfold hold_fate. fold (hold_key code a). set (key := hold_key code a). cbv zeta.
  rewrite (bool_decide_eq_false_2 (Some p = None)) by done. rewrite orb_false_r.
  case_bool_decide as Hin; [done|]. unfold released.
  destruct (prevPending (Some p) !! key) as [pa|] eqn:E.
  - destruct (Z.ltb_spec 0 (HoldAutoRelease cfg)), (Z.leb_spec (HoldAutoRelease cfg) (time_Sub now (p_FirstSeen pa)));
      simpl; split_and!; try done; [by exists pa|..]; intros (pa' & [= <-] & ? & ?); lia.
  - split_and!; try done. by intros (pa & ? & _).
Qed.

(** An anchor with this key goes live: there is nothing to compare with (the
    baseline), its certificate was served for the territory before, or it has been
    pending for the automatic release period. *)
Definition goes_live (prev : option Snapshot) (now : time) (key : string) : Prop :=
  match prev with None => True | Some p => key ∈ prevActive prev \/ released p now key end.

#[global] Instance goes_live_dec prev now key : Decision (goes_live prev now key).
Proof.
  unfold goes_live. destruct prev as [p|]; [|apply _]. apply or_dec; [apply _|]. unfold released.
  destruct (prevPending (Some p) !! key) as [pa|].
  - destruct (decide (0 < HoldAutoRelease cfg /\ HoldAutoRelease cfg <= time_Sub now (p_FirstSeen pa))) as [H|H].
    + left. by exists pa.
    + right. intros (pa' & [= <-] & ?). tauto.
  - right. by intros (pa & ? & _).
Defined.

(** The anchors of a territory that go live, and the pending entries of the others. *)
Definition live_anchors (prev : option Snapshot) (now : time) (t : Territory) : list Anchor :=
  filter (fun a => goes_live prev now (hold_key (t_Code t) a)) (t_Anchors t).

Definition held_anchors (prev : option Snapshot) (now : time) (t : Territory) : list PendingAnchor :=
  (fun a => mkPending a (from_option p_FirstSeen now (prevPending prev !! hold_key (t_Code t) a))) <$>
    filter (fun a => ~ goes_live prev now (hold_key (t_Code t) a)) (t_Anchors t).

Lemma hold_fate_live prev now code a :
  is_held (hold_fate (HoldAutoRelease cfg) prev now code a) = negb (bool_decide (goes_live prev now (hold_key code a))) /\
  held_as a (hold_fate (HoldAutoRelease cfg) prev now code a) =
    if bool_decide (goes_live prev now (hold_key code a)) then None
    else Some (mkPending a (from_option p_FirstSeen now (prevPending prev !! hold_key code a))).
Proof.
  destruct prev as [p|].
  - pose proof (hold_fate_spec p now code a) as Hf. cbv zeta in Hf. unfold goes_live.
    destruct (hold_fate _ _ _ _ _); simpl in *;
      [rewrite bool_decide_eq_true_2 by tauto..|rewrite bool_decide_eq_false_2 by tauto]; [done..|].
    destruct Hf as (_ & _ & -> & _). done.
  - unfold hold_fate. rewrite (bool_decide_eq_true_2 (None = None)), orb_true_r by done. done.
Qed.

Lemma hold_result_live prev now t : hold_result prev now t = set_t_Anchors t (live_anchors prev now t).
Proof.
  unfold hold_result, live_anchors. f_equal. induction (t_Anchors t) as [|a l IH]; [done|]. simpl.
  rewrite filter_cons, (proj1 (hold_fate_live prev now (t_Code t) a)), negb_involutive, IH.
  case_decide; [rewrite bool_decide_eq_true_2|rewrite bool_decide_eq_false_2]; done.
Qed.

Lemma hold_pending_held prev now t : hold_pending prev now t = held_anchors prev now t.
Proof.
  unfold hold_pending, held_anchors. induction (t_Anchors t) as [|a l IH]; [done|]. csimpl.
  rewrite filter_cons, (proj2 (hold_fate_live prev now (t_Code t) a)), IH.
  destruct (decide (goes_live prev now (hold_key (t_Code t) a))).
  - by rewrite bool_decide_eq_true_2, decide_False by tauto.
  - by rewrite bool_decide_eq_false_2, decide_True by done.
Qed.

(** C23 Hold mode lets an addition through only after approval time: every
    territory keeps, in order, exactly the anchors of the cycle whose certificate was
    served for it before or has been pending for the configured automatic release
    period (all of them when there is no previous snapshot, the baseline); every
    other one is pending, once for each time it is listed, with the time it was first
    seen; the pending list is sorted by fingerprint; nothing else changes. *)
Theorem hold_mode_exact prev next now w :
  ActivationMode cfg = ModeHold ->
  match applyHoldMode cfg prev next now w with
  | (Err _, _) => False
  | (Ok next', _) =>
      s_Territories next' = (fun t => set_t_Anchors t (live_anchors prev now t)) <$> s_Territories next /\
      s_Pending next' ≡ₚ s_Pending next ++ flat_map (held_anchors prev now) (s_Territories next) /\
      Sorted (not_less pending_less) (s_Pending next') /\
      next' = set_s_Pending (set_s_Territories next (s_Territories next')) (s_Pending next')
  end.
Proof.
  intros Hm. destruct (applyHoldMode_run prev next now w) as [w' ->]. rewrite Hm. simpl. split_and!.
  - apply list_fmap_ext. intros i t _. apply hold_result_live.
  - rewrite sort_Slice_perm. f_equiv. induction (s_Territories next) as [|t ts IH]; [done|]. simpl.
    by rewrite hold_pending_held, IH.
  - apply sort_Slice_sorted. unfold pending_less. apply _.
  - done.
Qed.
End Hold.

(** ** On the concrete environment *)

Lemma refresh_egress_safe_witness :
  Forall (fun r => exists u, demo_url (rq_URL r) = Ok u /\ u_Scheme u = "https")
    (w_trace (demo_Refresh (Some "de-1") 100 ModeHold None).2).
Proof.
  assert (Hinit : @egress_ok (demo_Net (Some "de-1") 100) demo_world).
  { intros r Hr. vm_compute in Hr. by apply elem_of_nil in Hr. }
  apply Forall_forall. intros r Hr.
  assert (Hrd : rq_redirect r = false).
  { assert (Hall : Forall (fun r => rq_redirect r = false)
      (w_trace (demo_Refresh (Some "de-1") 100 ModeHold None).2)) by by_decide.
    rewrite Forall_forall in Hall. by apply Hall. }
  destruct (@refresh_egress_safe toy_X509 toy_Asn1 double_GoAlloc merge_GoSort list_GoRange (demo_Net (Some "de-1") 100)
    demo_XmlDsig demo_XML toy_Files toy_Yaml (demo_config ModeHold) None demo_boot demo_world
    Hinit r Hr Hrd) as (u & Hu & _ & [Hs|[_ [Hn|(code & _ & _ & _ & _ & _ & _ & Hn & _)]]]);
    [|by apply elem_of_empty in Hn|by apply elem_of_nil in Hn].
  exists u. split; [exact Hu|exact Hs].
Defined.

(** What the second sample lists and the first does not serve is held. *)
Lemma hold_mode_exact_witness :
  match applyHoldMode (demo_config ModeHold) (Some sample_prev) sample_next 500 demo_world with
  | (Ok next', _) =>
      s_Territories next' =
        (fun t => set_t_Anchors t (live_anchors (demo_config ModeHold) (Some sample_prev) 500 t)) <$> s_Territories sample_next /\
      s_Pending next' <> [] /\ Sorted (not_less pending_less) (s_Pending next')
  | (Err _, _) => False
  end.
Proof.
  pose proof (hold_mode_exact (demo_config ModeHold) (Some sample_prev) sample_next 500 demo_world eq_refl) as H.
  destruct (applyHoldMode _ _ _ _ _) as [[next'|e] w']; [|exact H]. destruct H as (Ht & Hp & Hs & _).
  split; [exact Ht|]. split; [|exact Hs]. intros E. rewrite E in Hp. apply Permutation_length in Hp.
  vm_compute in Hp. discriminate Hp.
Defined.
