(* ===== verification/Cycle.v ===== *)
(** * What one cycle produces

    Where every part of the snapshot returned by [Refresh] comes from. *)

From S2P Require Import Prelude Model ContentId Diff Tsl CertBody Slices Extract Internal Store.
From S2P Require Import Fetcher Verify Sources Pipeline PipelineProps Samples Demo.

Section Cycle.
Context {X : X509} {AS : Asn1} {AL : GoAlloc} {SO : GoSort} {RA : GoRange} {N : Net} {XD : XmlDsig} {XM : XML}
  {FI : Files} {YA : Yaml} {CO : Codec} (cfg : Config).

(** ** Territories *)

Definition prev_territory (prev : option Snapshot) (code : string) : option Territory :=
  prev ≫= (fun p => Snapshot_Territory p code).

(** A list verified in this cycle against the signers its pointer pins, that
    names this territory and does not go back in sequence. *)
Record verified_list (ps : pointerSet) (code : string) (prev : option Snapshot) (now : time) (raw : Raw)
    (tl : TrustedList) (anchors : list Anchor) (ws : list ExtractionWarning) : Prop := {
  vl_signed : exists lp pinned wall verified signer,
    ps_pointerFor ps code = Ok lp /\ parseDERCerts (lp_SignersDER lp) = Ok pinned /\
    Verify wall (raw_Bytes raw) pinned = Ok (verified, signer) /\ Parse verified = Ok tl;
  vl_territory : si_SchemeTerritory (tl_SchemeInformation tl) = code;
  vl_sequence : forall t0, prev_territory prev code = Some t0 ->
    t_TLSequence t0 <= TSLSequenceNumber (tl_SchemeInformation tl);
  vl_extract : ExtractAnchors tl code (AcceptedStatuses cfg) (AcceptedServiceTypes cfg) now = Ok (anchors, ws)
}.

(** The previous entry may be reused without a download: its list has a digest
    and is not stale. *)
Definition reusable (t : Territory) (now : time) : Prop :=
  t_SourceDigest t <> "" /\ is_Some (t_NextUpdate t) /\ StaleAt t now (StaleGrace cfg) = false.

(** Where an entry with data comes from: a list verified in this cycle, the
    previous entry confirmed by its digest, or the previous entry carried over. *)
Inductive data_from (ps : pointerSet) (prev : option Snapshot) (now : time) (code : string) : Territory -> Prop :=
| from_fresh raw tl anchors ws :
    verified_list ps code prev now raw tl anchors ws ->
    data_from ps prev now code (new_territory code raw tl anchors ws)
| from_unchanged t0 :
    prev_territory prev code = Some t0 -> reusable t0 now ->
    data_from ps prev now code (set_t_CarriedOver t0 false)
| from_carried t0 reason :
    prev_territory prev code = Some t0 -> t_Failed t0 = false ->
    data_from ps prev now code (set_t_CarriedOverReason (set_t_CarriedOver t0 true) reason).

(** An entry without: there was nothing to fall back on. *)
Definition failed_from (prev : option Snapshot) (code : string) (t : Territory) : Prop :=
  exists err, t = failed_territory code err /\
    forall t0, prev_territory prev code = Some t0 -> t_Failed t0 = true.

(** ** The unchanged mark *)

(** After the allow-list, the shared tail of both [Fetch] methods: an unchanged
    mark means the pre-check was permitted. *)
Lemma fetch_tail_unchanged {A} maxSize url fresh last (full : eff world A) w e w' :
  never_unchanged full ->
  eff_bind (digest_unchanged maxSize url fresh last) (fun unchanged =>
    if unchanged : bool then eff_throw errUnchanged else full) w = (Err e, w') ->
  errors_Is e ErrUnchanged = true -> fresh = true /\ exists l, last = Some l /\ raw_Digest l <> "".
Proof.
  intros Hf [Hd|(b & w1 & Hd & Hk)]%eff_bind_Err He.
  - exfalso. unfold digest_unchanged in Hd. destruct last as [l|]; [|done].
    destruct (_ && _); [|done]. unfold eff_catch in Hd. by destruct (FetchDigest _ _ w).
  - destruct b; [|by rewrite (Hf _ _ _ Hk) in He].
    apply digest_unchanged_false in Hd as (l & -> & -> & Hl); [|done]. eauto.
Qed.

Lemma national_Fetch_unchanged maxSize s last w e w' :
  national_Fetch maxSize s last w = (Err e, w') -> errors_Is e ErrUnchanged = true ->
  nt_prevFresh s = true /\ exists l, last = Some l /\ raw_Digest l <> "".
Proof.
  unfold national_Fetch. intros H He. apply eff_bind_Err in H as [H|([] & w1 & _ & H)].
  { destruct (nt_allowHTTP s); [|done]. by rewrite (AllowHTTPFor_never_unchanged _ _ _ _ H) in He. }
  apply eff_bind_Err in H as [H|([] & w2 & _ & H)].
  { by rewrite (AllowURL_never_unchanged _ _ _ _ H) in He. }
  eapply fetch_tail_unchanged; [|exact H|done].
  apply never_unchanged_bind; [apply Fetch_never_unchanged|]. done.
Qed.

Lemma lotl_Fetch_unchanged maxSize s last w e w' :
  lotl_Fetch maxSize s last w = (Err e, w') -> errors_Is e ErrUnchanged = true ->
  eu_prevFresh s = true /\ exists l, last = Some l /\ raw_Digest l <> "".
Proof.
  unfold lotl_Fetch. intros H He. apply eff_bind_Err in H as [H|([] & w2 & _ & H)].
  { by rewrite (AllowURL_never_unchanged _ _ _ _ H) in He. }
  eapply fetch_tail_unchanged; [|exact H|done].
  apply never_unchanged_bind; [|done]. intros w0 e0 w0' H0. unfold eff_wrap in H0.
  destruct (Fetch maxSize _ w0) as [[b|e1] w1] eqn:Ef; [done|]. simpl in H0. injection H0 as <- _.
  rewrite errorf_Is. by eapply Fetch_never_unchanged.
Qed.

(** ** One territory *)

Lemma fetchTerritory_Ok ps code prev now w t w' :
  fetchTerritory cfg ps code prev now w = (Ok t, w') -> data_from ps prev now code t.
Proof.
  unfold fetchTerritory. intros H. step_Ok H. rename a into lp. fold (prev_territory prev code) in H.
  set (src := national_source _ _ _ _ _) in H.
  unfold eff_catch in H. destruct (national_Fetch _ src _ w) as [[raw|err] w1] eqn:Hf.
  - apply eff_bind_Ok in H as ([b src'] & w2 & Hv & H).
    apply national_Verify_Ok in Hv as (pinned & tl & Hp & Hok).
    step_Ok H. destruct a as [anchors src'']. apply national_Extract_Ok in Hs0 as (tl' & Hl & Hl' & Hx).
    rewrite Hl' in H. apply eff_bind_Ok in H as ([] & w3 & _ & H). injection H as <- _.
    destruct Hok as [Hlist Hsigned Hterr Hseq (Hc & Hst & Hty & Hn)].
    rewrite Hl in Hlist. injection Hlist as ->. rewrite Hc, Hst, Hty, Hn in Hx.
    apply from_fresh. destruct Hsigned as (wall & verified & signer & Hver & Hpar).
    split; [by exists lp, pinned, wall, verified, signer|done| |done].
    intros t0 Ht0. subst src. simpl in Hseq. rewrite Ht0 in Hseq. by apply Hseq.
  - destruct (errors_Is err ErrUnchanged) eqn:He; [|done].
    destruct (prev_territory prev code) as [t0|] eqn:Ht0; [|done]. injection H as <- _.
    apply national_Fetch_unchanged in Hf as [Hfresh _]; [|done].
    apply from_unchanged; [done|]. subst src. simpl in Hfresh. unfold reusable.
    rewrite !andb_true_iff, !negb_true_iff, str_eqb_neq, bool_decide_eq_true in Hfresh. tauto.
Qed.

Lemma emit_stale_run t now w : exists w', emit_stale cfg t now w = (Ok tt, w').
Proof. unfold emit_stale. repeat case_match; by eexists. Qed.

Lemma ingestTerritory_run ps code prev now w r w' :
  ingestTerritory cfg ps code prev now w = (r, w') ->
  match r with
  | Ok t => data_from ps prev now code t
  | Err err => failed_from prev code (failed_territory code err)
  end.
Proof.
  unfold ingestTerritory, eff_catch. destruct (fetchTerritory _ _ _ _ _ w) as [[t|err] w1] eqn:Hf.
  { intros [= <- _]. by eapply fetchTerritory_Ok. }
  fold (prev_territory prev code). unfold eff_bind, emit, eff_modify.
  destruct (if errors_Is err ErrEgressBlocked then _ else _) as [[[]|e0] w2] eqn:Hev;
    [|by destruct (errors_Is err ErrEgressBlocked)].
  destruct (prev_territory prev code) as [t0|] eqn:Ht0.
  - destruct (t_Failed t0) eqn:Hfl.
    + intros [= <- _]. eexists. split; [done|]. intros t1 Ht1. rewrite Ht0 in Ht1. by injection Ht1 as <-.
    + match goal with |- context [emit_stale cfg ?t now w2] => destruct (emit_stale_run t now w2) as [w3 ->] end.
      intros [= <- _]. by apply from_carried.
  - intros [= <- _]. eexists. split; [done|]. intros t1 Ht1. by rewrite Ht0 in Ht1.
Qed.

Lemma ingest_territories_Ok ps codes prev now w ts n w' :
  ingest_territories cfg ps codes prev now w = (Ok (ts, n), w') ->
  Forall2 (fun code t => data_from ps prev now code t \/ failed_from prev code t) codes ts /\
  (n <> 0%nat -> exists code t, code ∈ codes /\ t ∈ ts /\ data_from ps prev now code t).
Proof.
  revert w ts n w'. induction codes as [|code codes IH]; intros w ts n w'; simpl.
  { intros [= <- <- _]. split; [constructor|done]. }
  unfold eff_catch. destruct (ingestTerritory _ _ _ _ _ w) as [r w1] eqn:Hi.
  apply ingestTerritory_run in Hi. intros ([ts' n'] & w2 & Hr & H)%eff_bind_Ok.
  apply IH in Hr as [Hf Hd]. destruct r as [t|err]; injection H as <- <- _; (split; [constructor; auto|]).
  - intros _. exists code, t. set_solver.
  - intros Hn. destruct (Hd Hn) as (c & t & ? & ? & ?). exists c, t. set_solver.
Qed.

(** ** The list of the lists *)

Inductive lotl_from (prev : option Snapshot) (boot : Bootstrap) (now : time) : lotlResult -> Prop :=
| lotl_carried p : prev = Some p -> lotl_skip_ok prev now = true -> lotl_from prev boot now (carried_lotl p)
| lotl_fresh pinnedDER pivotSeq pinned src src' raw lotl :
    lotl_pinned prev boot = Ok (pinnedDER, pivotSeq) -> parseDERCerts pinnedDER = Ok pinned ->
    eu_now src = now -> eu_pivotSeq src = pivotSeq -> lotl_ok src src' pinned (raw_Bytes raw) lotl ->
    lotl_from prev boot now (fresh_lotl src' raw lotl).

Lemma ingestLOTL_Ok prev boot now w res w' :
  ingestLOTL cfg prev boot now w = (Ok res, w') -> lotl_from prev boot now res.
Proof.
  unfold ingestLOTL, eff_catch. set (src0 := mkLOTL _ _ _ _ _ _) at 1.
  destruct (lotl_Fetch _ src0 _ w) as [[raw|err] w1] eqn:Hf.
  - intros H. step_Ok H. destruct a as [pinnedDER pivotSeq].
    apply eff_bind_Ok in H as ([b src'] & w2 & Hv & H).
    apply lotl_Verify_Ok in Hv as (pinned & lotl & Hp & Hok). rewrite (lo_list _ _ _ _ _ Hok) in H.
    injection H as <- _. eapply lotl_fresh; [exact Hs|exact Hp| | |exact Hok]; done.
  - destruct (errors_Is err ErrUnchanged) eqn:He; [|done].
    destruct prev as [p|]; [|done]. intros [= <- _].
    apply lotl_Fetch_unchanged in Hf as [Hfr _]; [|done]. by apply lotl_carried.
Qed.

(** ** The whole cycle *)

(** The certificates a cycle may start from: the ones the previous snapshot
    ended with, else the operator's bootstrap. *)
Definition starting_signers (prev : option Snapshot) (boot : Bootstrap) (certs : list Certificate) (seq : Z) : Prop :=
  exists der, lotl_pinned prev boot = Ok (der, seq) /\ parseDERCerts der = Ok certs.

Lemma applyDeclaredSources_run prev next now w r w' :
  applyDeclaredSources cfg prev next now w = (r, w') ->
  w_loads w' = S (w_loads w) /\
  exists state, r = Ok (set_s_DeclaredLoad (set_s_Internal next
      (match LoadInternal (w_loads w) (InternalTrustSource cfg) now with
       | Ok set => set | Err _ => from_option s_Internal [] prev end))
      (Some (mkDeclaredReport state)), mkDeclaredReport state).
Proof.
  unfold applyDeclaredSources, eff_bind, read_load, declaredSet, emit, setDeclaredSourceFailed, eff_modify, eff_ret.
  destruct (LoadInternal _ _ _); unfold eff_bind; intros [= <- <-]; eauto.
Qed.

(** ** Loads of the operator's files *)

Definition loads_are (n : nat) (w : world) : Prop := w_loads w = n.

Lemma client_Do_loads n fuel rd url : eff_inv (loads_are n) (client_Do fuel rd url).
Proof.
  revert rd url. induction fuel as [|fuel IH]; intros rd url; simpl; [apply eff_inv_throw|].
  apply eff_inv_bind; [by intros w|]. intros [e|status loc body broken]; keeps.
Qed.

Lemma Fetch_loads n maxSize url : eff_inv (loads_are n) (Fetch maxSize url).
Proof.
  unfold Fetch. generalize 10%nat as fuel. intros fuel.
  apply eff_inv_bind; [apply eff_inv_of_result|]. intros u. apply eff_inv_bind; [by intros w|]. intros [].
  apply eff_inv_bind; [apply eff_inv_wrap, client_Do_loads|]. intros [[status body] broken]. keeps.
Qed.

Lemma AllowURL_loads n raw : eff_inv (loads_are n) (AllowURL raw).
Proof.
  apply eff_inv_bind; [apply eff_inv_of_result|]. intros u w Hw. destruct (negb _); [done|].
  simpl. by destruct (str_eqb _ _).
Qed.

Lemma AllowHTTPFor_loads n raw : eff_inv (loads_are n) (AllowHTTPFor raw).
Proof. apply eff_inv_bind; [apply eff_inv_of_result|]. intros u. destruct (str_eqb _ _); [apply eff_inv_throw|by intros w]. Qed.

(** A cycle reads the operator's file once, after everything was fetched. *)
Lemma ingestLOTL_loads prev boot now w : w_loads (ingestLOTL cfg prev boot now w).2 = w_loads w.
Proof. by apply (ingestLOTL_inv cfg (loads_are (w_loads w)) (AllowURL_loads _) (Fetch_loads _)). Qed.

Lemma ingest_territories_loads ps codes prev now w : w_loads (ingest_territories cfg ps codes prev now w).2 = w_loads w.
Proof.
  apply (ingest_territories_inv cfg (loads_are (w_loads w)));
    [by intros ev w1|apply AllowURL_loads|apply Fetch_loads|intros code lp _ _; apply AllowHTTPFor_loads|done].
Qed.

Lemma applyHoldMode_loads prev next now w : w_loads (applyHoldMode cfg prev next now w).2 = w_loads w.
Proof. by apply (applyHoldMode_inv cfg (loads_are (w_loads w))); [intros ev w1|]. Qed.

(** Everything known of the snapshot a cycle returns; [load] is the number of the
    load of the operator's file it made. *)
Record cycle_ok (load : nat) (prev : option Snapshot) (boot : Bootstrap) (next : Snapshot) : Prop := {
  cy_parts : exists now res ts,
    lotl_from prev boot now res /\
    Forall2 (fun code t => data_from (lr_pointers res) prev now code t \/ failed_from prev code t)
      (expandTerritories (cfg_Territories cfg) (lr_pointers res)) ts /\
    (ts = [] \/ exists code t, t ∈ ts /\ data_from (lr_pointers res) prev now code t) /\
    s_GeneratedAt next = now /\ s_LOTLSequence next = lr_sequence res /\ s_LOTLNextUpdate next = lr_nextUpdate res /\
    s_LOTLSignersDER next = lr_signersDER res /\ s_LOTLPivotSeq next = lr_pivotSeq res /\
    s_LOTLPointers next = lr_pointers res /\ s_LOTLDigest next = lr_digest res /\
    s_Territories next = (if str_eqb (ActivationMode cfg) ModeHold then hold_result cfg prev now <$> ts else ts) /\
    s_Pending next = (if str_eqb (ActivationMode cfg) ModeHold
                      then sort_Slice pending_less (flat_map (hold_pending cfg prev now) ts) else []) /\
    s_Internal next = match LoadInternal load (InternalTrustSource cfg) now with
                      | Ok set => set | Err _ => from_option s_Internal [] prev end;
  cy_sequence : forall p, prev = Some p -> s_LOTLSequence p <= s_LOTLSequence next;
  cy_id : s_ID next = compute_id next;
  cy_prev : s_PrevID next = from_option s_ID "" prev;
  cy_diff : s_Diff next = Some (ComputeDiff prev next)
}.

Lemma Refresh_cycle_loads prev boot w next w' :
  Refresh cfg prev boot w = (Ok next, w') -> cycle_ok (w_loads w) prev boot next /\ w_loads w' = S (w_loads w).
Proof.
  unfold Refresh. intros H. apply eff_bind_Ok in H as (now & w1 & [= _ <-] & H).
  apply eff_bind_Ok in H as (res & w2 & Hl & H).
  pose proof (ingestLOTL_loads prev boot now w) as Hn1. rewrite Hl in Hn1. simpl in Hn1. apply ingestLOTL_Ok in Hl.
  destruct (match prev with Some p => _ | None => _ end) eqn:Hseq; [done|].
  apply eff_bind_Ok in H as ([ts n] & w3 & Ht & H).
  match type of Ht with ingest_territories _ ?ps ?cs _ _ _ = _ =>
    pose proof (ingest_territories_loads ps cs prev now w2) as Hn2 end. rewrite Ht in Hn2. simpl in Hn2.
  apply ingest_territories_Ok in Ht as [Hts Hdata].
  destruct (bool_decide (0 < _)%nat && _) eqn:Hall; [done|].
  apply eff_bind_Ok in H as ([next1 rep] & w4 & Hd & H).
  apply applyDeclaredSources_run in Hd as (Hn3 & state & Hd). injection Hd as -> ->.
  apply eff_bind_Ok in H as (next2 & w5 & Hh & H).
  match type of Hh with applyHoldMode _ _ ?n1 _ _ = _ =>
    destruct (applyHoldMode_run cfg prev n1 now w4) as [w6 Hrun];
    pose proof (applyHoldMode_loads prev n1 now w4) as Hn4 end.
  rewrite Hrun in Hh. injection Hh as <- ->. rewrite Hrun in Hn4. simpl in Hn4. injection H as <- <-.
  rewrite Hn2, Hn1 in Hn3. rewrite Hn2, Hn1 in *. split; [|congruence]. split.
  - exists now, res, ts. split_and!; try done; try (destruct (str_eqb _ ModeHold), prev; done).
    destruct (decide (n = 0%nat)) as [->|Hn]; [left|right].
    + rewrite (bool_decide_eq_true_2 (0%nat = 0%nat)), andb_true_r in Hall by done.
      apply bool_decide_eq_false in Hall. apply Forall2_length in Hts. destruct ts; [done|]. simpl in Hts. lia.
    + destruct (Hdata Hn) as (c & t & _ & ? & ?). eauto.
  - intros p ->. apply Z.ltb_ge in Hseq. by destruct (str_eqb _ ModeHold).
  - by destruct prev, (str_eqb _ ModeHold).
  - by destruct prev, (str_eqb _ ModeHold).
  - by destruct prev, (str_eqb _ ModeHold).
Qed.

Lemma Refresh_cycle prev boot w next w' :
  Refresh cfg prev boot w = (Ok next, w') -> cycle_ok (w_loads w) prev boot next.
Proof. by intros [? _]%Refresh_cycle_loads. Qed.

(** ** Properties *)

Lemma data_from_code ps prev now code t : data_from ps prev now code t -> t_Code t = code.
Proof.
  unfold prev_territory. destruct 1 as [|t0 Ht _|t0 r Ht _]; [done|..]; destruct prev; try done;
    by apply Snapshot_Territory_Some in Ht as [_ ?].
Qed.

Lemma lotl_from_fresh prev boot now res nu :
  lotl_from prev boot now res -> lr_nextUpdate res = Some nu -> now <= nu.
Proof.
  destruct 1 as [p -> Hs|? ? ? src src' raw lotl _ _ Hn _ Hok]; simpl.
  - intros Hnu. unfold lotl_skip_ok in Hs. rewrite Hnu, !andb_true_iff in Hs. destruct Hs as [_ Hs%Z.ltb_lt]. lia.
  - intros Hnu. rewrite <-Hn. by eapply lo_fresh.
Qed.

(** C21 The trust in the list of the lists never goes backwards: a cycle that
    succeeds has a sequence number at least the previous one and a list that had
    not expired when the cycle ran; and its signer set is the previous snapshot's
    unchanged, or comes from a list verified by the set the cycle started from
    (the previous snapshot's, else the bootstrap) directly or after a chain of
    pivots each signed by the set before it, with the pivot number never
    decreasing. *)
Theorem refresh_lotl_trust prev boot w next w' :
  Refresh cfg prev boot w = (Ok next, w') ->
  (forall p, prev = Some p -> s_LOTLSequence p <= s_LOTLSequence next) /\
  (forall nu, s_LOTLNextUpdate next = Some nu -> s_GeneratedAt next <= nu) /\
  ((exists p, prev = Some p /\ s_LOTLSignersDER next = s_LOTLSignersDER p /\ s_LOTLPivotSeq next = s_LOTLPivotSeq p /\
      s_LOTLPointers next = s_LOTLPointers p) \/
   exists certs seq certs' lotl, starting_signers prev boot certs seq /\ s_LOTLSignersDER next = certsDER certs' /\
     seq <= s_LOTLPivotSeq next /\ (certs' = certs \/ rotation certs seq certs' (s_LOTLPivotSeq next)) /\
     s_LOTLPointers next = lotlPointerSet lotl /\
     exists wall raw verified signer, Verify wall raw certs' = Ok (verified, signer) /\ Parse verified = Ok lotl).
Proof.
  intros [(now & res & ts & Hl & _ & _ & Hg & Hq & Hnu & Hsg & Hpv & Hpt & _) Hseq _ _ _]%Refresh_cycle.
  split_and!; [done| |].
  - rewrite Hnu, Hg. intros nu. by eapply lotl_from_fresh.
  - rewrite Hsg, Hpv, Hpt. destruct Hl as [p -> _|der seq certs src src' raw lotl Hp Hc _ <- Hok]; [left; by exists p|right].
    pose proof (lo_signed _ _ _ _ _ Hok) as (wall & verified & signer & Hv & Hpar).
    exists certs, (eu_pivotSeq src), (eu_signers src'), lotl. simpl. split_and!; try done; [by exists der| | |eauto 10].
    + destruct (lo_signers _ _ _ _ _ Hok) as [[_ ?]|?%rotation_monotone]; tauto.
    + destruct (lo_signers _ _ _ _ _ Hok) as [[? _]|?]; auto.
Qed.

(** The territories of the snapshot, hold mode aside. *)
Lemma cycle_territories load prev boot next :
  cycle_ok load prev boot next ->
  exists now res ts, s_LOTLPointers next = lr_pointers res /\ now = s_GeneratedAt next /\
    Forall2 (fun code t => data_from (lr_pointers res) prev now code t \/ failed_from prev code t)
      (expandTerritories (cfg_Territories cfg) (lr_pointers res)) ts /\
    (ts = [] \/ exists code t, t ∈ ts /\ data_from (lr_pointers res) prev now code t) /\
    Forall2 (fun t t' => t' = set_t_Anchors t (t_Anchors t') /\ t_Anchors t' ⊆ t_Anchors t) ts (s_Territories next).
Proof.
  intros [(now & res & ts & _ & Hts & Hdata & Hg & _ & _ & _ & _ & Hpt & _ & Ht & _) _ _ _ _].
  exists now, res, ts. split_and!; try done. rewrite Ht. destruct (str_eqb _ ModeHold).
  - apply Forall2_fmap_r, Forall_Forall2_diag, Forall_true. intros t. split; [done|].
    intros a Ha. simpl in Ha. apply list_elem_of_In, List.filter_In in Ha as [Ha _]. by apply list_elem_of_In.
  - apply Forall_Forall2_diag, Forall_true. intros t. split; [by destruct t|done].
Qed.

(** C22 Every anchor a cycle serves for a territory is accounted for: the snapshot
    has exactly one entry per territory of the configuration, in order; and each
    anchor in an entry was extracted in this cycle from a list of that territory
    that verified against the certificates the list of the lists pins for it,
    without a step back in sequence, or was already in the previous snapshot's
    entry for that territory. *)
Theorem refresh_territory_provenance prev boot w next w' :
  Refresh cfg prev boot w = (Ok next, w') ->
  t_Code <$> s_Territories next = expandTerritories (cfg_Territories cfg) (s_LOTLPointers next) /\
  forall t a, t ∈ s_Territories next -> a ∈ t_Anchors t ->
    (exists t0, prev_territory prev (t_Code t) = Some t0 /\ a ∈ t_Anchors t0) \/
    (exists raw tl anchors ws b,
       verified_list (s_LOTLPointers next) (t_Code t) prev (s_GeneratedAt next) raw tl anchors ws /\
       b ∈ anchors /\ a = stamp_sequence (TSLSequenceNumber (tl_SchemeInformation tl)) b).
Proof.
  intros (now & res & ts & -> & -> & Hts & _ & Hh)%Refresh_cycle%cycle_territories. split.
  - assert (Hc : t_Code <$> ts = t_Code <$> s_Territories next).
    { clear Hts. induction Hh as [|t t' l l' [E _] _ IH]; [done|]. csimpl. rewrite IH, E. done. }
    rewrite <-Hc. clear Hh Hc. induction Hts as [|c t cs l Hd _ IH]; [done|]. csimpl. rewrite IH. f_equal.
    destruct Hd as [Hd|(err & -> & _)]; [by eapply data_from_code|done].
  - intros t' a Ht' Ha. apply list_elem_of_lookup in Ht' as [i Hi].
    destruct (Forall2_lookup_r _ _ _ _ _ Hh Hi) as (t & Hti & E & Hsub).
    destruct (Forall2_lookup_r _ _ _ _ _ Hts Hti) as (code & _ & Hd).
    assert (Ec : t_Code t' = t_Code t) by (by rewrite E). rewrite Ec. apply Hsub in Ha.
    destruct Hd as [Hd|(err & -> & _)]; [|by apply elem_of_nil in Ha].
    rewrite (data_from_code _ _ _ _ _ Hd).
    destruct Hd as [raw tl anchors ws Hv|t0 Ht0 _|t0 r Ht0 _]; [right|left; eauto..].
    simpl in Ha. apply list_elem_of_fmap in Ha as (b & -> & Hb). eauto 10.
Qed.

(** A cycle never builds a snapshot out of nothing: when territories are
    configured, at least one entry of the snapshot it returns holds data (a list
    verified in the cycle, or the previous entry), and an entry is marked failed
    without any only when there was no earlier data for it. *)
Theorem refresh_never_empty prev boot w next w' :
  Refresh cfg prev boot w = (Ok next, w') ->
  (s_Territories next = [] \/
   exists code t t', t' ∈ s_Territories next /\ t' = set_t_Anchors t (t_Anchors t') /\
     data_from (s_LOTLPointers next) prev (s_GeneratedAt next) code t) /\
  forall t', t' ∈ s_Territories next ->
    (exists t, t' = set_t_Anchors t (t_Anchors t') /\ data_from (s_LOTLPointers next) prev (s_GeneratedAt next) (t_Code t') t) \/
    (t_Failed t' = true /\ t_Anchors t' = [] /\ forall t0, prev_territory prev (t_Code t') = Some t0 -> t_Failed t0 = true).
Proof.
  intros (now & res & ts & -> & -> & Hts & Hdata & Hh)%Refresh_cycle%cycle_territories. split.
  - destruct Hdata as [->|(code & t & Ht & Hd)]; [left; by inversion Hh|right].
    apply list_elem_of_lookup in Ht as [i Hi]. destruct (Forall2_lookup_l _ _ _ _ _ Hh Hi) as (t' & Hi' & E & _).
    exists code, t, t'. split_and!; [by eapply list_elem_of_lookup_2|done..].
  - intros t' Ht'. apply list_elem_of_lookup in Ht' as [i Hi].
    destruct (Forall2_lookup_r _ _ _ _ _ Hh Hi) as (t & Hti & E & Hsub).
    destruct (Forall2_lookup_r _ _ _ _ _ Hts Hti) as (code & _ & Hd).
    assert (Ec : t_Code t' = t_Code t) by (by rewrite E). rewrite Ec.
    destruct Hd as [Hd|(err & -> & Hno)].
    + left. exists t. split; [done|]. by rewrite (data_from_code _ _ _ _ _ Hd).
    + right. split_and!; [by rewrite E| |done]. destruct (t_Anchors t') as [|a l]; [done|].
      specialize (Hsub a (list_elem_of_here _ _)). by apply elem_of_nil in Hsub.
Qed.

(** The declared anchors of a snapshot are the operator's file as it loads at
    that moment, whole; when the load fails they are the previous snapshot's,
    unchanged, and the cycle goes on.  A cycle that succeeds loads it once. *)
Theorem refresh_declared_set prev boot w next w' :
  Refresh cfg prev boot w = (Ok next, w') ->
  w_loads w' = S (w_loads w) /\
  s_Internal next = match LoadInternal (w_loads w) (InternalTrustSource cfg) (s_GeneratedAt next) with
                    | Ok set => set
                    | Err _ => from_option s_Internal [] prev
                    end.
Proof.
  intros [[(now & res & ts & _ & _ & _ & -> & _ & _ & _ & _ & _ & _ & _ & _ & Hi) _ _ _ _] Hn]%Refresh_cycle_loads. done.
Qed.
End Cycle.

(** ** On the concrete environment *)

Lemma demo_second_run :
  exists w', demo_Refresh (Some "de-2") 200 ModeHold (Some demo_first) = (Ok demo_second, w').
Proof.
  unfold demo_second. destruct (demo_Refresh (Some "de-2") 200 ModeHold (Some demo_first)) as [[s|e] w'] eqn:E.
  - by exists w'.
  - exfalso. vm_compute in E. discriminate E.
Qed.

Lemma refresh_lotl_trust_witness :
  s_LOTLSequence demo_first <= s_LOTLSequence demo_second /\ s_LOTLNextUpdate demo_second = Some 5000.
Proof.
  split; [|vm_compute; reflexivity]. destruct demo_second_run as [w' Hr].
  exact (proj1 (@refresh_lotl_trust toy_X509 toy_Asn1 double_GoAlloc merge_GoSort list_GoRange (demo_Net (Some "de-2") 200)
    demo_XmlDsig demo_XML toy_Files toy_Yaml (demo_config ModeHold) (Some demo_first) demo_boot demo_world demo_second w'
    Hr) demo_first eq_refl).
Defined.

Lemma refresh_territory_provenance_witness :
  t_Code <$> s_Territories demo_second = ["DE"] /\ exists t a, t ∈ s_Territories demo_second /\ a ∈ t_Anchors t.
Proof.
  destruct demo_second_run as [w' Hr]. split.
  - exact (proj1 (@refresh_territory_provenance toy_X509 toy_Asn1 double_GoAlloc merge_GoSort list_GoRange
      (demo_Net (Some "de-2") 200) demo_XmlDsig demo_XML toy_Files toy_Yaml (demo_config ModeHold) (Some demo_first)
      demo_boot demo_world demo_second w' Hr)).
  - destruct (s_Territories demo_second) as [|t l] eqn:E; [vm_compute in E; discriminate E|].
    destruct (t_Anchors t) as [|a la] eqn:Ea; [vm_compute in E; injection E as <- _; discriminate Ea|].
    exists t, a. split; [apply list_elem_of_here|rewrite Ea; apply list_elem_of_here].
Defined.

Lemma refresh_never_empty_witness : s_Territories demo_second <> [] /\
  exists t', t' ∈ s_Territories demo_second /\ t_Failed t' = false.
Proof.
  destruct demo_second_run as [w' Hr].
  destruct (@refresh_never_empty toy_X509 toy_Asn1 double_GoAlloc merge_GoSort list_GoRange
      (demo_Net (Some "de-2") 200) demo_XmlDsig demo_XML toy_Files toy_Yaml (demo_config ModeHold) (Some demo_first)
      demo_boot demo_world demo_second w' Hr) as [[Hn|(code & t & t' & Ht' & _)] _].
  - exfalso. vm_compute in Hn. discriminate Hn.
  - split; [intros Hn; vm_compute in Hn; discriminate Hn|]. exists t'. split; [exact Ht'|].
    vm_compute in Ht'. apply list_elem_of_singleton in Ht' as ->. reflexivity.
Defined.

Lemma refresh_declared_set_witness : s_Internal demo_second = [].
Proof.
  destruct demo_second_run as [w' Hr].
  exact (proj2 (@refresh_declared_set toy_X509 toy_Asn1 double_GoAlloc merge_GoSort list_GoRange
      (demo_Net (Some "de-2") 200) demo_XmlDsig demo_XML toy_Files toy_Yaml (demo_config ModeHold) (Some demo_first)
      demo_boot demo_world demo_second w' Hr)).
Defined.

(** In hold mode a cycle that finds a list unchanged forgets its pending
    additions: the second cycle holds a new certificate, the third finds the same
    list by its digest, reuses the previous entry (which does not contain the
    held anchor) and returns a snapshot with nothing pending, so neither approval
    nor the automatic release can ever let the addition through. *)
Theorem unchanged_list_drops_pending :
  length (s_Pending demo_second) = 1%nat /\
  match demo_Refresh (Some "de-2") 250 ModeHold (Some demo_second) with
  | (Ok third, w) => s_Pending third = [] /\ served third = served demo_second /\
      rq_URL <$> w_trace w = ["https://lotl.example/lotl.sha2"; "https://de.example/tl.sha2"]
  | (Err _, _) => False
  end.
Proof. split; [vm_compute; reflexivity|]. vm_compute. done. Qed.
