(* ===== verification/Telemetry.v ===== *)
(** * Volume gauges and the trust inventory

    [src/ingest/telemetry.go] and [src/ingest/inventory.go].  The metrics
    registry is seen through the calls the code makes: [g_value] holds, for each
    series, the value of the last [Set] on its gauge.  The gauges hold counts,
    kept as integers. *)

From S2P Require Import Prelude Model Vocabulary Samples.

(** ** Series names *)

Definition metricAnchorsTotal : string := "trust_anchors_total".
Definition metricTerritoryFailed : string := "trust_territory_failed".
Definition metricServicesSkipped : string := "trust_services_skipped".

(** [fmt.Sprintf] of the three label sets. *)
Definition skipped_series (territory reason : string) : string :=
  metricServicesSkipped +:+ "{territory=" +:+ Quote territory +:+ ",reason=" +:+ Quote reason +:+ "}".
Definition failed_series (territory : string) : string :=
  metricTerritoryFailed +:+ "{territory=" +:+ Quote territory +:+ "}".
Definition anchor_series (source territory typ : string) : string :=
  metricAnchorsTotal +:+ "{source=" +:+ Quote source +:+ ",territory=" +:+ Quote territory +:+
    ",type=" +:+ Quote typ +:+ "}".

(** ** The gauges *)

(** The last values set, and the three process-wide maps of the series each
    function has created so far. *)
Record Gauges := mkGauges {
  g_value : gmap string Z;
  anchorGaugeSeen : gset string;
  territoryGaugeSeen : gset string;
  skippedGaugeSeen : gset string;
  lastSuccess : option Z
}.

Definition Gauges_init : Gauges := mkGauges ∅ ∅ ∅ ∅ None.

(** [values[name]++] over a list of series names. *)
Definition count_names (names : list string) : gmap string Z :=
  foldl (fun m name => <[ name := default 0 (m !! name) + 1 ]> m) ∅ names.

(** The shared tail of the three functions: series no longer live drop to 0,
    live ones are created as needed and set. *)
Definition publish `{GoRange} (values : gmap string Z) (seen : gset string) (reg : gmap string Z) :
    gset string * gmap string Z :=
  let reg := set_fold (fun name reg => match values !! name with None => <[ name := 0 ]> reg | Some _ => reg end)
               reg seen in
  foldl (fun '(seen, reg) '(name, v) => ({[ name ]} ∪ seen, <[ name := v ]> reg)) (seen, reg) (map_range values).

Definition skipped_names (s : Snapshot) : list string :=
  flat_map (fun t => (fun sk => skipped_series (t_Code t) (sk_Reason sk)) <$> t_Skipped t) (s_Territories s).

Definition failed_values (s : Snapshot) : gmap string Z :=
  foldl (fun m t => <[ failed_series (t_Code t) := (if t_Failed t then 1 else 0) ]> m) ∅ (s_Territories s).

Definition anchor_names (s : Snapshot) : list string :=
  flat_map (fun t => (fun a => anchor_series (a_Source a) (t_Code t) (a_Type a)) <$> t_Anchors t) (s_Territories s) ++
  ((fun a => anchor_series (a_Source a) (a_Territory a) (a_Type a)) <$> s_Internal s).

Section Publish.
Context `{GoRange}.

Definition setSkippedGauges (s : option Snapshot) (g : Gauges) : Gauges :=
  let values := match s with Some s => count_names (skipped_names s) | None => ∅ end in
  let '(seen, reg) := publish values (skippedGaugeSeen g) (g_value g) in
  mkGauges reg (anchorGaugeSeen g) (territoryGaugeSeen g) seen (lastSuccess g).

Definition setTerritoryFailedGauges (s : option Snapshot) (g : Gauges) : Gauges :=
  let values := match s with Some s => failed_values s | None => ∅ end in
  let '(seen, reg) := publish values (territoryGaugeSeen g) (g_value g) in
  mkGauges reg (anchorGaugeSeen g) seen (skippedGaugeSeen g) (lastSuccess g).

Definition setAnchorGauges (s : option Snapshot) (g : Gauges) : Gauges :=
  let values := match s with Some s => count_names (anchor_names s) | None => ∅ end in
  let '(seen, reg) := publish values (anchorGaugeSeen g) (g_value g) in
  mkGauges reg seen (territoryGaugeSeen g) (skippedGaugeSeen g) (lastSuccess g).

(** The three calls of [Manager.activate]. *)
Definition set_gauges (s : Snapshot) (g : Gauges) : Gauges :=
  setSkippedGauges (Some s) (setTerritoryFailedGauges (Some s) (setAnchorGauges (Some s) g)).
End Publish.

(** [now.Unix()]: seconds from 1970, for a time counted from year 1. *)
Definition time_Unix (t : time) : Z := t / 1000000000 - 62135596800.

Definition setLastSyncSuccess (now : time) (g : Gauges) : Gauges :=
  mkGauges (g_value g) (anchorGaugeSeen g) (territoryGaugeSeen g) (skippedGaugeSeen g) (Some (time_Unix now)).

(** ** The inventory *)

Record inventoryAnchor := mkInventoryAnchor {
  iv_Name : string;
  iv_Type : string;
  iv_Territory : string;
  iv_Status : string;
  iv_SHA256 : string;
  iv_ValidUntil : time;
  iv_PendingLoTE : bool
}.

Definition inventoryAnchors (anchors : list Anchor) : list inventoryAnchor :=
  (fun a => mkInventoryAnchor (a_TSPName a) (a_Type a) (a_Territory a) (a_Status a) (a_FingerprintSHA256 a)
              (a_NotAfter a) (TypeAwaitsLoTE (a_Type a))) <$> anchors.

Record inventorySkipped := mkInventorySkipped {
  is_Territory : string;
  is_Name : string;
  is_Service : string;
  is_Reason : string;
  is_SHA256 : string;
  is_KeyAlgorithm : string;
  is_Curve : string
}.

Definition inventorySkippedServices (s : Snapshot) : list inventorySkipped :=
  flat_map (fun t => (fun sk =>
    mkInventorySkipped (t_Code t) (sk_TSPName sk) (sk_ServiceName sk) (sk_Reason sk) (sk_FingerprintSHA256 sk)
      (sk_KeyAlgorithm sk) (sk_Curve sk)) <$> t_Skipped t) (s_Territories s).

(** The fields of one inventory line. *)
Record Inventory := mkInventory {
  inv_snapshot : string;
  inv_internal_state : string;
  inv_internal_count : Z;
  inv_territory_counts : gmap string Z;
  inv_type_counts : gmap string Z;
  inv_pending_count : Z;
  inv_skipped_count : Z;
  inv_internal_error : option string;
  inv_internal_anchors : option (list inventoryAnchor);
  inv_skipped_services : option (list inventorySkipped)
}.

Definition derivedByTerritory (s : Snapshot) : gmap string Z :=
  foldl (fun m t => <[ t_Code t := Z.of_nat (length (t_Anchors t)) ]> m) ∅ (s_Territories s).
Definition derivedByType (s : Snapshot) : gmap string Z :=
  count_names (flat_map (fun t => a_Type <$> t_Anchors t) (s_Territories s)).

Definition inventory (s : Snapshot) (rep : DeclaredReport) : Inventory :=
  let skipped := inventorySkippedServices s in
  mkInventory (s_ID s) (State (dr_Internal rep)) (Z.of_nat (length (s_Internal s)))
    (derivedByTerritory s) (derivedByType s)
    (Z.of_nat (length (s_Pending s))) (Z.of_nat (length skipped))
    (if str_eqb (ds_Error (dr_Internal rep)) "" then None else Some (ds_Error (dr_Internal rep)))
    (if bool_decide (0 < length (s_Internal s))%nat then Some (inventoryAnchors (s_Internal s)) else None)
    (if bool_decide (0 < length skipped)%nat then Some skipped else None).

(** [logInventory] appends one line to the log, unless there is nothing served. *)
Definition logInventory (log : list Inventory) (s : option Snapshot) (rep : DeclaredReport) : list Inventory :=
  match s with None => log | Some s => log ++ [inventory s rep] end.

(** * Lemmas *)

(** ** Quoting is prefix-free *)

Definition hex_value (c : Ascii.ascii) : N :=
  let n := Ascii.N_of_ascii c in if (n <? 58)%N then (n - 48)%N else (n - 87)%N.

(** Reading one quoted byte back. *)
Definition unquote_byte (s : string) : option (Ascii.ascii * string) :=
  match s with
  | String c r =>
      if bool_decide (c = backslash) then
        match r with
        | String d r' =>
            let n := Ascii.N_of_ascii d in
            if (n =? 97)%N then Some (Ascii.ascii_of_N 7, r')
            else if (n =? 98)%N then Some (Ascii.ascii_of_N 8, r')
            else if (n =? 116)%N then Some (Ascii.ascii_of_N 9, r')
            else if (n =? 110)%N then Some (Ascii.ascii_of_N 10, r')
            else if (n =? 118)%N then Some (Ascii.ascii_of_N 11, r')
            else if (n =? 102)%N then Some (Ascii.ascii_of_N 12, r')
            else if (n =? 114)%N then Some (Ascii.ascii_of_N 13, r')
            else if (n =? 120)%N then
              match r' with
              | String a (String b r'') => Some (Ascii.ascii_of_N (hex_value a * 16 + hex_value b), r'')
              | _ => None
              end
            else Some (d, r')
        | EmptyString => None
        end
      else Some (c, r)
  | EmptyString => None
  end.

Lemma unquote_quote c r : unquote_byte (quote_byte c +:+ r) = Some (c, r).
Proof. destruct c as [[] [] [] [] [] [] [] []]; reflexivity. Qed.

Lemma quote_byte_not_dq c r k : quote_byte c +:+ r <> dq +:+ k.
Proof. destruct c as [[] [] [] [] [] [] [] []]; discriminate. Qed.

Lemma quote_bytes_inj s t x y :
  str_flat_map quote_byte s +:+ dq +:+ x = str_flat_map quote_byte t +:+ dq +:+ y -> s = t /\ x = y.
Proof.
  revert t. induction s as [|c s IH]; intros [|d t]; simpl; rewrite ?app_nil_s, ?app_assoc_s; intros E.
  - by injection E.
  - symmetry in E. by apply quote_byte_not_dq in E.
  - by apply quote_byte_not_dq in E.
  - apply (f_equal unquote_byte) in E. rewrite !unquote_quote in E. injection E as -> E.
    by apply IH in E as [-> ->].
Qed.

Lemma Quote_inj s t x y : Quote s +:+ x = Quote t +:+ y -> s = t /\ x = y.
Proof.
  unfold Quote. rewrite !app_assoc_s. intros E%(inj (String.append dq)). by apply quote_bytes_inj.
Qed.

Ltac peel H :=
  rewrite ?app_assoc_s in H; apply (inj (String.append _)) in H.

Lemma anchor_series_inj s1 t1 y1 s2 t2 y2 :
  anchor_series s1 t1 y1 = anchor_series s2 t2 y2 -> s1 = s2 /\ t1 = t2 /\ y1 = y2.
Proof.
  unfold anchor_series. intros E. do 2 peel E. apply Quote_inj in E as [-> E]. peel E.
  apply Quote_inj in E as [-> E]. peel E. by apply Quote_inj in E as [-> _].
Qed.

Lemma failed_series_inj t1 t2 : failed_series t1 = failed_series t2 -> t1 = t2.
Proof. unfold failed_series. intros E. do 2 peel E. by apply Quote_inj in E as [-> _]. Qed.

Lemma skipped_series_inj t1 r1 t2 r2 :
  skipped_series t1 r1 = skipped_series t2 r2 -> t1 = t2 /\ r1 = r2.
Proof.
  unfold skipped_series. intros E. do 2 peel E. apply Quote_inj in E as [-> E]. peel E.
  by apply Quote_inj in E as [-> _].
Qed.

(** The three families do not meet. *)
Lemma series_disjoint s t y c d r :
  anchor_series s t y <> failed_series c /\ anchor_series s t y <> skipped_series d r /\
  failed_series c <> skipped_series d r.
Proof. split_and!; discriminate. Qed.

(** ** Counting *)

(** How often a value occurs in a list. *)
Definition occurrences {A} `{EqDecision A} (x : A) (l : list A) : Z := Z.of_nat (length (filter (x =.) l)).

Lemma occurrences_cons {A} `{EqDecision A} (x y : A) l :
  occurrences x (y :: l) = (if decide (x = y) then 1 else 0) + occurrences x l.
Proof. unfold occurrences. rewrite filter_cons. case_decide; simpl; lia. Qed.

Lemma occurrences_app {A} `{EqDecision A} (x : A) l1 l2 :
  occurrences x (l1 ++ l2) = occurrences x l1 + occurrences x l2.
Proof. unfold occurrences. rewrite filter_app, length_app. lia. Qed.

Lemma occurrences_map {A B} `{EqDecision A, EqDecision B} (f : A -> B) `{!Inj (=) (=) f} x l :
  occurrences (f x) (f <$> l) = occurrences x l.
Proof.
  induction l as [|y l IH]; [done|]. rewrite fmap_cons, !occurrences_cons, IH.
  destruct (decide (x = y)), (decide (f x = f y)); naive_solver.
Qed.

Lemma occurrences_0 {A} `{EqDecision A} (x : A) l : x ∉ l -> occurrences x l = 0.
Proof.
  induction l as [|y l IH]; [done|]. rewrite not_elem_of_cons, occurrences_cons. intros [Hy Hl].
  rewrite IH by done. by case_decide.
Qed.

Lemma count_names_from (m : gmap string Z) l x :
  default 0 (foldl (fun m name => <[ name := default 0 (m !! name) + 1 ]> m) m l !! x) =
    default 0 (m !! x) + occurrences x l /\
  (is_Some (foldl (fun m name => <[ name := default 0 (m !! name) + 1 ]> m) m l !! x) <-> is_Some (m !! x) \/ x ∈ l).
Proof.
  revert m. induction l as [|y l IH]; intros m; simpl.
  { split; [unfold occurrences; simpl; lia|set_solver]. }
  destruct (IH (<[y:=default 0 (m !! y) + 1]> m)) as [-> ->]. rewrite occurrences_cons, elem_of_cons.
  destruct (decide (x = y)) as [->|Hxy].
  - rewrite lookup_insert_eq. simpl. split; [lia|naive_solver].
  - rewrite lookup_insert_ne by done. split; [lia|naive_solver].
Qed.

Lemma count_names_lookup l x : default 0 (count_names l !! x) = occurrences x l.
Proof. destruct (count_names_from ∅ l x) as [E _]. unfold count_names. rewrite E, lookup_empty. done. Qed.

Lemma count_names_dom l x : is_Some (count_names l !! x) <-> x ∈ l.
Proof.
  destruct (count_names_from ∅ l x) as [_ E]. unfold count_names. rewrite E, lookup_empty.
  split; [intros [[]%is_Some_None|]; done|by right].
Qed.

(** ** Publishing *)

Lemma foldl_set_lookup (l : list (string * Z)) (seen : gset string) (reg : gmap string Z) :
  NoDup (l.*1) ->
  let '(seen', reg') := foldl (fun '(seen, reg) '(name, v) => ({[ name ]} ∪ seen, <[ name := v ]> reg)) (seen, reg) l in
  seen' = list_to_set (l.*1) ∪ seen /\
  forall x, (forall v, (x, v) ∈ l -> reg' !! x = Some v) /\ (x ∉ l.*1 -> reg' !! x = reg !! x).
Proof.
  revert seen reg. induction l as [|[n v] l IH]; intros seen reg Hnd; csimpl in *.
  { split; [set_solver|]. intros x. split; [intros ? []%elem_of_nil|done]. }
  apply NoDup_cons in Hnd as [Hn Hnd]. specialize (IH ({[n]} ∪ seen) (<[n:=v]> reg) Hnd).
  destruct (foldl _ _ l) as [seen' reg']. destruct IH as [-> IH]. split; [set_solver|].
  intros x. destruct (IH x) as [H1 H2]. split.
  - intros u [[= -> ->]|Hin]%elem_of_cons; [|auto]. rewrite H2 by done. apply lookup_insert_eq.
  - intros [Hx Hl]%not_elem_of_cons. rewrite H2 by done. by apply lookup_insert_ne.
Qed.

Lemma set_fold_zero (values reg : gmap string Z) (seen : gset string) x :
  set_fold (fun name reg => match values !! name with None => <[ name := 0 ]> reg | Some _ => reg end) reg seen !! x =
  if bool_decide (x ∈ seen /\ values !! x = None) then Some 0 else reg !! x.
Proof.
  rewrite (bool_decide_ext _ (x ∈ elements seen /\ values !! x = None)) by set_solver.
  unfold set_fold. cbn [compose]. induction (elements seen) as [|n l IH]; cbn [foldr].
  { rewrite bool_decide_eq_false_2; [done|]. intros [[]%elem_of_nil _]. }
  destruct (values !! n) eqn:Hn.
  - rewrite IH. erewrite bool_decide_ext; [reflexivity|]. rewrite elem_of_cons. naive_solver.
  - destruct (decide (n = x)) as [->|Hx].
    + rewrite lookup_insert_eq, bool_decide_eq_true_2; [done|]. set_solver.
    + rewrite lookup_insert_ne by done. rewrite IH.
      erewrite bool_decide_ext; [reflexivity|]. set_solver.
Qed.

(** A live series reads its new value, a seen one that is not live reads 0,
    and every other gauge is left alone. *)
Lemma publish_spec `{GoRange} values seen reg seen' reg' :
  publish values seen reg = (seen', reg') ->
  seen' = dom values ∪ seen /\
  forall x, reg' !! x = match values !! x with
                        | Some v => Some v
                        | None => if bool_decide (x ∈ seen) then Some 0 else reg !! x
                        end.
Proof.
  unfold publish. set (reg0 := set_fold _ reg seen).
  assert (Hnd : NoDup (map_range values).*1).
  { rewrite map_range_perm. apply NoDup_fst_map_to_list. }
  pose proof (foldl_set_lookup (map_range values) seen reg0 Hnd) as Hf.
  destruct (foldl _ _ _) as [s r]. destruct Hf as [-> Hf]. intros [= <- <-]. split.
  - f_equal. apply set_eq. intros x. rewrite elem_of_list_to_set, elem_of_dom, list_elem_of_fmap.
    split.
    + intros ([n v] & -> & Hin%elem_of_map_range). by exists v.
    + intros [v Hv]. exists (x, v). split; [done|]. by apply elem_of_map_range.
  - intros x. destruct (Hf x) as [H1 H2]. destruct (values !! x) as [v|] eqn:Hv.
    + by apply H1, elem_of_map_range.
    + rewrite H2; [subst reg0; rewrite set_fold_zero; by rewrite (bool_decide_ext _ (x ∈ seen)) by naive_solver|].
      rewrite list_elem_of_fmap. intros ([n v] & -> & Hin%elem_of_map_range). simpl in *. congruence.
Qed.

(** ** What the gauges show *)

Definition reading (g : Gauges) (name : string) : Z := default 0 (g_value g !! name).

(** The labels of the anchors served and of the services skipped. *)
Definition anchor_labels (s : Snapshot) : list (string * string * string) :=
  flat_map (fun t => (fun a => (a_Source a, t_Code t, a_Type a)) <$> t_Anchors t) (s_Territories s) ++
  ((fun a => (a_Source a, a_Territory a, a_Type a)) <$> s_Internal s).

Definition skipped_labels (s : Snapshot) : list (string * string) :=
  flat_map (fun t => (fun sk => (t_Code t, sk_Reason sk)) <$> t_Skipped t) (s_Territories s).

(** A territory's entry: the last one with its code. *)
Definition last_entry (s : Snapshot) (code : string) : option Territory :=
  last (filter (fun t => t_Code t = code) (s_Territories s)).

Record gauges_show (s : Snapshot) (g : Gauges) : Prop := {
  show_anchors : forall source territory typ,
    reading g (anchor_series source territory typ) = occurrences (source, territory, typ) (anchor_labels s);
  show_failed : forall code,
    reading g (failed_series code) = match last_entry s code with Some t => if t_Failed t then 1 else 0 | None => 0 end;
  show_skipped : forall code reason,
    reading g (skipped_series code reason) = occurrences (code, reason) (skipped_labels s)
}.

Definition anchor_name '((source, territory, typ) : string * string * string) : string :=
  anchor_series source territory typ.
Definition skipped_name '((code, reason) : string * string) : string := skipped_series code reason.

#[local] Instance anchor_name_inj : Inj (=) (=) anchor_name.
Proof. intros [[??]?] [[??]?] E. apply anchor_series_inj in E. naive_solver. Qed.
#[local] Instance skipped_name_inj : Inj (=) (=) skipped_name.
Proof. intros [??] [??] E. apply skipped_series_inj in E. naive_solver. Qed.

Lemma fmap_flat_map {A B C} (f : B -> C) (g : A -> list B) l :
  f <$> flat_map g l = flat_map (fun x => f <$> g x) l.
Proof. induction l as [|x l IH]; [done|]. simpl. by rewrite fmap_app, IH. Qed.

Lemma flat_map_eq {A B} (f g : A -> list B) l : (forall x, f x = g x) -> flat_map f l = flat_map g l.
Proof. intros E. induction l as [|x l IH]; [done|]. simpl. by rewrite E, IH. Qed.

Lemma anchor_names_labels s : anchor_names s = anchor_name <$> anchor_labels s.
Proof.
  unfold anchor_names, anchor_labels. rewrite fmap_app, fmap_flat_map, <-list_fmap_compose. f_equal.
  apply flat_map_eq. intros t. by rewrite <-list_fmap_compose.
Qed.

Lemma skipped_names_labels s : skipped_names s = skipped_name <$> skipped_labels s.
Proof.
  unfold skipped_names, skipped_labels. rewrite fmap_flat_map. apply flat_map_eq.
  intros t. by rewrite <-list_fmap_compose.
Qed.

Lemma failed_values_from (ts : list Territory) (m : gmap string Z) x :
  foldl (fun m t => <[ failed_series (t_Code t) := (if t_Failed t then 1 else 0) ]> m) m ts !! x =
  match last (filter (fun t => failed_series (t_Code t) = x) ts) with
  | Some t => Some (if t_Failed t then 1 else 0)
  | None => m !! x
  end.
Proof.
  revert m. induction ts as [|t ts IH]; intros m; [done|]. simpl. rewrite IH, filter_cons.
  destruct (decide (failed_series (t_Code t) = x)) as [<-|Hx].
  - rewrite last_cons. destruct (last _); [done|]. apply lookup_insert_eq.
  - destruct (last _); [done|]. by apply lookup_insert_ne.
Qed.

Lemma failed_values_lookup s code :
  failed_values s !! failed_series code = (fun t => if t_Failed t then 1 else 0) <$> last_entry s code.
Proof.
  unfold failed_values, last_entry. rewrite failed_values_from, lookup_empty.
  rewrite (list_filter_iff _ (fun t => t_Code t = code)).
  - by destruct (last _).
  - intros t. split; [by intros ?%failed_series_inj|by intros ->].
Qed.

Lemma failed_values_None s x : (forall c, x <> failed_series c) -> failed_values s !! x = None.
Proof.
  intros Hx. unfold failed_values. rewrite failed_values_from.
  replace (filter _ _) with (@nil Territory); [done|]. symmetry. induction (s_Territories s) as [|t ts IH]; [done|].
  rewrite filter_cons. destruct (decide _) as [<-|]; [by destruct (Hx (t_Code t))|done].
Qed.

(** What every reachable state of the gauges satisfies: a series has been seen
    by the function of its own family, and no other gauge has a value. *)
Record gauges_wf (g : Gauges) : Prop := {
  wf_anchor : forall x, x ∈ anchorGaugeSeen g -> exists l, x = anchor_name l;
  wf_failed : forall x, x ∈ territoryGaugeSeen g -> exists c, x = failed_series c;
  wf_skipped : forall x, x ∈ skippedGaugeSeen g -> exists l, x = skipped_name l;
  wf_known : forall x, is_Some (g_value g !! x) ->
    x ∈ anchorGaugeSeen g \/ x ∈ territoryGaugeSeen g \/ x ∈ skippedGaugeSeen g
}.

Lemma gauges_init_wf : gauges_wf Gauges_init.
Proof. split; try set_solver. simpl. intros x. by rewrite lookup_empty, is_Some_alt. Qed.

(** One [publish] in terms of readings. *)
Definition overlay (values : gmap string Z) (seen : gset string) (old : option Z) (x : string) : option Z :=
  match values !! x with Some v => Some v | None => if bool_decide (x ∈ seen) then Some 0 else old end.

Lemma overlay_other values seen old x : values !! x = None -> x ∉ seen -> overlay values seen old x = old.
Proof. intros Hv Hs. unfold overlay. rewrite Hv. by rewrite bool_decide_eq_false_2. Qed.

Lemma overlay_own values seen old x :
  (is_Some old -> x ∈ seen) -> default 0 (overlay values seen old x) = default 0 (values !! x).
Proof.
  intros Ho. unfold overlay. destruct (values !! x); [done|]. case_bool_decide; [done|].
  destruct old; [|done]. exfalso. by apply H, Ho.
Qed.

Section SetGauges.
Context `{GoRange}.

Lemma set_gauges_spec s g :
  let g' := set_gauges s g in
  let va := count_names (anchor_names s) in
  let vf := failed_values s in
  let vs := count_names (skipped_names s) in
  anchorGaugeSeen g' = dom va ∪ anchorGaugeSeen g /\
  territoryGaugeSeen g' = dom vf ∪ territoryGaugeSeen g /\
  skippedGaugeSeen g' = dom vs ∪ skippedGaugeSeen g /\
  forall x, g_value g' !! x =
    overlay vs (skippedGaugeSeen g) (overlay vf (territoryGaugeSeen g)
      (overlay va (anchorGaugeSeen g) (g_value g !! x) x) x) x.
Proof.
  unfold set_gauges, setSkippedGauges, setTerritoryFailedGauges, setAnchorGauges, overlay.
  repeat lazymatch goal with
  | |- context [publish ?v ?s ?r] =>
      let E := fresh in destruct (publish v s r) eqn:E; apply publish_spec in E as [? ?]; simpl
  end.
  split_and!; [done..|]. intros x.
  repeat match goal with E : forall x, _ !! x = _ |- _ => rewrite E; clear E end. done.
Qed.

Lemma anchor_counted s x : is_Some (count_names (anchor_names s) !! x) -> exists l, x = anchor_name l.
Proof.
  rewrite count_names_dom, anchor_names_labels, list_elem_of_fmap. intros (l & -> & _). eauto.
Qed.

Lemma skipped_counted s x : is_Some (count_names (skipped_names s) !! x) -> exists l, x = skipped_name l.
Proof.
  rewrite count_names_dom, skipped_names_labels, list_elem_of_fmap. intros (l & -> & _). eauto.
Qed.

Lemma failed_counted s x : is_Some (failed_values s !! x) -> exists c, x = failed_series c.
Proof.
  unfold failed_values. rewrite failed_values_from. destruct (last _) as [t|] eqn:E.
  - intros _. apply last_Some_elem_of in E. apply list_elem_of_filter in E as [<- _]. eauto.
  - by rewrite lookup_empty, is_Some_alt.
Qed.

Lemma set_gauges_wf s g : gauges_wf g -> gauges_wf (set_gauges s g).
Proof.
  intros [Wa Wf Ws Wk]. destruct (set_gauges_spec s g) as (Ea & Ef & Es & Ev). split.
  - intros x. rewrite Ea, elem_of_union, elem_of_dom. intros [?%anchor_counted|?]; auto.
  - intros x. rewrite Ef, elem_of_union, elem_of_dom. intros [?%failed_counted|?]; auto.
  - intros x. rewrite Es, elem_of_union, elem_of_dom. intros [?%skipped_counted|?]; auto.
  - intros x. rewrite Ev, Ea, Ef, Es, !elem_of_union, !elem_of_dom. unfold overlay.
    destruct (count_names (skipped_names s) !! x) eqn:E1; [eauto 6|].
    case_bool_decide; [eauto 6|]. destruct (failed_values s !! x) eqn:E2; [eauto 6|].
    case_bool_decide; [eauto 6|]. destruct (count_names (anchor_names s) !! x) eqn:E3; [eauto 6|].
    case_bool_decide; [eauto 6|]. intros ?%Wk. tauto.
Qed.

Lemma not_Some_None {A} (o : option A) : ~ is_Some o -> o = None.
Proof. apply eq_None_not_Some. Qed.

Lemma set_gauges_show s g : gauges_wf g -> gauges_show s (set_gauges s g).
Proof.
  intros W. destruct (set_gauges_spec s g) as (_ & _ & _ & Ev). destruct W as [Wa Wf Ws Wk].
  assert (Ka : forall x l, x = anchor_name l -> (forall c, x <> failed_series c) /\ (forall l, x <> skipped_name l)).
  { intros x [[a b] c] ->. split; [intros d|intros [d e]]; apply (series_disjoint a b c). all: exact "". }
  assert (Kf : forall c l, failed_series c <> skipped_name l).
  { intros c [d e]. apply (series_disjoint "" "" "" c d e). }
  split; intros; unfold reading; rewrite Ev.
  - destruct (Ka _ (source, territory, typ) eq_refl) as [Nf Ns].
    rewrite (overlay_other _ (skippedGaugeSeen g)); [|by apply not_Some_None; intros [? ?]%skipped_counted; edestruct Ns|
      by intros [? ?]%Ws; edestruct Ns].
    rewrite (overlay_other _ (territoryGaugeSeen g)); [|by apply not_Some_None; intros [? ?]%failed_counted; edestruct Nf|
      by intros [? ?]%Wf; edestruct Nf].
    rewrite overlay_own.
    + change (anchor_series _ _ _) with (anchor_name (source, territory, typ)).
      by rewrite count_names_lookup, anchor_names_labels, occurrences_map by apply _.
    + intros [?|[[? ?]%Wf|[? ?]%Ws]]%Wk; [done|by edestruct Nf|by edestruct Ns].
  - rewrite (overlay_other _ (skippedGaugeSeen g)); [|by apply not_Some_None; intros [? ?]%skipped_counted; edestruct Kf|
      by intros [? ?]%Ws; edestruct Kf].
    rewrite overlay_own, failed_values_lookup; [by destruct (last_entry s code)|].
    assert (Na : forall l, failed_series code <> anchor_name l)
      by (intros l E; by destruct (proj1 (Ka _ l E) code)).
    unfold overlay. destruct (count_names _ !! _) eqn:Ec.
    { destruct (anchor_counted s (failed_series code)) as [l E]; [by rewrite Ec|]. by edestruct Na. }
    rewrite bool_decide_eq_false_2 by (intros [? ?]%Wa; by edestruct Na).
    intros [[? ?]%Wa|[?|[? ?]%Ws]]%Wk; [by edestruct Na|done|by edestruct Kf].
  - change (skipped_series code reason) with (skipped_name (code, reason)).
    assert (Na : forall l, skipped_name (code, reason) <> anchor_name l)
      by (intros l E; by destruct (proj2 (Ka _ l E) (code, reason))).
    assert (Nf : forall c, skipped_name (code, reason) <> failed_series c) by (intros c E; by eapply Kf).
    rewrite overlay_own.
    + by rewrite count_names_lookup, skipped_names_labels, occurrences_map by apply _.
    + unfold overlay. destruct (failed_values s !! _) eqn:Ef.
      { destruct (failed_counted s (skipped_name (code, reason))) as [l E]; [by rewrite Ef|]. by edestruct Nf. }
      rewrite bool_decide_eq_false_2 by (intros [? ?]%Wf; by edestruct Nf).
      destruct (count_names (anchor_names s) !! _) eqn:Ec.
      { destruct (anchor_counted s (skipped_name (code, reason))) as [l E]; [by rewrite Ec|]. by edestruct Na. }
      rewrite bool_decide_eq_false_2 by (intros [? ?]%Wa; by edestruct Na).
      intros [[? ?]%Wa|[[? ?]%Wf|?]]%Wk; [by edestruct Na|by edestruct Nf|done].
Qed.
End SetGauges.

(** * Properties *)

(** C36 After any sequence of activations the gauges show the last one and
    nothing of the earlier ones: for every label set, [trust_anchors_total] is
    the number of anchors served with it (0 for a territory or type that has
    vanished), [trust_territory_failed] is 1 exactly for a failed entry, and
    [trust_services_skipped] counts that territory's skipped services by reason. *)
Theorem gauges_exact `{GoRange} history s :
  gauges_show s (foldl (fun g s => set_gauges s g) Gauges_init (history ++ [s])).
Proof.
  rewrite foldl_app. simpl. apply set_gauges_show.
  assert (W : forall l g, gauges_wf g -> gauges_wf (foldl (fun g s => set_gauges s g) g l)).
  { induction l; simpl; auto using set_gauges_wf. }
  apply W, gauges_init_wf.
Qed.
