(* ===== verification/Manager.v ===== *)
(** * The snapshot manager

    [src/ingest/manager.go]: the owner of the served snapshot and of the
    bootstrap.  Its mutating operations run one at a time under the mutex, so they
    are functions on the manager's state; the ingestion work is the interface
    [Refresher] of the source and the persistence the class [Store]. *)

From S2P Require Import Prelude Model ContentId Diff Slices Internal Store Fetcher Telemetry Samples.

(** ** The interface to the pipeline *)

(** [RefreshDeclared] returns its report also with an error; [Some next] is the
    [changed] case. *)
Class Refresher := {
  rf_Refresh : option Snapshot -> Bootstrap -> eff world Snapshot;
  rf_RefreshDeclared : Snapshot -> time -> world -> result (option Snapshot) * DeclaredReport * world
}.

(** ** What counts as a change *)

Fixpoint pendingEqual (a b : list PendingAnchor) : bool :=
  match a, b with
  | [], [] => true
  | x :: a', y :: b' =>
      str_eqb (a_FingerprintSHA256 (p_Anchor x)) (a_FingerprintSHA256 (p_Anchor y)) &&
      str_eqb (a_Territory (p_Anchor x)) (a_Territory (p_Anchor y)) && pendingEqual a' b'
  | _, _ => false
  end.

(** The closure [key]. *)
Definition skipped_key (s : SkippedService) : string :=
  sk_TSPName s +:+ "/" +:+ sk_ServiceName s +:+ "/" +:+ sk_FingerprintSHA256 s +:+ "/" +:+ sk_Reason s.

(** The second loop, over the remaining counts. *)
Fixpoint drain (seen : gmap string Z) (b : list SkippedService) : bool :=
  match b with
  | [] => true
  | s :: b' =>
      let k := skipped_key s in
      let n := default 0 (seen !! k) in
      if n =? 0 then false else drain (<[ k := n - 1 ]> seen) b'
  end.

Definition skippedEqual (a b : list SkippedService) : bool :=
  if negb (bool_decide (length a = length b)) then false
  else drain (count_names (skipped_key <$> a)) b.

Definition territory_differs (prev : Snapshot) (t : Territory) : bool :=
  match Snapshot_Territory prev (t_Code t) with
  | None => true
  | Some pt =>
      negb (eqb (t_CarriedOver pt) (t_CarriedOver t)) || negb (t_TLSequence pt =? t_TLSequence t) ||
      negb (eqb (t_Failed pt) (t_Failed t)) || negb (str_eqb (t_FailureReason pt) (t_FailureReason t)) ||
      negb (skippedEqual (t_Skipped pt) (t_Skipped t))
  end.

Definition territoryStateChanged (prev next : Snapshot) : bool :=
  existsb (territory_differs prev) (s_Territories next).

Definition lotlInputChanged (prev next : Snapshot) : bool :=
  negb (str_eqb (s_LOTLDigest prev) (s_LOTLDigest next)).

Definition cycleChanged (prev : option Snapshot) (next : Snapshot) : bool :=
  match prev with
  | None => true
  | Some p => negb (str_eqb (s_ID next) (s_ID p)) || negb (pendingEqual (s_Pending p) (s_Pending next)) ||
              territoryStateChanged p next
  end.

(** The condition of [SaveSnapshot] in [Refresh]. *)
Definition must_persist (prev : option Snapshot) (next : Snapshot) : bool :=
  cycleChanged prev next || match prev with Some p => lotlInputChanged p next | None => false end.

(** ** The manager *)

Record Manager (St : Type) := mkManager {
  m_active : option Snapshot;
  m_bootstrap : option Bootstrap;
  m_store : St;
  (** the one-slot channel [kick] *)
  m_kick : bool;
  m_world : world;
  m_gauges : Gauges;
  m_log : list Inventory
}.
Arguments mkManager {St} _ _ _ _ _ _ _.
Arguments m_active {St} _.
Arguments m_bootstrap {St} _.
Arguments m_store {St} _.
Arguments m_kick {St} _.
Arguments m_world {St} _.
Arguments m_gauges {St} _.
Arguments m_log {St} _.

Record RefreshOutcome := mkOutcome {
  ro_Snapshot : option Snapshot;
  ro_Changed : bool;
  ro_DeclaredChanged : bool;
  ro_Declared : DeclaredSourceState;
  ro_CycleErr : option error
}.

(** [approved] goes into the first territory of its code. *)
Fixpoint update_first (code : string) (f : Territory -> Territory) (ts : list Territory) : list Territory :=
  match ts with
  | [] => []
  | t :: ts' => if str_eqb (t_Code t) code then f t :: ts' else t :: update_first code f ts'
  end.

Definition territory_less (a b : Territory) : bool := str_ltb (t_Code a) (t_Code b).

(** The order of a territory's anchors. *)
Definition served_less : Anchor -> Anchor -> bool :=
  key_then a_TSPName (key_then a_ServiceName (fun a b => str_ltb (a_FingerprintSHA256 a) (a_FingerprintSHA256 b))).

Definition empty_territory (code : string) : Territory := mkTerritory code 0 0 None "" false "" false "" [] [].

Definition add_anchor `{GoSort} (a : Anchor) (ts : list Territory) : list Territory :=
  let ts := if bool_decide (Exists (fun t => t_Code t = a_Territory a) ts) then ts
            else sort_Slice territory_less (ts ++ [empty_territory (a_Territory a)]) in
  update_first (a_Territory a) (fun t => set_t_Anchors t (sort_Slice served_less (t_Anchors t ++ [a]))) ts.

Section Manager.
Context {X : X509} {SO : GoSort} {RA : GoRange} {N : Net} {CO : Codec} {FI : Files} {YA : Yaml} {RF : Refresher}
  {St : Type} {ST : Store St}.

Abbreviation Mgr := (Manager St).

Definition set_active (m : Mgr) (s : Snapshot) : Mgr :=
  mkManager (Some s) (m_bootstrap m) (m_store m) (m_kick m) (m_world m) (m_gauges m) (m_log m).
Definition set_bootstrap (m : Mgr) (b : Bootstrap) : Mgr :=
  mkManager (m_active m) (Some b) (m_store m) (m_kick m) (m_world m) (m_gauges m) (m_log m).
Definition set_store (m : Mgr) (st : St) : Mgr :=
  mkManager (m_active m) (m_bootstrap m) st (m_kick m) (m_world m) (m_gauges m) (m_log m).
Definition set_kick (m : Mgr) (k : bool) : Mgr :=
  mkManager (m_active m) (m_bootstrap m) (m_store m) k (m_world m) (m_gauges m) (m_log m).
Definition set_world (m : Mgr) (w : world) : Mgr :=
  mkManager (m_active m) (m_bootstrap m) (m_store m) (m_kick m) w (m_gauges m) (m_log m).
Definition set_m_gauges (m : Mgr) (g : Gauges) : Mgr :=
  mkManager (m_active m) (m_bootstrap m) (m_store m) (m_kick m) (m_world m) g (m_log m).
Definition set_log (m : Mgr) (l : list Inventory) : Mgr :=
  mkManager (m_active m) (m_bootstrap m) (m_store m) (m_kick m) (m_world m) (m_gauges m) l.

Definition m_now (m : Mgr) : time := wall_clock (length (w_trace (m_world m))).
Definition m_emit (ev : Event) (m : Mgr) : Mgr := set_world m (emit ev (m_world m)).2.

(** A new process on an existing store: nothing served, an empty allow-list. *)
Definition NewManager (st : St) (w : world) (log : list Inventory) : Mgr :=
  mkManager None None st false (NewFetcher [] w) Gauges_init log.

Definition activate (next : Snapshot) (m : Mgr) : Mgr :=
  set_m_gauges (set_active m next) (set_gauges next (m_gauges m)).

Definition save (s : Snapshot) (m : Mgr) : result unit * Mgr :=
  let '(r, st) := SaveSnapshot s (m_store m) in (r, set_store m st).

(** [if err := m.store.SaveSnapshot(...); err != nil { m.events.RefreshFailure(nil, "persist", ...) }] *)
Definition save_or_report (s : Snapshot) (m : Mgr) : Mgr :=
  let '(r, m) := save s m in
  match r with Ok _ => m | Err e => m_emit (EvRefreshFailure "persist" (err_Error e)) m end.

(** [for _, e := range next.Diff.Entries { m.events.AnchorChange(...) }] *)
Definition emit_diff (next : Snapshot) (m : Mgr) : Mgr :=
  match s_Diff next with
  | None => m
  | Some d => foldl (fun m e =>
      m_emit (EvAnchorChange (de_Kind e) (de_Territory e) (de_Fingerprint e) (de_Type e) (de_TSPName e)
                (de_ServiceName e) (de_Status e) (de_Detail e) false) m) m (d_Entries d)
  end.

Definition Initialize (seedPath : string) : eff Mgr unit := fun m =>
  match LoadLatestBootstrap (m_store m) with
  | Err err => (Err (errorf ("ingest: load bootstrap from store: " +:+ err_Error err) [err]), m)
  | Ok stored_boot =>
      let seeded : result Bootstrap * Mgr :=
        match stored_boot with
        | Some boot => (Ok boot, m)
        | None =>
            if str_eqb seedPath "" then
              (Err (errors_New "ingest: no bootstrap in store and no LOTL_BOOTSTRAP_CERTS_PATH configured — the operator-pinned signer set is required at first install"), m)
            else
              let seed := SeedBootstrap (w_loads (m_world m)) seedPath (m_now m) in
              let m := set_world m (next_load (m_world m)) in
              match seed with
              | Err err => (Err err, m)
              | Ok boot =>
                  let '(r, st) := SaveBootstrap boot (m_store m) in
                  (match r with
                   | Ok _ => Ok boot
                   | Err err => Err (errorf ("ingest: persist seeded bootstrap: " +:+ err_Error err) [err])
                   end, set_store m st)
              end
        end in
      match seeded with
      | (Err err, m) => (Err err, m)
      | (Ok boot, m) =>
          let m := set_bootstrap m boot in
          match LoadLatestSnapshot (m_store m) with
          | Err err => (Err (errorf ("ingest: load snapshot from store: " +:+ err_Error err) [err]), m)
          | Ok None => (Ok tt, m)
          | Ok (Some snap) => (Ok tt, activate snap m)
          end
      end
  end.

(** A second trigger coalesces with one still pending. *)
Definition TriggerRefresh (m : Mgr) : Mgr := set_kick m true.

Definition reconcileDeclared (prev : option Snapshot) (m : Mgr) : option Snapshot * bool * DeclaredReport * Mgr :=
  match prev with
  | None => (None, false, DeclaredReport_zero, m)
  | Some p =>
      let '(r, rep, w) := rf_RefreshDeclared p (m_now m) (m_world m) in
      let m := set_world m w in
      match r with
      | Err _ => (Some p, false, rep, m)
      | Ok None => (Some p, false, rep, m)
      | Ok (Some next) =>
          let m := activate next (save_or_report next m) in
          let m := if negb (Diff_Empty (s_Diff next)) then emit_diff next m else m in
          (Some next, true, rep, m)
      end
  end.

Definition ReconcileDeclared (m : Mgr) : bool * Mgr :=
  let '(_, changed, rep, m) := reconcileDeclared (m_active m) m in
  (changed, set_log m (logInventory (m_log m) (m_active m) rep)).

(** The second half of [Refresh], once the cycle has returned [next]. *)
Definition accept (prev : option Snapshot) (declaredChanged : bool) (decl : DeclaredSourceState) (next : Snapshot)
    (m : Mgr) : RefreshOutcome * Mgr :=
  let declared := match s_DeclaredLoad next with Some rep => dr_Internal rep | None => decl end in
  let changed := cycleChanged prev next in
  let m := if must_persist prev next then save_or_report next m else m in
  let m := activate next m in
  let m := set_m_gauges m (setLastSyncSuccess (m_now m) (m_gauges m)) in
  let m := match prev with
           | None => set_log m (logInventory (m_log m) (Some next) (default DeclaredReport_zero (s_DeclaredLoad next)))
           | Some _ => m
           end in
  let m := if changed && negb (Diff_Empty (s_Diff next)) then emit_diff next m else m in
  (mkOutcome (Some next) (declaredChanged || changed) declaredChanged declared None, m).

(** [Refresh]; [None] is the nil dereference of a manager without a bootstrap. *)
Definition Refresh (m : Mgr) : option (RefreshOutcome * Mgr) :=
  let '(prev, declaredChanged, declRep, m) := reconcileDeclared (m_active m) m in
  let m := if declaredChanged then set_log m (logInventory (m_log m) prev declRep) else m in
  match m_bootstrap m with
  | None => None
  | Some boot =>
      let '(r, w) := rf_Refresh prev boot (m_world m) in
      let m := set_world m w in
      Some match r with
           | Err err =>
               (mkOutcome prev declaredChanged declaredChanged (dr_Internal declRep) (Some err),
                m_emit (EvRefreshFailure "cycle" (err_Error err)) m)
           | Ok next => accept prev declaredChanged (dr_Internal declRep) next m
           end
  end.

(** The approved snapshot: [next] is the clone of [cur]. *)
Definition approve_in (cur next : Snapshot) (idx : nat) (approved : PendingAnchor) (now : time) : Snapshot :=
  let next := set_s_Pending next (delete idx (s_Pending next)) in
  let next := set_s_Territories next (add_anchor (p_Anchor approved) (s_Territories next)) in
  let next := set_s_PrevID (ComputeID (set_s_GeneratedAt next now)) (s_ID cur) in
  set_s_Diff next (Some (ComputeDiff (Some cur) next)).

Definition ApprovePending (fingerprint actor : string) : eff Mgr Snapshot := fun m =>
  match m_active m with
  | None => (Err (errors_New "ingest: no active snapshot"), m)
  | Some cur =>
      match list_find (fun pa => a_FingerprintSHA256 (p_Anchor pa) = fingerprint) (s_Pending cur) with
      | None => (Err (errors_New ("ingest: no pending anchor with fingerprint " +:+ fingerprint)), m)
      | Some (idx, _) =>
          match cloneSnapshot cur with
          | Err err => (Err err, m)
          | Ok next =>
              match s_Pending next !! idx with
              | None => (Err (errors_New "runtime error: index out of range"), m)
              | Some approved =>
                  let next := approve_in cur next idx approved (m_now m) in
                  match save next m with
                  | (Err err, m) => (Err (errorf ("ingest: persist approved snapshot: " +:+ err_Error err) [err]), m)
                  | (Ok _, m) =>
                      let m := activate next m in
                      let m := m_emit (EvPendingApproved fingerprint actor "api") m in
                      let a := p_Anchor approved in
                      (Ok next, m_emit (EvAnchorChange DiffAdded (a_Territory a) (a_FingerprintSHA256 a) (a_Type a)
                                          (a_TSPName a) (a_ServiceName a) (a_Status a) "approved from pending" false) m)
                  end
              end
          end
      end
  end.

(** [App.Start] of [src/app.go]: restore, then reconcile what was restored. *)
Definition Start (seedPath : string) : eff Mgr unit := fun m =>
  match Initialize seedPath m with
  | (Err err, m) => (Err err, m)
  | (Ok _, m) => (Ok tt, match m_active m with None => m | Some _ => (ReconcileDeclared m).2 end)
  end.

(** ** Runs *)

(** What can happen to a manager: the operations above in any order, the refresh
    task taking a kick, a request being denied (an event), and the process being
    replaced by a new one, which opens the store again. *)
Inductive Op :=
| OpRefresh
| OpReconcile
| OpApprove (fingerprint actor : string)
| OpTrigger
| OpTakeKick
| OpDenied (scope actor path : string)
| OpRestart (seedPath : string).

Definition exec (o : Op) (m : Mgr) : option Mgr :=
  match o with
  | OpRefresh => snd <$> Refresh m
  | OpReconcile => Some (ReconcileDeclared m).2
  | OpApprove fingerprint actor => Some (ApprovePending fingerprint actor m).2
  | OpTrigger => Some (TriggerRefresh m)
  | OpTakeKick => if m_kick m then Some (set_kick m false) else None
  | OpDenied scope actor path => Some (m_emit (EvAuthzDenied scope actor path) m)
  | OpRestart seedPath =>
      match Start seedPath (NewManager (Reopen (m_store m)) (m_world m) (m_log m)) with
      | (Ok _, m) => Some m
      | (Err _, _) => None
      end
  end.

Inductive run : Mgr -> list Op -> Mgr -> Prop :=
| run_nil m : run m [] m
| run_cons m o m1 os m2 : exec o m = Some m1 -> run m1 os m2 -> run m (o :: os) m2.

(** A first install: an empty store, seeded. *)
Definition installed (m : Mgr) : Prop :=
  exists st w seedPath, LoadLatestBootstrap st = Ok None /\ LoadLatestSnapshot st = Ok None /\
    Start seedPath (NewManager st w []) = (Ok tt, m).
End Manager.

(** * Lemmas *)

(** ** What the manager relies on *)

(** The id is the digest of the content. *)
Definition identified `{X509, GoSort} (s : Snapshot) : Prop := s_ID s = compute_id s.

(** The part of a snapshot that comes from upstream: all but the declared
    anchors and the bookkeeping of the snapshot itself. *)
Definition upstream (s : Snapshot) : Snapshot :=
  mkSnapshot "" "" 0 (s_LOTLSequence s) (s_LOTLIssueTime s) (s_LOTLNextUpdate s) (s_LOTLSignersDER s)
    (s_LOTLPivotSeq s) (s_LOTLDigest s) (s_LOTLPointers s) (s_AdvertisedOJ s) (s_BootstrapOJRef s)
    (s_BootstrapVersion s) (s_Territories s) [] (s_Pending s) None None.

(** [next] is a proper successor of [prev]. *)
Record follows `{X509, GoSort, GoRange} (prev : option Snapshot) (next : Snapshot) : Prop := {
  fo_identified : identified next;
  fo_prev : s_PrevID next = from_option s_ID "" prev;
  fo_diff : s_Diff next = Some (ComputeDiff prev next);
  fo_sequence : forall p, prev = Some p -> s_LOTLSequence p <= s_LOTLSequence next
}.

Class RefresherLaws `{X509, GoSort, GoRange, Refresher} : Prop := {
  refresh_follows : forall prev boot w next w',
    rf_Refresh prev boot w = (Ok next, w') -> follows prev next;
  declared_follows : forall p now w next rep w',
    rf_RefreshDeclared p now w = (Ok (Some next), rep, w') ->
    follows (Some p) next /\ s_ID next <> s_ID p /\ upstream next = upstream p;
  refresh_later : forall prev boot w, later w (rf_Refresh prev boot w).2;
  declared_later : forall p now w, later w (rf_RefreshDeclared p now w).2
}.

(** ** Comparing skipped services *)

Lemma drain_perm seen b :
  drain seen b = true -> (forall k, 0 <= default 0 (seen !! k)) ->
  forall k, occurrences k (skipped_key <$> b) <= default 0 (seen !! k).
Proof.
  revert seen. induction b as [|s b IH]; intros seen; cbn [drain]; intros H Hp k; [apply Hp|].
  rewrite fmap_cons. destruct (Z.eqb_spec (default 0 (seen !! skipped_key s)) 0) as [|Hn]; [done|].
  rewrite occurrences_cons. apply (IH (<[_ := _]> seen)) with (k := k) in H.
  - destruct (decide (k = skipped_key s)) as [->|Hk].
    + rewrite lookup_insert_eq in H. cbn in H. lia.
    + rewrite lookup_insert_ne in H by done. lia.
  - intros k'. destruct (decide (k' = skipped_key s)) as [->|Hk].
    + rewrite lookup_insert_eq. simpl. specialize (Hp (skipped_key s)). lia.
    + by rewrite lookup_insert_ne.
Qed.

Lemma drain_complete seen b :
  (forall k, occurrences k (skipped_key <$> b) <= default 0 (seen !! k)) -> drain seen b = true.
Proof.
  revert seen. induction b as [|s b IH]; intros seen H; cbn [drain]; [done|].
  pose proof (H (skipped_key s)) as Hs. rewrite fmap_cons, occurrences_cons in Hs.
  rewrite decide_True in Hs by done.
  assert (0 <= occurrences (skipped_key s) (skipped_key <$> b)) by (unfold occurrences; lia).
  destruct (Z.eqb_spec (default 0 (seen !! skipped_key s)) 0); [lia|]. apply IH. intros k.
  specialize (H k). rewrite fmap_cons, occurrences_cons in H.
  destruct (decide (k = skipped_key s)) as [->|Hk].
  - rewrite lookup_insert_eq. simpl. lia.
  - rewrite lookup_insert_ne by done. lia.
Qed.

Lemma occurrences_nonneg {A} `{EqDecision A} (x : A) l : 0 <= occurrences x l.
Proof. unfold occurrences. lia. Qed.

(** A list that occurs within another of the same length is a permutation. *)
Lemma occurrences_perm (l1 l2 : list string) :
  (forall k, occurrences k l2 <= occurrences k l1) -> length l1 = length l2 -> l1 ≡ₚ l2.
Proof.
  revert l1. induction l2 as [|x l2 IH]; intros l1 H Hl; [by destruct l1|].
  pose proof (H x) as Hx. rewrite occurrences_cons, decide_True in Hx by done.
  assert (Hin : x ∈ l1).
  { destruct (decide (x ∈ l1)); [done|]. rewrite (occurrences_0 x l1) in Hx by done.
    pose proof (occurrences_nonneg x l2). lia. }
  apply elem_of_Permutation in Hin as [l1' Hp]. rewrite Hp. constructor. apply IH.
  - intros k. specialize (H k). unfold occurrences in *. rewrite Hp in H. rewrite !filter_cons in H.
    destruct (decide (k = x)); simpl in H; lia.
  - apply Permutation_length in Hp. simpl in *. lia.
Qed.

Lemma skippedEqual_perm a b : skippedEqual a b = true <-> skipped_key <$> a ≡ₚ skipped_key <$> b.
Proof.
  unfold skippedEqual. case_bool_decide as Hl; simpl.
  - split; intros H.
    + apply occurrences_perm; [|by rewrite !length_fmap].
      intros k. rewrite <-(count_names_lookup (skipped_key <$> a)). apply drain_perm; [done|].
      intros k'. rewrite count_names_lookup. apply occurrences_nonneg.
    + apply drain_complete. intros k. rewrite count_names_lookup. unfold occurrences. by rewrite H.
  - split; [done|]. intros H%Permutation_length. rewrite !length_fmap in H. done.
Qed.

Lemma pendingEqual_keys a b :
  pendingEqual a b = true <->
  ((fun p => (a_FingerprintSHA256 (p_Anchor p), a_Territory (p_Anchor p))) <$> a) =
  ((fun p => (a_FingerprintSHA256 (p_Anchor p), a_Territory (p_Anchor p))) <$> b).
Proof.
  revert b. induction a as [|x a IH]; intros [|y b]; csimpl; try done.
  rewrite !andb_true_iff, !str_eqb_eq, IH. naive_solver congruence.
Qed.

(** ** Steps of the manager *)

Section ManagerLemmas.
Context {X : X509} {SO : GoSort} {RA : GoRange} {N : Net} {CO : Codec} {FI : Files} {YA : Yaml} {RF : Refresher}
  {St : Type} {ST : Store St} {RL : RefresherLaws} {SL : StoreLaws St}.

Abbreviation Mgr := (Manager St).

(** [m'] differs from [m] by events emitted, and perhaps log lines. *)
Record only_events (m m' : Mgr) : Prop := {
  oe_active : m_active m' = m_active m;
  oe_bootstrap : m_bootstrap m' = m_bootstrap m;
  oe_store : m_store m' = m_store m;
  oe_kick : m_kick m' = m_kick m;
  oe_gauges : m_gauges m' = m_gauges m;
  oe_later : later (m_world m) (m_world m')
}.

#[export] Instance only_events_refl : Reflexive only_events.
Proof. by split. Qed.
#[export] Instance only_events_trans : Transitive only_events.
Proof. intros m1 m2 m3 [] []. split; etrans; eauto. Qed.

Lemma m_emit_only ev m : only_events m (m_emit ev m).
Proof. split; try done. apply emit_later. Qed.

Lemma set_log_only m l : only_events m (set_log m l).
Proof. by split. Qed.

Lemma set_world_only m w : later (m_world m) w -> only_events m (set_world m w).
Proof. by split. Qed.

Lemma emit_diff_only s m : only_events m (emit_diff s m).
Proof.
  unfold emit_diff. destruct (s_Diff s) as [d|]; [|done]. generalize (d_Entries d) as l. intros l. revert m.
  induction l as [|e l IH]; intros m; simpl; [done|]. etrans; [apply m_emit_only|apply IH].
Qed.

(** Saving and activating: how a new snapshot gets served. *)
Lemma save_or_report_spec s m :
  let m' := save_or_report s m in
  m_active m' = m_active m /\ m_bootstrap m' = m_bootstrap m /\ m_kick m' = m_kick m /\
  m_gauges m' = m_gauges m /\ m_log m' = m_log m /\
  m_store m' = (SaveSnapshot s (m_store m)).2 /\
  match (SaveSnapshot s (m_store m)).1 with
  | Ok _ => m_world m' = m_world m
  | Err e => m_world m' = (emit (EvRefreshFailure "persist" (err_Error e)) (m_world m)).2
  end.
Proof.
  unfold save_or_report, save. destruct (SaveSnapshot s (m_store m)) as [[[]|e] st]; simpl; done.
Qed.

Lemma save_loads s st :
  let st' := (SaveSnapshot s st).2 in
  (held_snapshot st' = held_snapshot st \/ held_snapshot st' = Ok (Some (stored s))) /\
  held_bootstrap st' = held_bootstrap st.
Proof.
  split; [|apply save_snapshot_bootstrap]. destruct (SaveSnapshot s st) as [[[]|e] st'] eqn:E; simpl.
  - right. by eapply save_held_snapshot.
  - by eapply save_failed_snapshot.
Qed.

(** ** The invariant *)

Record inv (m : Mgr) : Prop := {
  inv_boot : exists b, m_bootstrap m = Some b /\ held_bootstrap (m_store m) = Ok (Some b);
  inv_active : forall s, m_active m = Some s -> identified s;
  inv_stored : held_snapshot (m_store m) = Ok None \/
    exists s, held_snapshot (m_store m) = Ok (Some s) /\ identified s;
  inv_wf : gauges_wf (m_gauges m);
  inv_gauges : forall s, m_active m = Some s -> gauges_show s (m_gauges m)
}.

Lemma inv_only_events m m' : inv m -> only_events m m' -> inv m'.
Proof.
  intros [] [Ea Eb Es _ Eg _]. split; rewrite ?Ea, ?Eb, ?Es, ?Eg; done.
Qed.

Lemma inv_store_ok st s :
  identified s ->
  (held_snapshot st = Ok None \/ exists s, held_snapshot st = Ok (Some s) /\ identified s) ->
  held_snapshot (SaveSnapshot s st).2 = Ok None \/
  exists s', held_snapshot (SaveSnapshot s st).2 = Ok (Some s') /\ identified s'.
Proof.
  intros Hi Ho. destruct (save_loads s st) as [[E|E] _]; rewrite E; [done|]. right. by exists (stored s).
Qed.

Lemma inv_save s m : inv m -> identified s -> inv (save_or_report s m).
Proof.
  intros [(b & Hb & Hl) Ha Hs Hw Hg] Hi.
  destruct (save_or_report_spec s m) as (Ea & Eb & _ & Eg & _ & Es & _).
  split; rewrite ?Ea, ?Eb, ?Eg, ?Es; [|done| |done..].
  - exists b. by rewrite (proj2 (save_loads s (m_store m))).
  - by apply inv_store_ok.
Qed.

Lemma inv_activate s m : inv m -> identified s -> inv (activate s m).
Proof.
  intros [] Hi. split; simpl; [done|by intros ? [= <-]|done|by apply set_gauges_wf|].
  intros ? [= <-]. by apply set_gauges_show.
Qed.

Lemma inv_set_kick m k : inv m -> inv (set_kick m k).
Proof. intros []. by split. Qed.

Lemma inv_sync m now : inv m -> inv (set_m_gauges m (setLastSyncSuccess now (m_gauges m))).
Proof.
  intros [? ? ? [] Hg]. split; simpl; [done..|by split|]. intros s Hs. by destruct (Hg s Hs).
Qed.

(** What [reconcileDeclared] does, on its two outcomes. *)
Lemma reconcile_spec m prev changed rep m' :
  reconcileDeclared (m_active m) m = (prev, changed, rep, m') ->
  m_active m' = prev /\
  if changed : bool then
    exists p now next w, m_active m = Some p /\ prev = Some next /\
      rf_RefreshDeclared p now (m_world m) = (Ok (Some next), rep, w) /\
      only_events (activate next (save_or_report next (set_world m w))) m'
  else prev = m_active m /\ only_events m m'.
Proof.
  unfold reconcileDeclared. destruct (m_active m) as [p|] eqn:Ha; [|by intros [= <- <- _ <-]].
  destruct (rf_RefreshDeclared p (m_now m) (m_world m)) as [[r rep'] w] eqn:Hr.
  pose proof (declared_later p (m_now m) (m_world m)) as Hev. rewrite Hr in Hev. simpl in Hev.
  destruct r as [[next|]|e]; intros [= <- <- <- <-].
  - assert (Ho : only_events (activate next (save_or_report next (set_world m w)))
      (if negb (Diff_Empty (s_Diff next)) then emit_diff next (activate next (save_or_report next (set_world m w)))
       else activate next (save_or_report next (set_world m w)))).
    { destruct (negb _); [apply emit_diff_only|done]. }
    split; [by rewrite (oe_active _ _ Ho)|]. by exists p, (m_now m), next, w.
  - split; [done|]. split; [done|]. by apply set_world_only.
  - split; [done|]. split; [done|]. by apply set_world_only.
Qed.

Lemma reconcile_inv m prev changed rep m' :
  inv m -> reconcileDeclared (m_active m) m = (prev, changed, rep, m') -> inv m'.
Proof.
  intros Hi [_ H]%reconcile_spec. destruct changed.
  - destruct H as (p & now & next & w & _ & _ & Hr & Ho).
    pose proof (declared_later p now (m_world m)) as Hev. rewrite Hr in Hev.
    apply declared_follows in Hr as ([Hn _ _ _] & _).
    eapply inv_only_events; [|exact Ho]. apply inv_activate, Hn. apply inv_save, Hn.
    eapply inv_only_events; [exact Hi|]. by apply set_world_only.
  - destruct H as [_ Ho]. by eapply inv_only_events.
Qed.

Lemma accept_inv prev dc decl next m : inv m -> identified next -> inv (accept prev dc decl next m).2.
Proof.
  intros Hi Hn. unfold accept. set (m1 := if must_persist prev next then _ else _).
  assert (H1 : inv m1) by (subst m1; destruct (must_persist _ _); auto using inv_save).
  simpl. set (m2 := set_m_gauges (activate next m1) _).
  assert (H2 : inv m2) by (apply inv_sync, inv_activate; done).
  set (m3 := match prev with None => _ | Some _ => _ end).
  assert (H3 : inv m3).
  { subst m3. destruct prev; [done|]. eapply inv_only_events; [exact H2|apply set_log_only]. }
  destruct (_ && _); [|done]. eapply inv_only_events; [exact H3|apply emit_diff_only].
Qed.

Lemma Refresh_keeps m out m' : inv m -> Refresh m = Some (out, m') -> inv m'.
Proof.
  unfold Refresh. intros Hi. destruct (reconcileDeclared _ _) as [[[prev changed] rep] m1] eqn:Hr.
  apply reconcile_inv in Hr as H1; [|done].
  set (m2 := if changed then _ else m1). assert (H2 : inv m2).
  { subst m2. destruct changed; [|done]. eapply inv_only_events; [exact H1|apply set_log_only]. }
  destruct (m_bootstrap m2) as [boot|]; [|done]. pose proof (refresh_later prev boot (m_world m2)) as Hev.
  destruct (rf_Refresh prev boot (m_world m2)) as [[next|err] w] eqn:Hf; simpl in Hev.
  - assert (H3 : inv (set_world m2 w)) by (eapply inv_only_events; [exact H2|by apply set_world_only]).
    apply refresh_follows in Hf as [Hn _ _ _].
    pose proof (accept_inv prev changed (dr_Internal rep) next (set_world m2 w) H3 Hn) as Hacc.
    destruct (accept _ _ _ _ _) as [o m3]. by intros [= _ <-].
  - intros [= _ <-]. eapply inv_only_events; [exact H2|]. etrans; [by apply set_world_only|apply m_emit_only].
Qed.
End ManagerLemmas.
