(* ===== verification/Age.v ===== *)
(** * The age gauge

    [registerAgeGauge] of [src/ingest/telemetry.go]: the gauge computed when metrics
    are scraped, from the snapshot of the live manager.  Its value is a [float64], so
    the arithmetic of [Duration.Seconds] is IEEE 754 double precision. *)

From Stdlib Require Import Floats.SpecFloat.
From S2P Require Import Prelude Model Store Fetcher Telemetry Manager Samples.

(** ** Double precision *)

Definition float64_of_Z (z : Z) : spec_float := binary_normalize 53 1024 z 0 false.
Definition float64_add : spec_float -> spec_float -> spec_float := SFadd 53 1024.
Definition float64_div : spec_float -> spec_float -> spec_float := SFdiv 53 1024.

(** [time.Duration.Seconds]: whole seconds plus the rest over 1e9; the integer
    division truncates. *)
Definition Seconds (d : duration) : spec_float :=
  let sec := Z.quot d 1000000000 in
  let nsec := Z.rem d 1000000000 in
  float64_add (float64_of_Z sec) (float64_div (float64_of_Z nsec) (float64_of_Z 1000000000)).

(** ** The callback *)

Definition metricSnapshotAge : string := "trust_snapshot_age_seconds".

(** [activeSnapshotFn]: nothing before the first manager, then the [Active] of the
    one built last. *)
Definition age_gauge (fn : option (option Snapshot)) (now : time) : spec_float :=
  match fn with
  | None => float64_of_Z (-1)
  | Some None => float64_of_Z (-1)
  | Some (Some s) => Seconds (time_Sub now (s_GeneratedAt s))
  end.

(** What a scrape at [now] shows of the manager. *)
Definition scrape_age {St} (m : Manager St) (now : time) : spec_float := age_gauge (Some (m_active m)) now.

(** ** Lemmas *)

(** The sign bit. *)
Definition minus (f : spec_float) : bool :=
  match f with S754_zero s | S754_infinity s | S754_finite s _ _ => s | S754_nan => false end.

Lemma round_minus mx ex lx : minus (binary_round_aux 53 1024 false mx ex lx) = false.
Proof.
  unfold binary_round_aux. destruct (shr_fexp _ _ mx ex lx) as [mrs e]. destruct (shr_fexp _ _ _ e _) as [mrs' e'].
  destruct (shr_m mrs') as [|p|p]; [done| |done]. by destruct (e' <=? _).
Qed.

Lemma normalize_minus m e : 0 <= m -> minus (binary_normalize 53 1024 m e false) = false.
Proof.
  destruct m as [|p|p]; [done| |lia]. intros _. cbn [binary_normalize]. unfold binary_round.
  destruct (shl_align _ _ _) as [mz ez]. apply round_minus.
Qed.

Lemma add_minus x y : minus x = false -> minus y = false -> minus (float64_add x y) = false.
Proof.
  unfold float64_add, SFadd. destruct x as [sx|sx| |sx mx ex], y as [sy|sy| |sy my ey]; simpl;
    try destruct sx; try destruct sy; try done.
  intros _ _. by apply normalize_minus.
Qed.

Lemma div_minus x y : minus x = false -> minus y = false -> minus (float64_div x y) = false.
Proof.
  unfold float64_div, SFdiv. destruct x as [sx|sx| |sx mx ex], y as [sy|sy| |sy my ey]; simpl; try done;
    try destruct sx; try destruct sy; try done. intros _ _.
  destruct (SFdiv_core_binary _ _ _ _ _ _) as [[mz ez] lz]. apply round_minus.
Qed.

Lemma of_Z_minus z : 0 <= z -> minus (float64_of_Z z) = false.
Proof. apply normalize_minus. Qed.

Lemma Seconds_minus d : 0 <= d -> minus (Seconds d) = false.
Proof.
  intros Hd. unfold Seconds. apply add_minus; [by apply of_Z_minus, Z.quot_pos|].
  apply div_minus; apply of_Z_minus; [by apply Z.rem_nonneg|done].
Qed.

(** Whole seconds are not touched by the division. *)
Lemma Seconds_whole k : 0 <= k -> Seconds (k * 1000000000) = float64_of_Z k.
Proof.
  intros Hk. unfold Seconds. rewrite Z.quot_mul, Z.rem_mul by done.
  change (float64_div (float64_of_Z 0) (float64_of_Z 1000000000)) with (S754_zero false).
  pose proof (of_Z_minus k Hk) as Hm. unfold float64_add, SFadd. destruct (float64_of_Z k) as [s|s| |s m e]; try done.
  simpl in Hm. by subst s.
Qed.

(** ** Properties *)

(** The gauge tells a service that serves nothing from one that does: it is -1
    exactly before the first snapshot, and as long as the clock is not behind the
    time the snapshot was made its value is not below zero; a snapshot that is a whole
    number of seconds old shows that number, rounded to a double. *)
Theorem age_gauge_tells {St} (m : Manager St) now :
  match m_active m with
  | None => scrape_age m now = S754_finite true 4503599627370496 (-52)
  | Some s => s_GeneratedAt s <= now -> minus (scrape_age m now) = false /\
      forall k, now = s_GeneratedAt s + k * 1000000000 -> k * 1000000000 <= max_duration -> scrape_age m now = float64_of_Z k
  end.
Proof.
  unfold scrape_age. destruct (m_active m) as [s|]; [|vm_compute; reflexivity]. simpl. intros Hn.
  split; [apply Seconds_minus; unfold time_Sub, max_duration; lia|]. intros k -> Hk.
  assert (E : time_Sub (s_GeneratedAt s + k * 1000000000) (s_GeneratedAt s) = k * 1000000000)
    by (unfold time_Sub, min_duration, max_duration in *; lia).
  rewrite E. apply Seconds_whole. lia.
Qed.

(** A second and a half, and a third of a second rounded. *)
Example age_half : Seconds 1500000000 = S754_finite false 6755399441055744 (-52).
Proof. vm_compute. reflexivity. Qed.
Example age_third : Seconds 333333333 = S754_finite false 6004799497155862 (-54).
Proof. vm_compute. reflexivity. Qed.
