(* ===== verification/ManagerProps.v ===== *)
(** * Properties of the manager

    The invariant over all runs, what a failed cycle and a restart leave in
    place, and approvals. *)

From S2P Require Import Prelude Model ContentId Diff Slices Internal Store Fetcher Telemetry Samples Manager.

Section Runs.
Context {X : X509} {SO : GoSort} {RA : GoRange} {N : Net} {CO : Codec} {FI : Files} {YA : Yaml} {RF : Refresher}
  {St : Type} {ST : Store St} {RL : RefresherLaws} {SL : StoreLaws St}.

Abbreviation Mgr := (Manager St).

(** ** Every operation keeps the bootstrap and the invariant *)

Lemma save_or_report_boot s (m : Mgr) : m_bootstrap (save_or_report s m) = m_bootstrap m.
Proof. apply save_or_report_spec. Qed.

Lemma reconcile_boot (m : Mgr) prev changed rep m' :
  reconcileDeclared (m_active m) m = (prev, changed, rep, m') -> m_bootstrap m' = m_bootstrap m.
Proof using RL.
  intros [_ H]%reconcile_spec. destruct changed.
  - destruct H as (p & now & next & w & _ & _ & _ & Ho). rewrite (oe_bootstrap _ _ Ho). simpl.
    by rewrite save_or_report_boot.
  - destruct H as [_ Ho]. by rewrite (oe_bootstrap _ _ Ho).
Qed.

(** What [accept] leaves: the new snapshot served, persisted when needed. *)
Lemma accept_spec prev dc decl next (m : Mgr) :
  let m1 := if must_persist prev next then save_or_report next m else m in
  let m' := (accept prev dc decl next m).2 in
  m_active m' = Some next /\ m_bootstrap m' = m_bootstrap m /\ m_store m' = m_store m1 /\
  later (m_world m1) (m_world m').
Proof using.
  intros m1 m'. subst m'. unfold accept. fold m1. simpl.
  set (m2 := set_m_gauges (activate next m1) _). set (m3 := match prev with None => _ | Some _ => _ end).
  assert (H3 : only_events m2 m3) by (subst m3; destruct prev; [done|apply set_log_only]).
  set (m4 := if _ && _ then _ else _).
  assert (H4 : only_events m3 m4) by (subst m4; destruct (_ && _); [apply emit_diff_only|done]).
  assert (H : only_events m2 m4) by (by etrans). destruct H as [Ha Hb Hs _ _ He].
  split_and!; [done| |done|done]. rewrite Hb. simpl. subst m1.
  destruct (must_persist prev next); [apply save_or_report_boot|done].
Qed.

Lemma Refresh_boot (m : Mgr) out m' : Refresh m = Some (out, m') -> m_bootstrap m' = m_bootstrap m.
Proof using RL.
  unfold Refresh. destruct (reconcileDeclared _ _) as [[[prev changed] rep] m1] eqn:Hr.
  apply reconcile_boot in Hr. set (m2 := if changed then _ else m1).
  assert (H2 : m_bootstrap m2 = m_bootstrap m) by (subst m2; by destruct changed).
  destruct (m_bootstrap m2) as [boot|] eqn:Hb; [|done].
  destruct (rf_Refresh prev boot (m_world m2)) as [[next|err] w].
  - pose proof (accept_spec prev changed (dr_Internal rep) next (set_world m2 w)) as (_ & Hk & _).
    destruct (accept _ _ _ _ _) as [o m3]. intros [= _ <-]. simpl in *. congruence.
  - intros [= _ <-]. simpl. congruence.
Qed.

(** The error of an approval that could not be persisted. *)
Definition persist_error (e : error) : error := errorf ("ingest: persist approved snapshot: " +:+ err_Error e) [e].

Lemma ApprovePending_spec fp actor (m : Mgr) r m' :
  ApprovePending fp actor m = (r, m') ->
  match r with
  | Err e => m_active m' = m_active m /\ m_bootstrap m' = m_bootstrap m /\ m_gauges m' = m_gauges m /\
      m_world m' = m_world m /\
      (m_store m' = m_store m \/ exists next e0, identified next /\
         SaveSnapshot next (m_store m) = (Err e0, m_store m') /\ e = persist_error e0)
  | Ok next => exists cur idx clone approved,
      m_active m = Some cur /\
      list_find (fun pa => a_FingerprintSHA256 (p_Anchor pa) = fp) (s_Pending cur) = Some (idx, approved) /\
      cloneSnapshot cur = Ok clone /\ (exists approved', s_Pending clone !! idx = Some approved' /\
        next = approve_in cur clone idx approved' (m_now m)) /\
      (SaveSnapshot next (m_store m)).1 = Ok tt /\
      only_events (activate next (save next m).2) m'
  end.
Proof using.
  unfold ApprovePending. destruct (m_active m) as [cur|] eqn:Ha; [|intros [= <- <-]; split_and!; auto].
  destruct (list_find _ _) as [[idx approved]|] eqn:Hf; [|intros [= <- <-]; split_and!; auto].
  destruct (cloneSnapshot cur) as [clone|e] eqn:Hc; [|intros [= <- <-]; split_and!; auto].
  destruct (s_Pending clone !! idx) as [approved'|] eqn:Hl; [|intros [= <- <-]; split_and!; auto].
  set (next := approve_in _ _ _ _ _).
  destruct (save next m) as [[[]|e] m1] eqn:Hs; unfold save in Hs;
    destruct (SaveSnapshot next (m_store m)) as [r1 st1] eqn:E; injection Hs as -> <-.
  - intros [= <- <-]. exists cur, idx, clone, approved. split_and!; try done; [by exists approved'|by rewrite E|].
    unfold save. rewrite E. etrans; apply m_emit_only.
  - intros [= <- <-]. split_and!; try done. right. by exists next, e.
Qed.

Lemma inv_save_only s (m : Mgr) : inv m -> identified s -> inv (save s m).2.
Proof using SL.
  intros [(b & Hb & Hl) Ha Hs Hw Hg] Hi. unfold save.
  pose proof (save_loads s (m_store m)) as [_ Hlb]. pose proof (inv_store_ok (m_store m) s Hi Hs) as Hst.
  destruct (SaveSnapshot s (m_store m)) as [r st]. simpl in *.
  split; simpl; [|done..]. exists b. by rewrite Hlb.
Qed.

Lemma ApprovePending_keeps fp actor (m : Mgr) :
  inv m -> inv (ApprovePending fp actor m).2 /\ m_bootstrap (ApprovePending fp actor m).2 = m_bootstrap m.
Proof using SL.
  intros Hi. destruct (ApprovePending fp actor m) as [r m'] eqn:E. apply ApprovePending_spec in E.
  destruct r as [next|e].
  - destruct E as (cur & idx & clone & a & _ & _ & _ & (a' & _ & ->) & _ & Ho). split.
    + eapply inv_only_events; [|exact Ho]. apply inv_activate; [|done]. by apply inv_save_only.
    + simpl. rewrite (oe_bootstrap _ _ Ho). simpl. unfold save. by destruct (SaveSnapshot _ _).
  - destruct E as (Ea & Eb & Eg & _ & Es). split; [|done]. simpl.
    destruct Es as [Es|(next & e0 & Hn & Es & _)].
    + destruct Hi. split; rewrite ?Ea, ?Eb, ?Eg, ?Es; done.
    + destruct (inv_save_only next m Hi Hn) as [Hb _ Hst _ _]. unfold save in Hb, Hst.
      rewrite Es in Hb, Hst. simpl in *. destruct Hi. split; rewrite ?Ea, ?Eb, ?Eg; done.
Qed.

(** ** What survives a restart *)

Lemma save_or_report_lasting next (m : Mgr) : lasting (m_store (save_or_report next m)) = lasting (m_store m).
Proof using SL. destruct (save_or_report_spec next m) as (_ & _ & _ & _ & _ & -> & _). apply lasting_save. Qed.

Lemma reconcile_lasting (m : Mgr) prev changed rep m' :
  reconcileDeclared (m_active m) m = (prev, changed, rep, m') -> lasting (m_store m') = lasting (m_store m).
Proof using RL SL.
  intros [_ H]%reconcile_spec. destruct changed.
  - destruct H as (p & now & next & w & _ & _ & _ & Ho). rewrite (oe_store _ _ Ho). apply (save_or_report_lasting next (set_world m w)).
  - destruct H as [_ Ho]. by rewrite (oe_store _ _ Ho).
Qed.

Lemma ReconcileDeclared_lasting (m : Mgr) : lasting (m_store (ReconcileDeclared m).2) = lasting (m_store m).
Proof using RL SL.
  unfold ReconcileDeclared. destruct (reconcileDeclared _ _) as [[[prev changed] rep] m1] eqn:Hr.
  by apply reconcile_lasting in Hr.
Qed.

Lemma Refresh_lasting (m : Mgr) out m' : Refresh m = Some (out, m') -> lasting (m_store m') = lasting (m_store m).
Proof using RL SL.
  unfold Refresh. destruct (reconcileDeclared _ _) as [[[prev changed] rep] m1] eqn:Hr.
  apply reconcile_lasting in Hr. set (m2 := if changed then _ else m1).
  assert (H2 : m_store m2 = m_store m1) by (subst m2; by destruct changed).
  destruct (m_bootstrap m2) as [boot|]; [|done]. destruct (rf_Refresh prev boot (m_world m2)) as [[next|err] w].
  - pose proof (accept_spec prev changed (dr_Internal rep) next (set_world m2 w)) as (_ & _ & Hs & _).
    destruct (accept _ _ _ _ _) as [o m3]. intros [= _ <-]. simpl in Hs. rewrite Hs, <-Hr, <-H2.
    destruct (must_persist prev next); [apply (save_or_report_lasting next (set_world m2 w))|done].
  - intros [= _ <-]. simpl. congruence.
Qed.

Lemma ApprovePending_lasting fp actor (m : Mgr) :
  lasting (m_store (ApprovePending fp actor m).2) = lasting (m_store m).
Proof using SL.
  destruct (ApprovePending fp actor m) as [r m'] eqn:E. apply ApprovePending_spec in E. destruct r as [next|e]; simpl.
  - destruct E as (_ & _ & _ & _ & _ & _ & _ & _ & _ & Ho). rewrite (oe_store _ _ Ho). simpl. unfold save.
    pose proof (lasting_save next (m_store m)) as Hl. by destruct (SaveSnapshot _ _).
  - destruct E as (_ & _ & _ & _ & [->|(next & e0 & _ & Es & _)]); [done|].
    pose proof (lasting_save next (m_store m)) as Hl. by rewrite Es in Hl.
Qed.

Lemma ReconcileDeclared_keeps (m : Mgr) :
  inv m -> inv (ReconcileDeclared m).2 /\ m_bootstrap (ReconcileDeclared m).2 = m_bootstrap m.
Proof using RL SL.
  intros Hi. unfold ReconcileDeclared. destruct (reconcileDeclared _ _) as [[[prev changed] rep] m1] eqn:Hr.
  simpl. split; [|by eapply reconcile_boot].
  eapply inv_only_events; [by eapply reconcile_inv|apply set_log_only].
Qed.

(** ** Starting *)

Definition store_ok (st : St) : Prop :=
  held_snapshot st = Ok None \/ exists s, held_snapshot st = Ok (Some s) /\ identified s.

Lemma Initialize_spec st w log seed m :
  Initialize seed (NewManager st w log) = (Ok tt, m) ->
  held_snapshot st = Ok (m_active m) /\ held_snapshot (m_store m) = Ok (m_active m) /\
  (exists b, m_bootstrap m = Some b /\ held_bootstrap (m_store m) = Ok (Some b) /\
     forall b0, held_bootstrap st = Ok (Some b0) -> b0 = b /\ m_store m = st) /\
  m_gauges m = match m_active m with Some s => set_gauges s Gauges_init | None => Gauges_init end /\
  m_log m = log /\ later w (m_world m) /\ lasting (m_store m) = lasting st.
Proof using SL.
  unfold Initialize. change (m_store (NewManager st w log)) with st. cbn [m_store set_bootstrap].
  destruct (LoadLatestBootstrap st) as [[b|]|e] eqn:Hb; [apply loaded_bootstrap in Hb..|done].
  - change (m_store (NewManager st w log)) with st.
    destruct (LoadLatestSnapshot st) as [[s|]|e] eqn:Hs; intros [= <-]; simpl; apply loaded_snapshot in Hs;
      (split_and!; try done; exists b; split_and!; try done; rewrite Hb; by intros b0 [= <-]).
  - destruct (str_eqb seed ""); [done|]. cbv zeta. destruct (SeedBootstrap _ _ _) as [b|e]; [|done]. simpl.
    assert (Hlw : later w (next_load (NewFetcher [] w))) by (split; simpl; [done|lia]). pose proof (lasting_bootstrap b st) as Hll.
    destruct (SaveBootstrap b st) as [[[]|e] st'] eqn:Hsv; [|done].
    pose proof (save_bootstrap_snapshot b st) as Hl. rewrite Hsv in Hl. simpl in Hl.
    apply save_held_bootstrap in Hsv as Hlb; [|done]. simpl.
    destruct (LoadLatestSnapshot st') as [[s|]|e] eqn:Hs; intros [= <-]; simpl; apply loaded_snapshot in Hs;
      (split_and!; [congruence|done|exists b; split_and!; [done|done|congruence]|done|done|exact Hlw|exact Hll]).
Qed.

Lemma Start_keeps st w log seed (m : Mgr) :
  store_ok st -> Start seed (NewManager st w log) = (Ok tt, m) ->
  inv m /\ lasting (m_store m) = lasting st /\ forall b, held_bootstrap st = Ok (Some b) -> m_bootstrap m = Some b.
Proof using RL SL.
  unfold Start. intros Hst. destruct (Initialize seed _) as [[[]|e] m1] eqn:Hi; [|done].
  apply Initialize_spec in Hi as (Hl & Hl' & (b & Hb & Hlb & Hsame) & Hg & _ & _ & Hlast).
  assert (H1 : inv m1).
  { assert (Ha : forall s, m_active m1 = Some s -> identified s).
    { intros s Hs. rewrite Hs in Hl. destruct Hst as [E|(s' & E & ?)]; congruence. }
    split; [by exists b|done| | |].
    - rewrite Hl'. destruct (m_active m1) as [s|]; [right; eauto|by left].
    - rewrite Hg. destruct (m_active m1); [apply set_gauges_wf|]; apply gauges_init_wf.
    - intros s Hs. rewrite Hg, Hs. apply set_gauges_show, gauges_init_wf. }
  assert (Hbb : forall b0, held_bootstrap st = Ok (Some b0) -> m_bootstrap m1 = Some b0).
  { intros b0 Hb0. destruct (Hsame b0 Hb0) as [-> _]. done. }
  destruct (m_active m1); intros [= <-]; [|done].
  destruct (ReconcileDeclared_keeps m1 H1) as [? ->]. by rewrite ReconcileDeclared_lasting.
Qed.

Definition is_restart (o : Op) : bool := match o with OpRestart _ => true | _ => false end.

Lemma reopen_ok st : store_ok st -> store_ok (Reopen st).
Proof using SL.
  intros Hs. unfold store_ok. destruct (lasting st) eqn:Hl; [by rewrite (proj1 (reopen_held st Hl))|].
  left. apply (reopen_empty st Hl).
Qed.

(** The bootstrap is kept but by a restart on a store that does not last. *)
Lemma exec_keeps o (m m' : Mgr) :
  inv m -> exec o m = Some m' ->
  inv m' /\ lasting (m_store m') = lasting (m_store m) /\
  (lasting (m_store m) || negb (is_restart o) = true -> m_bootstrap m' = m_bootstrap m).
Proof using RL SL.
  intros Hi. destruct o as [| |fp actor| | |scope actor path|seed]; simpl.
  - destruct (Refresh m) as [[out m1]|] eqn:Hr; [|done]. intros [= <-].
    split_and!; [by eapply Refresh_keeps|by eapply Refresh_lasting|intros _; by eapply Refresh_boot].
  - intros [= <-]. destruct (ReconcileDeclared_keeps m Hi). by rewrite ReconcileDeclared_lasting.
  - intros [= <-]. destruct (ApprovePending_keeps fp actor m Hi). by rewrite ApprovePending_lasting.
  - intros [= <-]. split; [by apply inv_set_kick|done].
  - destruct (m_kick m); [|done]. intros [= <-]. split; [by apply inv_set_kick|done].
  - intros [= <-]. split; [|done]. eapply inv_only_events; [exact Hi|apply m_emit_only].
  - destruct (Start seed _) as [[[]|e] m1] eqn:Hs; [|done]. intros [= <-].
    destruct (inv_boot _ Hi) as (b & Hb & Hlb).
    apply Start_keeps in Hs as (H1 & Hl & H2); [|apply reopen_ok, (inv_stored _ Hi)]. rewrite lasting_reopen in Hl.
    split_and!; [done..|]. rewrite orb_false_r. intros Hla. rewrite Hb. apply H2. by rewrite (proj2 (reopen_held _ Hla)).
Qed.

Lemma run_keeps (m : Mgr) os m' :
  run m os m' -> inv m ->
  inv m' /\ lasting (m_store m') = lasting (m_store m) /\ (lasting (m_store m) = true -> m_bootstrap m' = m_bootstrap m).
Proof using RL SL.
  induction 1 as [|m o m1 os m2 He _ IH]; intros Hi; [done|].
  destruct (exec_keeps _ _ _ Hi He) as (H1 & L1 & E1). destruct (IH H1) as (H2 & L2 & E2).
  split_and!; [done|congruence|]. intros Hl. rewrite E2 by congruence. apply E1. by rewrite Hl.
Qed.

Lemma installed_inv (m : Mgr) : installed m -> inv m.
Proof using RL SL.
  intros (st & w & seed & _ & Hs%loaded_snapshot & Hst). eapply Start_keeps; [by left|exact Hst].
Qed.

(** ** Events only accumulate *)

Lemma save_or_report_events s (m : Mgr) :
  later (m_world m) (m_world (save_or_report s m)).
Proof using.
  destruct (save_or_report_spec s m) as (_ & _ & _ & _ & _ & _ & He).
  destruct (SaveSnapshot s (m_store m)).1; rewrite He; [done|]. apply emit_later.
Qed.

Lemma reconcile_events (m : Mgr) prev changed rep m' :
  reconcileDeclared (m_active m) m = (prev, changed, rep, m') ->
  later (m_world m) (m_world m').
Proof using RL.
  intros [_ H]%reconcile_spec. destruct changed.
  - destruct H as (p & now & next & w & _ & _ & Hr & Ho).
    pose proof (declared_later p now (m_world m)) as Hev. rewrite Hr in Hev. simpl in Hev.
    etrans; [exact Hev|]. etrans; [|exact (oe_later _ _ Ho)]. simpl.
    apply (save_or_report_events next (set_world m w)).
  - destruct H as [_ Ho]. exact (oe_later _ _ Ho).
Qed.

(** The two halves of [Refresh]. *)
Lemma Refresh_spec (m : Mgr) out m' :
  Refresh m = Some (out, m') ->
  exists prev changed rep m1 boot r w,
    reconcileDeclared (m_active m) m = (prev, changed, rep, m1) /\
    (m_active m1 = prev /\ m_bootstrap m1 = Some boot) /\
    rf_Refresh prev boot (m_world m1) = (r, w) /\
    exists m2, only_events m1 m2 /\ later w (m_world m2) /\
    match r with
    | Err err => ro_CycleErr out = Some err /\ ro_Snapshot out = prev /\ m' = m_emit (EvRefreshFailure "cycle" (err_Error err)) m2
    | Ok next => ro_CycleErr out = None /\ ro_Snapshot out = Some next /\
        m' = (accept prev changed (dr_Internal rep) next m2).2
    end.
Proof using RL.
  unfold Refresh. destruct (reconcileDeclared _ _) as [[[prev changed] rep] m1] eqn:Hr.
  apply reconcile_spec in Hr as Hs. destruct Hs as [Ha _].
  set (m2 := if changed then _ else m1).
  assert (Ho : only_events m1 m2) by (subst m2; destruct changed; [apply set_log_only|done]).
  assert (Hw : m_world m2 = m_world m1) by (subst m2; by destruct changed).
  destruct (m_bootstrap m2) as [boot|] eqn:Hb; [|done]. rewrite Hw.
  destruct (rf_Refresh prev boot (m_world m1)) as [r w] eqn:Hf.
  assert (Ho2 : only_events m1 (set_world m2 w)).
  { etrans; [exact Ho|]. apply set_world_only. rewrite Hw. pose proof (refresh_later prev boot (m_world m1)) as He.
    by rewrite Hf in He. }
  intros [= E]. exists prev, changed, rep, m1, boot, r, w. split_and!; [done..|by rewrite <-(oe_bootstrap _ _ Ho)|done|].
  exists (set_world m2 w). split_and!; [done..|]. destruct r as [next|err].
  - destruct (accept prev changed (dr_Internal rep) next (set_world m2 w)) as [o m3] eqn:Hacc.
    injection E as <- <-. unfold accept in Hacc. by injection Hacc as <- _.
  - by injection E as <- <-.
Qed.

Lemma accept_events prev dc decl next (m : Mgr) :
  later (m_world m) (m_world (accept prev dc decl next m).2).
Proof using.
  destruct (accept_spec prev dc decl next m) as (_ & _ & _ & He). etrans; [|exact He].
  destruct (must_persist prev next); [apply save_or_report_events|done].
Qed.

Lemma Refresh_events_grow (m : Mgr) out m' :
  Refresh m = Some (out, m') -> later (m_world m) (m_world m').
Proof using RL.
  intros (prev & changed & rep & m1 & boot & r & w & Hr & _ & _ & m2 & Ho & _ & H)%Refresh_spec.
  apply reconcile_events in Hr. etrans; [exact Hr|]. etrans; [exact (oe_later _ _ Ho)|].
  destruct r as [next|err].
  - destruct H as (_ & _ & ->). apply accept_events.
  - destruct H as (_ & _ & ->). apply m_emit_only.
Qed.

(** ** When a cycle is persisted *)

(** The observable state of a territory: health, sequence, skipped services. *)
Definition same_state (pt t : Territory) : Prop :=
  t_CarriedOver pt = t_CarriedOver t /\ t_TLSequence pt = t_TLSequence t /\ t_Failed pt = t_Failed t /\
  t_FailureReason pt = t_FailureReason t /\ skipped_key <$> t_Skipped pt ≡ₚ skipped_key <$> t_Skipped t.

Definition pending_keys (s : Snapshot) : list (string * string) :=
  (fun p => (a_FingerprintSHA256 (p_Anchor p), a_Territory (p_Anchor p))) <$> s_Pending s.

(** [n] has nothing a restart from [p] would lose. *)
Record unchanged_from (p n : Snapshot) : Prop := {
  uf_id : s_ID p = s_ID n;
  uf_pending : pending_keys p = pending_keys n;
  uf_digest : s_LOTLDigest p = s_LOTLDigest n;
  uf_territories : forall t, t ∈ s_Territories n ->
    exists pt, Snapshot_Territory p (t_Code t) = Some pt /\ same_state pt t
}.

Lemma territory_differs_false p t :
  territory_differs p t = false <-> exists pt, Snapshot_Territory p (t_Code t) = Some pt /\ same_state pt t.
Proof using.
  unfold territory_differs, same_state. destruct (Snapshot_Territory p (t_Code t)) as [pt|].
  - rewrite !orb_false_iff, !negb_false_iff, !eqb_true_iff, Z.eqb_eq, str_eqb_eq, skippedEqual_perm. naive_solver.
  - split; [done|]. by intros (pt & ? & _).
Qed.

Lemma existsb_false {A} (f : A -> bool) l : existsb f l = false <-> forall x, x ∈ l -> f x = false.
Proof using.
  rewrite <-not_true_iff_false, List.existsb_exists. split.
  - intros H x Hx. apply not_true_iff_false. intros Hf. apply H. exists x. by rewrite <-list_elem_of_In.
  - intros H (x & Hx & Hf). rewrite <-list_elem_of_In in Hx. rewrite H in Hf; done.
Qed.

Lemma must_persist_false p n : must_persist (Some p) n = false <-> unchanged_from p n.
Proof using.
  unfold must_persist, cycleChanged, lotlInputChanged, territoryStateChanged.
  rewrite !orb_false_iff, !negb_false_iff, !str_eqb_eq, pendingEqual_keys, existsb_false.
  split.
  - intros [[[? ?] Ht] ?]. split; [done..|]. intros t Hin. by apply territory_differs_false, Ht.
  - intros [? ? ? Ht]. split_and!; try done. intros t Hin. by apply territory_differs_false, Ht.
Qed.

Lemma unchanged_from_trans p q n : unchanged_from p q -> unchanged_from q n -> unchanged_from p n.
Proof using.
  intros [Hi Hp Hd Ht] [Hi' Hp' Hd' Ht']. split; [congruence..|]. intros t Hin.
  destruct (Ht' t Hin) as (qt & Hq & Hs'). apply Snapshot_Territory_Some in Hq as [Hq Hc].
  destruct (Ht qt Hq) as (pt & Hpt & Hs). exists pt. rewrite <-Hc. split; [done|].
  destruct Hs as (? & ? & ? & ? & Hk), Hs' as (? & ? & ? & ? & Hk'). split_and!; try congruence. by rewrite Hk.
Qed.

(** ** Durability *)

(** A restart from [s] serves what [a] serves. *)
Definition restart_same (s a : Snapshot) : Prop := stored s = stored a \/ unchanged_from s a.

Lemma unchanged_stored s s' a : stored s = stored s' -> unchanged_from s' a -> unchanged_from s a.
Proof using.
  intros E [Hi Hp Hd Ht].
  assert (E1 := f_equal s_ID E). assert (E2 := f_equal s_Pending E).
  assert (E3 := f_equal s_LOTLDigest E). assert (E4 := f_equal s_Territories E). simpl in *.
  unfold pending_keys, Snapshot_Territory in *. split; [congruence| |congruence|].
  - unfold pending_keys. by rewrite E2.
  - intros t Hin. destruct (Ht t Hin) as (pt & Hpt & Hs). exists pt. split; [|done].
    unfold Snapshot_Territory in *. by rewrite E4.
Qed.

Lemma restart_same_trans s a n : restart_same s a -> unchanged_from a n -> restart_same s n.
Proof using.
  intros [H|H] Hu; right; [by eapply unchanged_stored|by eapply unchanged_from_trans].
Qed.

Definition durable (m : Mgr) : Prop :=
  match m_active m with
  | None => held_snapshot (m_store m) = Ok None
  | Some a => exists s, held_snapshot (m_store m) = Ok (Some s) /\ restart_same s a
  end.

(** A failure to persist was reported. *)
Definition reported (m : Mgr) : Prop := exists reason, EvRefreshFailure "persist" reason ∈ w_events (m_world m).

Lemma reported_prefix (m m' : Mgr) :
  later (m_world m) (m_world m') -> reported m -> reported m'.
Proof using. intros [[l E] _] [reason Hr]. exists reason. rewrite E. apply elem_of_app. by left. Qed.

Lemma durable_only_events (m m' : Mgr) : only_events m m' -> durable m -> durable m'.
Proof using. intros [Ea _ Es _ _ _]. unfold durable. by rewrite Ea, Es. Qed.

(** Serving a snapshot that was just saved, or reported as not saved. *)
Lemma save_durable next (m m' : Mgr) :
  m_active m' = Some next -> m_store m' = m_store (save_or_report next m) ->
  later (m_world (save_or_report next m)) (m_world m') ->
  durable m' \/ reported m'.
Proof using SL.
  intros Ha Hs He. destruct (save_or_report_spec next m) as (_ & _ & _ & _ & _ & Est & Hev).
  unfold durable. rewrite Ha, Hs, Est.
  destruct (SaveSnapshot next (m_store m)) as [[[]|e] st] eqn:E; simpl in *.
  - left. exists (stored next). split; [by eapply save_held_snapshot|by left].
  - right. exists (err_Error e). destruct He as [[l ->] _]. rewrite Hev. simpl.
    rewrite !elem_of_app, list_elem_of_singleton. auto.
Qed.

Lemma reconcile_durable (m : Mgr) prev changed rep m' :
  reconcileDeclared (m_active m) m = (prev, changed, rep, m') -> durable m \/ reported m -> durable m' \/ reported m'.
Proof using RL SL.
  intros Hr Hd. pose proof (reconcile_events _ _ _ _ _ Hr) as Hev.
  apply reconcile_spec in Hr as [Ha H]. destruct changed.
  - destruct H as (p & now & next & w & _ & -> & _ & Ho).
    eapply (save_durable next (set_world m w)); [done|by rewrite (oe_store _ _ Ho)|exact (oe_later _ _ Ho)].
  - destruct H as [_ Ho]. destruct Hd as [Hd|Hd]; [left; by eapply durable_only_events|right; by eapply reported_prefix].
Qed.

Lemma accept_durable dc decl next (m : Mgr) :
  durable m \/ reported m ->
  durable (accept (m_active m) dc decl next m).2 \/ reported (accept (m_active m) dc decl next m).2.
Proof using SL.
  intros Hd. pose proof (accept_events (m_active m) dc decl next m) as Hev.
  destruct (accept_spec (m_active m) dc decl next m) as (Ha & _ & Hs & He).
  set (m' := (accept _ _ _ _ m).2) in *. destruct (must_persist (m_active m) next) eqn:Hm.
  - by eapply save_durable.
  - destruct Hd as [Hd|Hd]; [|right; by eapply reported_prefix]. left. unfold durable in *.
    rewrite Ha, Hs. destruct (m_active m) as [p|]; [|done]. apply must_persist_false in Hm.
    destruct Hd as (s & Hl & Hrs). exists s. split; [done|]. by eapply restart_same_trans.
Qed.

Lemma Refresh_durable (m : Mgr) out m' :
  Refresh m = Some (out, m') -> durable m \/ reported m -> durable m' \/ reported m'.
Proof using RL SL.
  intros (prev & changed & rep & m1 & boot & r & w & Hr & [Ha _] & _ & m2 & Ho & _ & H)%Refresh_spec Hd.
  apply reconcile_durable in Hr; [|done].
  assert (H2 : durable m2 \/ reported m2).
  { destruct Hr as [?|?]; [left; by eapply durable_only_events|right; exact (reported_prefix _ _ (oe_later _ _ Ho) ltac:(done))]. }
  destruct r as [next|err].
  - destruct H as (_ & _ & ->). rewrite <-Ha, <-(oe_active _ _ Ho). by apply accept_durable.
  - destruct H as (_ & _ & ->). pose proof (m_emit_only (EvRefreshFailure "cycle" (err_Error err)) m2) as Hem.
    destruct H2 as [?|?]; [left; by eapply durable_only_events|right; exact (reported_prefix _ _ (oe_later _ _ Hem) ltac:(done))].
Qed.

Lemma Initialize_durable st w log seed m :
  Initialize seed (NewManager st w log) = (Ok tt, m) -> durable m.
Proof using SL.
  intros (_ & Hl & _)%Initialize_spec. unfold durable. destruct (m_active m) as [s|]; [|done].
  exists s. split; [done|by left].
Qed.

(** The approval failed because the approved snapshot could not be saved, and said so. *)
Definition unpersisted (fp actor : string) (e : error) (m : Mgr) : Prop :=
  (ApprovePending fp actor m).1 = Err (persist_error e) /\
  exists next, (SaveSnapshot next (m_store m)).1 = Err e.

Lemma exec_durable o (m m' : Mgr) :
  exec o m = Some m' -> durable m \/ reported m ->
  durable m' \/ reported m' \/ exists fp actor e, o = OpApprove fp actor /\ unpersisted fp actor e m.
Proof using RL SL.
  intros He Hd. destruct o as [| |fp actor| | |scope actor path|seed]; simpl in He.
  - destruct (Refresh m) as [[out m1]|] eqn:Hr; [|done]. injection He as <-.
    apply Refresh_durable in Hr; tauto.
  - injection He as <-. unfold ReconcileDeclared.
    destruct (reconcileDeclared _ _) as [[[prev changed] rep] m1] eqn:Hr. apply reconcile_durable in Hr; [|done]. tauto.
  - injection He as <-. destruct (ApprovePending fp actor m) as [[next|e] m1] eqn:Ha; simpl.
    + apply ApprovePending_spec in Ha as (cur & idx & clone & a & _ & _ & _ & _ & Hok & Ho). left.
      unfold durable. rewrite (oe_active _ _ Ho), (oe_store _ _ Ho). simpl. exists (stored next).
      unfold save. destruct (SaveSnapshot next (m_store m)) as [r st] eqn:E. simpl in *. subst r.
      split; [by eapply save_held_snapshot|by left].
    + apply ApprovePending_spec in Ha as Hs. destruct Hs as (Ea & _ & _ & Ew & [Es|(next & e0 & _ & Es & ->)]).
      * unfold durable, reported in *. rewrite Ea, Es, Ew. tauto.
      * right. right. exists fp, actor, e0. split; [done|]. split; [by rewrite Ha|]. exists next. by rewrite Es.
  - injection He as <-. tauto.
  - destruct (m_kick m); [|done]. injection He as <-. tauto.
  - injection He as <-. pose proof (m_emit_only (EvAuthzDenied scope actor path) m) as Hem.
    destruct Hd as [?|?]; [left; by eapply durable_only_events|right; left; exact (reported_prefix _ _ (oe_later _ _ Hem) ltac:(done))].
  - unfold Start in He. destruct (Initialize seed _) as [[[]|e] m1] eqn:Hi; [|done].
    apply Initialize_durable in Hi. destruct (m_active m1) eqn:Ha; injection He as <-; [|by left].
    unfold ReconcileDeclared. destruct (reconcileDeclared _ _) as [[[prev changed] rep] m2] eqn:Hr.
    apply reconcile_durable in Hr; [|by left]. tauto.
Qed.

Lemma run_durable (m : Mgr) os m' :
  run m os m' -> durable m \/ reported m ->
  durable m' \/ reported m' \/
  exists os1 fp actor os2 m1 e, os = os1 ++ OpApprove fp actor :: os2 /\ run m os1 m1 /\ unpersisted fp actor e m1.
Proof using RL SL.
  induction 1 as [|m o m1 os m2 He Hrun IH]; intros Hd; [tauto|].
  destruct (exec_durable _ _ _ He Hd) as [H1|[H1|(fp & actor & e & -> & Hf)]].
  3:{ right. right. exists [], fp, actor, os, m, e. split_and!; [done|constructor|done]. }
  all: destruct IH as [IH|[IH|(os1 & fp & actor & os2 & mm & e & -> & Hr & Hf)]]; [tauto..|].
  all: right; right; exists (o :: os1), fp, actor, os2, mm, e; split_and!; [done|by econstructor|done].
Qed.

Lemma installed_durable (m : Mgr) : installed m -> durable m.
Proof using SL.
  intros (st & w & seed & _ & Hs%loaded_snapshot & Hst). unfold Start in Hst.
  destruct (Initialize seed _) as [[[]|e] m1] eqn:Hi; [|done]. pose proof (Initialize_durable _ _ _ _ _ Hi) as Hd.
  apply Initialize_spec in Hi as (Hl & _). rewrite Hs in Hl. injection Hl as Ha. rewrite <-Ha in Hst. by injection Hst as <-.
Qed.

(** ** Sequence numbers *)

Lemma approve_sequence {CL : CodecLaws} cur clone idx a now :
  cloneSnapshot cur = Ok clone -> s_LOTLSequence (approve_in cur clone idx a now) = s_LOTLSequence cur.
Proof using.
  unfold cloneSnapshot. intros H. destruct (marshal_snapshot cur) as [b|] eqn:E; [|done].
  rewrite (snapshot_roundtrip _ _ E) in H. by injection H as <-.
Qed.

(** The served sequence does not go back, and something served stays served. *)
Definition no_rollback (m m' : Mgr) : Prop :=
  forall s, m_active m = Some s -> exists s', m_active m' = Some s' /\ s_LOTLSequence s <= s_LOTLSequence s'.

Lemma no_rollback_same (m m' : Mgr) : m_active m' = m_active m -> no_rollback m m'.
Proof using. intros E s Hs. exists s. rewrite E. split; [done|lia]. Qed.

Lemma no_rollback_trans (m1 m2 m3 : Mgr) : no_rollback m1 m2 -> no_rollback m2 m3 -> no_rollback m1 m3.
Proof using.
  intros H1 H2 s (s2 & Hs2 & L2)%H1. apply H2 in Hs2 as (s3 & Hs3 & L3). exists s3. split; [done|lia].
Qed.

Lemma reconcile_rollback (m : Mgr) prev changed rep m' :
  reconcileDeclared (m_active m) m = (prev, changed, rep, m') -> no_rollback m m'.
Proof using RL.
  intros [Ha H]%reconcile_spec. destruct changed.
  - destruct H as (p & now & next & w & Hp & -> & Hr & _). apply declared_follows in Hr as ([_ _ _ Hs] & _).
    intros s Hs'. exists next. split; [done|]. rewrite Hp in Hs'. injection Hs' as <-. by apply Hs.
  - destruct H as [-> _]. by apply no_rollback_same.
Qed.

Lemma Refresh_rollback (m : Mgr) out m' : Refresh m = Some (out, m') -> no_rollback m m'.
Proof using RL.
  intros (prev & changed & rep & m1 & boot & r & w & Hr & [Ha _] & Hf & m2 & Ho & _ & H)%Refresh_spec.
  eapply no_rollback_trans; [by eapply reconcile_rollback|]. destruct r as [next|err].
  - destruct H as (_ & _ & ->). apply refresh_follows in Hf as [_ _ _ Hs]. intros s Hs'. exists next.
    split; [apply accept_spec|]. apply Hs. congruence.
  - destruct H as (_ & _ & ->). apply no_rollback_same. simpl. by rewrite (oe_active _ _ Ho).
Qed.

Lemma exec_rollback {CL : CodecLaws} o (m m' : Mgr) :
  is_restart o = false -> exec o m = Some m' -> no_rollback m m'.
Proof using RL.
  destruct o as [| |fp actor| | |scope actor path|seed]; simpl; intros Ho He; [| | | | | |done].
  - destruct (Refresh m) as [[out m1]|] eqn:Hr; [|done]. injection He as <-. by eapply Refresh_rollback.
  - injection He as <-. unfold ReconcileDeclared.
    destruct (reconcileDeclared _ _) as [[[prev changed] rep] m1] eqn:Hr.
    exact (reconcile_rollback _ _ _ _ _ Hr).
  - injection He as <-. destruct (ApprovePending fp actor m) as [[next|e] m1] eqn:Ha; apply ApprovePending_spec in Ha.
    + destruct Ha as (cur & idx & clone & a & Hc & _ & Hcl & (a' & _ & ->) & _ & Hoe). intros s Hs.
      eexists. simpl. rewrite (oe_active _ _ Hoe). split; [done|]. rewrite (approve_sequence _ _ _ _ _ Hcl).
      rewrite Hc in Hs. injection Hs as <-. lia.
    + destruct Ha as (Ha & _). by apply no_rollback_same.
  - injection He as <-. by apply no_rollback_same.
  - destruct (m_kick m); [|done]. injection He as <-. by apply no_rollback_same.
  - injection He as <-. by apply no_rollback_same.
Qed.

(** ** Approving *)

Lemma update_first_served code a ts :
  Exists (fun t => t_Code t = code) ts ->
  concat (t_Anchors <$> update_first code (fun t => set_t_Anchors t (sort_Slice served_less (t_Anchors t ++ [a]))) ts)
    ≡ₚ a :: concat (t_Anchors <$> ts).
Proof using.
  induction ts as [|t ts IH]; [by intros ?%Exists_nil|]. simpl. intros Hex.
  destruct (str_eqb (t_Code t) code) eqn:E; csimpl.
  - rewrite sort_Slice_perm. rewrite <-app_assoc. simpl. symmetry. apply Permutation_middle.
  - apply str_eqb_neq in E. apply Exists_cons in Hex as [?|Hex]; [done|]. rewrite (IH Hex). symmetry.
    apply Permutation_middle.
Qed.

Lemma update_first_others code f ts :
  (forall t, t_Code (f t) = t_Code t) ->
  filter (fun t => t_Code t <> code) (update_first code f ts) = filter (fun t => t_Code t <> code) ts.
Proof using.
  intros Hf. induction ts as [|t ts IH]; [done|]. simpl. destruct (str_eqb (t_Code t) code) eqn:E.
  - apply str_eqb_eq in E. rewrite !filter_cons, Hf. by rewrite !decide_False by (rewrite E; tauto).
  - rewrite !filter_cons. by case_decide; rewrite IH.
Qed.

Lemma add_anchor_served a ts :
  concat (t_Anchors <$> add_anchor a ts) ≡ₚ a :: concat (t_Anchors <$> ts).
Proof using.
  unfold add_anchor. case_bool_decide as Hex; [by apply update_first_served|].
  rewrite update_first_served.
  - constructor. rewrite (sort_Slice_perm territory_less), fmap_app, concat_app. simpl. by rewrite app_nil_r.
  - apply Exists_exists. exists (empty_territory (a_Territory a)). split; [|done].
    apply elem_of_sort_Slice, elem_of_app. right. by apply list_elem_of_singleton.
Qed.

Lemma add_anchor_others a ts :
  filter (fun t => t_Code t <> a_Territory a) (add_anchor a ts) ≡ₚ filter (fun t => t_Code t <> a_Territory a) ts.
Proof using.
  unfold add_anchor. rewrite update_first_others by done. case_bool_decide; [done|].
  rewrite (sort_Slice_perm territory_less), filter_app, filter_cons, decide_False by (simpl; tauto).
  by rewrite app_nil_r.
Qed.

Lemma clone_stored {CL : CodecLaws} s c : cloneSnapshot s = Ok c -> c = stored s.
Proof using.
  unfold cloneSnapshot. intros H. destruct (marshal_snapshot s) as [b|] eqn:E; [|done].
  rewrite (snapshot_roundtrip _ _ E) in H. by injection H.
Qed.

(** ** Properties of every snapshot of a run

    A predicate kept by cycles, reconciles and approvals holds of whatever is
    served and of whatever is stored. *)

Section Snapshots.
Context (Q : Bootstrap -> world -> Snapshot -> Prop).
Hypothesis Q_later : forall b w w' s, later w w' -> Q b w s -> Q b w' s.
Hypothesis Q_stored : forall b w s, Q b w s -> Q b w (stored s).
Hypothesis Q_refresh : forall b prev w next w',
  (forall p, prev = Some p -> Q b w p) -> rf_Refresh prev b w = (Ok next, w') -> Q b w' next.
Hypothesis Q_declared : forall b p now w next rep w',
  Q b w p -> rf_RefreshDeclared p now w = (Ok (Some next), rep, w') -> Q b w' next.
Hypothesis Q_approve : forall b w cur clone idx pa now,
  Q b w cur -> cloneSnapshot cur = Ok clone -> s_Pending clone !! idx = Some pa ->
  Q b w (approve_in cur clone idx pa now).

Definition holds_Q (b : Bootstrap) (m : Mgr) : Prop :=
  (forall s, m_active m = Some s -> Q b (m_world m) s) /\
  (forall s, held_snapshot (m_store m) = Ok (Some s) -> Q b (m_world m) s).

(** The predicate is relative to the bootstrap in force. *)
Definition all_Q (m : Mgr) : Prop := exists b, m_bootstrap m = Some b /\ holds_Q b m.

Lemma holds_Q_later b (m m' : Mgr) :
  m_active m' = m_active m -> m_store m' = m_store m -> later (m_world m) (m_world m') -> holds_Q b m -> holds_Q b m'.
Proof using Q_later. intros Ea Es Hl [H1 H2]. split; rewrite ?Ea, ?Es; intros s Hs; eapply Q_later; eauto. Qed.

Lemma holds_Q_only_events b (m m' : Mgr) : only_events m m' -> holds_Q b m -> holds_Q b m'.
Proof using Q_later. intros [Ea _ Es _ _ Hl]. by apply holds_Q_later. Qed.

Lemma save_Q b w next st s :
  Q b w next -> (forall s, held_snapshot st = Ok (Some s) -> Q b w s) ->
  held_snapshot (SaveSnapshot next st).2 = Ok (Some s) -> Q b w s.
Proof using SL Q_stored.
  intros Hn Ho. destruct (save_loads next st) as [[->| ->] _]; [apply Ho|]. intros [= <-]. by apply Q_stored.
Qed.

(** Saving, or reporting that it failed, and serving. *)
Lemma save_or_report_Q b next (m m' : Mgr) :
  holds_Q b m -> Q b (m_world m) next -> m_active m' = Some next -> m_store m' = m_store (save_or_report next m) ->
  later (m_world (save_or_report next m)) (m_world m') -> holds_Q b m'.
Proof using SL Q_stored Q_later.
  intros [_ Hs] Hn Ea Es Hl. assert (Hl' : later (m_world m) (m_world m')) by (etrans; [apply save_or_report_events|exact Hl]).
  split; intros s; rewrite ?Ea, ?Es.
  - intros [= <-]. by eapply Q_later.
  - destruct (save_or_report_spec next m) as (_ & _ & _ & _ & _ & -> & _). intros Hh.
    eapply Q_later; [exact Hl'|]. by eapply save_Q.
Qed.

Lemma reconcile_Q b (m : Mgr) prev changed rep m' :
  holds_Q b m -> reconcileDeclared (m_active m) m = (prev, changed, rep, m') -> holds_Q b m'.
Proof using RL SL Q_later Q_stored Q_declared.
  intros Hq [_ H]%reconcile_spec. destruct changed.
  - destruct H as (p & now & next & w & Hp & _ & Hr & Ho).
    pose proof (declared_later p now (m_world m)) as Hl. rewrite Hr in Hl. simpl in Hl.
    assert (Hn : Q b w next) by (eapply Q_declared; [exact (proj1 Hq p Hp)|exact Hr]).
    eapply (save_or_report_Q b next (set_world m w)); [exact (holds_Q_later b m (set_world m w) eq_refl eq_refl Hl Hq)|done| | |];
      [by rewrite (oe_active _ _ Ho)|by rewrite (oe_store _ _ Ho)|exact (oe_later _ _ Ho)].
  - destruct H as [_ Ho]. by eapply holds_Q_only_events.
Qed.

Lemma accept_Q b prev dc decl next (m : Mgr) :
  holds_Q b m -> Q b (m_world m) next -> holds_Q b (accept prev dc decl next m).2.
Proof using SL Q_later Q_stored.
  intros Hq Hn. destruct (accept_spec prev dc decl next m) as (Ea & _ & Es & Hl). destruct (must_persist prev next).
  - by eapply save_or_report_Q.
  - split; intros s; rewrite ?Ea, ?Es; [intros [= <-]|intros Hh; apply Hq in Hh]; by eapply Q_later.
Qed.

Lemma Refresh_Q b (m : Mgr) out m' :
  holds_Q b m -> m_bootstrap m = Some b -> Refresh m = Some (out, m') -> holds_Q b m'.
Proof using RL SL Q_later Q_stored Q_declared Q_refresh.
  intros Hq Hb (prev & changed & rep & m1 & boot & r & w & Hr & [Ha Hb1] & Hf & m2 & Ho & Hw & H)%Refresh_spec.
  pose proof (reconcile_boot _ _ _ _ _ Hr) as Hb'. rewrite Hb1, Hb in Hb'. injection Hb' as ->.
  apply (reconcile_Q b) in Hr; [|done].
  assert (H2 : holds_Q b m2) by (by eapply holds_Q_only_events). destruct r as [next|err].
  - destruct H as (_ & _ & ->). apply accept_Q; [done|]. eapply Q_later; [exact Hw|]. eapply Q_refresh; [|exact Hf].
    intros p Hp. apply (proj1 Hr). congruence.
  - destruct H as (_ & _ & ->). eapply holds_Q_only_events; [apply m_emit_only|done].
Qed.

Lemma ApprovePending_Q b fp actor (m : Mgr) : holds_Q b m -> holds_Q b (ApprovePending fp actor m).2.
Proof using SL Q_later Q_stored Q_approve.
  intros Hm. destruct (id Hm) as [Ha Hs]. unfold ApprovePending. destruct (m_active m) as [cur|] eqn:Hc; [|done].
  destruct (list_find _ _) as [[idx pa]|]; [|done].
  destruct (cloneSnapshot cur) as [clone|e] eqn:Hcl; [|done].
  destruct (s_Pending clone !! idx) as [pa'|] eqn:Hl; [|done].
  set (next := approve_in _ _ _ _ _). assert (Hn : Q b (m_world m) next) by (apply Q_approve; [by apply Ha|done..]).
  pose proof (fun s => save_Q b (m_world m) next (m_store m) s Hn Hs) as Hst.
  unfold save. destruct (SaveSnapshot next (m_store m)) as [[[]|e] st]; cbn [snd fst] in *.
  - eapply holds_Q_only_events; [etrans; apply m_emit_only|]. split; simpl; [by intros s [= <-]|done].
  - split; simpl; [by rewrite Hc|done].
Qed.

Lemma Start_Q st w log seed (m : Mgr) :
  (forall s, held_snapshot st = Ok (Some s) -> exists b0, held_bootstrap st = Ok (Some b0) /\ Q b0 w s) ->
  Start seed (NewManager st w log) = (Ok tt, m) -> all_Q m.
Proof using RL SL Q_later Q_stored Q_declared.
  unfold Start. intros Hs. destruct (Initialize seed _) as [[[]|e] m1] eqn:Hi; [|done].
  apply Initialize_spec in Hi as (Hl & Hl' & (b & Hb & _ & Hsame) & _ & _ & Hw & _).
  assert (H1 : holds_Q b m1).
  { split; intros s E; (destruct (Hs s) as (b0 & Hb0 & Hq); [congruence|]); destruct (Hsame _ Hb0) as [<- _]; by eapply Q_later. }
  destruct (m_active m1) as [a|] eqn:Ha; intros [= <-]; [|by exists b]. exists b.
  unfold ReconcileDeclared. destruct (reconcileDeclared _ _) as [[[prev changed] rep] m2] eqn:Hr. simpl.
  apply reconcile_boot in Hr as Hb2. split; [congruence|]. exact (reconcile_Q b m1 _ _ _ _ H1 Hr).
Qed.

Lemma run_Q (m : Mgr) os m' : run m os m' -> inv m -> all_Q m -> all_Q m'.
Proof using RL SL Q_later Q_stored Q_declared Q_refresh Q_approve.
  induction 1 as [|m o m1 os m2 He _ IH]; intros Hi (b & Hb & Hq); [by exists b|].
  destruct (exec_keeps _ _ _ Hi He) as (H1 & _ & Hb1). apply IH; [done|]. clear IH.
  destruct (is_restart o) eqn:Ho.
  - destruct o as [| |fp actor| | |scope actor path|seed]; try done. simpl in He.
    destruct (Start seed _) as [[[]|e] mm] eqn:Hs; [|done]. injection He as <-.
    eapply Start_Q; [|exact Hs]. intros s [Hh Hl]%reopen_snapshot. exists b.
    rewrite (proj2 (reopen_held _ Hl)). destruct (inv_boot _ Hi) as (b' & Hb' & ->). split; [congruence|]. by apply Hq.
  - exists b. split; [rewrite Hb1 by (by rewrite orb_true_r); done|].
    destruct o as [| |fp actor| | |scope actor path|seed]; simpl in He.
    + destruct (Refresh m) as [[out mm]|] eqn:Hr; [|done]. injection He as <-. by eapply Refresh_Q.
    + injection He as <-. unfold ReconcileDeclared.
      destruct (reconcileDeclared _ _) as [[[prev changed] rep] mm] eqn:Hr. simpl. exact (reconcile_Q b m _ _ _ _ Hq Hr).
    + injection He as <-. by apply ApprovePending_Q.
    + by injection He as <-.
    + destruct (m_kick m); [|done]. by injection He as <-.
    + injection He as <-. eapply holds_Q_only_events; [apply m_emit_only|done].
    + done.
Qed.

Lemma installed_Q (m : Mgr) : installed m -> all_Q m.
Proof using RL SL Q_later Q_stored Q_declared.
  intros (st & w & seed & _ & Hs%loaded_snapshot & Hst). eapply Start_Q; [|exact Hst]. by rewrite Hs.
Qed.
End Snapshots.

(** With a bootstrap there is always an outcome. *)
Lemma Refresh_returns (m : Mgr) b : m_bootstrap m = Some b -> is_Some (Refresh m).
Proof.
  intros Hb. unfold Refresh. destruct (reconcileDeclared _ _) as [[[prev changed] rep] m1] eqn:Hrec.
  apply reconcile_boot in Hrec. set (m2 := if changed then _ else m1).
  assert (H2 : m_bootstrap m2 = Some b) by (subst m2; destruct changed; simpl; congruence).
  rewrite H2. destruct (rf_Refresh _ _ _). by eexists.
Qed.

(** * Properties *)

(** C30 On a store that outlives the process the operator-pinned bootstrap is never
    replaced: whatever happens after the first install - cycles, reconciles,
    approvals, restarts with any seed path - the manager holds the bootstrap it was
    seeded with, so does the store, and a refresh never finds it missing. *)
Theorem bootstrap_pinned (m : Mgr) os m' :
  installed m -> lasting (m_store m) = true -> run m os m' ->
  exists b, m_bootstrap m = Some b /\ m_bootstrap m' = Some b /\
    held_bootstrap (m_store m') = Ok (Some b) /\ is_Some (Refresh m').
Proof using RL SL.
  intros Hi%installed_inv Hl Hr. apply run_keeps in Hr as (H' & _ & E); [|done].
  destruct (inv_boot _ H') as (b & Hb & Hlb). exists b. rewrite <-E by done. split_and!; [done..|].
  by eapply Refresh_returns.
Qed.

(** C31 Whatever is served at any point of any run carries the digest of its own
    content as id, is what the volume gauges show, and the latest snapshot in the
    store carries the digest of its content too. *)
Theorem served_identified (m : Mgr) os m' :
  installed m -> run m os m' ->
  (forall s, m_active m' = Some s -> s_ID s = compute_id s /\ gauges_show s (m_gauges m')) /\
  (forall s, held_snapshot (m_store m') = Ok (Some s) -> s_ID s = compute_id s).
Proof using RL SL.
  intros Hi%installed_inv Hr. apply run_keeps in Hr as ([_ Ha Hs _ Hg] & _); [|done].
  split; [by split; [apply Ha|apply Hg]|]. intros s E. destruct Hs as [?|(s' & ? & Hid)]; [congruence|].
  rewrite E in *. by simplify_eq.
Qed.

(** C28 Fail-safe: a refresh whose cycle fails reports it, raises the failure
    event and keeps serving the same upstream data - only a change of the declared
    anchors may have been applied; a refresh whose cycle succeeds serves exactly
    the snapshot the cycle built on what was served before. *)
Theorem refresh_fail_safe (m : Mgr) out m' :
  Refresh m = Some (out, m') ->
  m_active m' = ro_Snapshot out /\
  match ro_CycleErr out with
  | Some err =>
      EvRefreshFailure "cycle" (err_Error err) ∈ w_events (m_world m') /\
      (upstream <$> m_active m') = (upstream <$> m_active m)
  | None => exists prev next boot w w', m_active m' = Some next /\ rf_Refresh prev boot w = (Ok next, w') /\
      (upstream <$> prev) = (upstream <$> m_active m) /\ follows prev next
  end.
Proof using RL.
  intros (prev & changed & rep & m1 & boot & r & w & Hr & [Ha _] & Hf & m2 & Ho & _ & H)%Refresh_spec.
  assert (Hu : (upstream <$> prev) = (upstream <$> m_active m)).
  { apply reconcile_spec in Hr as [_ Hr]. destruct changed; [|by destruct Hr as [-> _]].
    destruct Hr as (p & now & next & w1 & -> & -> & (_ & _ & Hd)%declared_follows & _). simpl. by rewrite Hd. }
  destruct r as [next|err].
  - destruct H as (-> & -> & ->). destruct (accept_spec prev changed (dr_Internal rep) next m2) as (Hn & _).
    split; [done|]. exists prev, next, boot, (m_world m1), w. split_and!; [done..|]. by eapply refresh_follows.
  - destruct H as (-> & -> & ->). cbn [m_active m_emit set_world]. rewrite (oe_active _ _ Ho), Ha.
    split; [done|]. split; [|done]. simpl. apply elem_of_app. right. by apply list_elem_of_singleton.
Qed.

(** No rollback while the process lives: through any sequence of cycles,
    reconciles and approvals something keeps being served and its list-of-lists
    sequence number never decreases. *)
Theorem served_sequence_monotone {CL : CodecLaws} (m : Mgr) os m' s :
  run m os m' -> forallb (fun o => negb (is_restart o)) os = true -> m_active m = Some s ->
  exists s', m_active m' = Some s' /\ s_LOTLSequence s <= s_LOTLSequence s'.
Proof using RL.
  intros Hr. assert (H : forallb (fun o => negb (is_restart o)) os = true -> no_rollback m m').
  { induction Hr as [m|m o m1 os m2 He _ IH]; simpl; [intros _; by apply no_rollback_same|].
    rewrite andb_true_iff, negb_true_iff. intros [Ho Hos]. eapply no_rollback_trans; [by eapply exec_rollback|auto]. }
  intros Hn%H Hs. by apply Hn.
Qed.

(** A cycle's snapshot is written to the store unless nothing a restart needs
    has moved: same content id, same pending anchors in the same order, same
    published digest, and every territory already there with the same health,
    sequence and multiset of skipped services. *)
Theorem persist_rule p n :
  must_persist (Some p) n = false <->
  s_ID p = s_ID n /\ pending_keys p = pending_keys n /\ s_LOTLDigest p = s_LOTLDigest n /\
  forall t, t ∈ s_Territories n -> exists pt, pt ∈ s_Territories p /\ Snapshot_Territory p (t_Code t) = Some pt /\
    same_state pt t.
Proof using.
  rewrite must_persist_false. split.
  - intros [? ? ? Ht]. split_and!; [done..|]. intros t (pt & Hpt & Hs)%Ht. exists pt. split; [|done].
    by apply Snapshot_Territory_Some in Hpt as [? _].
  - intros (? & ? & ? & Ht). split; [done..|]. intros t (pt & _ & ? & ?)%Ht. eauto.
Qed.

(** C5 Durability: on a store that outlives the process, at any point of any run
    from a first install, either a process started on the store restores a snapshot
    that serves the same content (the same one, or one from which the served one has
    not moved in the sense of the persistence rule) and nothing if nothing is served,
    or a failure to persist has been reported: by the event of a failed save, or by
    the error of an approval whose snapshot the store refused. *)
Theorem restart_serves_same (m : Mgr) os m' :
  installed m -> lasting (m_store m) = true -> run m os m' ->
  (forall seed w log m'', Initialize seed (NewManager (Reopen (m_store m')) w log) = (Ok tt, m'') ->
     match m_active m', m_active m'' with
     | Some a, Some s => stored s = stored a \/ unchanged_from s a
     | None, None => True
     | _, _ => False
     end) \/
  (exists reason, EvRefreshFailure "persist" reason ∈ w_events (m_world m')) \/
  (exists os1 fp actor os2 m1 e, os = os1 ++ OpApprove fp actor :: os2 /\ run m os1 m1 /\ unpersisted fp actor e m1).
Proof using RL SL.
  intros Hi Hla Hr. apply run_keeps in Hr as Hk; [|by apply installed_inv]. destruct Hk as (_ & Hl' & _).
  apply run_durable in Hr as [Hd|[?|?]]; [|tauto..|left; by apply installed_durable].
  rewrite Hla in Hl'. left. intros seed w log m'' (Hl & _)%Initialize_spec. rewrite (proj1 (reopen_held _ Hl')) in Hl.
  unfold durable in Hd. destruct (m_active m') as [a|].
  - destruct Hd as (s & Hs & Hrs). rewrite Hs in Hl. by injection Hl as <-.
  - rewrite Hd in Hl. by injection Hl as <-.
Qed.

(** C29 Approving moves exactly one anchor: the first pending anchor with the
    fingerprint leaves the pending list and joins the served anchors of its
    territory; the other territories and the declared anchors are as they were;
    the result follows the served snapshot, is persisted, served and announced.
    An approval that fails leaves what is served, and the events, alone. *)
Theorem approve_exact {CL : CodecLaws} fp actor (m : Mgr) r m' :
  ApprovePending fp actor m = (r, m') ->
  match r with
  | Ok next => exists cur pre pa post,
      m_active m = Some cur /\ s_Pending cur = pre ++ pa :: post /\ a_FingerprintSHA256 (p_Anchor pa) = fp /\
      Forall (fun q => a_FingerprintSHA256 (p_Anchor q) <> fp) pre /\
      s_Pending next = pre ++ post /\ served next ≡ₚ p_Anchor pa :: served cur /\
      s_Internal next = s_Internal cur /\
      filter (fun t => t_Code t <> a_Territory (p_Anchor pa)) (s_Territories next) ≡ₚ
        filter (fun t => t_Code t <> a_Territory (p_Anchor pa)) (s_Territories cur) /\
      follows (Some cur) next /\
      m_active m' = Some next /\ held_snapshot (m_store m') = Ok (Some (stored next))
  | Err _ => m_active m' = m_active m /\ m_world m' = m_world m
  end.
Proof using SL.
  intros Ha. apply ApprovePending_spec in Ha. destruct r as [next|e]; [|by destruct Ha as (? & _ & _ & ? & _)].
  destruct Ha as (cur & idx & clone & pa & Hc & Hf & Hcl & (pa' & Hl & ->) & Hok & Ho).
  rewrite (clone_stored _ _ Hcl) in *. simpl in Hl.
  apply list_find_Some in Hf as (Hl' & Hfp & Hpre). rewrite Hl' in Hl. injection Hl as <-.
  set (next := approve_in _ _ _ _ _) in *.
  exists cur, (take idx (s_Pending cur)), pa, (drop (S idx) (s_Pending cur)). split_and!.
  - done.
  - by rewrite take_drop_middle.
  - done.
  - apply Forall_lookup. intros j q Hq. apply lookup_take_Some in Hq as [Hq Hj]. by eapply Hpre.
  - simpl. apply delete_take_drop.
  - unfold served. simpl. rewrite add_anchor_served. done.
  - done.
  - simpl. apply add_anchor_others.
  - split; [done..|]. intros p [= <-]. simpl. lia.
  - by rewrite (oe_active _ _ Ho).
  - rewrite (oe_store _ _ Ho). simpl. unfold save. destruct (SaveSnapshot next (m_store m)) as [r st] eqn:E.
    simpl in *. subst r. by eapply save_held_snapshot.
Qed.
End Runs.
