(* ===== verification/Tasks.v ===== *)
(** * The refresh task

    [src/tasks/refresh.go]: when the next cycle runs, and the task with its
    goroutines, their contexts and timers, as a system of steps among other users of
    the manager.  A cycle is one step; [Concurrent] shows that this is enough. *)

From S2P Require Import Prelude Model ContentId Diff Slices Internal Store Fetcher Telemetry Manager ManagerProps Samples.

(** [time.Minute], in nanoseconds. *)
Definition minWake : duration := 60 * 1000000000.

(** [nextWake], with the active snapshot and the clock it reads. *)
Definition nextWake (interval : duration) (active : option Snapshot) (now : time) : duration :=
  let wake := interval in
  let wake :=
    match active with
    | None => wake
    | Some snap =>
        let due := EarliestNextUpdate snap in
        if negb (time_IsZero due) then
          let until := time_Sub due now in
          if until <? wake then until else wake
        else wake
    end in
  if wake <? minWake then minWake else wake.

(** The bounds of the sleep and what it depends on. *)
Lemma nextWake_spec interval active now :
  let wake := nextWake interval active now in
  minWake <= wake <= Z.max interval minWake /\
  (forall s due, active = Some s -> due ∈ known_updates s -> wake <= Z.max minWake (due - now)) /\
  (wake = interval \/ wake = minWake \/
   exists s due, active = Some s /\ due ∈ known_updates s /\ wake = Z.min max_duration (due - now)).
Proof.
  unfold nextWake. destruct active as [s|].
  - destruct (EarliestNextUpdate_spec s) as (Hz & Hin & Hle). unfold time_IsZero, time_Sub, minWake.
    unfold max_duration, min_duration. destruct (Z.eqb_spec (EarliestNextUpdate s) 0) as [E|E]; simpl.
    + apply Hz in E. split; [|split].
      * destruct (Z.ltb_spec interval (60 * 1000000000)); lia.
      * intros ? d [= <-] Hd. rewrite E in Hd. by apply elem_of_nil in Hd.
      * destruct (Z.ltb_spec interval (60 * 1000000000)); auto.
    + specialize (Hin E). set (u := Z.max _ _). set (wake := if u <? interval then u else interval).
      assert (Hw : wake = Z.min u interval) by (subst wake; destruct (Z.ltb_spec u interval); lia).
      clearbody wake. subst wake. split; [|split].
      * destruct (Z.ltb_spec (Z.min u interval) (60 * 1000000000)); lia.
      * intros ? d [= <-] Hd. specialize (Hle d Hd). destruct (Z.ltb_spec (Z.min u interval) (60 * 1000000000)); lia.
      * destruct (Z.ltb_spec (Z.min u interval) (60 * 1000000000)); [auto|].
        destruct (Z.le_gt_cases interval u); [left; lia|]. right. right. exists s, (EarliestNextUpdate s).
        split_and!; [done..|lia].
  - split; [|split]; [destruct (Z.ltb_spec interval minWake); unfold minWake in *; lia|done|].
    destruct (Z.ltb_spec interval minWake); auto.
Qed.

Section Task.
Context {X : X509} {SO : GoSort} {RA : GoRange} {N : Net} {CO : Codec} {FI : Files} {YA : Yaml} {RF : Refresher}
  {St : Type} {ST : Store St}.

(** [run]: nothing once the context is cancelled. *)
Definition task_run (cancelled : bool) (m : Manager St) : option (Manager St) :=
  if cancelled then Some m else snd <$> Refresh m.

(** What ends one wait of the loop: the [select]'s three cases. *)
Inductive Wake := WakeDone | WakeKick | WakeTimer.

(** One iteration of the loop with nothing in between; [false] when it returns.
    A kick can only be received when one is pending. *)
Definition task_iter (cancelled : bool) (wk : Wake) (m : Manager St) : option (bool * Manager St) :=
  match wk with
  | WakeDone => if cancelled then Some (false, m) else None
  | WakeKick => if m_kick m then (fun m => (true, m)) <$> task_run cancelled (set_kick m false) else None
  | WakeTimer => (fun m => (true, m)) <$> task_run cancelled m
  end.

(** ** The task and its goroutines

    Every [Start] makes a goroutine with a context of its own.  A goroutine is at
    one of the points between which others can run: before it looks at the active
    snapshot, before it looks at the context, in a cycle, before it makes the
    timer, in the [select] with a timer that fires at [until], or past the close
    of its channel. *)
Inductive Pc := AtFirst | AtCheck | AtCycle | AtTimer | AtSelect (until : time) | AtEnd.
Record Loop := mkLoop { lp_pc : Pc; lp_cancelled : bool }.

(** [t.cancel] and [t.done] belong to the goroutine made last. *)
Record RefreshTask := mkTask {
  rt_interval : duration;
  rt_cancel : option nat;
  rt_done : option nat
}.

Definition NewRefreshTask (interval : duration) : RefreshTask := mkTask interval None None.
Definition task_Name : string := "trust-refresh".

Record TaskSys := mkTaskSys {
  ts_now : time;
  ts_parent : bool;            (* the context the task is started with is cancelled *)
  ts_task : RefreshTask;
  ts_stopping : bool;          (* a call of [Stop] waits on [t.done] *)
  ts_loops : list Loop;
  ts_manager : Manager St
}.

(** One step of a goroutine. *)
Definition loop_step (interval : duration) (now : time) (wk : Wake) (lp : Loop) (m : Manager St)
    : option (Loop * Manager St) :=
  let go pc := mkLoop pc (lp_cancelled lp) in
  match lp_pc lp with
  | AtFirst => Some (go (match m_active m with None => AtCheck | Some _ => AtTimer end), m)
  | AtCheck => Some (go (if lp_cancelled lp then AtTimer else AtCycle), m)
  | AtCycle => (fun m => (go AtTimer, m)) <$> (snd <$> Refresh m)
  | AtTimer => Some (go (AtSelect (now + nextWake interval (m_active m) now)), m)
  | AtSelect until =>
      match wk with
      | WakeDone => if lp_cancelled lp then Some (go AtEnd, m) else None
      | WakeKick => if m_kick m then Some (go AtCheck, set_kick m false) else None
      | WakeTimer => if until <=? now then Some (go AtCheck, m) else None
      end
  | AtEnd => None
  end.

Definition cancel_loop (lp : Loop) : Loop := mkLoop (lp_pc lp) true.

(** Calls of [Start] and [Stop] come one after the other; the parent context may
    be cancelled, time passes, and other goroutines use the manager. *)
Inductive TaskEv :=
| EvTick (now : time)
| EvParent
| EvStart
| EvStop
| EvStopped
| EvLoop (i : nat) (wk : Wake)
| EvOp (o : Op).

(** What other goroutines of the process do with the manager. *)
Definition foreign (o : Op) : bool := match o with OpTakeKick | OpRestart _ => false | _ => true end.

Definition task_Start (s : TaskSys) : TaskSys :=
  let i := length (ts_loops s) in
  mkTaskSys (ts_now s) (ts_parent s) (mkTask (rt_interval (ts_task s)) (Some i) (Some i)) (ts_stopping s)
    (ts_loops s ++ [mkLoop AtFirst (ts_parent s)]) (ts_manager s).

(** [Stop] up to the wait; nothing when [t.cancel] is nil. *)
Definition task_Stop (s : TaskSys) : TaskSys :=
  match rt_cancel (ts_task s) with
  | None => s
  | Some i => mkTaskSys (ts_now s) (ts_parent s) (ts_task s) true (alter cancel_loop i (ts_loops s)) (ts_manager s)
  end.

Definition ended (lp : Loop) : bool := match lp_pc lp with AtEnd => true | _ => false end.

(** The rest of [Stop], once the channel is closed. *)
Definition task_Stopped (s : TaskSys) : option TaskSys :=
  if ts_stopping s && from_option ended false (rt_done (ts_task s) ≫= fun i => ts_loops s !! i) then
    Some (mkTaskSys (ts_now s) (ts_parent s)
      (mkTask (rt_interval (ts_task s)) None (rt_done (ts_task s))) false (ts_loops s) (ts_manager s))
  else None.

Definition task_step (s : TaskSys) (e : TaskEv) : option TaskSys :=
  match e with
  | EvTick now =>
      if ts_now s <=? now then
        Some (mkTaskSys now (ts_parent s) (ts_task s) (ts_stopping s) (ts_loops s) (ts_manager s))
      else None
  | EvParent =>
      Some (mkTaskSys (ts_now s) true (ts_task s) (ts_stopping s) (cancel_loop <$> ts_loops s) (ts_manager s))
  | EvStart => if ts_stopping s then None else Some (task_Start s)
  | EvStop => if ts_stopping s then None else Some (task_Stop s)
  | EvStopped => task_Stopped s
  | EvLoop i wk =>
      lp ← ts_loops s !! i;
      '(lp', m) ← loop_step (rt_interval (ts_task s)) (ts_now s) wk lp (ts_manager s);
      Some (mkTaskSys (ts_now s) (ts_parent s) (ts_task s) (ts_stopping s) (<[i := lp']> (ts_loops s)) m)
  | EvOp o =>
      if foreign o then
        m ← exec o (ts_manager s);
        Some (mkTaskSys (ts_now s) (ts_parent s) (ts_task s) (ts_stopping s) (ts_loops s) m)
      else None
  end.

Fixpoint task_steps (s : TaskSys) (es : list TaskEv) : option TaskSys :=
  match es with
  | [] => Some s
  | e :: es' => s' ← task_step s e; task_steps s' es'
  end.

(** Before the first [Start]. *)
Definition task_system (interval : duration) (now : time) (m : Manager St) : TaskSys :=
  mkTaskSys now false (NewRefreshTask interval) false [] m.

(** The caller's side: no second [Start] before [Stop] has returned. *)
Fixpoint start_once (s : TaskSys) (es : list TaskEv) : bool :=
  match es with
  | [] => true
  | e :: es' =>
      match e with EvStart => bool_decide (rt_cancel (ts_task s) = None) | _ => true end &&
      from_option (fun s' => start_once s' es') true (task_step s e)
  end.

(** * Lemmas *)

Lemma run_app (m : Manager St) os1 m1 os2 m2 : run m os1 m1 -> run m1 os2 m2 -> run m (os1 ++ os2) m2.
Proof. induction 1; simpl; [done|]. intros. econstructor; eauto. Qed.

Lemma run_one o (m m' : Manager St) : exec o m = Some m' -> run m [o] m'.
Proof. intros. econstructor; [done|constructor]. Qed.

Lemma task_run_ops cancelled (m m' : Manager St) : task_run cancelled m = Some m' -> exists os, run m os m'.
Proof.
  unfold task_run. destruct cancelled; [intros [= <-]; exists []; constructor|]. intros H.
  exists [OpRefresh]. by apply run_one.
Qed.

Lemma task_iter_ops cancelled wk (m m' : Manager St) b :
  task_iter cancelled wk m = Some (b, m') -> exists os, run m os m'.
Proof.
  destruct wk; simpl.
  - destruct cancelled; [|done]. intros [= _ <-]. exists []. constructor.
  - destruct (m_kick m) eqn:Hk; [|done]. destruct (task_run cancelled (set_kick m false)) as [m1|] eqn:Hr; [|done].
    intros [= _ <-]. apply task_run_ops in Hr as [os Hr]. exists (OpTakeKick :: os).
    econstructor; [simpl; by rewrite Hk|done].
  - destruct (task_run cancelled m) as [m1|] eqn:Hr; [|done]. intros [= _ <-]. by eapply task_run_ops.
Qed.

Lemma task_steps_app s es1 es2 : task_steps s (es1 ++ es2) = task_steps s es1 ≫= fun s1 => task_steps s1 es2.
Proof. revert s. induction es1 as [|e es1 IH]; intros s; simpl; [done|]. destruct (task_step s e); simpl; auto. Qed.

(** ** One step *)

Lemma loop_step_ops interval now wk lp (m : Manager St) lp' m' :
  loop_step interval now wk lp m = Some (lp', m') -> exists os, run m os m'.
Proof.
  unfold loop_step. destruct (lp_pc lp) as [| | | |u|]; intros H; simplify_eq/=; try (exists []; constructor).
  - destruct (Refresh m) as [[out m1]|] eqn:Hr; [|done]. simplify_eq/=. exists [OpRefresh]. apply run_one. simpl. by rewrite Hr.
  - destruct wk; repeat case_match; simplify_eq/=; try (exists []; constructor).
    exists [OpTakeKick]. apply run_one. simpl. by case_match.
Qed.

Lemma loop_step_cancelled interval now wk lp (m : Manager St) lp' m' :
  loop_step interval now wk lp m = Some (lp', m') -> lp_cancelled lp' = lp_cancelled lp /\ ended lp = false.
Proof.
  unfold loop_step, ended. destruct (lp_pc lp) as [| | | |u|]; intros H; simplify_eq/=; try done.
  - destruct (Refresh m); by simplify_eq/=.
  - destruct wk; repeat case_match; by simplify_eq/=.
Qed.

(** The steps of a goroutine, opened. *)
Lemma task_step_loop s i wk s' :
  task_step s (EvLoop i wk) = Some s' ->
  exists lp lp' m, ts_loops s !! i = Some lp /\
    loop_step (rt_interval (ts_task s)) (ts_now s) wk lp (ts_manager s) = Some (lp', m) /\
    s' = mkTaskSys (ts_now s) (ts_parent s) (ts_task s) (ts_stopping s) (<[i := lp']> (ts_loops s)) m.
Proof.
  simpl. destruct (ts_loops s !! i) as [lp|] eqn:E; [|done]. simpl.
  destruct (loop_step _ _ _ _ _) as [[lp' m]|] eqn:El; [|done]. simpl. intros [= <-]. eauto 6.
Qed.

Lemma own_now s i wk s' : task_step s (EvLoop i wk) = Some s' -> ts_now s' = ts_now s.
Proof. by intros (lp & lp' & m & _ & _ & ->)%task_step_loop. Qed.

(** Whether a step is one of goroutine [i]. *)
Definition own (i : nat) (e : TaskEv) : Z := match e with EvLoop j _ => if decide (j = i) then 1 else 0 | _ => 0 end.

(** A goroutine is moved by its own steps, and by nothing else but being cancelled. *)
Lemma step_cases s e s' i lp :
  ts_loops s !! i = Some lp -> task_step s e = Some s' ->
  (exists wk, e = EvLoop i wk /\ exists lp' m,
     loop_step (rt_interval (ts_task s)) (ts_now s) wk lp (ts_manager s) = Some (lp', m) /\ ts_loops s' !! i = Some lp') \/
  own i e = 0 /\
  (exists lp', ts_loops s' !! i = Some lp' /\ lp_pc lp' = lp_pc lp /\
     (lp_cancelled lp = true -> lp_cancelled lp' = true) /\ ts_now s <= ts_now s').
Proof.
  intros Hl E. assert (Hsame : exists lp', Some lp = Some lp' /\ lp_pc lp' = lp_pc lp /\
    (lp_cancelled lp = true -> lp_cancelled lp' = true) /\ ts_now s <= ts_now s) by (exists lp; split_and!; [done..|lia]).
  destruct e as [now| | | | |j wk|o].
  - simpl in E. case_match; simplify_eq/=. right. split; [done|]. exists lp. split_and!; [done..|lia].
  - simpl in E. simplify_eq/=. right. split; [done|]. exists (cancel_loop lp). rewrite list_lookup_fmap, Hl. split_and!; [done..|lia].
  - simpl in E. case_match; simplify_eq/=. right. split; [done|]. by rewrite (lookup_app_l_Some _ _ _ _ Hl).
  - simpl in E. case_match; simplify_eq/=. right. split; [done|]. unfold task_Stop. destruct (rt_cancel (ts_task s)) as [k|]; [|by rewrite Hl]. simpl.
    destruct (decide (k = i)) as [->|Hk]; [rewrite list_lookup_alter_eq, Hl; exists (cancel_loop lp); split_and!; [done..|lia]|].
    by rewrite list_lookup_alter_ne, Hl by done.
  - simpl in E. unfold task_Stopped in E. case_match; simplify_eq/=. right. split; [done|]. by rewrite Hl.
  - apply task_step_loop in E as (lp0 & lp' & m & Hl0 & El & ->). simpl.
    destruct (decide (j = i)) as [->|Hj]; [left|right; split; [done|]; by rewrite list_lookup_insert_ne, Hl by done].
    rewrite Hl in Hl0. injection Hl0 as <-. exists wk. split; [done|]. exists lp', m.
    by rewrite list_lookup_insert_eq by (by eapply lookup_lt_Some).
  - simpl in E. destruct (foreign o); [|done]. destruct (exec o (ts_manager s)); simplify_eq/=. right. split; [done|]. by rewrite Hl.
Qed.

Lemma task_step_ops s e s' : task_step s e = Some s' -> exists os, run (ts_manager s) os (ts_manager s').
Proof.
  destruct e; intros H.
  - simpl in H. case_match; simplify_eq/=. exists []. constructor.
  - simpl in H. simplify_eq/=. exists []. constructor.
  - simpl in H. case_match; simplify_eq/=. exists []. constructor.
  - simpl in H. case_match; simplify_eq/=. unfold task_Stop. case_match; exists []; constructor.
  - simpl in H. unfold task_Stopped in H. case_match; simplify_eq/=. exists []. constructor.
  - apply task_step_loop in H as (lp & lp' & m & _ & El & ->). by eapply loop_step_ops.
  - simpl in H. case_match; [|done]. destruct (exec o (ts_manager s)) as [m|] eqn:E; simplify_eq/=.
    exists [o]. by apply run_one.
Qed.

Lemma task_steps_ops s es s' : task_steps s es = Some s' -> exists os, run (ts_manager s) os (ts_manager s').
Proof.
  revert s. induction es as [|e es IH]; intros s; simpl; [intros [= <-]; exists []; constructor|].
  destruct (task_step s e) as [s1|] eqn:E; [|done]. simpl. intros [os2 H2]%IH.
  apply task_step_ops in E as [os1 H1]. exists (os1 ++ os2). eauto using run_app.
Qed.

(** ** One goroutine at a time *)

Record orderly (s : TaskSys) : Prop := {
  od_waits : ts_stopping s = true -> is_Some (rt_cancel (ts_task s));
  od_done : forall i, rt_cancel (ts_task s) = Some i -> rt_done (ts_task s) = Some i /\ is_Some (ts_loops s !! i);
  od_ended : forall j lp, ts_loops s !! j = Some lp -> rt_cancel (ts_task s) <> Some j -> ended lp = true;
  od_cancelled : forall i lp, ts_stopping s = true -> rt_cancel (ts_task s) = Some i -> ts_loops s !! i = Some lp ->
    lp_cancelled lp = true
}.

Lemma task_system_orderly interval now m : orderly (task_system interval now m).
Proof. by split. Qed.

(** The goroutines change only in their steps and by being cancelled. *)
Lemma orderly_loops s s' :
  orderly s -> ts_task s' = ts_task s -> ts_stopping s' = ts_stopping s ->
  (forall i, is_Some (ts_loops s !! i) -> is_Some (ts_loops s' !! i)) ->
  (forall i lp', ts_loops s' !! i = Some lp' -> exists lp, ts_loops s !! i = Some lp /\
     (ended lp = true -> ended lp' = true) /\ (lp_cancelled lp = true -> lp_cancelled lp' = true)) ->
  orderly s'.
Proof.
  intros [Hw Hd He Hc] Et Es Hs Hl. split; rewrite Et, ?Es; [done| | |].
  - intros i Hi. destruct (Hd i Hi). eauto.
  - intros j lp' Hj Hn. destruct (Hl j lp' Hj) as (lp & Hj0 & Hx & _). eauto.
  - intros i lp' Hst Hi Hl'. destruct (Hl i lp' Hl') as (lp & Hj0 & _ & Hx). eauto.
Qed.

Lemma task_step_orderly s e s' :
  orderly s -> task_step s e = Some s' -> (e = EvStart -> rt_cancel (ts_task s) = None) -> orderly s'.
Proof.
  intros Ho H Hst. destruct e as [now| | | | |i wk|o].
  - simpl in H. case_match; simplify_eq/=. eapply orderly_loops; [done..|]. simpl. eauto.
  - simpl in H. simplify_eq/=. eapply orderly_loops; [exact Ho|done..| |]; simpl; intros i.
    + rewrite list_lookup_fmap. intros [lp ->]. by eexists.
    + intros lp'. rewrite list_lookup_fmap. destruct (ts_loops s !! i) as [lp|]; [|done]. intros [= <-]. eauto.
  - simpl in H. destruct (ts_stopping s) eqn:Es; simplify_eq/=. specialize (Hst eq_refl). destruct Ho as [Hw Hd He Hc].
    assert (Hall : forall j lp, ts_loops s !! j = Some lp -> ended lp = true) by (intros; eapply He; [done|by rewrite Hst]).
    split; simpl; rewrite ?Es; [done| | |done].
    + intros i [= <-]. split; [done|]. rewrite list_lookup_middle by done. by eexists.
    + intros j lp Hj Hn. apply lookup_app_Some in Hj as [Hj|[Hge Hj]]; [by eapply Hall|].
      apply list_lookup_singleton_Some in Hj as [Hz _]. destruct Hn. f_equal. lia.
  - simpl in H. destruct (ts_stopping s) eqn:Es; simplify_eq/=. unfold task_Stop. destruct (rt_cancel (ts_task s)) as [i|] eqn:Ec; [|done].
    destruct Ho as [Hw Hd He Hc]. split; simpl; rewrite ?Ec; [by eexists| | |].
    + intros k [= <-]. destruct (Hd i Ec) as [? [lp Hlp]]. split; [done|]. rewrite list_lookup_alter_eq, Hlp. by eexists.
    + intros j lp Hj Hn. assert (i <> j) by congruence. rewrite list_lookup_alter_ne in Hj by done. eapply He; [done|congruence].
    + intros k lp _ [= <-]. rewrite list_lookup_alter_eq. destruct (ts_loops s !! i); [|done]. by intros [= <-].
  - simpl in H. unfold task_Stopped in H. destruct (ts_stopping s) eqn:Es; [|done]. cbn [andb] in H.
    destruct Ho as [Hw Hd He Hc]. destruct (Hw Es) as [i Hi]. destruct (Hd i Hi) as [Hdi [lp Hlp]].
    rewrite Hdi in H. simpl in H. rewrite Hlp in H. simpl in H. destruct (ended lp) eqn:Ee; [|done]. injection H as <-.
    split; simpl; [done|done| |done]. intros j lp' Hj _. destruct (decide (j = i)) as [->|Hne]; [congruence|].
    eapply He; [done|]. rewrite Hi. congruence.
  - apply task_step_loop in H as (lp & lp' & m & Hlp & El & ->). apply loop_step_cancelled in El as [Ec Ee].
    eapply orderly_loops; [exact Ho|done..| |]; simpl; intros j.
    + intros Hj. apply lookup_lt_is_Some. rewrite length_insert. by apply lookup_lt_is_Some.
    + intros lp1. rewrite list_lookup_insert. case_decide as Hij; [destruct Hij as [<- _]|eauto].
      intros [= <-]. exists lp. rewrite Ee, Ec. done.
  - simpl in H. destruct (foreign o); [|done]. destruct (exec o (ts_manager s)); simplify_eq/=.
    eapply orderly_loops; [done..|]. simpl. eauto.
Qed.

Lemma task_steps_orderly s es s' :
  orderly s -> task_steps s es = Some s' -> start_once s es = true -> orderly s'.
Proof.
  revert s. induction es as [|e es IH]; intros s Ho; simpl; [by intros [= <-]|].
  destruct (task_step s e) as [s1|] eqn:E; [|done]. simpl. intros Hs [He H1]%andb_true_iff.
  eapply IH; [|done..]. eapply task_step_orderly; [done..|]. intros ->. by apply bool_decide_eq_true in He.
Qed.

(** ** After [Stop] *)

(** What the others do in a sequence of steps. *)
Definition foreign_ops (es : list TaskEv) : list Op := omap (fun e => match e with EvOp o => Some o | _ => None end) es.

Definition idle (s : TaskSys) : Prop := rt_cancel (ts_task s) = None /\ ts_stopping s = false /\ Forall (fun lp => ended lp = true) (ts_loops s).

Lemma orderly_idle s : orderly s -> rt_cancel (ts_task s) = None -> idle s.
Proof.
  intros [Hw Hd He Hc] Hn. split_and!; [done| |].
  - destruct (ts_stopping s); [|done]. rewrite Hn in Hw. by destruct (Hw eq_refl).
  - apply Forall_lookup. intros j lp Hj. eapply He; [done|by rewrite Hn].
Qed.

(** A stopped task does nothing of its own. *)
Lemma idle_step s e s' :
  idle s -> e <> EvStart -> task_step s e = Some s' -> idle s' /\ run (ts_manager s) (foreign_ops [e]) (ts_manager s').
Proof.
  intros (Hn & Hst & Hall) He E. destruct e as [now| | | | |i wk|o].
  - simpl in E. case_match; simplify_eq/=. split; [done|constructor].
  - simpl in E. simplify_eq/=. split; [|constructor]. split_and!; simpl; [done..|].
    apply Forall_fmap. eapply Forall_impl; [exact Hall|]. by intros lp.
  - done.
  - simpl in E. rewrite Hst in E. unfold task_Stop in E. rewrite Hn in E. simplify_eq/=. split; [done|constructor].
  - simpl in E. unfold task_Stopped in E. by rewrite Hst in E.
  - apply task_step_loop in E as (lp & lp' & m & Hlp & El & _). apply loop_step_cancelled in El as [_ El].
    apply (Forall_lookup_1 _ _ _ _ Hall) in Hlp. congruence.
  - simpl in E. destruct (foreign o); [|done]. destruct (exec o (ts_manager s)) as [m|] eqn:Eo; simplify_eq/=.
    split; [done|]. by apply run_one.
Qed.

Lemma idle_steps s es s' :
  idle s -> Forall (fun e => e <> EvStart) es -> task_steps s es = Some s' ->
  idle s' /\ run (ts_manager s) (foreign_ops es) (ts_manager s').
Proof.
  revert s. induction es as [|e es IH]; intros s Hi Hf; cbn [task_steps]; [intros [= <-]; split; [done|constructor]|].
  apply Forall_cons in Hf as [He Hf]. destruct (task_step s e) as [s1|] eqn:E; [|done]. cbn [mbind option_bind]. intros Hs.
  destruct (idle_step _ _ _ Hi He E) as [H1 Hr]. destruct (IH _ H1 Hf Hs) as [H2 Hr2]. split; [done|].
  change (e :: es) with ([e] ++ es). unfold foreign_ops in *. rewrite omap_app. by eapply run_app.
Qed.

(** ** While [Stop] waits *)

Definition in_cycle (lp : Loop) : bool := match lp_pc lp with AtCycle => true | _ => false end.

Lemma cancelled_step interval now wk lp (m : Manager St) lp' m' :
  loop_step interval now wk lp m = Some (lp', m') -> lp_cancelled lp = true -> in_cycle lp = false -> in_cycle lp' = false.
Proof.
  unfold loop_step, in_cycle. intros El Hc Hy. rewrite Hc in El.
  destruct (lp_pc lp); simplify_eq/=; repeat case_match; by simplify_eq/=.
Qed.

(** A cancelled goroutine that is not in a cycle starts none. *)
Lemma cancelled_no_cycle s es s' i lp :
  ts_loops s !! i = Some lp -> lp_cancelled lp = true -> in_cycle lp = false -> task_steps s es = Some s' ->
  exists lp', ts_loops s' !! i = Some lp' /\ lp_cancelled lp' = true /\ in_cycle lp' = false.
Proof.
  revert s lp. induction es as [|e es IH]; intros s lp Hl Hc Hy; simpl; [intros [= <-]; eauto|].
  destruct (task_step s e) as [s1|] eqn:E; [|done]. simpl. intros Hs.
  destruct (step_cases s e s1 i lp Hl E) as [(wk & -> & lp' & m & El & Hl')|(_ & lp' & Hl' & Hp & Hc' & _)].
  - apply (IH s1 lp' Hl'); [|by eapply cancelled_step|done].
    by destruct (loop_step_cancelled _ _ _ _ _ _ _ El) as [-> _].
  - apply (IH s1 lp' Hl'); [auto|unfold in_cycle in *; by rewrite Hp|done].
Qed.

(** The steps left to a cancelled goroutine that takes the [Done] case. *)
Definition rank (lp : Loop) : nat :=
  match lp_pc lp with AtFirst => 4 | AtCheck | AtCycle => 3 | AtTimer => 2 | AtSelect _ => 1 | AtEnd => 0 end.

Context {RL : RefresherLaws} {SL : StoreLaws St}.

Lemma cancelled_finishes s i lp :
  inv (ts_manager s) -> ts_loops s !! i = Some lp -> lp_cancelled lp = true ->
  exists n s' lp', (n <= rank lp)%nat /\ task_steps s (replicate n (EvLoop i WakeDone)) = Some s' /\
    ts_task s' = ts_task s /\ ts_stopping s' = ts_stopping s /\ ts_loops s' !! i = Some lp' /\ ended lp' = true.
Proof.
  remember (rank lp) as k eqn:Hk. revert s lp Hk. induction k as [k IH] using lt_wf_ind. intros s lp -> Hi Hl Hc.
  destruct (ended lp) eqn:Ee; [exists 0%nat, s, lp; split_and!; simpl; by try lia|].
  destruct (loop_step (rt_interval (ts_task s)) (ts_now s) WakeDone lp (ts_manager s)) as [[lp1 m1]|] eqn:El.
  - pose proof (loop_step_ops _ _ _ _ _ _ _ El) as [os Hr].
    set (s1 := mkTaskSys (ts_now s) (ts_parent s) (ts_task s) (ts_stopping s) (<[i := lp1]> (ts_loops s)) m1).
    assert (Hlt : (rank lp1 < rank lp)%nat).
    { unfold loop_step in El. unfold rank. destruct (lp_pc lp); simplify_eq/=; rewrite ?Hc in *; simplify_eq/=; try lia.
      - destruct (m_active (ts_manager s)); lia.
      - destruct (Refresh (ts_manager s)); simplify_eq/=. lia. }
    destruct (IH _ Hlt s1 lp1 eq_refl) as (n & s' & lp' & Hn & Hs & Ht & Hst & Hl' & He).
    + by apply run_keeps in Hr as [H _].
    + simpl. by rewrite list_lookup_insert_eq by (by eapply lookup_lt_Some).
    + by destruct (loop_step_cancelled _ _ _ _ _ _ _ El) as [-> _].
    + exists (S n), s', lp'. split_and!; [lia| |done..]. simpl. by rewrite Hl; simpl; rewrite El.
  - exfalso. unfold loop_step, ended in *. destruct (lp_pc lp); simplify_eq/=; try (by rewrite Hc in El).
    destruct (inv_boot _ Hi) as (b & Hb & _). destruct (Refresh_returns _ _ Hb) as [[out m1] Hr]. by rewrite Hr in El.
Qed.

(** ** Pending kicks *)

(** Only a trigger puts a kick there. *)
Lemma save_or_report_kick s (m : Manager St) : m_kick (save_or_report s m) = m_kick m.
Proof. by destruct (save_or_report_spec s m) as (_ & _ & Hk & _). Qed.

Lemma emit_diff_kick (b : bool) s (m : Manager St) : m_kick (if b then emit_diff s m else m) = m_kick m.
Proof. destruct b; [|done]. exact (oe_kick _ _ (emit_diff_only s m)). Qed.

Lemma reconcile_kick prev (m : Manager St) : m_kick (reconcileDeclared prev m).2 = m_kick m.
Proof.
  unfold reconcileDeclared. destruct prev as [p|]; [|done].
  destruct (rf_RefreshDeclared p _ _) as [[[[next|]|e] rep] w]; [|done..]. simpl.
  by rewrite emit_diff_kick; simpl; rewrite save_or_report_kick.
Qed.

Lemma accept_kick prev dc decl next (m : Manager St) : m_kick (accept prev dc decl next m).2 = m_kick m.
Proof.
  unfold accept. cbn [snd]. rewrite emit_diff_kick. generalize (must_persist prev next). intros b.
  destruct prev, b; simpl; rewrite ?save_or_report_kick; done.
Qed.

Lemma Refresh_kick (m : Manager St) out m' : Refresh m = Some (out, m') -> m_kick m' = m_kick m.
Proof.
  unfold Refresh. pose proof (reconcile_kick (m_active m) m) as Hk.
  destruct (reconcileDeclared _ _) as [[[prev c] rep] m1]. simpl in Hk. set (m2 := if c then _ else m1).
  assert (H2 : m_kick m2 = m_kick m) by (subst m2; by destruct c). destruct (m_bootstrap m2) as [boot|]; [|done].
  destruct (rf_Refresh prev boot (m_world m2)) as [[next|e] w]; [|by intros [= _ <-]].
  pose proof (accept_kick prev c (dr_Internal rep) next (set_world m2 w)) as Ha.
  destruct (accept _ _ _ _ _) as [o m3]. intros [= _ <-]. by rewrite <-H2.
Qed.

Lemma ApprovePending_kick fp actor (m : Manager St) : m_kick (ApprovePending fp actor m).2 = m_kick m.
Proof.
  unfold ApprovePending, save. destruct (m_active m) as [cur|]; [|done]. destruct (list_find _ _) as [[idx pa]|]; [|done].
  destruct (cloneSnapshot cur) as [clone|e]; [|done]. destruct (s_Pending clone !! idx) as [pa'|]; [|done].
  by destruct (SaveSnapshot _ _) as [[[]|e] st].
Qed.

Definition triggers (e : TaskEv) : Z := match e with EvOp OpTrigger => 1 | _ => 0 end.

Lemma foreign_kick o (m m' : Manager St) :
  foreign o = true -> exec o m = Some m' -> Z.b2z (m_kick m') <= Z.b2z (m_kick m) + triggers (EvOp o).
Proof.
  destruct o as [| |fp actor| | |scope actor path|seed]; intros Hf He; try done; simpl in He.
  - destruct (Refresh m) as [[out m1]|] eqn:E; [|done]. injection He as <-. rewrite (Refresh_kick _ _ _ E). simpl. lia.
  - injection He as <-. unfold ReconcileDeclared. pose proof (reconcile_kick (m_active m) m) as Hk.
    destruct (reconcileDeclared _ _) as [[[p c] rep] m1]. simpl in *. rewrite Hk. lia.
  - injection He as <-. rewrite ApprovePending_kick. simpl. lia.
  - injection He as <-. simpl. destruct (m_kick m); simpl; lia.
  - injection He as <-. simpl. lia.
Qed.

(** ** How long a cancelled goroutine can go on *)

(** It is cancelled, its timer has ended [k] of its waits since [t0], and another
    minute passes before it ends the next. *)
Record winding (t0 : time) (i : nat) (k : Z) (s : TaskSys) (lp : Loop) : Prop := {
  wd_loop : ts_loops s !! i = Some lp;
  wd_cancelled : lp_cancelled lp = true;
  wd_start : t0 <= ts_now s;
  wd_count : 0 <= k;
  wd_timers : t0 + (k - 1) * minWake <= ts_now s;
  wd_next : forall u, lp_pc lp = AtSelect u -> k = 0 \/ t0 + k * minWake <= u
}.

(** What is left to it: the way to its end, and a pending kick. *)
Definition left_to (s : TaskSys) (lp : Loop) : Z := Z.of_nat (rank lp) + 3 * Z.b2z (m_kick (ts_manager s)).

Lemma winding_same t0 i k s s' lp lp' :
  winding t0 i k s lp -> ts_loops s' !! i = Some lp' -> lp_pc lp' = lp_pc lp -> lp_cancelled lp' = true -> ts_now s <= ts_now s' ->
  winding t0 i k s' lp'.
Proof. intros [H1 H2 H3 H4 H5 H6] Hl Hp Hc Hn. split; [done..|lia|lia|lia|]. rewrite Hp. done. Qed.

Lemma rank_same lp lp' : lp_pc lp' = lp_pc lp -> rank lp' = rank lp.
Proof. unfold rank. by intros ->. Qed.

Lemma own_step t0 i k s wk s' lp :
  winding t0 i k s lp -> task_step s (EvLoop i wk) = Some s' ->
  exists k' lp', winding t0 i k' s' lp' /\ left_to s' lp' - 3 * k' + 1 <= left_to s lp - 3 * k.
Proof.
  intros [H1 H2 H3 H4 H5 H6] (lp0 & lp' & m & Hl & El & ->)%task_step_loop. rewrite H1 in Hl. injection Hl as <-.
  assert (Hmin : 0 < minWake) by done. pose proof (lookup_lt_Some _ _ _ H1) as Hlt.
  assert (Hw : forall k', 0 <= k' -> t0 + (k' - 1) * minWake <= ts_now s ->
    (forall u, lp_pc lp' = AtSelect u -> k' = 0 \/ t0 + k' * minWake <= u) ->
    winding t0 i k' (mkTaskSys (ts_now s) (ts_parent s) (ts_task s) (ts_stopping s) (<[i := lp']> (ts_loops s)) m) lp').
  { intros k' Hk Ht Hu. split; simpl; [by rewrite list_lookup_insert_eq| |done..].
    by destruct (loop_step_cancelled _ _ _ _ _ _ _ El) as [-> _]. }
  unfold loop_step in El. unfold left_to, rank. simpl. rewrite H2 in El.
  destruct (lp_pc lp) as [| | | |u|] eqn:Epc.
  - injection El as <- <-. exists k, (mkLoop (match m_active (ts_manager s) with None => AtCheck | Some _ => AtTimer end) true).
    split; [apply Hw; [lia|lia|]|]; destruct (m_active (ts_manager s)); simpl in *; try done; lia.
  - injection El as <- <-. exists k, (mkLoop AtTimer true). split; [by apply Hw|]. simpl. lia.
  - destruct (Refresh (ts_manager s)) as [[out m1]|] eqn:Er; [|done]. injection El as <- <-.
    exists k, (mkLoop AtTimer true). split; [by apply Hw|]. simpl. rewrite (Refresh_kick _ _ _ Er). lia.
  - injection El as <- <-. eexists k, _. split; [apply Hw; [lia|lia|]|simpl; lia]. simpl. intros u [= <-]. right.
    destruct (nextWake_spec (rt_interval (ts_task s)) (m_active (ts_manager s)) (ts_now s)) as [Hb _]. lia.
  - destruct wk.
    + injection El as <- <-. exists k, (mkLoop AtEnd true). split; [by apply Hw|]. simpl. lia.
    + destruct (m_kick (ts_manager s)); [|done]. injection El as <- <-. exists k, (mkLoop AtCheck true). split; [by apply Hw|]. simpl. lia.
    + destruct (Z.leb_spec u (ts_now s)); [|done]. injection El as <- <-. exists (k + 1), (mkLoop AtCheck true).
      split; [|simpl; lia]. apply Hw; [lia| |done]. destruct (H6 u eq_refl) as [->|?]; lia.
  - done.
Qed.

Lemma task_step_kick s e s' :
  task_step s e = Some s' -> Z.b2z (m_kick (ts_manager s')) <= Z.b2z (m_kick (ts_manager s)) + triggers e.
Proof.
  intros E. destruct e as [now| | | | |j wk|o].
  - simpl in E. case_match; simplify_eq/=. lia.
  - simpl in E. simplify_eq/=. lia.
  - simpl in E. case_match; simplify_eq/=. lia.
  - simpl in E. case_match; simplify_eq/=. unfold task_Stop. case_match; simpl; lia.
  - simpl in E. unfold task_Stopped in E. case_match; simplify_eq/=. lia.
  - apply task_step_loop in E as (lp & lp' & m & _ & El & ->). unfold loop_step in El. simpl.
    destruct (lp_pc lp) as [| | | |u|]; simplify_eq/=; try lia.
    + destruct (Refresh (ts_manager s)) as [[out m1]|] eqn:Er; simplify_eq/=. rewrite (Refresh_kick _ _ _ Er). lia.
    + destruct wk; repeat case_match; simplify_eq/=; lia.
  - simpl in E. destruct (foreign o) eqn:Hf; [|done]. destruct (exec o (ts_manager s)) as [m|] eqn:Eo; simplify_eq/=.
    by apply foreign_kick.
Qed.

Lemma winding_step t0 i k s e s' lp :
  winding t0 i k s lp -> task_step s e = Some s' ->
  exists k' lp', winding t0 i k' s' lp' /\ left_to s' lp' - 3 * k' + own i e <= left_to s lp - 3 * k + 3 * triggers e.
Proof.
  intros Hw E. destruct (step_cases s e s' i lp (wd_loop _ _ _ _ _ Hw) E)
    as [(wk & -> & _)|(Hown & lp' & Hl' & Hp & Hc & Hn)].
  - destruct (own_step _ _ _ _ _ _ _ Hw E) as (k' & lp' & Hw' & Hle). exists k', lp'. split; [done|].
    unfold own. rewrite decide_True by done. simpl. lia.
  - exists k, lp'. split; [eapply winding_same; [done|done|done|apply Hc, Hw|done]|].
    pose proof (task_step_kick _ _ _ E). unfold left_to. rewrite (rank_same lp lp' Hp). lia.
Qed.

Definition total (f : TaskEv -> Z) (es : list TaskEv) : Z := foldr (fun e n => f e + n) 0 es.

Lemma winding_steps t0 i k s es s' lp :
  winding t0 i k s lp -> task_steps s es = Some s' ->
  exists k' lp', winding t0 i k' s' lp' /\
    left_to s' lp' - 3 * k' + total (own i) es <= left_to s lp - 3 * k + 3 * total triggers es.
Proof.
  revert k s lp. induction es as [|e es IH]; intros k s lp Hw; simpl.
  - intros [= <-]. exists k, lp. split; [done|]. lia.
  - destruct (task_step s e) as [s1|] eqn:E; [|done]. simpl. intros Hs.
    destruct (winding_step _ _ _ _ _ _ _ Hw E) as (k1 & lp1 & Hw1 & H1).
    destruct (IH _ _ _ Hw1 Hs) as (k2 & lp2 & Hw2 & H2). exists k2, lp2. split; [done|]. lia.
Qed.

(** The steps a cancelled goroutine takes, whichever cases its [select] picks. *)
Lemma cancelled_bounded s i lp es s' :
  ts_loops s !! i = Some lp -> lp_cancelled lp = true -> task_steps s es = Some s' ->
  total (own i) es <= 10 + 3 * total triggers es + 3 * ((ts_now s' - ts_now s) / minWake).
Proof.
  intros Hl Hc Hs. assert (Hmin : 0 < minWake) by done.
  assert (Hw : winding (ts_now s) i 0 s lp) by (split; [done|done|lia|lia|lia|by left]).
  destruct (winding_steps _ _ _ _ _ _ _ Hw Hs) as (k & lp' & [_ _ _ Hk Ht _] & Hle).
  assert (Hkt : k - 1 <= (ts_now s' - ts_now s) / minWake) by (apply Z.div_le_lower_bound; lia).
  unfold left_to in Hle. assert (Hr : Z.of_nat (rank lp) <= 4) by (unfold rank; case_match; lia).
  destruct (m_kick (ts_manager s)), (m_kick (ts_manager s')); simpl in Hle; lia.
Qed.

(** ** The pace of the cycles *)

(** Where a goroutine is that was about to set its timer at [t0], without a kick. *)
Definition paced (t0 now : time) (lp : Loop) : Prop :=
  match lp_pc lp with
  | AtFirst => False
  | AtTimer => t0 <= now
  | AtSelect until => t0 + minWake <= until
  | AtCheck | AtCycle => t0 + minWake <= now
  | AtEnd => True
  end.

Lemma paced_mono t0 now now' lp : now <= now' -> paced t0 now lp -> paced t0 now' lp.
Proof. unfold paced. destruct (lp_pc lp); [done|lia..|done|done]. Qed.

Lemma loop_step_paced t0 interval now wk lp (m : Manager St) lp' m' :
  loop_step interval now wk lp m = Some (lp', m') -> wk <> WakeKick -> paced t0 now lp -> paced t0 now lp'.
Proof.
  intros H Hk. unfold loop_step, paced in *. assert (0 < minWake) by done. destruct (lp_pc lp) as [| | | |u|].
  - done.
  - simplify_eq/=. destruct (lp_cancelled lp); lia.
  - destruct (Refresh m); simplify_eq/=. lia.
  - destruct (nextWake_spec interval (m_active m) now) as [Hw _]. simplify_eq/=. lia.
  - destruct wk; [|done|]; repeat case_match; simplify_eq/=; [done|]. lia.
  - done.
Qed.

Lemma task_steps_paced t0 s es s' i lp :
  ts_loops s !! i = Some lp -> paced t0 (ts_now s) lp -> task_steps s es = Some s' -> EvLoop i WakeKick ∉ es ->
  exists lp', ts_loops s' !! i = Some lp' /\ paced t0 (ts_now s') lp'.
Proof.
  revert s lp. induction es as [|e es IH]; intros s lp Hl Hp; simpl; [intros [= <-]; eauto|].
  destruct (task_step s e) as [s1|] eqn:E; [|done]. simpl. intros Hs [Hne Hni]%not_elem_of_cons.
  destruct (step_cases s e s1 i lp Hl E) as [(wk & -> & lp' & m & El & Hl')|(_ & lp' & Hl' & Hp' & _ & Hn)].
  - apply (IH s1 lp' Hl'); [|done..]. rewrite (own_now _ _ _ _ E). eapply loop_step_paced; [exact El|congruence|done].
  - apply (IH s1 lp' Hl'); [|done..]. eapply paced_mono; [exact Hn|]. unfold paced in *. by rewrite Hp'.
Qed.

(** * Properties *)

(** Whatever the task does is a run of the manager: its cycles and the kicks it
    takes, interleaved with any other operations, so everything proved of all runs
    of the manager holds under the task. *)
Theorem task_refines_manager s es s' :
  task_steps s es = Some s' -> exists os, run (ts_manager s) os (ts_manager s').
Proof. apply task_steps_ops. Qed.

(** C11 Stopping the task.  However its goroutines, calls of [Start] and [Stop], the
    passing of time and other users of the manager interleave - [Start] not being
    called again before [Stop] returned - at most one goroutine is running; once
    [Stop] has returned, what happens to the manager until the next [Start] is
    exactly what the others do; and while [Stop] waits, a goroutine that is not in a
    cycle starts none, even when the timer or a kick is chosen over the
    cancellation; it can always get to its end, and [Stop] return, in at most four
    steps of its own; and whichever cases are chosen it has at most ten steps to go,
    and three more for every trigger and every minute that passes - so [Stop] waits
    for nothing but a cycle already begun. *)
Theorem stop_quiesces interval now (m : Manager St) es s :
  installed m -> task_steps (task_system interval now m) es = Some s -> start_once (task_system interval now m) es = true ->
  (forall i j lp lp', ts_loops s !! i = Some lp -> ts_loops s !! j = Some lp' ->
     ended lp = false -> ended lp' = false -> i = j) /\
  (rt_cancel (ts_task s) = None -> forall es' s', Forall (fun e => e <> EvStart) es' -> task_steps s es' = Some s' ->
     run (ts_manager s) (foreign_ops es') (ts_manager s')) /\
  (ts_stopping s = true -> exists i lp, rt_cancel (ts_task s) = Some i /\ ts_loops s !! i = Some lp /\
     (in_cycle lp = false -> forall es' s', task_steps s es' = Some s' ->
        exists lp', ts_loops s' !! i = Some lp' /\ in_cycle lp' = false) /\
     (forall es' s', task_steps s es' = Some s' ->
        total (own i) es' <= 10 + 3 * total triggers es' + 3 * ((ts_now s' - ts_now s) / minWake)) /\
     exists n s', (n <= 4)%nat /\ task_steps s (replicate n (EvLoop i WakeDone) ++ [EvStopped]) = Some s' /\
       rt_cancel (ts_task s') = None).
Proof using RL SL.
  intros Hin%installed_inv Hs Ho. apply (task_steps_orderly _ _ s) in Ho; [|apply task_system_orderly|done].
  destruct (task_steps_ops _ _ _ Hs) as [os Hr]. apply run_keeps in Hr as [Hi _]; [|done]. clear Hin Hs. split_and!.
  - intros i j lp lp' Hl Hl' He He'. pose proof (od_ended _ Ho i lp Hl) as H1. pose proof (od_ended _ Ho j lp' Hl') as H2.
    destruct (decide (rt_cancel (ts_task s) = Some i)) as [E1|E1]; [|by rewrite H1 in He].
    destruct (decide (rt_cancel (ts_task s) = Some j)) as [E2|E2]; [congruence|by rewrite H2 in He'].
  - intros Hn es' s' Hf Hs. by destruct (idle_steps s es' s' (orderly_idle s Ho Hn) Hf Hs).
  - intros Hst. destruct (od_waits _ Ho Hst) as [i Hci]. destruct (od_done _ Ho i Hci) as [Hd [lp Hl]].
    pose proof (od_cancelled _ Ho i lp Hst Hci Hl) as Hc. exists i, lp. split_and!; [done..| | |].
    + intros Hy es' s' Hs. destruct (cancelled_no_cycle s es' s' i lp Hl Hc Hy Hs) as (lp' & ? & _ & ?). eauto.
    + intros es' s' Hs. by eapply cancelled_bounded.
    + destruct (cancelled_finishes s i lp Hi Hl Hc) as (n & s' & lp' & Hn & Hs & Ht & Hst' & Hl' & He).
      exists n, (mkTaskSys (ts_now s') (ts_parent s') (mkTask (rt_interval (ts_task s)) None (Some i)) false
        (ts_loops s') (ts_manager s')).
      split_and!; [unfold rank in Hn; case_match; lia| |done].
      rewrite task_steps_app, Hs. cbn [mbind option_bind task_steps task_step].
      unfold task_Stopped. rewrite Hst', Hst, Ht, Hd. cbn [mbind option_bind from_option andb]. by rewrite Hl'; cbn; rewrite He.
Qed.

(** C12 The pace of the cycles.  A goroutine about to set its timer sets it at
    least a minute and at most the interval (or a minute) ahead, and not past the
    earliest next update of what is served unless that is under a minute away;
    whatever else goes on, when the timer is due and the task not stopped it can
    start its cycle; and unless it is kicked its next cycle starts at least a minute
    later, so upstream is never asked more often. *)
Theorem cycles_paced s i lp wk s1 :
  ts_loops s !! i = Some lp -> lp_pc lp = AtTimer -> task_step s (EvLoop i wk) = Some s1 ->
  exists until, ts_loops s1 !! i = Some (mkLoop (AtSelect until) (lp_cancelled lp)) /\
    ts_now s + minWake <= until <= ts_now s + Z.max (rt_interval (ts_task s)) minWake /\
    (forall a due, m_active (ts_manager s) = Some a -> due ∈ known_updates a -> until <= Z.max (ts_now s + minWake) due) /\
    (forall s2, ts_loops s2 !! i = Some (mkLoop (AtSelect until) false) -> until <= ts_now s2 ->
       exists s3, task_steps s2 [EvLoop i WakeTimer; EvLoop i WakeTimer] = Some s3 /\
         ts_loops s3 !! i = Some (mkLoop AtCycle false) /\ ts_manager s3 = ts_manager s2) /\
    (forall es s2 lp2, task_steps s1 es = Some s2 -> EvLoop i WakeKick ∉ es ->
       ts_loops s2 !! i = Some lp2 -> in_cycle lp2 = true -> ts_now s + minWake <= ts_now s2).
Proof.
  intros Hl Hp (lp0 & lp1 & m & Hl0 & El & ->)%task_step_loop. rewrite Hl in Hl0. injection Hl0 as <-.
  unfold loop_step in El. rewrite Hp in El. injection El as <- <-.
  destruct (nextWake_spec (rt_interval (ts_task s)) (m_active (ts_manager s)) (ts_now s)) as (Hb & Hdue & _).
  pose proof (lookup_lt_Some _ _ _ Hl) as Hlt.
  set (until := ts_now s + nextWake _ _ _). exists until. split_and!; [|lia|lia| | |].
  - simpl. by rewrite list_lookup_insert_eq.
  - intros a due Ha Hd. specialize (Hdue a due Ha Hd). lia.
  - intros s2 Hl2 Hn. pose proof (lookup_lt_Some _ _ _ Hl2) as Hlt2. eexists. simpl. rewrite Hl2. cbn.
    rewrite (proj2 (Z.leb_le _ _) Hn). cbn. rewrite list_lookup_insert_eq by done. cbn.
    split_and!; [done| |done]. simpl. by rewrite list_insert_insert_eq, list_lookup_insert_eq.
  - intros es s2 lp2 Hs Hk Hl2 Hc. eapply (task_steps_paced (ts_now s)) in Hs as (lp2' & Hl2' & Hpc); [|..|exact Hk].
    + rewrite Hl2 in Hl2'. injection Hl2' as <-. unfold in_cycle, paced in *. by destruct (lp_pc lp2).
    + simpl. by rewrite list_lookup_insert_eq.
    + unfold paced. simpl. lia.
Qed.
End Task.

(** The sleep before the next cycle is at least a minute and at most the
    interval (or a minute, if that is longer); it ends by the earliest NextUpdate
    any served list announces, or within a minute; and it is shortened for no
    other reason. *)
Theorem next_wake_bounds interval active now :
  let wake := nextWake interval active now in
  minWake <= wake <= Z.max interval minWake /\
  (forall s due, active = Some s -> due ∈ known_updates s -> wake <= Z.max minWake (due - now)) /\
  (wake = interval \/ wake = minWake \/
   exists s due, active = Some s /\ due ∈ known_updates s /\ wake = Z.min max_duration (due - now)).
Proof. exact (nextWake_spec interval active now). Qed.
