(* ===== verification/Routes.v ===== *)
(** * The HTTP API

    [src/routes/anchors.go], [admin.go], [snapshot.go], [router.go] and
    [src/routes/response/response.go].  A request is what the handlers read of
    it through the web framework (query values, headers, the caller's scopes);
    a response is what they write. *)

From S2P Require Import Prelude Model Base64 CertBody Filter ContentId Diff Slices Internal Store Fetcher Telemetry Manager Samples.

(** ** Requests and responses *)

Record HttpRequest := mkHttpRequest {
  (** [ctx.User().HasScopeLevel("trust", level)] *)
  rq_HasScope : string -> bool;
  rq_UserID : string;
  rq_Path : string;
  rq_IfNoneMatch : string;
  (** the query: values of [territory], and the optional parameters *)
  rq_territory : list string;
  rq_use : option string;
  rq_type : option string;
  rq_qscdOnly : result (option bool);
  rq_keys : option string
}.

Inductive ApiError :=
| ParamInvalidError (name tag : string)
| ForbiddenError
| notFoundError (err : error)
| badGatewayError (err : option error).

(** [StatusCode] of the two error types the package declares. *)
Definition error_StatusCode (e : ApiError) : option Z :=
  match e with notFoundError _ => Some 404 | badGatewayError _ => Some 502 | _ => None end.

(** *** [response.go] *)

(** The slice keeps whether it is nil: [None] is. *)
Record RespAnchors := mkRespAnchors {
  ra_Snapshot : string;
  ra_GeneratedAt : time;
  ra_Stale : bool;
  ra_Anchors : option (list Anchor)
}.

(** A slice appended to from nil: nil as long as nothing was appended. *)
Definition appended {A} (l : list A) : option (list A) := match l with [] => None | _ => Some l end.

Definition NewAnchors (snap : Snapshot) (anchors : option (list Anchor)) (stale : bool) : RespAnchors :=
  let anchors := match anchors with None => Some [] | Some _ => anchors end in
  mkRespAnchors (s_ID snap) (s_GeneratedAt snap) stale anchors.

Record TerritorySummary := mkTerritorySummary {
  ts_Code : string;
  ts_TLSequence : Z;
  ts_IssueTime : time;
  ts_NextUpdate : option time;
  ts_Stale : bool;
  ts_CarriedOver : bool;
  ts_CarriedOverReason : string;
  ts_Failed : bool;
  ts_FailureReason : string;
  ts_AnchorCount : Z;
  ts_SkippedCount : Z;
  ts_Skipped : list SkippedService;
  ts_HeldCount : Z
}.

Record BootstrapSummary := mkBootstrapSummary {
  bs_Version : Z;
  bs_OJReference : string;
  bs_ActivatedAt : time;
  bs_Fingerprints : list string;
  bs_Seeded : bool
}.

Record RespSnapshot := mkRespSnapshot {
  rn_ID : string;
  rn_PrevID : string;
  rn_GeneratedAt : time;
  rn_LOTLSequence : Z;
  rn_LOTLIssueTime : time;
  rn_LOTLNextUpdate : option time;
  rn_LOTLPivotSeq : Z;
  rn_AdvertisedOJ : string;
  rn_Territories : list TerritorySummary;
  rn_InternalCount : Z;
  rn_Diff : option DiffT;
  rn_Pending : list PendingAnchor;
  rn_Bootstrap : option BootstrapSummary
}.

(** The counting loop of [heldCount]. *)
Definition heldCount (anchors : list Anchor) : Z :=
  foldl (fun n a => if negb (KeyCommon a) then n + 1 else n) 0 anchors.

Definition territory_summary (now : time) (grace : duration) (t : Territory) : TerritorySummary :=
  mkTerritorySummary (t_Code t) (t_TLSequence t) (t_IssueTime t) (t_NextUpdate t) (StaleAt t now grace)
    (t_CarriedOver t) (t_CarriedOverReason t) (t_Failed t) (t_FailureReason t)
    (Z.of_nat (length (t_Anchors t))) (Z.of_nat (length (t_Skipped t))) (t_Skipped t) (heldCount (t_Anchors t)).

Definition NewSnapshot `{X509, GoSort} (snap : Snapshot) (boot : option Bootstrap) (now : time) (grace : duration) :
    RespSnapshot :=
  mkRespSnapshot (s_ID snap) (s_PrevID snap) (s_GeneratedAt snap) (s_LOTLSequence snap) (s_LOTLIssueTime snap)
    (s_LOTLNextUpdate snap) (s_LOTLPivotSeq snap) (s_AdvertisedOJ snap)
    (territory_summary now grace <$> s_Territories snap) (Z.of_nat (length (s_Internal snap)))
    (s_Diff snap) (s_Pending snap)
    ((fun b => mkBootstrapSummary (b_Version b) (b_OJReference b) (b_ActivatedAt b) (Bootstrap_Fingerprints b)
                 (b_Seeded b)) <$> boot).

Record RefreshTerritories := mkRefreshTerritories { rt_OK : Z; rt_Failed : list string; rt_CarriedOver : list string }.

Record RefreshDeclared := mkRefreshDeclared { rd_Changed : bool; rd_CarriedOver : bool; rd_Error : string }.
Record RefreshCycle := mkRefreshCycle { rc_OK : bool; rc_Error : string; rc_Territories : option RefreshTerritories }.

Record RespRefresh := mkRespRefresh {
  rr_Snapshot : string;
  rr_Changed : bool;
  rr_Declared : RefreshDeclared;
  rr_Cycle : RefreshCycle
}.

(** The [switch] in the loop of [NewRefresh]. *)
Definition tally (acc : RefreshTerritories) (t : Territory) : RefreshTerritories :=
  if t_Failed t then mkRefreshTerritories (rt_OK acc) (rt_Failed acc ++ [t_Code t]) (rt_CarriedOver acc)
  else if t_CarriedOver t then mkRefreshTerritories (rt_OK acc) (rt_Failed acc) (rt_CarriedOver acc ++ [t_Code t])
  else mkRefreshTerritories (rt_OK acc + 1) (rt_Failed acc) (rt_CarriedOver acc).

Definition NewRefresh (served : Snapshot) (changed declaredChanged declaredCarriedOver : bool) (declaredErr : string)
    (cycleErr : option error) : RespRefresh :=
  let out := mkRespRefresh (s_ID served) changed (mkRefreshDeclared declaredChanged declaredCarriedOver declaredErr) in
  match cycleErr with
  | Some e => out (mkRefreshCycle false (err_Error e) None)
  | None => out (mkRefreshCycle true "" (Some (foldl tally (mkRefreshTerritories 0 [] []) (s_Territories served))))
  end.

Inductive Body :=
| BodyText (s : string)
| BodyPEM (b : bytes)
| BodyAnchors (a : RespAnchors)
| BodySnapshot (s : RespSnapshot)
| BodyRefresh (r : RespRefresh)
| BodyApproved (snapshot fingerprint : string).

(** A status with the headers set so far and a body, or an error handed to the
    framework. *)
Inductive Response :=
| Respond (status : Z) (headers : list (string * string)) (body : option Body)
| RespondError (headers : list (string * string)) (e : ApiError).

(** ** The bundle routes *)

Definition headerETag : string := "ETag".
Definition headerTrustSnapshot : string := "X-Trust-Snapshot".
Definition headerTrustStale : string := "X-Trust-Stale".

Record BundleQuery := mkBundleQuery {
  bq_territories : list string;
  bq_use : string;
  bq_qscdOnly : bool;
  bq_type : string;
  bq_keys : string
}.

(** [bundleQuery]: the parameters, or the error written. *)
Definition bundleQuery (rq : HttpRequest) : BundleQuery + ApiError :=
  let use := default "" (rq_use rq) in
  if negb (ValidUse use) then inr (ParamInvalidError "use" "oneof")
  else
    let anchorType := default "" (rq_type rq) in
    if negb (str_eqb anchorType "") && negb (ValidAnchorType anchorType) then inr (ParamInvalidError "type" "oneof")
    else match rq_qscdOnly rq with
         | Err _ => inr (ParamInvalidError "qscdOnly" "bool")
         | Ok q =>
             let keys := default "" (rq_keys rq) in
             if negb (ValidKeys keys) then inr (ParamInvalidError "keys" "oneof")
             else inl (mkBundleQuery (rq_territory rq) use (default false q) anchorType keys)
         end.

Definition containsFold (list : list string) (s : string) : bool := existsb (fun v => EqualFold v s) list.

Definition stale (snap : Snapshot) (territories : list string) (now : time) (grace : duration) : bool :=
  existsb (fun t =>
    if bool_decide (0 < length territories)%nat && negb (containsFold territories (t_Code t)) then false
    else StaleAt t now grace) (s_Territories snap).

Definition is_dquote (c : Ascii.ascii) : bool := bool_decide (c = dquote).

Definition notModified (rq : HttpRequest) (etag : string) : bool :=
  if str_eqb (rq_IfNoneMatch rq) "" then false
  else existsb (fun part => str_eqb (trim_both is_dquote (TrimSpace part)) (trim_both is_dquote etag))
         (split_on (Ascii.ascii_of_nat 44) (rq_IfNoneMatch rq)).

Definition bundleHeaders (snap : Snapshot) (stale : bool) : list (string * string) :=
  [(headerETag, dq +:+ s_ID snap +:+ dq); (headerTrustSnapshot, s_ID snap);
   (headerTrustStale, if stale then "true" else "false")].

Definition filterParamError (anchorType : string) : ApiError :=
  if negb (str_eqb anchorType "") && negb (ValidAnchorType anchorType) then ParamInvalidError "type" "oneof"
  else ParamInvalidError "use" "oneof".

Definition noSnapshot : Response := Respond 503 [] (Some (BodyText "no trust snapshot loaded yet")).

(** The common body of the two bundle handlers, given how they render. *)
Definition bundle (render : Snapshot -> list Anchor -> bool -> Body) (active : option Snapshot) (now : time)
    (grace : duration) (rq : HttpRequest) : Response :=
  match active with
  | None => noSnapshot
  | Some snap =>
      match bundleQuery rq with
      | inr e => RespondError [] e
      | inl q =>
          let st := stale snap (bq_territories q) now grace in
          let h := bundleHeaders snap st in
          if notModified rq (s_ID snap) then Respond 304 h None
          else match Filter snap (bq_territories q) (bq_use q) (bq_qscdOnly q) (bq_type q) (bq_keys q) with
               | Err _ => RespondError h (filterParamError (bq_type q))
               | Ok anchors => Respond 200 h (Some (render snap anchors st))
               end
      end
  end.

Section Handlers.
Context {X : X509} {SO : GoSort} {RA : GoRange} {N : Net} {CO : Codec} {FI : Files} {YA : Yaml} {RF : Refresher}
  {St : Type} {ST : Store St}.

(** [requireScope]: pass on, or emit the denial and answer 403. *)
Definition requireScope (rq : HttpRequest) (level : string) (k : Manager St -> option (Response * Manager St))
    (m : Manager St) : option (Response * Manager St) :=
  if rq_HasScope rq level then k m
  else Some (RespondError [] ForbiddenError,
             m_emit (EvAuthzDenied ("trust:" +:+ level) (rq_UserID rq) (rq_Path rq)) m).

Definition anchorsPEM (now : time) (grace : duration) (rq : HttpRequest) : Manager St -> option (Response * Manager St) :=
  requireScope rq "read" (fun m =>
    Some (bundle (fun _ anchors _ => BodyPEM (PEMBundle anchors)) (m_active m) now grace rq, m)).

Definition anchorsJSON (now : time) (grace : duration) (rq : HttpRequest) : Manager St -> option (Response * Manager St) :=
  requireScope rq "read" (fun m =>
    Some (bundle (fun snap anchors st => BodyAnchors (NewAnchors snap (appended anchors) st)) (m_active m) now grace rq, m)).

Definition readyz (m : Manager St) : Response :=
  match m_active m with
  | None => Respond 503 [] (Some (BodyText "no trust snapshot loaded"))
  | Some _ => Respond 200 [] (Some (BodyText "ready"))
  end.

Definition snapshot (now : time) (grace : duration) (rq : HttpRequest) : Manager St -> option (Response * Manager St) :=
  requireScope rq "read" (fun m =>
    Some (match m_active m with
          | None => noSnapshot
          | Some snap => Respond 200 [(headerTrustSnapshot, s_ID snap)]
                           (Some (BodySnapshot (NewSnapshot snap (m_bootstrap m) now grace)))
          end, m)).

Definition approvePending (fingerprint : string) (rq : HttpRequest) : Manager St -> option (Response * Manager St) :=
  requireScope rq "admin" (fun m =>
    Some match ApprovePending fingerprint (rq_UserID rq) m with
         | (Err err, m) => (RespondError [] (notFoundError err), m)
         | (Ok snap, m) => (Respond 200 [] (Some (BodyApproved (s_ID snap) fingerprint)), m)
         end).

(** [None]: the manager panicked. *)
Definition refresh (rq : HttpRequest) : Manager St -> option (Response * Manager St) :=
  requireScope rq "admin" (fun m =>
    match Refresh m with
    | None => None
    | Some (out, m) =>
        Some (match ro_Snapshot out with
              | None => RespondError [] (badGatewayError (ro_CycleErr out))
              | Some s => Respond 200 [] (Some (BodyRefresh
                  (NewRefresh s (ro_Changed out) (ro_DeclaredChanged out) (ds_CarriedOver (ro_Declared out))
                     (ds_Error (ro_Declared out)) (ro_CycleErr out))))
              end, m)
    end).
End Handlers.

(** * Lemmas *)

(** ** Trimming *)

Lemma str_rev_app_app s acc : str_rev_app s acc = str_rev s +:+ acc.
Proof.
  unfold str_rev. revert acc. induction s as [|c s IH]; intros acc; [done|]. simpl.
  rewrite IH, (IH (String c "")), app_assoc_s. done.
Qed.

Lemma str_rev_cons c s : str_rev (String c s) = str_rev s +:+ String c "".
Proof. unfold str_rev at 1. simpl. apply str_rev_app_app. Qed.

Lemma str_rev_snoc s c : str_rev (s +:+ String c "") = String c (str_rev s).
Proof.
  induction s as [|d s IH]; [done|]. rewrite app_cons_s, !str_rev_cons, IH. done.
Qed.

Lemma str_rev_involutive s : str_rev (str_rev s) = s.
Proof. induction s as [|c s IH]; [done|]. by rewrite str_rev_cons, str_rev_snoc, IH. Qed.

(** A quoted non-empty text without quotes. *)
Definition str_all (p : Ascii.ascii -> bool) (s : string) : bool := forallb p (String.list_ascii_of_string s).

Lemma str_all_cons p c s : str_all p (String c s) = p c && str_all p s.
Proof. done. Qed.

Lemma trim_left_none p s : str_all (fun c => negb (p c)) s = true -> trim_left p s = s.
Proof. destruct s as [|c s]; [done|]. unfold str_all. simpl. destruct (p c); simpl; [discriminate|done]. Qed.

Lemma str_all_app p s t : str_all p (s +:+ t) = str_all p s && str_all p t.
Proof.
  unfold str_all in *. induction s as [|c s IH]; [done|]. rewrite app_cons_s. simpl. by rewrite IH, andb_assoc.
Qed.

Lemma str_all_rev p s : str_all p (str_rev s) = str_all p s.
Proof.
  induction s as [|c s IH]; [done|]. rewrite str_rev_cons, str_all_app, IH, !str_all_cons, andb_true_r. apply andb_comm.
Qed.

Lemma trim_both_none p s : str_all (fun c => negb (p c)) s = true -> trim_both p s = s.
Proof.
  intros H. unfold trim_both. rewrite (trim_left_none p s H), trim_left_none by (by rewrite str_all_rev).
  apply str_rev_involutive.
Qed.

Definition quoted (s : string) : string := dq +:+ s +:+ dq.

Lemma trim_quoted s : str_all (fun c => negb (is_dquote c)) s = true -> s <> "" -> trim_both is_dquote (quoted s) = s.
Proof.
  intros H Hne. unfold trim_both, quoted, dq.
  change (String dquote "" +:+ (s +:+ String dquote "")) with (String dquote (s +:+ String dquote "")). simpl.
  destruct s as [|c s]; [done|]. rewrite app_cons_s. rewrite str_all_cons in H. simpl.
  destruct (is_dquote c) eqn:E; [done|]. rewrite <-app_cons_s, str_rev_snoc. simpl.
  rewrite trim_left_none by (rewrite str_all_rev, str_all_cons; by rewrite E). apply str_rev_involutive.
Qed.

Lemma trim_space_quoted s : TrimSpace (quoted s) = quoted s.
Proof.
  unfold TrimSpace, trim_both, quoted, dq.
  change (String dquote "" +:+ (s +:+ String dquote "")) with (String dquote (s +:+ String dquote "")).
  rewrite <-app_cons_s. change (trim_left is_space (String dquote s +:+ String dquote "")) with
    (String dquote s +:+ String dquote ""). rewrite str_rev_snoc. simpl. by rewrite <-str_rev_snoc, str_rev_involutive.
Qed.

Lemma split_on_none sep s : str_all (fun c => negb (bool_decide (c = sep))) s = true -> split_on sep s = [s].
Proof.
  induction s as [|c s IH]; [done|]. rewrite str_all_cons, andb_true_iff. intros [Hc Hs]. simpl.
  destruct (bool_decide (c = sep)); [done|]. by rewrite IH.
Qed.

(** ** Ids in entity tags *)

Definition hex_char (c : Ascii.ascii) : bool :=
  let n := Ascii.N_of_ascii c in ((48 <=? n) && (n <=? 57) || (97 <=? n) && (n <=? 102))%N.

Lemma hex_byte_chars c : str_all hex_char (hex_byte c) = true.
Proof. destruct c as [[] [] [] [] [] [] [] []]; reflexivity. Qed.

Lemma hex_chars b : str_all hex_char (hex_EncodeToString b) = true.
Proof.
  unfold hex_EncodeToString. induction b as [|c b IH]; [done|]. simpl.
  change (str_all hex_char (hex_byte c +:+ str_flat_map hex_byte b) = true).
  by rewrite str_all_app, hex_byte_chars, IH.
Qed.

Lemma str_all_weaken (p q : Ascii.ascii -> bool) s :
  (forall c, p c = true -> q c = true) -> str_all p s = true -> str_all q s = true.
Proof.
  intros Hpq. induction s as [|c s IH]; [done|]. rewrite !str_all_cons, !andb_true_iff. intros [H1 H2]. split; auto.
Qed.

Lemma hex_not_dquote c : hex_char c = true -> negb (is_dquote c) = true.
Proof. destruct c as [[] [] [] [] [] [] [] []]; done. Qed.

Lemma hex_not_comma c : hex_char c = true -> negb (bool_decide (c = Ascii.ascii_of_nat 44)) = true.
Proof. destruct c as [[] [] [] [] [] [] [] []]; done. Qed.

Lemma identified_hex `{X509, GoSort} {L : X509Laws} s :
  identified s -> str_all hex_char (s_ID s) = true /\ s_ID s <> "".
Proof.
  intros ->. unfold compute_id. split; [apply hex_chars|]. intros E.
  apply (f_equal String.length) in E. rewrite hex_EncodeToString_length, sha256_size in E. done.
Qed.

(** Sending back the entity tag of [s1] matches [s2] exactly when the ids agree. *)
Lemma notModified_etag `{X509, GoSort} {L : X509Laws} rq s1 s2 :
  identified s1 -> identified s2 -> rq_IfNoneMatch rq = quoted (s_ID s1) ->
  notModified rq (s_ID s2) = true <-> s_ID s1 = s_ID s2.
Proof.
  intros [H1 N1]%identified_hex [H2 N2]%identified_hex E. unfold notModified. rewrite E.
  assert (Hq : str_eqb (quoted (s_ID s1)) "" = false) by (by apply str_eqb_neq).
  assert (Hs : split_on (Ascii.ascii_of_nat 44) (quoted (s_ID s1)) = [quoted (s_ID s1)]).
  { apply split_on_none. unfold quoted. rewrite !str_all_app.
    rewrite (str_all_weaken hex_char _ (s_ID s1) hex_not_comma H1). done. }
  assert (D : forall x, str_all hex_char x = true -> str_all (fun c => negb (is_dquote c)) x = true).
  { intros x. apply str_all_weaken, hex_not_dquote. }
  rewrite Hq, Hs. cbn [existsb]. rewrite orb_false_r, str_eqb_eq, trim_space_quoted.
  rewrite trim_quoted by auto. rewrite trim_both_none by auto. done.
Qed.

(** ** Bundles of equivalent snapshots *)

(** [matches], read off the projection an id covers. *)
Definition id_matches (use : string) (qscdOnly : bool) (anchorType : string) (a : idAnchor) : bool :=
  if negb (str_eqb (ia_Type a) anchorType) then false
  else if qscdOnly && negb (ia_QSCD a) then false
  else if str_eqb use "" || bool_decide (length (ia_Uses a) = 0%nat) then true
  else existsb (fun u => str_eqb u (effective_use use)) (ia_Uses a).

Lemma matches_projected use q ty l :
  project_anchor <$> List.filter (fun a => matches a use q ty && true) l =
  List.filter (id_matches use q ty) (project_anchor <$> l).
Proof.
  induction l as [|a l IH]; [done|]. csimpl. rewrite andb_true_r.
  change (id_matches use q ty (project_anchor a)) with (matches a use q ty). destruct (matches a use q ty); csimpl; by rewrite IH.
Qed.

Lemma flat_map_perm {A B} (f : A -> list B) l1 l2 : l1 ≡ₚ l2 -> flat_map f l1 ≡ₚ flat_map f l2.
Proof.
  induction 1 as [| x l1 l2 _ IH | x y l | l1 l2 l3 _ IH1 _ IH2]; simpl; [done|by rewrite IH| |by etrans].
  rewrite !app_assoc. by rewrite (Permutation_app_comm (f x)).
Qed.

(** Failed entries hold no anchors. *)
Definition failed_empty (s : Snapshot) : Prop := forall t, t ∈ s_Territories s -> t_Failed t = true -> t_Anchors t = [].

Lemma fmap_as_map {A B} (f : A -> B) l : f <$> l = List.map f l.
Proof. done. Qed.

Lemma territory_bundle territories use q ty ts :
  (forall t, t ∈ ts -> t_Failed t = true -> t_Anchors t = []) ->
  project_anchor <$> flat_map (fun t => if negb (include territories (t_Code t)) then []
      else List.filter (fun a => matches a use q ty && true) (t_Anchors t)) ts =
  flat_map (fun t => if negb (include territories (t_Code t)) then []
      else List.filter (id_matches use q ty) (project_anchor <$> t_Anchors t)) (filter (fun t => t_Failed t = false) ts).
Proof.
  induction ts as [|t ts IH]; intros Hf; [done|]. simpl. rewrite fmap_app, IH by (intros; eapply Hf; set_solver).
  rewrite filter_cons. destruct (t_Failed t) eqn:E.
  - rewrite decide_False by done. rewrite (Hf t) by (done || apply list_elem_of_here). by destruct (negb _).
  - rewrite decide_True by done. simpl. f_equal. destruct (negb _); [done|]. apply matches_projected.
Qed.

(** Bundles with all keys of snapshots with the same content hold the same
    certificates with the same metadata, up to order. *)
Lemma filter_equiv s1 s2 territories use q ty out1 out2 :
  content_equiv s1 s2 -> failed_empty s1 -> failed_empty s2 ->
  Filter s1 territories use q ty KeysAll = Ok out1 -> Filter s2 territories use q ty KeysAll = Ok out2 ->
  project_anchor <$> out1 ≡ₚ project_anchor <$> out2.
Proof.
  intros (_ & (l & Hl & H2) & Hi & _) F1 F2. unfold Filter. destruct (negb (ValidUse use)); [done|].
  destruct (_ && _); [done|]. simpl. intros [= <-] [= <-].
  rewrite !fmap_app, !matches_projected, !territory_bundle by done.
  apply Permutation_app; [|by apply List_filter_perm].
  change (filter (fun t => t_Failed t = false) (s_Territories s1)) with (healthy s1).
  change (filter (fun t => t_Failed t = false) (s_Territories s2)) with (healthy s2).
  rewrite <-Hl. clear Hl Hi. induction H2 as [|t1 t2 l1 l2 (Hc & _ & Ha) _ IH]; [done|]. simpl.
  apply Permutation_app; [|done]. rewrite Hc. destruct (negb _); [done|]. by apply List_filter_perm.
Qed.

(** The bundle of a key mode, picked from the one with all keys. *)
Lemma Filter_keys s territories use q ty keys out :
  Filter s territories use q ty keys = Ok out ->
  exists all, Filter s territories use q ty KeysAll = Ok all /\
    out = List.filter (fun a => str_eqb keys KeysAll || KeyCommon a) all.
Proof.
  unfold Filter. destruct (negb (ValidUse use)); [done|]. destruct (_ && _); [done|].
  destruct (negb (ValidKeys keys)); [done|]. simpl. intros [= <-]. eexists. split; [done|].
  assert (Hf : forall l, List.filter (fun a => matches a use q ty && (str_eqb keys KeysAll || KeyCommon a)) l =
    List.filter (fun a => str_eqb keys KeysAll || KeyCommon a) (List.filter (fun a => matches a use q ty && true) l)).
  { induction l as [|a l IH]; [done|]. simpl. rewrite andb_true_r, IH.
    destruct (matches a use q ty), (_ || KeyCommon a) eqn:E; simpl; by rewrite ?E. }
  rewrite List.filter_app, <-Hf. f_equal. induction (s_Territories s) as [|t ts IH]; [done|]. simpl.
  rewrite List.filter_app, IH. f_equal. destruct (negb _); [done|]. apply Hf.
Qed.

(** ** Certificates behind fingerprints *)

Section Keyed.
Context {X : X509} {AS : Asn1}.

Definition keyed (s : Snapshot) : Prop :=
  forall a, (exists t, t ∈ s_Territories s /\ a ∈ t_Anchors t) \/ a ∈ s_Internal s -> cert_keyed a.

(** What a client compares: the fields an id covers, and the certificate itself. *)
Definition seen (a : Anchor) : idAnchor * bytes := (project_anchor a, a_CertDER a).

Definition seen_common (x : idAnchor * bytes) : bool :=
  let '(alg, curve) := spkiAlgorithm x.2 in
  negb (str_eqb alg KeyAlgorithmECDSA) || str_eqb curve "" || bool_decide (curve ∈ nistCurves).

Lemma keyed_common a : cert_keyed a -> KeyCommon a = seen_common (seen a).
Proof.
  intros [_ Hk]. unfold KeyCommon, seen_common. simpl. rewrite <-Hk.
  by destruct (negb (str_eqb (a_KeyAlgorithm a) KeyAlgorithmECDSA) || str_eqb (a_Curve a) "").
Qed.

Lemma seen_filter b l :
  Forall cert_keyed l ->
  seen <$> List.filter (fun a => b || KeyCommon a) l = List.filter (fun x => b || seen_common x) (seen <$> l).
Proof.
  induction 1 as [|a l Ha _ IH]; [done|]. csimpl. rewrite (keyed_common a Ha). destruct (b || _); csimpl; by rewrite IH.
Qed.

(** Equal projections of anchors with their own certificates: equal certificates. *)
Lemma seen_equal l1 l2 :
  Forall cert_keyed l1 -> Forall cert_keyed l2 -> project_anchor <$> l1 = project_anchor <$> l2 ->
  sha256_collision \/ seen <$> l1 = seen <$> l2.
Proof.
  intros H1. revert l2. induction H1 as [|a l1 [Ha _] H1 IH]; intros [|b l2] H2 E; csimpl in *; try done; [by right|].
  injection E as Ef Es Eq Eu Eso Et Ec El. apply Forall_cons in H2 as [[Hb _] H2].
  destruct (IH l2 H2 El) as [| ->]; [by left|]. destruct (decide (a_CertDER a = a_CertDER b)) as [Ed|Hne].
  - right. unfold seen. rewrite Ed. unfold project_anchor. congruence.
  - left. exists (a_CertDER a), (a_CertDER b). split; [done|]. apply hex_EncodeToString_inj.
    change (fingerprintDER (a_CertDER a) = fingerprintDER (a_CertDER b)). congruence.
Qed.

Lemma seen_perm l1 l2 :
  Forall cert_keyed l1 -> Forall cert_keyed l2 -> project_anchor <$> l1 ≡ₚ project_anchor <$> l2 ->
  sha256_collision \/ seen <$> l1 ≡ₚ seen <$> l2.
Proof.
  intros H1 H2 Hp. destruct (Permutation_map_inv project_anchor l2 Hp) as (l3 & E & Hp3).
  rewrite Hp3 in H2. destruct (seen_equal l1 l3 H1 H2 E) as [|Es]; [by left|right]. rewrite Hp3. by rewrite Es.
Qed.

Lemma Filter_keyed s territories use q ty keys out :
  keyed s -> Filter s territories use q ty keys = Ok out -> Forall cert_keyed out.
Proof.
  intros Hk Hf. apply Forall_forall. intros a Ha. apply (Filter_elem _ _ _ _ _ _ _ a Hf) in Ha as [Ha _].
  apply Hk. destruct Ha as [(t & ? & _ & ?)|?]; eauto.
Qed.
End Keyed.

(** * Properties *)

(** C33 What the two bundle routes answer once something is served: a parameter
    error exactly when the query is outside the closed sets (the error path after
    filtering is never taken), otherwise 304 or 200 with the snapshot id as
    entity tag, the staleness flag set exactly when a requested territory is past
    its NextUpdate and grace, and in the 200 case the filtered anchors. *)
Theorem bundle_response_exact render snap now grace rq :
  match bundleQuery rq with
  | inr e => bundle render (Some snap) now grace rq = RespondError [] e
  | inl q => exists anchors st,
      Filter snap (bq_territories q) (bq_use q) (bq_qscdOnly q) (bq_type q) (bq_keys q) = Ok anchors /\
      (st = true <-> exists t nu, t ∈ s_Territories snap /\ t_NextUpdate t = Some nu /\ nu + grace < now /\
         (bq_territories q = [] \/ containsFold (bq_territories q) (t_Code t) = true)) /\
      bundle render (Some snap) now grace rq =
        if notModified rq (s_ID snap) then Respond 304 (bundleHeaders snap st) None
        else Respond 200 (bundleHeaders snap st) (Some (render snap anchors st))
  end.
Proof.
  unfold bundle. destruct (bundleQuery rq) as [q|e] eqn:Hq; [|done].
  assert (Hv : valid_query (bq_use q) (bq_type q) (bq_keys q) = true).
  { unfold bundleQuery in Hq. unfold valid_query. repeat case_match; try done. injection Hq as <-. simpl.
    destruct (ValidUse _), (ValidKeys _), (str_eqb _ ""), (ValidAnchorType _); done. }
  apply (Filter_valid snap (bq_territories q) (bq_use q) (bq_qscdOnly q)) in Hv.
  destruct (Filter _ _ _ _ _ _) as [anchors|e] eqn:Hf; [|done].
  exists anchors, (stale snap (bq_territories q) now grace). split; [done|]. split; [|by destruct (notModified _ _)].
  unfold stale. rewrite List.existsb_exists. setoid_rewrite <-list_elem_of_In. split.
  - intros (t & Hin & Hs). exists t. case_bool_decide as Hl; destruct (containsFold _ _) eqn:Hc; simpl in Hs;
      try done; unfold StaleAt in Hs; destruct (t_NextUpdate t) as [nu|]; try done; apply Z.ltb_lt in Hs;
      exists nu; (split_and!; [done..|]); try by right.
    all: left; destruct (bq_territories q); [done|simpl in Hl; lia].
  - intros (t & nu & Hin & Hnu & Hlt & Hreq). exists t. split; [done|].
    assert (Hs : StaleAt t now grace = true).
    { unfold StaleAt. rewrite Hnu. by apply Z.ltb_lt. }
    destruct Hreq as [->| ->]; simpl; [done|]. by rewrite andb_false_r.
Qed.

(** C32 A 304 never hides a change of trust: a client that got a bundle from the
    snapshot [s1] and sends that one entity tag back is answered 304 by a service
    serving [s2] exactly when their ids agree; and then, unless a SHA-256 collision has
    been found, whatever the query - the default bundle and the one with all keys -
    the bundle it would get holds the same certificates, byte for byte, with the same
    status, QSCD flag, uses, source, type and use cases, up to order.  Both snapshots
    carry the digest of their content as id, have no anchors in failed entries, and
    fingerprints and key names read from the certificates; the texts an id covers are
    ASCII. *)
Theorem not_modified_sound {X : X509} {AS : Asn1} {SO : GoSort} {L : X509Laws} rq s1 s2 :
  identified s1 -> identified s2 -> failed_empty s1 -> failed_empty s2 -> keyed s1 -> keyed s2 ->
  ascii_content (snapshot_content s1) = true -> ascii_content (snapshot_content s2) = true ->
  rq_IfNoneMatch rq = quoted (s_ID s1) ->
  (notModified rq (s_ID s2) = true <-> s_ID s1 = s_ID s2) /\
  (notModified rq (s_ID s2) = true ->
   forall territories use qscdOnly anchorType keys out1 out2,
     Filter s1 territories use qscdOnly anchorType keys = Ok out1 ->
     Filter s2 territories use qscdOnly anchorType keys = Ok out2 ->
     sha256_collision \/
     (fun a => (project_anchor a, a_CertDER a)) <$> out1 ≡ₚ (fun a => (project_anchor a, a_CertDER a)) <$> out2).
Proof.
  intros I1 I2 F1 F2 K1 K2 A1 A2 E. pose proof (notModified_etag rq s1 s2 I1 I2 E) as Hn. split; [done|].
  intros Hid%Hn ts use q ty keys out1 out2 H1 H2. rewrite I1, I2 in Hid.
  destruct (compute_id_content _ _ s1 s2 A1 A2 Hid) as [Hc|]; [|by left]. apply (snapshot_content_equiv _ _) in Hc.
  apply Filter_keys in H1 as (all1 & H1 & ->), H2 as (all2 & H2 & ->).
  pose proof (Filter_keyed _ _ _ _ _ _ _ K1 H1) as C1. pose proof (Filter_keyed _ _ _ _ _ _ _ K2 H2) as C2.
  destruct (seen_perm all1 all2 C1 C2) as [|Hp]; [by eapply filter_equiv|by left|right]. fold seen.
  rewrite !seen_filter by done. by apply List_filter_perm.
Qed.

Lemma tally_from ts acc :
  foldl tally acc ts =
  mkRefreshTerritories
    (rt_OK acc + Z.of_nat (length (filter (fun t => t_Failed t = false /\ t_CarriedOver t = false) ts)))
    (rt_Failed acc ++ (t_Code <$> filter (fun t => t_Failed t = true) ts))
    (rt_CarriedOver acc ++ (t_Code <$> filter (fun t => t_Failed t = false /\ t_CarriedOver t = true) ts)).
Proof.
  revert acc. induction ts as [|t ts IH]; intros acc.
  { simpl. rewrite Z.add_0_r, !app_nil_r. by destruct acc. }
  simpl. rewrite IH, !filter_cons. unfold tally. destruct (t_Failed t) eqn:Ef, (t_CarriedOver t) eqn:Ec; simpl;
    repeat (rewrite decide_True by tauto || rewrite decide_False by naive_solver); csimpl;
    rewrite <-?app_assoc; f_equal; lia.
Qed.

(** The refresh report accounts for every territory exactly once: with a cycle
    that completed, the failed and the carried-over codes are listed in order, the
    rest are counted as ok, and the three add up; with one that failed there is no
    summary; either way the id is the served one. *)
Theorem refresh_report_exact served changed dc dco derr cycleErr :
  let r := NewRefresh served changed dc dco derr cycleErr in
  rr_Snapshot r = s_ID served /\ (rc_OK (rr_Cycle r) = true <-> cycleErr = None) /\
  match rc_Territories (rr_Cycle r) with
  | None => exists e, cycleErr = Some e /\ rc_Error (rr_Cycle r) = err_Error e
  | Some ts => cycleErr = None /\
      rt_Failed ts = (t_Code <$> filter (fun t => t_Failed t = true) (s_Territories served)) /\
      rt_CarriedOver ts = (t_Code <$> filter (fun t => t_Failed t = false /\ t_CarriedOver t = true) (s_Territories served)) /\
      rt_OK ts + Z.of_nat (length (rt_Failed ts)) + Z.of_nat (length (rt_CarriedOver ts)) =
        Z.of_nat (length (s_Territories served))
  end.
Proof.
  unfold NewRefresh. destruct cycleErr as [e|]; simpl; [split_and!; [done|done|eauto]|].
  rewrite tally_from. simpl. split_and!; [done..|]. rewrite !length_fmap.
  induction (s_Territories served) as [|t ts IH]; [done|]. rewrite !filter_cons.
  destruct (t_Failed t) eqn:Ef, (t_CarriedOver t) eqn:Ec;
    repeat (rewrite decide_True by tauto || rewrite decide_False by naive_solver); simpl; lia.
Qed.

(** A request without the admin scope changes nothing: both governance routes
    answer 403 and leave what is served, the bootstrap, the store, the pending
    trigger and the gauges as they were; the only trace is the denial event. *)
Theorem admin_routes_guarded {X : X509} {SO : GoSort} {RA : GoRange} {N : Net} {CO : Codec} {FI : Files} {YA : Yaml}
    {RF : Refresher} {St : Type} {ST : Store St} rq fp (m : Manager St) :
  rq_HasScope rq "admin" = false ->
  exists m', approvePending fp rq m = Some (RespondError [] ForbiddenError, m') /\
    refresh rq m = Some (RespondError [] ForbiddenError, m') /\
    m_active m' = m_active m /\ m_bootstrap m' = m_bootstrap m /\ m_store m' = m_store m /\
    m_kick m' = m_kick m /\ m_gauges m' = m_gauges m /\ m_log m' = m_log m /\
    w_events (m_world m') = w_events (m_world m) ++ [EvAuthzDenied "trust:admin" (rq_UserID rq) (rq_Path rq)].
Proof.
  intros Hs. unfold approvePending, refresh, requireScope. rewrite Hs. eexists. split_and!; reflexivity.
Qed.

(** ** On samples *)

Definition sample_request (etag : string) : HttpRequest :=
  mkHttpRequest (fun level => str_eqb level "read") "svc" "/v1/anchors" etag ["de"] (Some "signature") None
    (Ok None) (Some "all").

(** An anchor described from its certificate. *)
Definition sample_keyed (der : bytes) : Anchor :=
  mkAnchor "DE" SourceTL "TSP" "Service" "" "granted" 5 der (@fingerprintDER toy_X509 der) ("CN=" +:+ der) 1 2000
    [] false [] "" "" "" [] 7.

Definition sample_s1 : Snapshot :=
  @ComputeID toy_X509 merge_GoSort (sample_snapshot "" [sample_territory "DE" [sample_keyed "X"; sample_keyed "Y"]] []).
(** The same content, generated later. *)
Definition sample_s2 : Snapshot := set_s_GeneratedAt sample_s1 999.

Lemma sample_failed_empty ts :
  forallb (fun t => negb (t_Failed t)) ts = true -> forall t, t ∈ ts -> t_Failed t = true -> t_Anchors t = [].
Proof.
  intros H t Ht Hf. apply list_elem_of_In in Ht. rewrite List.forallb_forall in H. apply H in Ht. by rewrite Hf in Ht.
Qed.

Lemma keyed_checked `{X509, Asn1} s :
  forallb (fun a => str_eqb (a_FingerprintSHA256 a) (fingerprintDER (a_CertDER a)) &&
    bool_decide ((a_KeyAlgorithm a, a_Curve a) = spkiAlgorithm (a_CertDER a)))
    (flat_map t_Anchors (s_Territories s) ++ s_Internal s) = true -> keyed s.
Proof.
  intros Hall a Ha. rewrite List.forallb_forall in Hall. specialize (Hall a).
  rewrite <-list_elem_of_In, elem_of_app, elem_of_flat_map, andb_true_iff, str_eqb_eq, bool_decide_eq_true in Hall.
  by apply Hall.
Qed.

Lemma not_modified_sound_witness :
  notModified (sample_request (quoted (s_ID sample_s1))) (s_ID sample_s2) = true.
Proof.
  apply (@not_modified_sound toy_X509 toy_Asn1 merge_GoSort toy_X509Laws (sample_request (quoted (s_ID sample_s1)))
    sample_s1 sample_s2).
  - vm_compute. reflexivity.
  - vm_compute. reflexivity.
  - refine (sample_failed_empty _ _). vm_compute. reflexivity.
  - refine (sample_failed_empty _ _). vm_compute. reflexivity.
  - apply keyed_checked. vm_compute. reflexivity.
  - apply keyed_checked. vm_compute. reflexivity.
  - vm_compute. reflexivity.
  - vm_compute. reflexivity.
  - reflexivity.
  - vm_compute. reflexivity.
Defined.

(** An empty manager on the in-memory store. *)
Definition sample_refresher : Refresher := {|
  rf_Refresh := fun _ _ w => (Err (errors_New "down"), w);
  rf_RefreshDeclared := fun _ _ w => (Ok None, DeclaredReport_zero, w) |}.

Definition sample_net : Net := {|
  url_Parse := fun _ => Err (errors_New "url"); url_Resolve := fun _ l => Ok l;
  http_RoundTrip := fun _ _ => HttpFailure (errors_New "down"); wall_clock := fun _ => 10 |}.

Lemma admin_routes_guarded_witness :
  exists m', @refresh list_GoRange sample_net sample_refresher Memory (@Memory_Store toy_Codec)
    (sample_request "") (NewManager NewMemory (mkWorld ∅ ∅ [] [] ∅ 0) []) =
    Some (RespondError [] ForbiddenError, m') /\ m_active m' = None.
Proof.
  destruct (@admin_routes_guarded toy_X509 merge_GoSort list_GoRange sample_net toy_Codec toy_Files toy_Yaml
    sample_refresher Memory (@Memory_Store toy_Codec) (sample_request "") "aa"
    (NewManager NewMemory (mkWorld ∅ ∅ [] [] ∅ 0) []) eq_refl) as (m' & _ & Hr & Ha & _).
  exists m'. split; [exact Hr|exact Ha].
Defined.
