(* ===== verification/Bodies.v ===== *)
(** * The bodies of the answers

    The JSON of [src/routes/response/response.go]: the struct tags of the answer
    types, field by field, on the mapping of Go values to JSON of [Wire].  What is
    modelled is the JSON value [ctx.JSON] is handed; how the framework lays it out
    as text is its own. *)

From S2P Require Import Prelude GoTime Model Base64 Json JsonText Wire Codec Filter Slices Internal Store.
From S2P Require Import Fetcher Telemetry Manager Routes Samples.

(** A slice that is not nil, written as an array also when it is empty; a slice that
    may be nil is [w_ptr] of it: [null] when it is. *)
Definition w_array {A} (W : wire A) : wire (list A) := {|
  w_zero := []; w_empty := fun l => match l with [] => true | _ => false end;
  w_ok := forallb (w_ok W);
  w_enc := fun l => let? js := map_result (w_enc W) l in Ok (JArr js);
  w_dec := w_dec (w_slice W) |}.

#[export] Instance w_array_laws {A} (W : wire A) `{!WireLaws W} : WireLaws (w_array W).
Proof.
  split; [|intros l j|by intros []].
  - intros l Ho. destruct l as [|a l]; [done|]. exact (w_slice_total W (a :: l) Ho).
  - destruct l as [|a l]; [intros _ [= <-]; split; [done|by intros v H; kept_as H; match goal with H : Forall2 _ [] _ |- _ => apply Forall2_nil_inv_l in H as -> end]|]. exact (wire_roundtrip (W := w_slice W) (a :: l) j).
Qed.

#[export] Instance w_array_nonnull {A} (W : wire A) : WireNonNull (w_array W).
Proof. intros l. simpl. by destruct (map_result _ _). Qed.

(** ** The answer types *)

Definition resp_anchors_zero : RespAnchors := mkRespAnchors "" 0 false None.

Definition resp_anchors_fields (x : RespAnchors) : list fspec :=
  [ fld "snapshot" w_string (ra_Snapshot x); fld "generatedAt" w_time (ra_GeneratedAt x);
    fld "stale" w_bool (ra_Stale x); fld "anchors" (w_ptr (w_array w_anchor)) (ra_Anchors x) ].

Definition w_resp_anchors : wire RespAnchors := {|
  w_zero := resp_anchors_zero; w_empty := fun _ => false;
  w_ok := fun x => struct_ok (resp_anchors_fields x); w_enc := fun x => struct_enc (resp_anchors_fields x);
  w_dec := dec_struct "response.Anchors" (fun kvs z =>
    let? v_snapshot := dec_field w_string "snapshot" kvs (ra_Snapshot z) in
    let? v_generatedAt := dec_field w_time "generatedAt" kvs (ra_GeneratedAt z) in
    let? v_stale := dec_field w_bool "stale" kvs (ra_Stale z) in
    let? v_anchors := dec_field (w_ptr (w_array w_anchor)) "anchors" kvs (ra_Anchors z) in
    Ok (mkRespAnchors v_snapshot v_generatedAt v_stale v_anchors)) |}.

#[export] Instance w_resp_anchors_laws : WireLaws w_resp_anchors.
Proof. split; [struct_total w_resp_anchors resp_anchors_fields|struct_roundtrip w_resp_anchors resp_anchors_fields|done]. Qed.

Definition territory_summary_zero : TerritorySummary :=
  mkTerritorySummary "" 0 0 None false false "" false "" 0 0 [] 0.

Definition territory_summary_fields (x : TerritorySummary) : list fspec :=
  [ fld "code" w_string (ts_Code x); fld "tlSequence" w_uint64 (ts_TLSequence x);
    fld "issueTime" w_time (ts_IssueTime x); fldo "nextUpdate" (w_ptr w_time) (ts_NextUpdate x);
    fld "stale" w_bool (ts_Stale x); fldo "carriedOver" w_bool (ts_CarriedOver x);
    fldo "carriedOverReason" w_string (ts_CarriedOverReason x); fldo "failed" w_bool (ts_Failed x);
    fldo "failureReason" w_string (ts_FailureReason x); fld "anchorCount" w_int (ts_AnchorCount x);
    fld "skippedCount" w_int (ts_SkippedCount x); fldo "skipped" (w_slice w_skipped) (ts_Skipped x);
    fld "heldCount" w_int (ts_HeldCount x) ].

Definition w_territory_summary : wire TerritorySummary := {|
  w_zero := territory_summary_zero; w_empty := fun _ => false;
  w_ok := fun x => struct_ok (territory_summary_fields x); w_enc := fun x => struct_enc (territory_summary_fields x);
  w_dec := dec_struct "response.TerritorySummary" (fun kvs z =>
    let? v_code := dec_field w_string "code" kvs (ts_Code z) in
    let? v_tlSequence := dec_field w_uint64 "tlSequence" kvs (ts_TLSequence z) in
    let? v_issueTime := dec_field w_time "issueTime" kvs (ts_IssueTime z) in
    let? v_nextUpdate := dec_field (w_ptr w_time) "nextUpdate" kvs (ts_NextUpdate z) in
    let? v_stale := dec_field w_bool "stale" kvs (ts_Stale z) in
    let? v_carriedOver := dec_field w_bool "carriedOver" kvs (ts_CarriedOver z) in
    let? v_carriedOverReason := dec_field w_string "carriedOverReason" kvs (ts_CarriedOverReason z) in
    let? v_failed := dec_field w_bool "failed" kvs (ts_Failed z) in
    let? v_failureReason := dec_field w_string "failureReason" kvs (ts_FailureReason z) in
    let? v_anchorCount := dec_field w_int "anchorCount" kvs (ts_AnchorCount z) in
    let? v_skippedCount := dec_field w_int "skippedCount" kvs (ts_SkippedCount z) in
    let? v_skipped := dec_field (w_slice w_skipped) "skipped" kvs (ts_Skipped z) in
    let? v_heldCount := dec_field w_int "heldCount" kvs (ts_HeldCount z) in
    Ok (mkTerritorySummary v_code v_tlSequence v_issueTime v_nextUpdate v_stale v_carriedOver v_carriedOverReason v_failed v_failureReason v_anchorCount v_skippedCount v_skipped v_heldCount)) |}.

#[export] Instance w_territory_summary_laws : WireLaws w_territory_summary.
Proof. split; [struct_total w_territory_summary territory_summary_fields|struct_roundtrip w_territory_summary territory_summary_fields|done]. Qed.

(** [Bootstrap.Fingerprints] makes its slice, so it is never nil. *)
Definition bootstrap_summary_zero : BootstrapSummary := mkBootstrapSummary 0 "" 0 [] false.

Definition bootstrap_summary_fields (x : BootstrapSummary) : list fspec :=
  [ fld "version" w_int (bs_Version x); fld "ojReference" w_string (bs_OJReference x);
    fld "activatedAt" w_time (bs_ActivatedAt x); fld "fingerprints" (w_array w_string) (bs_Fingerprints x);
    fldo "seeded" w_bool (bs_Seeded x) ].

Definition w_bootstrap_summary : wire BootstrapSummary := {|
  w_zero := bootstrap_summary_zero; w_empty := fun _ => false;
  w_ok := fun x => struct_ok (bootstrap_summary_fields x); w_enc := fun x => struct_enc (bootstrap_summary_fields x);
  w_dec := dec_struct "response.BootstrapSummary" (fun kvs z =>
    let? v_version := dec_field w_int "version" kvs (bs_Version z) in
    let? v_ojReference := dec_field w_string "ojReference" kvs (bs_OJReference z) in
    let? v_activatedAt := dec_field w_time "activatedAt" kvs (bs_ActivatedAt z) in
    let? v_fingerprints := dec_field (w_array w_string) "fingerprints" kvs (bs_Fingerprints z) in
    let? v_seeded := dec_field w_bool "seeded" kvs (bs_Seeded z) in
    Ok (mkBootstrapSummary v_version v_ojReference v_activatedAt v_fingerprints v_seeded)) |}.

#[export] Instance w_bootstrap_summary_laws : WireLaws w_bootstrap_summary.
Proof. split; [struct_total w_bootstrap_summary bootstrap_summary_fields|struct_roundtrip w_bootstrap_summary bootstrap_summary_fields|done]. Qed.

#[export] Instance w_bootstrap_summary_nonnull : WireNonNull w_bootstrap_summary.
Proof. intros a. apply struct_enc_nonnull. Qed.

Definition resp_snapshot_zero : RespSnapshot := mkRespSnapshot "" "" 0 0 0 None 0 "" [] 0 None [] None.

Definition resp_snapshot_fields (x : RespSnapshot) : list fspec :=
  [ fld "id" w_string (rn_ID x); fldo "prevId" w_string (rn_PrevID x);
    fld "generatedAt" w_time (rn_GeneratedAt x); fld "lotlSequence" w_uint64 (rn_LOTLSequence x);
    fld "lotlIssueTime" w_time (rn_LOTLIssueTime x); fldo "lotlNextUpdate" (w_ptr w_time) (rn_LOTLNextUpdate x);
    fld "lotlPivotSeq" w_uint64 (rn_LOTLPivotSeq x); fldo "advertisedOj" w_string (rn_AdvertisedOJ x);
    fld "territories" (w_slice w_territory_summary) (rn_Territories x); fld "internalCount" w_int (rn_InternalCount x);
    fldo "diff" (w_ptr w_diff) (rn_Diff x); fldo "pending" (w_slice w_pending) (rn_Pending x);
    fldo "bootstrap" (w_ptr w_bootstrap_summary) (rn_Bootstrap x) ].

Definition w_resp_snapshot : wire RespSnapshot := {|
  w_zero := resp_snapshot_zero; w_empty := fun _ => false;
  w_ok := fun x => struct_ok (resp_snapshot_fields x); w_enc := fun x => struct_enc (resp_snapshot_fields x);
  w_dec := dec_struct "response.Snapshot" (fun kvs z =>
    let? v_id := dec_field w_string "id" kvs (rn_ID z) in
    let? v_prevId := dec_field w_string "prevId" kvs (rn_PrevID z) in
    let? v_generatedAt := dec_field w_time "generatedAt" kvs (rn_GeneratedAt z) in
    let? v_lotlSequence := dec_field w_uint64 "lotlSequence" kvs (rn_LOTLSequence z) in
    let? v_lotlIssueTime := dec_field w_time "lotlIssueTime" kvs (rn_LOTLIssueTime z) in
    let? v_lotlNextUpdate := dec_field (w_ptr w_time) "lotlNextUpdate" kvs (rn_LOTLNextUpdate z) in
    let? v_lotlPivotSeq := dec_field w_uint64 "lotlPivotSeq" kvs (rn_LOTLPivotSeq z) in
    let? v_advertisedOj := dec_field w_string "advertisedOj" kvs (rn_AdvertisedOJ z) in
    let? v_territories := dec_field (w_slice w_territory_summary) "territories" kvs (rn_Territories z) in
    let? v_internalCount := dec_field w_int "internalCount" kvs (rn_InternalCount z) in
    let? v_diff := dec_field (w_ptr w_diff) "diff" kvs (rn_Diff z) in
    let? v_pending := dec_field (w_slice w_pending) "pending" kvs (rn_Pending z) in
    let? v_bootstrap := dec_field (w_ptr w_bootstrap_summary) "bootstrap" kvs (rn_Bootstrap z) in
    Ok (mkRespSnapshot v_id v_prevId v_generatedAt v_lotlSequence v_lotlIssueTime v_lotlNextUpdate v_lotlPivotSeq v_advertisedOj v_territories v_internalCount v_diff v_pending v_bootstrap)) |}.

#[export] Instance w_resp_snapshot_laws : WireLaws w_resp_snapshot.
Proof. split; [struct_total w_resp_snapshot resp_snapshot_fields|struct_roundtrip w_resp_snapshot resp_snapshot_fields|done]. Qed.

Definition refresh_territories_zero : RefreshTerritories := mkRefreshTerritories 0 [] [].

Definition refresh_territories_fields (x : RefreshTerritories) : list fspec :=
  [ fld "ok" w_int (rt_OK x); fldo "failed" (w_slice w_string) (rt_Failed x);
    fldo "carriedOver" (w_slice w_string) (rt_CarriedOver x) ].

Definition w_refresh_territories : wire RefreshTerritories := {|
  w_zero := refresh_territories_zero; w_empty := fun _ => false;
  w_ok := fun x => struct_ok (refresh_territories_fields x); w_enc := fun x => struct_enc (refresh_territories_fields x);
  w_dec := dec_struct "response.RefreshTerritories" (fun kvs z =>
    let? v_ok := dec_field w_int "ok" kvs (rt_OK z) in
    let? v_failed := dec_field (w_slice w_string) "failed" kvs (rt_Failed z) in
    let? v_carriedOver := dec_field (w_slice w_string) "carriedOver" kvs (rt_CarriedOver z) in
    Ok (mkRefreshTerritories v_ok v_failed v_carriedOver)) |}.

#[export] Instance w_refresh_territories_laws : WireLaws w_refresh_territories.
Proof. split; [struct_total w_refresh_territories refresh_territories_fields|struct_roundtrip w_refresh_territories refresh_territories_fields|done]. Qed.

#[export] Instance w_refresh_territories_nonnull : WireNonNull w_refresh_territories.
Proof. intros a. apply struct_enc_nonnull. Qed.

Definition refresh_declared_zero : RefreshDeclared := mkRefreshDeclared false false "".

Definition refresh_declared_fields (x : RefreshDeclared) : list fspec :=
  [ fld "changed" w_bool (rd_Changed x); fldo "carriedOver" w_bool (rd_CarriedOver x);
    fldo "error" w_string (rd_Error x) ].

Definition w_refresh_declared : wire RefreshDeclared := {|
  w_zero := refresh_declared_zero; w_empty := fun _ => false;
  w_ok := fun x => struct_ok (refresh_declared_fields x); w_enc := fun x => struct_enc (refresh_declared_fields x);
  w_dec := dec_struct "response.RefreshDeclared" (fun kvs z =>
    let? v_changed := dec_field w_bool "changed" kvs (rd_Changed z) in
    let? v_carriedOver := dec_field w_bool "carriedOver" kvs (rd_CarriedOver z) in
    let? v_error := dec_field w_string "error" kvs (rd_Error z) in
    Ok (mkRefreshDeclared v_changed v_carriedOver v_error)) |}.

#[export] Instance w_refresh_declared_laws : WireLaws w_refresh_declared.
Proof. split; [struct_total w_refresh_declared refresh_declared_fields|struct_roundtrip w_refresh_declared refresh_declared_fields|done]. Qed.

Definition refresh_cycle_zero : RefreshCycle := mkRefreshCycle false "" None.

Definition refresh_cycle_fields (x : RefreshCycle) : list fspec :=
  [ fld "ok" w_bool (rc_OK x); fldo "error" w_string (rc_Error x);
    fldo "territories" (w_ptr w_refresh_territories) (rc_Territories x) ].

Definition w_refresh_cycle : wire RefreshCycle := {|
  w_zero := refresh_cycle_zero; w_empty := fun _ => false;
  w_ok := fun x => struct_ok (refresh_cycle_fields x); w_enc := fun x => struct_enc (refresh_cycle_fields x);
  w_dec := dec_struct "response.RefreshCycle" (fun kvs z =>
    let? v_ok := dec_field w_bool "ok" kvs (rc_OK z) in
    let? v_error := dec_field w_string "error" kvs (rc_Error z) in
    let? v_territories := dec_field (w_ptr w_refresh_territories) "territories" kvs (rc_Territories z) in
    Ok (mkRefreshCycle v_ok v_error v_territories)) |}.

#[export] Instance w_refresh_cycle_laws : WireLaws w_refresh_cycle.
Proof. split; [struct_total w_refresh_cycle refresh_cycle_fields|struct_roundtrip w_refresh_cycle refresh_cycle_fields|done]. Qed.

Definition resp_refresh_zero : RespRefresh := mkRespRefresh "" false refresh_declared_zero refresh_cycle_zero.

Definition resp_refresh_fields (x : RespRefresh) : list fspec :=
  [ fld "snapshot" w_string (rr_Snapshot x); fld "changed" w_bool (rr_Changed x);
    fld "declared" w_refresh_declared (rr_Declared x); fld "cycle" w_refresh_cycle (rr_Cycle x) ].

Definition w_resp_refresh : wire RespRefresh := {|
  w_zero := resp_refresh_zero; w_empty := fun _ => false;
  w_ok := fun x => struct_ok (resp_refresh_fields x); w_enc := fun x => struct_enc (resp_refresh_fields x);
  w_dec := dec_struct "response.Refresh" (fun kvs z =>
    let? v_snapshot := dec_field w_string "snapshot" kvs (rr_Snapshot z) in
    let? v_changed := dec_field w_bool "changed" kvs (rr_Changed z) in
    let? v_declared := dec_field w_refresh_declared "declared" kvs (rr_Declared z) in
    let? v_cycle := dec_field w_refresh_cycle "cycle" kvs (rr_Cycle z) in
    Ok (mkRespRefresh v_snapshot v_changed v_declared v_cycle)) |}.

#[export] Instance w_resp_refresh_laws : WireLaws w_resp_refresh.
Proof. split; [struct_total w_resp_refresh resp_refresh_fields|struct_roundtrip w_resp_refresh resp_refresh_fields|done]. Qed.

Definition approved_zero : string * string := ("", "").

Definition approved_fields (x : (string * string)) : list fspec :=
  [ fldo "snapshot" w_string (fst x); fldo "fingerprint" w_string (snd x) ].

Definition w_approved : wire (string * string) := {|
  w_zero := approved_zero; w_empty := fun _ => false;
  w_ok := fun x => struct_ok (approved_fields x); w_enc := fun x => struct_enc (approved_fields x);
  w_dec := dec_struct "response.Approved" (fun kvs z =>
    let? v_snapshot := dec_field w_string "snapshot" kvs (fst z) in
    let? v_fingerprint := dec_field w_string "fingerprint" kvs (snd z) in
    Ok (pair v_snapshot v_fingerprint)) |}.

#[export] Instance w_approved_laws : WireLaws w_approved.
Proof. split; [struct_total w_approved approved_fields|struct_roundtrip w_approved approved_fields|done]. Qed.

(** [ctx.JSON] on the body of an answer; the other bodies are not JSON. *)
Definition body_JSON (b : Body) : option (result json) :=
  match b with
  | BodyAnchors a => Some (w_enc w_resp_anchors a)
  | BodySnapshot s => Some (w_enc w_resp_snapshot s)
  | BodyRefresh r => Some (w_enc w_resp_refresh r)
  | BodyApproved snapshot fingerprint => Some (w_enc w_approved (snapshot, fingerprint))
  | BodyText _ | BodyPEM _ => None
  end.

(** * Lemmas *)

(** Opens the conditions on the fields of a struct. *)
Ltac fields_of H := unfold struct_ok in H; cbn [forallb fld fldo fs_ok] in H; rewrite !andb_true_iff in H; destruct_and? H.
Ltac to_fields := unfold struct_ok; cbn [forallb fld fldo fs_ok]; rewrite !andb_true_iff; split_and!; try done.

(** Counts that a Go [int] holds. *)
Definition int_count {A} (l : list A) : bool := Z.of_nat (length l) <? 2 ^ 63.
Definition snapshot_countable (s : Snapshot) : bool :=
  int_count (s_Internal s) && int_count (s_Territories s) &&
  forallb (fun t => int_count (t_Anchors t) && int_count (t_Skipped t)) (s_Territories s).

Lemma int_count_ok {A} (l : list A) n : int_count l = true -> 0 <= n <= Z.of_nat (length l) -> w_ok w_int n = true.
Proof. unfold int_count. simpl. unfold in_width. rewrite Z.ltb_lt, andb_true_iff, Z.leb_le, Z.ltb_lt. lia. Qed.

Lemma hex_utf8 b : utf8_valid (hex_EncodeToString b) = true.
Proof.
  apply ascii_only_valid. unfold hex_EncodeToString. induction b as [|c b IH]; [done|]. simpl.
  change (ascii_only (hex_byte c +:+ str_flat_map hex_byte b) = true). rewrite ascii_only_app, IH.
  by destruct c as [[] [] [] [] [] [] [] []].
Qed.

Lemma heldCount_bounds l : 0 <= heldCount l <= Z.of_nat (length l).
Proof.
  unfold heldCount. assert (H : forall n, n <= foldl (fun n a => if negb (KeyCommon a) then n + 1 else n) n l <= n + Z.of_nat (length l)).
  { induction l as [|a l IH]; intros n; simpl; [lia|]. specialize (IH (if negb (KeyCommon a) then n + 1 else n)).
    destruct (negb (KeyCommon a)); lia. }
  specialize (H 0). lia.
Qed.

Lemma storable_territory s t :
  snapshot_storable s = true -> t ∈ s_Territories s -> struct_ok (territory_fields t) = true.
Proof.
  unfold snapshot_storable. cbn [w_ok w_snapshot]. unfold snapshot_fields, struct_ok.
  cbn [forallb fld fldo fs_ok stored s_Territories]. rewrite !andb_true_iff. intros H Ht. destruct_and? H.
  match goal with H : w_ok (w_slice (w_elem w_territory)) _ = true |- _ =>
    cbn [w_ok w_slice w_elem] in H; rewrite List.forallb_forall in H; apply H end. by apply list_elem_of_In.
Qed.

Lemma storable_anchor s a :
  snapshot_storable s = true -> (exists t, t ∈ s_Territories s /\ a ∈ t_Anchors t) \/ a ∈ s_Internal s ->
  w_ok w_anchor a = true.
Proof.
  intros Hs [(t & Ht & Ha)|Ha].
  - pose proof (storable_territory s t Hs Ht) as H. unfold territory_fields in H. fields_of H.
    match goal with H : w_ok (w_slice w_anchor) _ = true |- _ => cbn [w_ok w_slice] in H; rewrite List.forallb_forall in H; apply H end.
    by apply list_elem_of_In.
  - unfold snapshot_storable in Hs. cbn [w_ok w_snapshot] in Hs. unfold snapshot_fields in Hs.
    apply andb_true_iff in Hs as [_ Hs]. fields_of Hs.
    match goal with H : w_ok (w_slice w_anchor) _ = true |- _ => cbn [w_ok w_slice] in H; rewrite List.forallb_forall in H; apply H end.
    by apply list_elem_of_In.
Qed.

(** ** The answers are in the domain *)

Lemma anchors_body_ok s ts use q ty keys out st :
  snapshot_storable s = true -> Filter s ts use q ty keys = Ok out -> w_ok w_resp_anchors (NewAnchors s (appended out) st) = true.
Proof.
  intros Hs Hf. pose proof Hs as Hs'. unfold snapshot_storable in Hs'. cbn [w_ok w_snapshot] in Hs'.
  apply andb_true_iff in Hs' as [_ Hs']. unfold snapshot_fields in Hs'. fields_of Hs'.
  cbn [w_ok w_resp_anchors]. unfold resp_anchors_fields. to_fields. destruct out as [|x out]; [done|].
  set (l := x :: out) in *. cbn [NewAnchors appended ra_Anchors w_ok w_ptr from_option w_array]. apply List.forallb_forall.
  intros a Ha%list_elem_of_In. apply (storable_anchor s); [done|].
  apply (Filter_elem _ _ _ _ _ _ _ a Hf) in Ha as [[(t & ? & _ & ?)|?] _]; eauto.
Qed.

Lemma summary_ok s t now grace :
  snapshot_storable s = true -> snapshot_countable s = true -> t ∈ s_Territories s ->
  w_ok w_territory_summary (territory_summary now grace t) = true.
Proof.
  intros Hs Hc Ht. pose proof (storable_territory s t Hs Ht) as H. unfold territory_fields in H. fields_of H.
  unfold snapshot_countable in Hc. apply andb_true_iff in Hc as [_ Hc]. rewrite List.forallb_forall in Hc.
  apply list_elem_of_In, Hc, andb_true_iff in Ht as [Ha Hk].
  cbn [w_ok w_territory_summary]. unfold territory_summary_fields, territory_summary. to_fields; simpl.
  - apply (int_count_ok _ _ Ha). lia.
  - apply (int_count_ok _ _ Hk). lia.
  - apply (int_count_ok _ _ Ha). apply heldCount_bounds.
Qed.

Lemma snapshot_body_ok `{X509, GoSort} s boot now grace :
  snapshot_storable s = true -> snapshot_countable s = true -> from_option bootstrap_storable true boot = true ->
  w_ok w_resp_snapshot (NewSnapshot s boot now grace) = true.
Proof.
  intros Hs Hc Hb. pose proof Hs as Hs'. unfold snapshot_storable in Hs'. cbn [w_ok w_snapshot] in Hs'.
  apply andb_true_iff in Hs' as [_ Hs']. unfold snapshot_fields in Hs'. fields_of Hs'.
  cbn [w_ok w_resp_snapshot]. unfold resp_snapshot_fields, NewSnapshot. to_fields; simpl.
  - apply List.forallb_forall. intros x Hx%list_elem_of_In. apply list_elem_of_fmap in Hx as (t & -> & Ht).
    by apply (summary_ok s).
  - unfold snapshot_countable in Hc. rewrite !andb_true_iff in Hc. destruct Hc as [[Hi _] _]. apply (int_count_ok _ _ Hi). lia.
  - destruct boot as [b|]; [|done]. simpl in Hb. unfold bootstrap_storable in Hb. cbn [w_ok w_bootstrap] in Hb.
    unfold bootstrap_fields in Hb. fields_of Hb. simpl. unfold bootstrap_summary_fields. to_fields. simpl.
    apply List.forallb_forall. intros x Hx%list_elem_of_In. unfold Bootstrap_Fingerprints, sort_Strings in Hx.
    rewrite sort_Slice_perm in Hx. apply list_elem_of_fmap in Hx as (der & -> & _). apply hex_utf8.
Qed.

Lemma refresh_body_ok s changed dc dco derr cycleErr :
  snapshot_storable s = true -> snapshot_countable s = true -> utf8_valid derr = true ->
  from_option (fun e => utf8_valid (err_Error e)) true cycleErr = true ->
  w_ok w_resp_refresh (NewRefresh s changed dc dco derr cycleErr) = true.
Proof.
  intros Hs Hc Hd He. pose proof Hs as Hs'. unfold snapshot_storable in Hs'. cbn [w_ok w_snapshot] in Hs'.
  apply andb_true_iff in Hs' as [_ Hs']. unfold snapshot_fields in Hs'. fields_of Hs'.
  assert (Hcode : forall t, t ∈ s_Territories s -> utf8_valid (t_Code t) = true).
  { intros t Ht. pose proof (storable_territory s t Hs Ht) as Hf. unfold territory_fields in Hf. by fields_of Hf. }
  unfold snapshot_countable in Hc. rewrite !andb_true_iff in Hc. destruct Hc as [[_ Hn] _].
  cbn [w_ok w_resp_refresh]. unfold resp_refresh_fields, NewRefresh.
  destruct cycleErr as [e|]; to_fields; cbn [w_ok w_refresh_declared w_refresh_cycle rr_Declared rr_Cycle];
    unfold refresh_declared_fields, refresh_cycle_fields; to_fields.
  cbn [rc_Territories w_ok w_ptr from_option w_refresh_territories]. unfold refresh_territories_fields. rewrite tally_from. to_fields; simpl.
  - apply (int_count_ok _ _ Hn). pose proof (length_filter (fun t => t_Failed t = false /\ t_CarriedOver t = false) (s_Territories s)). lia.
  - apply List.forallb_forall. intros c Hin%list_elem_of_In. apply list_elem_of_fmap in Hin as (t & -> & [_ Ht]%list_elem_of_filter). auto.
  - apply List.forallb_forall. intros c Hin%list_elem_of_In. apply list_elem_of_fmap in Hin as (t & -> & [_ Ht]%list_elem_of_filter). auto.
Qed.

(** What can be written can be read back. *)
Lemma written_reads {A} (W : wire A) `{!WireLaws W} a :
  w_ok W a = true -> exists j, w_enc W a = Ok j /\ w_dec W j (w_zero W) = Ok a.
Proof.
  intros Ho. pose proof (wire_total a Ho) as Ht. destruct (w_enc W a) as [j|] eqn:E; [|done]. exists j.
  split; [done|]. destruct (wire_roundtrip a j Ho E) as [_ Hd]. apply Hd, keeps_value_refl.
Qed.

Lemma approved_ok id fp : utf8_valid id = true -> utf8_valid fp = true -> w_ok w_approved (id, fp) = true.
Proof. intros H1 H2. cbn [w_ok w_approved]. unfold approved_fields. by to_fields. Qed.

(** An approval answers with the id of the snapshot it made, a digest. *)
Lemma approved_body {X : X509} {SO : GoSort} {RA : GoRange} {N : Net} {CO : Codec} {St : Type} {ST : Store St}
    fp rq (m : Manager St) h b m' :
  approvePending fp rq m = Some (Respond 200 h (Some b), m') ->
  exists s, m_active m' = Some s /\ utf8_valid (s_ID s) = true /\ b = BodyApproved (s_ID s) fp.
Proof.
  unfold approvePending, requireScope. destruct (rq_HasScope rq "admin"); [|done].
  unfold ApprovePending. destruct (m_active m) as [cur|]; [|done]. destruct (list_find _ _) as [[idx pa]|]; [|done].
  destruct (cloneSnapshot cur) as [clone|]; [|done]. destruct (s_Pending clone !! idx) as [pa'|]; [|done].
  destruct (save _ m) as [[[]|e] m1]; [|done]. intros [= _ <- <-]. eexists. split; [done|]. split; [|done]. apply hex_utf8.
Qed.

(** The list of a bundle is an array of one entry per anchor. *)
Lemma anchors_body_array a l j :
  ra_Anchors a = Some l -> w_enc w_resp_anchors a = Ok j ->
  exists kvs js, j = JObj kvs /\ ("anchors", JArr js) ∈ kvs /\ length js = length l.
Proof.
  intros Hl. cbn [w_enc w_resp_anchors]. intros (es & -> & H)%struct_enc_Ok. unfold resp_anchors_fields in H.
  do 4 (let e := fresh "e" in let r := fresh "r" in let He := fresh "He" in apply Forall2_cons_inv_l in H as (e & r & He & H & ->)).
  apply Forall2_nil_inv_l in H as ->. cbn [fld fs_entry] in He2. rewrite Hl in He2. simpl in He2.
  destruct (map_result _ l) as [js|] eqn:Em; [|done]. injection He2 as <-. eexists _, js. split; [done|]. split.
  - unfold emit. apply list_elem_of_omap. exists ("anchors", Some (JArr js)). split; [|done]. by do 3 apply list_elem_of_further; apply list_elem_of_here.
  - apply map_result_Ok, Forall2_length in Em. done.
Qed.

Lemma NewAnchors_some s out st : NewAnchors s (appended out) st = mkRespAnchors (s_ID s) (s_GeneratedAt s) st (Some out).
Proof. by destruct out. Qed.

(** * Properties *)

(** C14 A client gets what the service holds.  When the snapshot answered from and
    the bootstrap are such as the store can hold (texts valid UTF-8, times in the years
    JSON has, numbers in their widths) and the counts fit a Go int, the JSON of each of
    the four answers can be written, and a client that reads it by the documented field
    names gets exactly what the handler answers with: from [/v1/anchors.json] the id,
    the time and the stale flag and, in an array that is never null - an empty bundle is
    an empty array -, one entry for each anchor the filter selects, with every field of
    it, the certificate to the byte; from [/v1/snapshot] the whole summary; from
    [/v1/refresh] the report of the refresh; from an approval the id of the snapshot now
    served and the fingerprint (when these texts are valid UTF-8 too). *)
Theorem api_bodies_exact {X : X509} {SO : GoSort} {RA : GoRange} {N : Net} {CO : Codec} {FI : Files} {YA : Yaml}
    {RF : Refresher} {St : Type} {ST : Store St} now grace rq (m : Manager St) snap :
  m_active m = Some snap -> snapshot_storable snap = true -> snapshot_countable snap = true ->
  from_option bootstrap_storable true (m_bootstrap m) = true ->
  (forall h b m', anchorsJSON now grace rq m = Some (Respond 200 h (Some b), m') ->
     exists q out kvs js, bundleQuery rq = inl q /\
       Filter snap (bq_territories q) (bq_use q) (bq_qscdOnly q) (bq_type q) (bq_keys q) = Ok out /\
       body_JSON b = Some (Ok (JObj kvs)) /\
       w_dec w_resp_anchors (JObj kvs) resp_anchors_zero =
         Ok (mkRespAnchors (s_ID snap) (s_GeneratedAt snap) (stale snap (bq_territories q) now grace) (Some out)) /\
       ("anchors", JArr js) ∈ kvs /\ length js = length out) /\
  (forall h b m', snapshot now grace rq m = Some (Respond 200 h (Some b), m') ->
     exists j, body_JSON b = Some (Ok j) /\
       w_dec w_resp_snapshot j resp_snapshot_zero = Ok (NewSnapshot snap (m_bootstrap m) now grace)) /\
  (forall h b m', refresh rq m = Some (Respond 200 h (Some b), m') ->
     exists out s, Refresh m = Some (out, m') /\ ro_Snapshot out = Some s /\
       let r := NewRefresh s (ro_Changed out) (ro_DeclaredChanged out) (ds_CarriedOver (ro_Declared out))
                  (ds_Error (ro_Declared out)) (ro_CycleErr out) in
       (snapshot_storable s = true -> snapshot_countable s = true -> utf8_valid (ds_Error (ro_Declared out)) = true ->
        from_option (fun e => utf8_valid (err_Error e)) true (ro_CycleErr out) = true ->
        exists j, body_JSON b = Some (Ok j) /\ w_dec w_resp_refresh j resp_refresh_zero = Ok r)) /\
  (forall fp h b m', approvePending fp rq m = Some (Respond 200 h (Some b), m') -> utf8_valid fp = true ->
     exists s j, m_active m' = Some s /\ body_JSON b = Some (Ok j) /\
       w_dec w_approved j approved_zero = Ok (s_ID s, fp)).
Proof.
  intros Ha Hs Hc Hb. split_and!.
  - intros h b m'. unfold anchorsJSON, requireScope, bundle. rewrite Ha. destruct (rq_HasScope rq "read"); [|done].
    destruct (bundleQuery rq) as [q|e]; [|done]. destruct (notModified _ _); [done|].
    destruct (Filter _ _ _ _ _ _) as [out|e] eqn:Ef; [|done]. intros [= _ <- _].
    destruct (written_reads w_resp_anchors _ (anchors_body_ok snap _ _ _ _ _ out (stale snap (bq_territories q) now grace) Hs Ef))
      as (j & Hj & Hd). rewrite NewAnchors_some in Hd.
    destruct (anchors_body_array _ out j (f_equal ra_Anchors (NewAnchors_some snap out _)) Hj) as (kvs & js & -> & Hin & Hl).
    exists q, out, kvs, js. split_and!; try done. cbn [body_JSON]. by rewrite Hj.
  - intros h b m'. unfold snapshot, requireScope. rewrite Ha. destruct (rq_HasScope rq "read"); [|done]. intros [= _ <- _].
    destruct (written_reads w_resp_snapshot _ (snapshot_body_ok snap (m_bootstrap m) now grace Hs Hc Hb)) as (j & Hj & Hd).
    exists j. split; [cbn [body_JSON]; by rewrite Hj|exact Hd].
  - intros h b m'. unfold refresh, requireScope. destruct (rq_HasScope rq "admin"); [|done].
    destruct (Refresh m) as [[out m1]|]; [|done]. destruct (ro_Snapshot out) as [s|] eqn:Es; [|done]. intros [= _ <- <-].
    exists out, s. split; [done|]. split; [done|]. intros H1 H2 H3 H4.
    destruct (written_reads w_resp_refresh _ (refresh_body_ok s (ro_Changed out) (ro_DeclaredChanged out)
      (ds_CarriedOver (ro_Declared out)) _ _ H1 H2 H3 H4)) as (j & Hj & Hd).
    exists j. split; [cbn [body_JSON]; by rewrite Hj|exact Hd].
  - intros fp h b m' Hap Hu. destruct (approved_body fp rq m h b m' Hap) as (s & Hact & Hhex & ->).
    destruct (written_reads w_approved (s_ID s, fp)) as (j & Hj & Hd); [by apply approved_ok|].
    exists s, j. split_and!; [done| |exact Hd]. cbn [body_JSON]. by rewrite Hj.
Qed.

(** The sample snapshot, asked for by a client that may read. *)
Definition sample_manager : Manager Memory := set_active (NewManager NewMemory (mkWorld ∅ ∅ [] [] ∅ 0) []) sample_next.

Lemma api_bodies_exact_witness :
  exists kvs js out, ("anchors", JArr js) ∈ kvs /\ length js = length out /\ length out = 1%nat /\
    w_dec w_resp_anchors (JObj kvs) resp_anchors_zero = Ok (mkRespAnchors (s_ID sample_next) (s_GeneratedAt sample_next) false (Some out)).
Proof.
  destruct (@api_bodies_exact toy_X509 merge_GoSort list_GoRange sample_net toy_Codec toy_Files toy_Yaml sample_refresher
    Memory (@Memory_Store toy_Codec) 100 0 (sample_request "") sample_manager sample_next) as [Hj _];
    [reflexivity|vm_compute; reflexivity|vm_compute; reflexivity|reflexivity|].
  edestruct Hj as (q & out & kvs & js & Hq & Hf & _ & Hd & Hin & Hl); [vm_compute; reflexivity|].
  vm_compute in Hq. injection Hq as <-. exists kvs, js, out. split; [exact Hin|]. split; [exact Hl|].
  split; [vm_compute in Hf; injection Hf as <-; reflexivity|exact Hd].
Defined.
