(* ===== verification/Config.v ===== *)
(** * Configuration and inbound authentication

    [src/config.go] and [src/secretfile.go]: where every setting comes from, what
    a configuration that validates guarantees, how it selects the store and fills
    the pipeline's configuration, and the internal authentication mode of
    [src/app.go].  The settings registry (viper), the decoding into the struct and
    the field-tag validation are the libraries': parameters with their documented
    behaviour as laws. *)

From S2P Require Import Prelude Model Vocabulary Samples Tsl CertBody Slices Extract Internal Store.
From S2P Require Import Fetcher Verify Sources Pipeline.

Definition AuthModeDPoP : string := "dpop".
Definition AuthModeInternal : string := "internal".

Definition StoreBackendPostgres : string := "postgres".
Definition StoreBackendS3 : string := "s3".
Definition StoreBackendFS : string := "fs".
Definition StoreBackendMemory : string := "memory".

(** The embedded base configuration is the platform library's; of the auth
    section only its presence is read here. *)
Record Configuration := mkConfiguration {
  cf_HasAuth : bool;
  cf_AuthMode : string;
  cf_TrustAdminKey : string;
  cf_LOTLURL : string;
  cf_BootstrapCertsPath : string;
  cf_TerritoriesRaw : string;
  cf_AllowHTTPTerritoriesRaw : string;
  cf_AcceptedStatusesRaw : string;
  cf_RefreshInterval : duration;
  cf_ActivationMode : string;
  cf_HoldAutoRelease : duration;
  cf_StaleGrace : duration;
  cf_AcceptedServiceTypesRaw : string;
  cf_LegacyExtraAnchorsPath : string;
  cf_InternalTrustSource : string;
  cf_SnapshotBucket : string;
  cf_SnapshotEndpoint : string;
  cf_SnapshotAccessKey : string;
  cf_SnapshotSecretKey : string;
  cf_SnapshotPrefix : string;
  cf_SnapshotUseSSL : bool;
  cf_SnapshotDir : string;
  cf_StoreDSN : string;
  cf_FetchTimeout : duration;
  cf_MaxTLBytes : Z
}.

(** The parts of validation done outside the repository, and the environment. *)
Class Validation := {
  os_Getenv : string -> string;
  base_Validate : Configuration -> result unit;
  valid_Struct : Configuration -> result unit;
  auth_Validate : Configuration -> result unit
}.

(** [splitTrim]. *)
Definition splitTrim (raw : string) : list string :=
  omap (fun p => let p := TrimSpace p in if negb (str_eqb p "") then Some p else None)
    (split_on (Ascii.ascii_of_nat 44) raw).

Definition Territories (c : Configuration) : list string := splitTrim (cf_TerritoriesRaw c).
Definition conf_AllowHTTPTerritories (c : Configuration) : list string := splitTrim (cf_AllowHTTPTerritoriesRaw c).
Definition conf_AcceptedStatuses (c : Configuration) : list string := splitTrim (cf_AcceptedStatusesRaw c).

Definition expand_type (p : string) : string :=
  if negb (Contains p "://") then "http://uri.etsi.org/TrstSvc/Svctype/" +:+ p else p.
Definition conf_AcceptedServiceTypes (c : Configuration) : list string :=
  expand_type <$> splitTrim (cf_AcceptedServiceTypesRaw c).

Definition StoreBackend (c : Configuration) : string :=
  if negb (str_eqb (cf_StoreDSN c) "") then StoreBackendPostgres
  else if negb (str_eqb (cf_SnapshotBucket c) "") then StoreBackendS3
  else if negb (str_eqb (cf_SnapshotDir c) "") then StoreBackendFS
  else StoreBackendMemory.

(** ** Binding

    [Bind] registers, in order, a default or an environment variable for a key;
    [loadSecret] registers the content of a secret file as a default. *)

Inductive vvalue := VStr (s : string) | VBool (b : bool) | VDur (d : duration) | VInt (n : Z).

#[global] Instance vvalue_eq_dec : EqDecision vvalue.
Proof. solve_decision. Defined.

Inductive bind_op :=
| SetDefault (key : string) (value : vvalue)
| BindEnv (key name : string)
| loadSecret (key name : string).

Definition seconds (n : Z) : duration := n * 1000000000.
Definition hours (n : Z) : duration := seconds (3600 * n).

Definition Bind_ops : list bind_op := [
  SetDefault "auth_mode" (VStr AuthModeDPoP);
  BindEnv "auth_mode" "AUTH_MODE";
  loadSecret "trust_admin_key" "TRUST_ADMIN_KEY";
  BindEnv "trust_admin_key" "TRUST_ADMIN_KEY";
  SetDefault "lotl_url" (VStr "https://ec.europa.eu/tools/lotl/eu-lotl.xml");
  SetDefault "trust_territories" (VStr "EU");
  SetDefault "trust_accepted_statuses" (VStr "granted");
  SetDefault "trust_service_types" (VStr "CA/QC");
  SetDefault "trust_refresh_interval" (VDur (hours 6));
  SetDefault "trust_activation_mode" (VStr "auto");
  SetDefault "trust_hold_auto_release" (VDur (hours 72));
  SetDefault "trust_stale_grace" (VDur (hours 24));
  SetDefault "trust_fetch_timeout" (VDur (seconds 30));
  SetDefault "max_tl_bytes" (VInt (20 * 1024 * 1024));
  SetDefault "trust_snapshot_use_ssl" (VBool true);
  BindEnv "lotl_url" "LOTL_URL";
  BindEnv "lotl_bootstrap_certs_path" "LOTL_BOOTSTRAP_CERTS_PATH";
  BindEnv "trust_territories" "TRUST_TERRITORIES";
  BindEnv "trust_allow_http_territories" "TRUST_ALLOW_HTTP_TERRITORIES";
  BindEnv "trust_accepted_statuses" "TRUST_ACCEPTED_STATUSES";
  BindEnv "trust_refresh_interval" "TRUST_REFRESH_INTERVAL";
  BindEnv "trust_activation_mode" "TRUST_ACTIVATION_MODE";
  BindEnv "trust_hold_auto_release" "TRUST_HOLD_AUTO_RELEASE";
  BindEnv "trust_stale_grace" "TRUST_STALE_GRACE";
  BindEnv "trust_service_types" "TRUST_SERVICE_TYPES";
  BindEnv "trust_extra_anchors_path" "TRUST_EXTRA_ANCHORS_PATH";
  BindEnv "internal_trust_source" "INTERNAL_TRUST_SOURCE";
  BindEnv "trust_snapshot_bucket" "TRUST_SNAPSHOT_BUCKET";
  BindEnv "trust_snapshot_endpoint" "TRUST_SNAPSHOT_ENDPOINT";
  loadSecret "trust_snapshot_access_key" "TRUST_SNAPSHOT_ACCESS_KEY";
  loadSecret "trust_snapshot_secret_key" "TRUST_SNAPSHOT_SECRET_KEY";
  BindEnv "trust_snapshot_access_key" "TRUST_SNAPSHOT_ACCESS_KEY";
  BindEnv "trust_snapshot_secret_key" "TRUST_SNAPSHOT_SECRET_KEY";
  BindEnv "trust_snapshot_prefix" "TRUST_SNAPSHOT_PREFIX";
  BindEnv "trust_snapshot_use_ssl" "TRUST_SNAPSHOT_USE_SSL";
  BindEnv "trust_snapshot_dir" "TRUST_SNAPSHOT_DIR";
  loadSecret "trust_store_dsn" "TRUST_STORE_DSN";
  BindEnv "trust_store_dsn" "TRUST_STORE_DSN";
  BindEnv "trust_fetch_timeout" "TRUST_FETCH_TIMEOUT";
  BindEnv "max_tl_bytes" "MAX_TL_BYTES" ].

(** The registry, the bindings of the embedded sections, secret files, and the
    decoding of the registry into the struct. *)
Class Viper (V : Type) := {
  viper_SetDefault : string -> vvalue -> V -> V;
  viper_BindEnv : string -> string -> V -> V;
  viper_Get : (string -> string) -> V -> string -> option vvalue;   (* the environment, the registry, the key *)
  base_Bind : V -> V;
  auth_Bind : V -> V;
  LoadRemoteSecret : string -> result string;
  viper_Unmarshal : (string -> string) -> V -> result Configuration
}.

Definition apply_op `{Viper V} (v : V) (op : bind_op) : V :=
  match op with
  | SetDefault key value => viper_SetDefault key value v
  | BindEnv key name => viper_BindEnv key name v
  | loadSecret key name =>
      match LoadRemoteSecret name with
      | Ok secret => if negb (str_eqb secret "") then viper_SetDefault key (VStr secret) v else v
      | Err _ => v
      end
  end.

Definition Bind `{Viper V} (v : V) : V := foldl apply_op (auth_Bind (base_Bind v)) Bind_ops.

(** The [mapstructure] tags of the fields that are strings. *)
Definition string_tags : list (string * (Configuration -> string)) := [
  ("auth_mode", cf_AuthMode); ("trust_admin_key", cf_TrustAdminKey); ("lotl_url", cf_LOTLURL);
  ("lotl_bootstrap_certs_path", cf_BootstrapCertsPath); ("trust_territories", cf_TerritoriesRaw);
  ("trust_allow_http_territories", cf_AllowHTTPTerritoriesRaw); ("trust_accepted_statuses", cf_AcceptedStatusesRaw);
  ("trust_activation_mode", cf_ActivationMode); ("trust_service_types", cf_AcceptedServiceTypesRaw);
  ("trust_extra_anchors_path", cf_LegacyExtraAnchorsPath); ("internal_trust_source", cf_InternalTrustSource);
  ("trust_snapshot_bucket", cf_SnapshotBucket); ("trust_snapshot_endpoint", cf_SnapshotEndpoint);
  ("trust_snapshot_access_key", cf_SnapshotAccessKey); ("trust_snapshot_secret_key", cf_SnapshotSecretKey);
  ("trust_snapshot_prefix", cf_SnapshotPrefix); ("trust_snapshot_dir", cf_SnapshotDir); ("trust_store_dsn", cf_StoreDSN) ].

Definition as_string (v : option vvalue) : string := match v with Some (VStr s) => s | _ => "" end.

(** What the registry's documentation says: a default is replaced by the next one
    for its key; the environment variables of a key are tried in the order they
    were bound; one that is set and not empty overrides the default; keys do not
    interfere.  The embedded sections have keys of their own.  Decoding puts each
    setting in the field its tag names. *)
Class ViperLaws (V : Type) `{Viper V} := {
  v_default : V -> string -> option vvalue;
  v_envs : V -> string -> list string;
  default_set : forall k x v k', v_default (viper_SetDefault k x v) k' = if decide (k' = k) then Some x else v_default v k';
  envs_set : forall k x v k', v_envs (viper_SetDefault k x v) k' = v_envs v k';
  default_bind : forall k n v k', v_default (viper_BindEnv k n v) k' = v_default v k';
  envs_bind : forall k n v k', v_envs (viper_BindEnv k n v) k' = v_envs v k' ++ (if decide (k' = k) then [n] else []);
  get_spec : forall env v k, viper_Get env v k =
    match List.filter (fun n => negb (str_eqb (env n) "")) (v_envs v k) with
    | n :: _ => Some (VStr (env n))
    | [] => v_default v k
    end;
  sections_apart : forall v k f, (k, f) ∈ string_tags ->
    v_default (auth_Bind (base_Bind v)) k = v_default v k /\ v_envs (auth_Bind (base_Bind v)) k = v_envs v k;
  unmarshal_string : forall env v c k f, viper_Unmarshal env v = Ok c -> (k, f) ∈ string_tags ->
    f c = as_string (viper_Get env v k)
}.

Section Validate.
Context {RA : GoRange} `{Validation}.

Definition refuseEmptyFileSecret (name value : string) : result unit :=
  if negb (str_eqb (os_Getenv (name +:+ "_FILE")) "") && str_eqb (TrimSpace value) ""
  then Err (errors_New (name +:+ "_FILE is set but gives no value: the file is missing or empty"))
  else Ok tt.

Definition errTrustAdminKeyRequired : error :=
  errors_New "trust-anchor: config: TRUST_ADMIN_KEY is required when AUTH_MODE=internal".
Definition errExtraAnchorsRetired : error :=
  errors_New "trust-anchor: config: TRUST_EXTRA_ANCHORS_PATH is retired — declare these certificates in the INTERNAL_TRUST_SOURCE file instead (a typeless entry serves in the untyped bundle); refusing to boot rather than silently drop declared trust".
Definition errAuthConfigRequired : error :=
  errors_New "trust-anchor: config: auth section is required when AUTH_MODE=dpop".

Definition unservable (st : string) : error :=
  errors_New ("trust-anchor: TRUST_SERVICE_TYPES entry " +:+ Quote st +:+ " has no serving route — anchors of that type could be extracted but never served; admit only service types the bundle vocabulary can reach").

Definition Validate (c : Configuration) : result unit :=
  let? _ := refuseEmptyFileSecret "TRUST_STORE_DSN" (cf_StoreDSN c) in
  let? _ := base_Validate c in
  let? _ := valid_Struct c in
  if negb (str_eqb (cf_LegacyExtraAnchorsPath c) "") then Err errExtraAnchorsRetired
  else match List.find (fun st => negb (ServableServiceType st)) (conf_AcceptedServiceTypes c) with
       | Some st => Err (unservable st)
       | None =>
           if negb (str_eqb (cf_AuthMode c) AuthModeDPoP) then
             if str_eqb (cf_TrustAdminKey c) "" then Err errTrustAdminKeyRequired else Ok tt
           else if negb (cf_HasAuth c) then Err errAuthConfigRequired
           else auth_Validate c
       end.
End Validate.

(** The pipeline's configuration built in [App.init]. *)
Definition pipeline_config (c : Configuration) : Config :=
  mkConfig (cf_LOTLURL c) (Territories c) (conf_AcceptedStatuses c) (conf_AcceptedServiceTypes c) (cf_ActivationMode c)
    (cf_HoldAutoRelease c) (cf_InternalTrustSource c) (cf_StaleGrace c) (conf_AllowHTTPTerritories c) (cf_MaxTLBytes c).

(** [internalAuthMiddleware]: the scope claim granted for an X-API-Key header. *)
Definition internal_scope (c : Configuration) (apiKey : string) : string :=
  if negb (str_eqb (cf_TrustAdminKey c) "") && str_eqb apiKey (cf_TrustAdminKey c)
  then "trust:read" +:+ ",trust:admin" else "trust:read".

(** * Lemmas *)

(** ** Where a setting comes from *)

Section Settings.
Context {V : Type} {VI : Viper V} {VL : ViperLaws V}.

Definition op_default (k : string) (d : option vvalue) (op : bind_op) : option vvalue :=
  match op with
  | SetDefault key value => if decide (k = key) then Some value else d
  | BindEnv _ _ => d
  | loadSecret key name =>
      if decide (k = key) then
        match LoadRemoteSecret name with
        | Ok secret => if negb (str_eqb secret "") then Some (VStr secret) else d
        | Err _ => d
        end
      else d
  end.

Definition op_envs (k : string) (op : bind_op) : list string :=
  match op with BindEnv key name => if decide (k = key) then [name] else [] | _ => [] end.

Lemma apply_ops_default ops v k : v_default (foldl apply_op v ops) k = foldl (op_default k) (v_default v k) ops.
Proof.
  revert v. induction ops as [|op ops IH]; intros v; simpl; [done|]. rewrite IH. f_equal.
  destruct op as [key x|key n|key n]; simpl; [apply default_set|apply default_bind|].
  destruct (LoadRemoteSecret n) as [secret|]; [|by case_decide].
  destruct (str_eqb secret ""); simpl; [by case_decide|apply default_set].
Qed.

Lemma apply_ops_envs ops v k : v_envs (foldl apply_op v ops) k = v_envs v k ++ flat_map (op_envs k) ops.
Proof.
  revert v. induction ops as [|op ops IH]; intros v; simpl; [by rewrite app_nil_r|]. rewrite IH, app_assoc. f_equal.
  destruct op as [key x|key n|key n]; simpl; rewrite ?app_nil_r; [apply envs_set|apply envs_bind|].
  destruct (LoadRemoteSecret n) as [secret|]; [|done]. destruct (str_eqb secret ""); simpl; [done|apply envs_set].
Qed.

(** The value a secret file gives, when it gives one. *)
Definition secret_of (name : string) : string := match LoadRemoteSecret name with Ok s => s | Err _ => "" end.

Definition first_set (a b : string) : string := if str_eqb a "" then b else a.

(** The variable, the secret file and the default of each setting of
    [string_tags], as the operator sees them. *)
Definition setting_sources : list (string * option string * string) := [
  ("AUTH_MODE", None, "dpop");
  ("TRUST_ADMIN_KEY", Some "TRUST_ADMIN_KEY", "");
  ("LOTL_URL", None, "https://ec.europa.eu/tools/lotl/eu-lotl.xml");
  ("LOTL_BOOTSTRAP_CERTS_PATH", None, "");
  ("TRUST_TERRITORIES", None, "EU");
  ("TRUST_ALLOW_HTTP_TERRITORIES", None, "");
  ("TRUST_ACCEPTED_STATUSES", None, "granted");
  ("TRUST_ACTIVATION_MODE", None, "auto");
  ("TRUST_SERVICE_TYPES", None, "CA/QC");
  ("TRUST_EXTRA_ANCHORS_PATH", None, "");
  ("INTERNAL_TRUST_SOURCE", None, "");
  ("TRUST_SNAPSHOT_BUCKET", None, "");
  ("TRUST_SNAPSHOT_ENDPOINT", None, "");
  ("TRUST_SNAPSHOT_ACCESS_KEY", Some "TRUST_SNAPSHOT_ACCESS_KEY", "");
  ("TRUST_SNAPSHOT_SECRET_KEY", Some "TRUST_SNAPSHOT_SECRET_KEY", "");
  ("TRUST_SNAPSHOT_PREFIX", None, "");
  ("TRUST_SNAPSHOT_DIR", None, "");
  ("TRUST_STORE_DSN", Some "TRUST_STORE_DSN", "") ].

(** The variable, else the secret file, else the default: the first not empty. *)
Definition setting_value (env : string -> string) (src : string * option string * string) : string :=
  first_set (env src.1.1) (first_set (from_option secret_of "" src.1.2) src.2).

(** What the registrations of [Bind] come to for each tag. *)
Lemma Bind_ops_sources :
  Forall2 (fun tag src => flat_map (op_envs tag.1) Bind_ops = [src.1.1] /\
    as_string (foldl (op_default tag.1) None Bind_ops) = first_set (from_option secret_of "" src.1.2) src.2)
    string_tags setting_sources.
Proof.
  assert (Hs : forall name, as_string (match LoadRemoteSecret name with
    | Ok secret => if negb (str_eqb secret "") then Some (VStr secret) else None | Err _ => None end) =
    first_set (secret_of name) "").
  { intros name. unfold secret_of, first_set.
    destruct (LoadRemoteSecret name) as [secret|]; [|done]. by destruct (str_eqb secret "") eqn:E. }
  unfold string_tags, setting_sources.
  repeat (apply Forall2_cons; split; [split; [reflexivity|first [reflexivity|apply Hs]]|]). apply Forall2_nil. done.
Qed.

Lemma settings_from env v c :
  (forall k, v_default v k = None /\ v_envs v k = []) -> viper_Unmarshal env (Bind v) = Ok c ->
  Forall2 (fun tag src => tag.2 c = setting_value env src) string_tags setting_sources.
Proof.
  intros Hv Hu. apply Forall2_same_length_lookup. pose proof Bind_ops_sources as Hs.
  split; [by eapply Forall2_length|]. intros i [k f] src Htag Hsrc.
  destruct (Forall2_lookup_lr _ _ _ _ _ _ Hs Htag Hsrc) as [Hn Hd].
  apply list_elem_of_lookup_2 in Htag as Hin. cbn [fst snd] in *. destruct (Hv k) as [Hvd Hve].
  rewrite (unmarshal_string _ _ _ _ _ Hu Hin), get_spec. unfold Bind.
  destruct (sections_apart v k f Hin) as [Sd Se].
  rewrite apply_ops_envs, apply_ops_default, Sd, Se, Hvd, Hve, Hn. unfold setting_value, first_set at 1. simpl.
  destruct (str_eqb (env src.1.1) ""); done.
Qed.
End Settings.

(** A database address announced as a file is there, and selects the database. *)
Lemma validated_store {RA : GoRange} `{Validation} c :
  Validate c = Ok tt -> os_Getenv "TRUST_STORE_DSN_FILE" <> "" ->
  cf_StoreDSN c <> "" /\ StoreBackend c = StoreBackendPostgres.
Proof.
  unfold Validate. intros H1 He. destruct (refuseEmptyFileSecret _ _) as [[]|] eqn:Hr; [|done]. clear H1.
  unfold refuseEmptyFileSecret in Hr. change ("TRUST_STORE_DSN" +:+ "_FILE") with "TRUST_STORE_DSN_FILE" in Hr.
  apply str_eqb_neq in He. rewrite He in Hr. simpl in Hr. destruct (str_eqb (TrimSpace _) "") eqn:Et; [done|].
  assert (Hd : cf_StoreDSN c <> "") by (intros E; rewrite E in Et; done).
  split; [done|]. unfold StoreBackend. apply str_eqb_neq in Hd. by rewrite Hd.
Qed.

Lemma validated_types {RA : GoRange} `{Validation} c ty :
  Validate c = Ok tt -> ty ∈ AcceptedServiceTypes (pipeline_config c) -> ServableServiceType ty = true.
Proof.
  unfold Validate. intros H1 Hty. repeat (case_match; try done).
  all: match goal with Hf : List.find _ _ = None |- _ => apply list_elem_of_In, (List.find_none _ _ Hf) in Hty end.
  all: by apply negb_false_iff.
Qed.

Lemma validated_admin_key {RA : GoRange} `{Validation} c :
  Validate c = Ok tt -> cf_AuthMode c <> AuthModeDPoP -> cf_TrustAdminKey c <> "".
Proof.
  unfold Validate. intros Hv Hm. apply str_eqb_neq in Hm. rewrite Hm in Hv. cbn [negb] in Hv.
  repeat (case_match; try done). by apply str_eqb_neq.
Qed.

(** * Properties *)

(** What a configuration that validates guarantees: every accepted service
    type is one of the three with a serving route, so nothing the pipeline extracts
    is unreachable; a store address named as a file but empty does not start the
    service on a weaker store; the
    retired overlay variable is unset; and outside the DPoP mode an admin key is
    configured. *)
Theorem validate_guarantees {RA : GoRange} `{Validation} c :
  Validate c = Ok tt ->
  (forall ty, ty ∈ AcceptedServiceTypes (pipeline_config c) ->
     ty ∈ [svctypeBase +:+ "CA/QC"; svctypeBase +:+ "EAA/Q"; svctypeBase +:+ "EAA"]) /\
  cf_LegacyExtraAnchorsPath c = "" /\
  (cf_AuthMode c <> AuthModeDPoP -> cf_TrustAdminKey c <> "") /\
  (os_Getenv "TRUST_STORE_DSN_FILE" <> "" -> cf_StoreDSN c <> "" /\ StoreBackend c = StoreBackendPostgres).
Proof.
  intros Hv. split_and!; [|..|by apply validated_store].
  - intros ty Hty. by apply ServableServiceType_iff, (validated_types c).
  - unfold Validate in Hv. destruct (str_eqb (cf_LegacyExtraAnchorsPath c) "") eqn:El; [by apply str_eqb_eq|].
    by repeat (case_match; try done).
  - by apply validated_admin_key.
Qed.

(** C38 The configuration is what the operator set: each textual setting is its
    environment variable if that is not empty, else its secret file where one is
    supported, else the documented default; and the store follows from them in a
    fixed order of precedence - a database address (variable or file), a bucket, a
    directory, and memory only when none is set.  A database address announced as
    a file never falls through to a weaker store. *)
Theorem configuration_from_environment {RA : GoRange} `{Validation} {V} {VI : Viper V} {VL : ViperLaws V} v c :
  (forall k, v_default v k = None /\ v_envs v k = []) ->
  viper_Unmarshal os_Getenv (Bind v) = Ok c -> Validate c = Ok tt ->
  Forall2 (fun tag src => tag.2 c = setting_value os_Getenv src) string_tags setting_sources /\
  StoreBackend c =
    (if negb (str_eqb (first_set (os_Getenv "TRUST_STORE_DSN") (secret_of "TRUST_STORE_DSN")) "") then StoreBackendPostgres
     else if negb (str_eqb (os_Getenv "TRUST_SNAPSHOT_BUCKET") "") then StoreBackendS3
     else if negb (str_eqb (os_Getenv "TRUST_SNAPSHOT_DIR") "") then StoreBackendFS
     else StoreBackendMemory) /\
  (os_Getenv "TRUST_STORE_DSN_FILE" <> "" -> StoreBackend c = StoreBackendPostgres).
Proof.
  intros Hv Hu Hok. pose proof (settings_from os_Getenv v c Hv Hu) as Hs. split; [done|].
  assert (Hdsn := fun i tag src H1 H2 => Forall2_lookup_lr _ _ _ i tag src Hs H1 H2).
  pose proof (Hdsn 17%nat _ _ eq_refl eq_refl) as E1. pose proof (Hdsn 11%nat _ _ eq_refl eq_refl) as E2.
  pose proof (Hdsn 16%nat _ _ eq_refl eq_refl) as E3. cbn [snd] in E1, E2, E3. clear Hdsn Hs.
  assert (Hid : forall x, first_set x "" = x).
  { intros x. unfold first_set. destruct (str_eqb x "") eqn:E; [|done]. by apply str_eqb_eq in E. }
  unfold setting_value in *. cbn [fst snd from_option] in *. rewrite !Hid in *. split.
  - unfold StoreBackend. by rewrite E1, E2, E3.
  - intros He. by apply (validated_store c Hok).
Qed.

(** In the internal mode a validated configuration grants the admin scope
    exactly to requests that present the configured key, which is not empty: a
    request without the header, or with any other value, gets read only. *)
Theorem internal_admin_exact {RA : GoRange} `{Validation} c apiKey :
  Validate c = Ok tt -> cf_AuthMode c = AuthModeInternal ->
  (internal_scope c apiKey = "trust:read,trust:admin" <-> apiKey = cf_TrustAdminKey c) /\
  internal_scope c "" = "trust:read" /\
  (internal_scope c apiKey = "trust:read" \/ internal_scope c apiKey = "trust:read,trust:admin").
Proof.
  intros Hv Hm. assert (Hk : cf_TrustAdminKey c <> "") by (apply validated_admin_key; [done|by rewrite Hm]).
  unfold internal_scope. pose proof (proj2 (str_eqb_neq _ _) Hk) as ->. cbn [negb andb].
  change ("trust:read" +:+ ",trust:admin") with "trust:read,trust:admin".
  assert (He : str_eqb "" (cf_TrustAdminKey c) = false) by (apply str_eqb_neq; congruence). rewrite He.
  destruct (str_eqb apiKey (cf_TrustAdminKey c)) eqn:E.
  - apply str_eqb_eq in E. split_and!; [done|done|by right].
  - apply str_eqb_neq in E. split_and!; [done|done|by left].
Qed.

(** ** On samples *)

Definition sample_Validation : Validation := {|
  os_Getenv := fun n => if str_eqb n "TRUST_STORE_DSN_FILE" then "/run/dsn" else "";
  base_Validate := fun _ => Ok tt; valid_Struct := fun _ => Ok tt; auth_Validate := fun _ => Ok tt |}.

Definition sample_configuration : Configuration :=
  mkConfiguration true AuthModeInternal "s3cret" "https://lotl.example/lotl.xml" "/seed.der" "LV, EE ,,EU" "" "granted"
    3600 "auto" 0 0 " CA/QC " "" "" "" "" "" "" "" true "" "postgres://db" 30 1000.

Example sample_split :
  Territories sample_configuration = ["LV"; "EE"; "EU"] /\
  conf_AcceptedServiceTypes sample_configuration = ["http://uri.etsi.org/TrstSvc/Svctype/CA/QC"].
Proof. by_decide. Qed.

Lemma sample_valid : @Validate list_GoRange sample_Validation sample_configuration = Ok tt.
Proof. vm_compute. reflexivity. Qed.

Lemma validate_guarantees_witness : StoreBackend sample_configuration = StoreBackendPostgres.
Proof.
  destruct (@validate_guarantees list_GoRange sample_Validation sample_configuration sample_valid) as (_ & _ & _ & H).
  apply H. discriminate.
Defined.

Lemma internal_admin_exact_witness : internal_scope sample_configuration "s3cret" = "trust:read,trust:admin".
Proof.
  exact (proj2 (proj1 (@internal_admin_exact list_GoRange sample_Validation sample_configuration "s3cret" sample_valid eq_refl)) eq_refl).
Defined.

(** A registry of association lists, and a database address in a secret file. *)
Record ToyViper := mkToyViper { tv_defaults : list (string * vvalue); tv_envs : list (string * string) }.

Definition tv_default (v : ToyViper) (k : string) : option vvalue := snd <$> List.find (fun p => bool_decide (k = p.1)) (tv_defaults v).
Definition tv_names (v : ToyViper) (k : string) : list string := flat_map (fun p => if decide (k = p.1) then [p.2] else []) (tv_envs v).
Definition tv_Get (env : string -> string) (v : ToyViper) (k : string) : option vvalue :=
  match List.filter (fun n => negb (str_eqb (env n) "")) (tv_names v k) with
  | n :: _ => Some (VStr (env n)) | [] => tv_default v k end.

Definition toy_config (get : string -> string) : Configuration :=
  mkConfiguration true (get "auth_mode") (get "trust_admin_key") (get "lotl_url") (get "lotl_bootstrap_certs_path")
    (get "trust_territories") (get "trust_allow_http_territories") (get "trust_accepted_statuses") (hours 6)
    (get "trust_activation_mode") (hours 72) (hours 24) (get "trust_service_types") (get "trust_extra_anchors_path")
    (get "internal_trust_source") (get "trust_snapshot_bucket") (get "trust_snapshot_endpoint")
    (get "trust_snapshot_access_key") (get "trust_snapshot_secret_key") (get "trust_snapshot_prefix") true
    (get "trust_snapshot_dir") (get "trust_store_dsn") (seconds 30) (20 * 1024 * 1024).

Definition toy_Viper : Viper ToyViper := {|
  viper_SetDefault := fun k x v => mkToyViper ((k, x) :: tv_defaults v) (tv_envs v);
  viper_BindEnv := fun k n v => mkToyViper (tv_defaults v) (tv_envs v ++ [(k, n)]);
  viper_Get := tv_Get; base_Bind := id; auth_Bind := id;
  LoadRemoteSecret := fun n => if str_eqb n "TRUST_STORE_DSN" then Ok "postgres://db" else Err (errors_New "not set");
  viper_Unmarshal := fun env v => Ok (toy_config (fun k => as_string (tv_Get env v k))) |}.

#[refine] Definition toy_ViperLaws : @ViperLaws ToyViper toy_Viper := {| v_default := tv_default; v_envs := tv_names |}.
Proof.
  - intros k x v k'. unfold tv_default. simpl. case_bool_decide; by case_decide.
  - done.
  - done.
  - intros k n v k'. unfold tv_names. simpl. rewrite flat_map_app. simpl. by rewrite app_nil_r.
  - done.
  - done.
  - intros env v c k f [= <-] Hin. unfold string_tags in Hin. cbn [viper_Get toy_Viper].
    repeat (apply elem_of_cons in Hin as [Hin|Hin]; [injection Hin as -> ->; reflexivity|]). by apply elem_of_nil in Hin.
Defined.

Definition toy_loaded : Configuration :=
  match @viper_Unmarshal ToyViper toy_Viper (@os_Getenv sample_Validation) (@Bind ToyViper toy_Viper (mkToyViper [] [])) with
  | Ok c => c | Err _ => sample_configuration end.

Lemma configuration_from_environment_witness :
  StoreBackend toy_loaded = StoreBackendPostgres /\ cf_StoreDSN toy_loaded = "postgres://db" /\ cf_AuthMode toy_loaded = "dpop".
Proof.
  destruct (@configuration_from_environment list_GoRange sample_Validation ToyViper toy_Viper toy_ViperLaws
    (mkToyViper [] []) toy_loaded) as (H1 & _ & H3).
  - intros k. split; reflexivity.
  - reflexivity.
  - vm_compute. reflexivity.
  - split; [apply H3; discriminate|]. split.
    + exact (Forall2_lookup_lr _ _ _ 17%nat _ _ H1 eq_refl eq_refl).
    + exact (Forall2_lookup_lr _ _ _ 0%nat _ _ H1 eq_refl eq_refl).
Defined.
