(* ===== verification/Service.v ===== *)
(** * The manager on the pipeline

    The pipeline is a [Refresher] that meets the manager's laws, so the
    manager's properties hold of the two together; and runs of the assembled
    service on the concrete environment. *)

From S2P Require Import Prelude Model ContentId Diff Tsl CertBody Slices Extract Internal Store.
From S2P Require Import Fetcher Verify Sources Pipeline PipelineProps Cycle Telemetry Manager ManagerProps Samples.
From S2P Require Import Demo.

Section Service.
Context {X : X509} {AS : Asn1} {AL : GoAlloc} {SO : GoSort} {RA : GoRange} {N : Net} {XD : XmlDsig} {XM : XML}
  {FI : Files} {YA : Yaml} {CO : Codec} (cfg : Config).

(** [Pipeline] implements [Refresher]. *)
Definition Pipeline_Refresher : Refresher := {|
  rf_Refresh := Pipeline.Refresh cfg;
  rf_RefreshDeclared := fun p now w =>
    match RefreshDeclared cfg (Some p) now w with
    | (Ok (next, rep), w') => (Ok next, rep, w')
    | (Err e, w') => (Err e, DeclaredReport_zero, w')
    end
|}.

Lemma Pipeline_declared p now w next rep w' :
  rf_RefreshDeclared (Refresher := Pipeline_Refresher) p now w = (Ok (Some next), rep, w') ->
  RefreshDeclared cfg (Some p) now w = (Ok (Some next, rep), w').
Proof. cbn [rf_RefreshDeclared Pipeline_Refresher]. destruct (RefreshDeclared cfg (Some p) now w) as [[[o r]|e] w1]; [|done]. by intros [= -> -> ->]. Qed.

(** Events are only appended to, and loads counted on. *)
Lemma emit_after w0 ev : eff_inv (later w0) (emit ev).
Proof. intros w Hw. etrans; [exact Hw|apply emit_later]. Qed.

Lemma gauge_after w0 key b : eff_inv (later w0) (setDeclaredSourceFailed key b).
Proof. intros w []. by split. Qed.

Lemma load_after w0 : eff_inv (later w0) read_load.
Proof. intros w Hw. etrans; [exact Hw|apply next_load_later]. Qed.

Lemma client_Do_after w0 fuel rd url : eff_inv (later w0) (client_Do fuel rd url).
Proof.
  revert rd url. induction fuel as [|fuel IH]; intros rd url; simpl; [apply eff_inv_throw|].
  apply eff_inv_bind; [intros w []; by split|]. intros [e|status loc body broken]; keeps.
Qed.

Lemma Fetch_after w0 maxSize url : eff_inv (later w0) (Fetch maxSize url).
Proof.
  unfold Fetch. generalize 10%nat as fuel. intros fuel.
  apply eff_inv_bind; [apply eff_inv_of_result|]. intros u. apply eff_inv_bind; [by intros w|]. intros [].
  apply eff_inv_bind; [apply eff_inv_wrap, client_Do_after|]. intros [[status body] broken]. keeps.
Qed.

Lemma AllowURL_after w0 raw : eff_inv (later w0) (AllowURL raw).
Proof.
  apply eff_inv_bind; [apply eff_inv_of_result|]. intros u w Hw. destruct (negb _); [done|].
  simpl. destruct Hw. by destruct (str_eqb _ _).
Qed.

Lemma AllowHTTPFor_after w0 raw : eff_inv (later w0) (AllowHTTPFor raw).
Proof.
  apply eff_inv_bind; [apply eff_inv_of_result|]. intros u. destruct (str_eqb _ _); [apply eff_inv_throw|].
  intros w []. by split.
Qed.

Lemma Refresh_pipeline_later prev boot w : later w (Pipeline.Refresh cfg prev boot w).2.
Proof.
  refine (Refresh_inv cfg (later w) (emit_after w) (gauge_after w) (AllowURL_after w) (Fetch_after w) (load_after w)
    prev boot _ w _); [|done]. intros now w1 res w2 _ code lp _ _. apply AllowHTTPFor_after.
Qed.

Lemma RefreshDeclared_later prev now w : later w (RefreshDeclared cfg prev now w).2.
Proof.
  assert (H : eff_inv (later w) (RefreshDeclared cfg prev now)); [|by apply H].
  unfold RefreshDeclared. destruct prev as [p|]; [|apply eff_inv_throw].
  apply eff_inv_bind; [apply eff_inv_of_result|]. intros next.
  apply eff_inv_bind; [exact (applyDeclaredSources_inv cfg (later w) (emit_after w) (gauge_after w) (load_after w) _ _ _)|].
  intros [next' rep]. keeps.
Qed.

Lemma RefreshDeclared_Ok {CL : CodecLaws} p now w next rep w' :
  RefreshDeclared cfg (Some p) now w = (Ok (Some next, rep), w') ->
  follows (Some p) next /\ s_ID next <> s_ID p /\ upstream next = upstream p.
Proof.
  unfold RefreshDeclared. intros H. step_Ok H. apply clone_stored in Hs as ->.
  apply eff_bind_Ok in H as ([next1 rep1] & w1 & Hd & H).
  apply applyDeclaredSources_run in Hd as (_ & state & Hd). injection Hd as -> ->.
  destruct (str_eqb _ _) eqn:E in H; [done|]. injection H as <- _ _. apply str_eqb_neq in E.
  split_and!; [|done|done]. split; [done..|]. intros q [= <-]. simpl. lia.
Qed.

Lemma Pipeline_laws {CL : CodecLaws} : RefresherLaws (H2 := Pipeline_Refresher).
Proof.
  split; cbn [rf_Refresh rf_RefreshDeclared Pipeline_Refresher].
  - intros prev boot w next w' [_ Hs Hi Hp Hd]%Refresh_cycle. by split.
  - intros p now w next rep w' H%Pipeline_declared. by eapply RefreshDeclared_Ok.
  - apply Refresh_pipeline_later.
  - intros p now w. pose proof (RefreshDeclared_later (Some p) now w) as H.
    by destruct (RefreshDeclared cfg (Some p) now w) as [[[o r]|e] w1].
Qed.

(** The pipeline keeps the contract the manager relies on: a cycle returns a
    snapshot that follows the previous one (its id is the digest of its content,
    it names its predecessor and carries the difference to it, and the sequence
    does not go back), a declared-only rebuild is such a successor with the
    upstream data untouched and a new id, events are only ever appended and loads of the operator's file counted on. *)
Theorem pipeline_contract {CL : CodecLaws} : RefresherLaws (H2 := Pipeline_Refresher).
Proof. apply Pipeline_laws. Qed.
End Service.
