(* ===== verification/Blind.v ===== *)
(** * Events are write-only

    The ingestion code appends to the event stream and never reads it: what a
    computation returns and does to the rest of the world does not depend on the
    events emitted so far, and the events it appends do not either.  This is what
    lets other goroutines emit events while a cycle runs. *)

From S2P Require Import Prelude Model ContentId Diff Tsl CertBody Slices Extract Internal Store.
From S2P Require Import Fetcher Verify Sources Pipeline Telemetry Manager Service.

Definition put_events (l : list Event) (w : world) : world :=
  mkWorld (w_allowed w) (w_httpAllowed w) (w_trace w) l (w_declaredFailed w) (w_loads w).

Definition blind {A} (c : eff world A) : Prop :=
  forall w, exists r w0 delta, forall l, c (put_events l w) = (r, put_events (l ++ delta) w0).

(** ** Composition *)

Lemma blind_pure {A} (f : world -> result A) :
  (forall l w, f (put_events l w) = f w) -> blind (fun w => (f w, w)).
Proof. intros Hf w. exists (f w), w, []. intros l. by rewrite Hf, app_nil_r. Qed.

Lemma blind_bind {A B} (c : eff world A) (k : A -> eff world B) :
  blind c -> (forall a, blind (k a)) -> blind (eff_bind c k).
Proof.
  intros Hc Hk w. destruct (Hc w) as ([a|e] & w1 & d1 & H1).
  - destruct (Hk a w1) as (r & w2 & d2 & H2). exists r, w2, (d1 ++ d2). intros l. unfold eff_bind.
    by rewrite H1, H2, app_assoc.
  - exists (Err e), w1, d1. intros l. unfold eff_bind. by rewrite H1.
Qed.

Lemma blind_catch {A B} (c : eff world A) (k : result A -> eff world B) :
  blind c -> (forall r, blind (k r)) -> blind (eff_catch c k).
Proof.
  intros Hc Hk w. destruct (Hc w) as (r1 & w1 & d1 & H1). destruct (Hk r1 w1) as (r & w2 & d2 & H2).
  exists r, w2, (d1 ++ d2). intros l. unfold eff_catch. by rewrite H1, H2, app_assoc.
Qed.

Lemma blind_wrap {A} f (c : eff world A) : blind c -> blind (eff_wrap f c).
Proof.
  intros Hc w. destruct (Hc w) as (r & w1 & d & H1). exists (map_err f r), w1, d. intros l. unfold eff_wrap. by rewrite H1.
Qed.

Lemma blind_of_result {A} (r : result A) : blind (eff_of_result r).
Proof. by apply (blind_pure (fun _ => r)). Qed.
Lemma blind_ret {A} (a : A) : blind (eff_ret a).
Proof. apply (blind_of_result (Ok a)). Qed.
Lemma blind_throw {A} e : blind (eff_throw (A := A) e).
Proof. apply (blind_of_result (Err e)). Qed.

Create HintDb blind.
#[local] Hint Resolve blind_of_result blind_ret blind_throw : blind.

Ltac blinds :=
  repeat first
    [ solve [eauto with blind]
    | apply blind_wrap
    | apply blind_bind; [|intros]
    | apply blind_catch; [|intros]
    | case_match ].

(** ** The effects *)

Lemma emit_blind ev : blind (emit ev).
Proof. intros w. exists (Ok tt), w, [ev]. done. Qed.

Lemma gauge_blind key b : blind (setDeclaredSourceFailed key b).
Proof. intros w. eexists (Ok tt), (setDeclaredSourceFailed key b w).2, []. intros l. by rewrite app_nil_r. Qed.

Lemma load_blind : blind read_load.
Proof. intros w. exists (Ok (w_loads w)), (next_load w), []. intros l. by rewrite app_nil_r. Qed.
#[local] Hint Resolve emit_blind gauge_blind load_blind : blind.

Section Blind.
Context {X : X509} {AS : Asn1} {AL : GoAlloc} {SO : GoSort} {RA : GoRange} {N : Net} {XD : XmlDsig} {XM : XML}
  {FI : Files} {YA : Yaml} {CO : Codec} (cfg : Config).

Lemma read_clock_blind : blind read_clock.
Proof. by apply (blind_pure (fun w => Ok (wall_clock (length (w_trace w))))). Qed.

Lemma Verify_now_blind raw signers : blind (Verify_now raw signers).
Proof. by apply (blind_pure (fun w => Verify (wall_clock (length (w_trace w))) raw signers)). Qed.

Lemma VerifyAt_now_blind raw signers at_ : blind (VerifyAt_ raw signers at_).
Proof. by apply (blind_pure (fun w => VerifyAt (wall_clock (length (w_trace w))) raw signers at_)). Qed.

Lemma AllowHTTPFor_blind raw : blind (AllowHTTPFor raw).
Proof.
  apply blind_bind; [apply blind_of_result|]. intros u. destruct (str_eqb _ _); [apply blind_throw|].
  intros w. exists (Ok tt), (mkWorld (w_allowed w) ({[ ToLower (u_Hostname u) ]} ∪ w_httpAllowed w) (w_trace w) []
    (w_declaredFailed w) (w_loads w)), []. intros l. by rewrite app_nil_r.
Qed.

Lemma Allow_blind host : blind (Allow host).
Proof.
  intros w. exists (Ok tt), (Allow host w).2, []. intros l. rewrite app_nil_r. unfold Allow, eff_modify. simpl.
  by destruct (str_eqb host "").
Qed.

Lemma AllowURL_blind raw : blind (AllowURL raw).
Proof.
  apply blind_bind; [apply blind_of_result|]. intros u w. cbn [w_httpAllowed put_events].
  destruct (negb (schemeOK (w_httpAllowed w) u)) eqn:E.
  - eexists (Err _), w, []. intros l. by rewrite app_nil_r.
  - destruct (Allow_blind (u_Hostname u) w) as (r & w0 & d & H). exists r, w0, d. intros l. by rewrite H.
Qed.

Lemma send_blind url rd : blind (send url rd).
Proof. intros w. exists (send url rd w).1, (send url rd w).2, []. intros l. by rewrite app_nil_r. Qed.
#[local] Hint Resolve read_clock_blind Verify_now_blind VerifyAt_now_blind AllowHTTPFor_blind AllowURL_blind send_blind : blind.

Lemma client_Do_blind fuel rd url : blind (client_Do fuel rd url).
Proof. revert rd url. induction fuel as [|fuel IH]; intros rd url; simpl; blinds. Qed.

Lemma Fetch_blind maxSize url : blind (Fetch maxSize url).
Proof.
  unfold Fetch. generalize 10%nat as fuel. intros fuel. apply blind_bind; [apply blind_of_result|]. intros u.
  apply blind_bind; [by apply blind_pure|]. intros []. pose proof client_Do_blind. blinds.
Qed.
#[local] Hint Resolve Fetch_blind : blind.

(** ** A cycle *)

Lemma FetchDigest_blind maxSize url : blind (FetchDigest maxSize url).
Proof. unfold FetchDigest. blinds. Qed.
#[local] Hint Resolve FetchDigest_blind : blind.

Lemma digest_unchanged_blind maxSize url fresh last : blind (digest_unchanged maxSize url fresh last).
Proof. unfold digest_unchanged. blinds. Qed.

Lemma process_pivot_blind maxSize ref signers : blind (process_pivot maxSize ref signers).
Proof. unfold process_pivot. blinds. Qed.
#[local] Hint Resolve digest_unchanged_blind process_pivot_blind : blind.

Lemma walkPivots_blind maxSize refs signers l : blind (walkPivots maxSize refs signers l).
Proof. revert signers l. induction refs as [|ref refs IH]; intros signers l; simpl; blinds. Qed.
#[local] Hint Resolve walkPivots_blind : blind.

Lemma lotl_Fetch_blind maxSize s last : blind (lotl_Fetch maxSize s last).
Proof. unfold lotl_Fetch. blinds. Qed.

Lemma lotl_Verify_blind maxSize s raw pinned : blind (lotl_Verify maxSize s raw pinned).
Proof. unfold lotl_Verify, lotl_authenticate. blinds. Qed.

Lemma national_Fetch_blind maxSize s last : blind (national_Fetch maxSize s last).
Proof. unfold national_Fetch. blinds. Qed.

Lemma national_Verify_blind s raw pinned : blind (national_Verify s raw pinned).
Proof. unfold national_Verify. blinds. Qed.
#[local] Hint Resolve lotl_Fetch_blind lotl_Verify_blind national_Fetch_blind national_Verify_blind : blind.

Lemma ingestLOTL_blind prev boot now : blind (ingestLOTL cfg prev boot now).
Proof. unfold ingestLOTL. blinds. Qed.

Lemma ingestTerritory_blind ps code prev now : blind (ingestTerritory cfg ps code prev now).
Proof. unfold ingestTerritory, fetchTerritory, emit_stale. blinds. Qed.
#[local] Hint Resolve ingestLOTL_blind ingestTerritory_blind : blind.

Lemma ingest_territories_blind ps codes prev now : blind (ingest_territories cfg ps codes prev now).
Proof. induction codes as [|code codes IH]; simpl; blinds. Qed.

Lemma applyDeclaredSources_blind prev next now : blind (applyDeclaredSources cfg prev next now).
Proof. unfold applyDeclaredSources, declaredSet. blinds. Qed.

Lemma hold_anchors_blind ar prev now code anchors : blind (hold_anchors ar prev now code anchors).
Proof. induction anchors as [|a anchors IH]; simpl; blinds. Qed.
#[local] Hint Resolve ingest_territories_blind applyDeclaredSources_blind hold_anchors_blind : blind.

Lemma hold_territories_blind ar prev now ts : blind (hold_territories ar prev now ts).
Proof. induction ts as [|t ts IH]; simpl; blinds. Qed.
#[local] Hint Resolve hold_territories_blind : blind.

Lemma applyHoldMode_blind prev next now : blind (applyHoldMode cfg prev next now).
Proof. unfold applyHoldMode. blinds. Qed.
#[local] Hint Resolve applyHoldMode_blind : blind.

Lemma Refresh_blind prev boot : blind (Pipeline.Refresh cfg prev boot).
Proof. unfold Pipeline.Refresh. blinds. Qed.

Lemma RefreshDeclared_blind prev now : blind (RefreshDeclared cfg prev now).
Proof. unfold RefreshDeclared. blinds. Qed.
End Blind.

(** ** As a law of the manager's collaborator *)

Class EventBlind `{Refresher} : Prop := {
  refresh_blind : forall prev boot, blind (rf_Refresh prev boot);
  declared_blind : forall p now w, exists r rep w0 delta, forall l,
    rf_RefreshDeclared p now (put_events l w) = (r, rep, put_events (l ++ delta) w0)
}.

Lemma Pipeline_EventBlind `{X : X509, AS : Asn1, AL : GoAlloc, SO : GoSort, RA : GoRange, N : Net, XD : XmlDsig, XM : XML,
    FI : Files, YA : Yaml, CO : Codec} (cfg : Config) : EventBlind (H := Pipeline_Refresher cfg).
Proof.
  split.
  - intros prev boot. apply Refresh_blind.
  - intros p now w. cbn [rf_RefreshDeclared Pipeline_Refresher].
    destruct (RefreshDeclared_blind cfg (Some p) now w) as ([[o rep]|e] & w0 & d & H).
    + exists (Ok o), rep, w0, d. intros l. by rewrite H.
    + exists (Err e), DeclaredReport_zero, w0, d. intros l. by rewrite H.
Qed.
