(* ===== verification/Concurrent.v ===== *)
(** * Goroutines

    [src/ingest/manager.go]: [Refresh], [ReconcileDeclared] and [ApprovePending]
    hold the mutex [mu] from their first line to their return, while other
    goroutines load the served snapshot without it, trigger and take refreshes, and
    emit events.  Here the three operations are programs whose steps are the
    manager's accesses to its shared state, the goroutines interleave at every
    step, and the interleavings are shown to do what the operations of [Manager] do
    when run one after the other.

    The pipeline's part of an operation is one step: it touches nothing the other
    goroutines do but the event stream, to which it only appends ([EventBlind]). *)

From S2P Require Import Prelude Model ContentId Diff Tsl CertBody Slices Extract Internal Store.
From S2P Require Import Fetcher Verify Sources Pipeline Telemetry Manager Service Blind.

(** ** Programs *)

(** [Act f k]: one access [f] to the manager's memory, then [k] on what it returned;
    [Save s k]: a call of the store; [Panic] is the nil dereference of
    [Manager.Refresh]. *)
Inductive prog (St R : Type) : Type :=
| Ret (r : R)
| Panic
| Act (A : Type) (f : Manager St -> A * Manager St) (k : A -> prog St R)
| Save (s : Snapshot) (k : result unit -> prog St R).
Arguments Ret {St R} _.
Arguments Panic {St R}.
Arguments Act {St R} _ _ _.
Arguments Save {St R} _ _.

Fixpoint bind {St A B} (c : prog St A) (k : A -> prog St B) : prog St B :=
  match c with
  | Ret a => k a
  | Panic => Panic
  | Act A f c' => Act A f (fun a => bind (c' a) k)
  | Save s c' => Save s (fun r => bind (c' r) k)
  end.

Notation "'let+' x := c 'in' k" := (bind c (fun x => k)) (at level 200, x pattern, c at level 200, k at level 200).

Definition act {St A} (f : Manager St -> A * Manager St) : prog St A := Act A f Ret.
Definition modify {St} (f : Manager St -> Manager St) : prog St unit := act (fun m => (tt, f m)).
Definition skip {St} : prog St unit := Ret tt.
Definition store_Save {St} (s : Snapshot) : prog St (result unit) := Save s Ret.

(** A program running alone. *)
Fixpoint alone {St R} `{Store St} (p : prog St R) (m : Manager St) : option (R * Manager St) :=
  match p with
  | Ret r => Some (r, m)
  | Panic => None
  | Act _ f k => let '(a, m) := f m in alone (k a) m
  | Save s k => let '(r, m) := save s m in alone (k r) m
  end.

Lemma alone_bind {St A B} `{Store St} (c : prog St A) (k : A -> prog St B) m :
  alone (bind c k) m = a ← alone c m; alone (k a.1) a.2.
Proof.
  revert m. induction c as [a| |A' f c IH|s c IH]; intros m; simpl; [done..| |].
  - destruct (f m) as [a m1]. apply IH.
  - destruct (save s m) as [r m1]. apply IH.
Qed.

(** What the caller of an operation gets. *)
Inductive reply :=
| Refreshed (out : RefreshOutcome)
| Reconciled (changed : bool)
| Approved (r : result Snapshot).

(** ** The operations as programs *)

Section Programs.
Context {X : X509} {SO : GoSort} {RA : GoRange} {N : Net} {CO : Codec} {FI : Files} {YA : Yaml} {RF : Refresher}
  {St : Type} {ST : Store St}.

Abbreviation Mgr := (Manager St).
Abbreviation Prog := (prog St).

Definition Active_load : Prog (option Snapshot) := act (fun m => (m_active m, m)).
Definition bootstrap_load : Prog (option Bootstrap) := act (fun m => (m_bootstrap m, m)).
Definition time_Now : Prog time := act (fun m => (m_now m, m)).
Definition events_Emit (ev : Event) : Prog unit := modify (m_emit ev).
Definition log_inventory (active : option Snapshot) (rep : DeclaredReport) : Prog unit :=
  modify (fun m => set_log m (logInventory (m_log m) active rep)).

(** [activate]: the pointer, then the gauges one set at a time. *)
Definition activate_prog (next : Snapshot) : Prog unit :=
  let+ _ := modify (fun m => set_active m next) in
  let+ _ := modify (fun m => set_m_gauges m (setAnchorGauges (Some next) (m_gauges m))) in
  let+ _ := modify (fun m => set_m_gauges m (setTerritoryFailedGauges (Some next) (m_gauges m))) in
  modify (fun m => set_m_gauges m (setSkippedGauges (Some next) (m_gauges m))).

Definition save_prog (next : Snapshot) : Prog unit :=
  let+ r := store_Save next in
  match r with Ok _ => skip | Err e => events_Emit (EvRefreshFailure "persist" (err_Error e)) end.

Fixpoint emit_entries (l : list DiffEntry) : Prog unit :=
  match l with
  | [] => skip
  | e :: l =>
      let+ _ := events_Emit (EvAnchorChange (de_Kind e) (de_Territory e) (de_Fingerprint e) (de_Type e) (de_TSPName e)
                               (de_ServiceName e) (de_Status e) (de_Detail e) false) in
      emit_entries l
  end.
Definition emit_diff_prog (next : Snapshot) : Prog unit := emit_entries (from_option d_Entries [] (s_Diff next)).

Definition RefreshDeclared_step (p : Snapshot) (now : time) : Prog (result (option Snapshot) * DeclaredReport) :=
  act (fun m => let '(r, rep, w) := rf_RefreshDeclared p now (m_world m) in (r, rep, set_world m w)).
Definition Refresh_step (prev : option Snapshot) (boot : Bootstrap) : Prog (result Snapshot) :=
  act (fun m => let '(r, w) := rf_Refresh prev boot (m_world m) in (r, set_world m w)).

Definition reconcileDeclared_prog (prev : option Snapshot) : Prog (option Snapshot * bool * DeclaredReport) :=
  match prev with
  | None => Ret (None, false, DeclaredReport_zero)
  | Some p =>
      let+ now := time_Now in
      let+ (r, rep) := RefreshDeclared_step p now in
      match r with
      | Err _ | Ok None => Ret (Some p, false, rep)
      | Ok (Some next) =>
          let+ _ := save_prog next in
          let+ _ := activate_prog next in
          let+ _ := if negb (Diff_Empty (s_Diff next)) then emit_diff_prog next else skip in
          Ret (Some next, true, rep)
      end
  end.

Definition ReconcileDeclared_prog : Prog reply :=
  let+ prev := Active_load in
  let+ (_, changed, rep) := reconcileDeclared_prog prev in
  let+ active := Active_load in
  let+ _ := log_inventory active rep in
  Ret (Reconciled changed).

Definition accept_prog (prev : option Snapshot) (declaredChanged : bool) (decl : DeclaredSourceState) (next : Snapshot) :
    Prog reply :=
  let declared := match s_DeclaredLoad next with Some rep => dr_Internal rep | None => decl end in
  let changed := cycleChanged prev next in
  let+ _ := if must_persist prev next then save_prog next else skip in
  let+ _ := activate_prog next in
  let+ now := time_Now in
  let+ _ := modify (fun m => set_m_gauges m (setLastSyncSuccess now (m_gauges m))) in
  let+ _ := match prev with
            | None => log_inventory (Some next) (default DeclaredReport_zero (s_DeclaredLoad next))
            | Some _ => skip
            end in
  let+ _ := if changed && negb (Diff_Empty (s_Diff next)) then emit_diff_prog next else skip in
  Ret (Refreshed (mkOutcome (Some next) (declaredChanged || changed) declaredChanged declared None)).

Definition Refresh_prog : Prog reply :=
  let+ prev := Active_load in
  let+ boot := bootstrap_load in
  let+ (prev, declaredChanged, declRep) := reconcileDeclared_prog prev in
  let+ _ := if declaredChanged then log_inventory prev declRep else skip in
  match boot with
  | None => Panic
  | Some boot =>
      let+ r := Refresh_step prev boot in
      match r with
      | Err err =>
          let+ _ := events_Emit (EvRefreshFailure "cycle" (err_Error err)) in
          Ret (Refreshed (mkOutcome prev declaredChanged declaredChanged (dr_Internal declRep) (Some err)))
      | Ok next => accept_prog prev declaredChanged (dr_Internal declRep) next
      end
  end.

Definition ApprovePending_prog (fingerprint actor : string) : Prog reply :=
  let+ active := Active_load in
  match active with
  | None => Ret (Approved (Err (errors_New "ingest: no active snapshot")))
  | Some cur =>
      match list_find (fun pa => a_FingerprintSHA256 (p_Anchor pa) = fingerprint) (s_Pending cur) with
      | None => Ret (Approved (Err (errors_New ("ingest: no pending anchor with fingerprint " +:+ fingerprint))))
      | Some (idx, _) =>
          match cloneSnapshot cur with
          | Err err => Ret (Approved (Err err))
          | Ok next =>
              match s_Pending next !! idx with
              | None => Ret (Approved (Err (errors_New "runtime error: index out of range")))
              | Some approved =>
                  let+ now := time_Now in
                  let next := approve_in cur next idx approved now in
                  let+ r := store_Save next in
                  match r with
                  | Err err => Ret (Approved (Err (errorf ("ingest: persist approved snapshot: " +:+ err_Error err) [err])))
                  | Ok _ =>
                      let+ _ := activate_prog next in
                      let+ _ := events_Emit (EvPendingApproved fingerprint actor "api") in
                      let a := p_Anchor approved in
                      let+ _ := events_Emit (EvAnchorChange DiffAdded (a_Territory a) (a_FingerprintSHA256 a) (a_Type a)
                                               (a_TSPName a) (a_ServiceName a) (a_Status a) "approved from pending" false) in
                      Ret (Approved (Ok next))
                  end
              end
          end
      end
  end.

(** ** The goroutines *)

(** The operations that take the mutex. *)
Definition locking (o : Op) : option (Prog reply) :=
  match o with
  | OpRefresh => Some Refresh_prog
  | OpReconcile => Some ReconcileDeclared_prog
  | OpApprove fingerprint actor => Some (ApprovePending_prog fingerprint actor)
  | _ => None
  end.

(** The operations that do not: a send on [kick], a receive from it, a denial. *)
Definition lock_free (o : Op) : bool :=
  match o with OpTrigger | OpTakeKick | OpDenied _ _ _ => true | _ => false end.

(** The shared state, the goroutine in [mu] with the rest of its program, and the
    operations that have returned with what they returned. *)
Record Sys := mkSys { sy_m : Mgr; sy_mu : option (Op * Prog reply); sy_done : list (Op * reply) }.

Inductive move :=
| MLock (o : Op)
| MStep
| MUnlock
| MFree (o : Op).

Definition move_exec (mv : move) (s : Sys) : option Sys :=
  match mv, sy_mu s with
  | MLock o, None => p ← locking o; Some (mkSys (sy_m s) (Some (o, p)) (sy_done s))
  | MStep, Some (o, Act _ f k) => let '(a, m) := f (sy_m s) in Some (mkSys m (Some (o, k a)) (sy_done s))
  | MStep, Some (o, Save sn k) => let '(r, m) := save sn (sy_m s) in Some (mkSys m (Some (o, k r)) (sy_done s))
  | MUnlock, Some (o, Ret r) => Some (mkSys (sy_m s) None (sy_done s ++ [(o, r)]))
  | MFree o, h => if lock_free o then m ← exec o (sy_m s); Some (mkSys m h (sy_done s)) else None
  | _, _ => None
  end.

Fixpoint play (mvs : list move) (s : Sys) : option Sys :=
  match mvs with
  | [] => Some s
  | mv :: mvs => s ← move_exec mv s; play mvs s
  end.

(** What a sequential run returns. *)
Definition answer (o : Op) (m : Mgr) : option reply :=
  match o with
  | OpRefresh => Refreshed ∘ fst <$> Refresh m
  | OpReconcile => Some (Reconciled (ReconcileDeclared m).1)
  | OpApprove fingerprint actor => Some (Approved (ApprovePending fingerprint actor m).1)
  | _ => None
  end.

Fixpoint answers (os : list Op) (m : Mgr) : list (Op * reply) :=
  match os with
  | [] => []
  | o :: os =>
      match exec o m with
      | Some m1 => from_option (fun r => [(o, r)]) [] (answer o m) ++ answers os m1
      | None => []
      end
  end.
End Programs.

(** * Lemmas *)

Section Linearize.
Context {X : X509} {SO : GoSort} {RA : GoRange} {N : Net} {CO : Codec} {FI : Files} {YA : Yaml} {RF : Refresher}
  {St : Type} {ST : Store St}.

Abbreviation Mgr := (Manager St).
Abbreviation Prog := (prog St).

(** ** The programs compute what the operations do *)

Lemma alone_seq {A B} (c : Prog A) (k : A -> Prog B) m a m1 :
  alone c m = Some (a, m1) -> alone (bind c k) m = alone (k a) m1.
Proof. intros H. by rewrite alone_bind, H. Qed.

Lemma activate_alone s (m : Mgr) : alone (activate_prog s) m = Some (tt, activate s m).
Proof. done. Qed.

Lemma save_alone s (m : Mgr) : alone (save_prog s) m = Some (tt, save_or_report s m).
Proof.
  unfold save_prog, save_or_report. rewrite alone_bind. unfold store_Save. cbn [alone].
  destruct (save s m) as [[[]|e] m1]; done.
Qed.

Lemma emit_diff_alone s (m : Mgr) : alone (emit_diff_prog s) m = Some (tt, emit_diff s m).
Proof.
  unfold emit_diff_prog, emit_diff. destruct (s_Diff s) as [d|]; [|done]. simpl. generalize (d_Entries d) as l. intros l.
  revert m. induction l as [|e l IH]; intros m; [done|]. simpl. apply IH.
Qed.

Lemma alone_when (b : bool) (p : Prog unit) (f : Mgr -> Mgr) m :
  (forall m, alone p m = Some (tt, f m)) -> alone (if b then p else skip) m = Some (tt, if b then f m else m).
Proof. intros H. destruct b; [apply H|done]. Qed.

Lemma reconcileDeclared_alone prev (m : Mgr) :
  alone (reconcileDeclared_prog prev) m =
  let '(p, c, rep, m') := reconcileDeclared prev m in Some ((p, c, rep), m').
Proof.
  unfold reconcileDeclared_prog, reconcileDeclared. destruct prev as [p|]; [|done]. cbn [bind act time_Now alone].
  unfold RefreshDeclared_step. cbn [bind act alone].
  destruct (rf_RefreshDeclared p (m_now m) (m_world m)) as [[[[next|]|e] rep] w]; [|done..].
  rewrite (alone_seq _ _ _ _ _ (save_alone _ _)), (alone_seq _ _ _ _ _ (activate_alone _ _)).
  rewrite (alone_seq _ _ _ _ _ (alone_when _ _ _ _ (emit_diff_alone next))). done.
Qed.

Lemma ReconcileDeclared_alone (m : Mgr) :
  alone ReconcileDeclared_prog m = let '(c, m') := ReconcileDeclared m in Some (Reconciled c, m').
Proof.
  unfold ReconcileDeclared_prog, ReconcileDeclared. cbn [bind act Active_load alone].
  rewrite alone_bind, reconcileDeclared_alone. by destruct (reconcileDeclared (m_active m) m) as [[[p c] rep] m1].
Qed.

Lemma accept_alone prev dc decl next (m : Mgr) :
  alone (accept_prog prev dc decl next) m =
  let '(out, m') := accept prev dc decl next m in Some (Refreshed out, m').
Proof.
  unfold accept_prog, accept.
  rewrite (alone_seq _ _ _ _ _ (alone_when _ _ _ _ (save_alone next))), (alone_seq _ _ _ _ _ (activate_alone _ _)).
  cbn [bind act time_Now modify alone].
  destruct prev as [p|]; cbn [bind skip log_inventory modify act alone];
    rewrite (alone_seq _ _ _ _ _ (alone_when _ _ _ _ (emit_diff_alone next))); done.
Qed.

Lemma reconcileDeclared_bootstrap prev (m : Mgr) : m_bootstrap (reconcileDeclared prev m).2 = m_bootstrap m.
Proof.
  unfold reconcileDeclared. destruct prev as [p|]; [|done].
  destruct (rf_RefreshDeclared p (m_now m) (m_world m)) as [[[[next|]|e] rep] w]; [|done..]. simpl.
  transitivity (m_bootstrap (activate next (save_or_report next (set_world m w)))).
  - destruct (negb _); [apply (oe_bootstrap _ _ (emit_diff_only next _))|done].
  - exact (proj1 (proj2 (save_or_report_spec next (set_world m w)))).
Qed.

Lemma Refresh_alone (m : Mgr) :
  alone Refresh_prog m = o ← Refresh m; let '(out, m') := o in Some (Refreshed out, m').
Proof.
  unfold Refresh_prog, Refresh. cbn [bind act Active_load bootstrap_load alone].
  pose proof (reconcileDeclared_alone (m_active m) m) as Ha.
  pose proof (reconcileDeclared_bootstrap (m_active m) m) as Hb.
  destruct (reconcileDeclared (m_active m) m) as [[[p c] rep] m1]. simpl in Hb.
  rewrite (alone_seq _ _ _ _ _ Ha).
  rewrite (alone_seq _ _ _ _ _ (alone_when c (log_inventory p rep) (fun m => set_log m (logInventory (m_log m) p rep)) m1 (fun m => eq_refl))).
  assert (Hb' : m_bootstrap (if c then set_log m1 (logInventory (m_log m1) p rep) else m1) = m_bootstrap m)
    by (by destruct c).
  rewrite Hb'. destruct (m_bootstrap m) as [boot|]; [|done].
  unfold Refresh_step. cbn [bind act alone]. destruct (rf_Refresh p boot _) as [[next|e] w]; [|done].
  rewrite accept_alone. by destruct (accept p c (dr_Internal rep) next _) as [out m2].
Qed.

Lemma ApprovePending_alone fp actor (m : Mgr) :
  alone (ApprovePending_prog fp actor) m = let '(r, m') := ApprovePending fp actor m in Some (Approved r, m').
Proof.
  unfold ApprovePending_prog, ApprovePending. cbn [bind act Active_load alone].
  destruct (m_active m) as [cur|]; [|done].
  destruct (list_find _ _) as [[idx pa]|]; [|done]. destruct (cloneSnapshot cur) as [next|e]; [|done].
  destruct (s_Pending next !! idx) as [approved|]; [|done].
  cbn [bind act time_Now store_Save alone]. destruct (save _ m) as [[[]|e] m1]; done.
Qed.

Lemma locking_alone o p (m : Mgr) :
  locking o = Some p -> alone p m = r ← answer o m; m' ← exec o m; Some (r, m').
Proof.
  destruct o as [| |fp actor| | | |]; intros [= <-]; cbn [answer exec].
  - rewrite Refresh_alone. by destruct (Refresh m) as [[out m1]|].
  - rewrite ReconcileDeclared_alone. by destruct (ReconcileDeclared m) as [c m1].
  - rewrite ApprovePending_alone. by destruct (ApprovePending fp actor m) as [r m1].
Qed.

(** ** What other goroutines change meanwhile *)

(** The event stream and the pending kick. *)
Definition vary (l : list Event) (b : bool) (m : Mgr) : Mgr := set_kick (set_world m (put_events l (m_world m))) b.

Lemma vary_id m : vary (w_events (m_world m)) (m_kick m) m = m.
Proof. by destruct m as [? ? ? ? [] ? ?]. Qed.

Definition steady_act {A} (f : Mgr -> A * Mgr) : Prop :=
  forall m, exists a m0 d, forall l b, f (vary l b m) = (a, vary (l ++ d) b m0).

Fixpoint steady {R} (p : Prog R) : Prop :=
  match p with
  | Act A f k => steady_act f /\ forall a, steady (k a)
  | Save _ k => forall r, steady (k r)
  | _ => True
  end.

Lemma steady_bind {A B} (c : Prog A) (k : A -> Prog B) : steady c -> (forall a, steady (k a)) -> steady (bind c k).
Proof. intros Hc Hk. induction c as [a| |A' f c IH|s c IH]; simpl in *; naive_solver. Qed.

Lemma steady_quiet {A} (f : Mgr -> A * Mgr) :
  (forall l b m, f (vary l b m) = ((f m).1, vary l b (f m).2)) -> steady (act f).
Proof. intros H. split; [|done]. intros m. exists (f m).1, (f m).2, []. intros l b. by rewrite app_nil_r. Qed.

Lemma steady_emit ev : steady (events_Emit (St := St) ev).
Proof. split; [|done]. intros m. by exists tt, m, [ev]. Qed.

Lemma save_vary s l b m : save s (vary l b m) = ((save s m).1, vary l b (save s m).2).
Proof. unfold save. cbn [m_store vary set_kick set_world]. by destruct (SaveSnapshot s (m_store m)) as [r st]. Qed.

Lemma save_steady s : steady_act (save s).
Proof. intros m. exists (save s m).1, (save s m).2, []. intros l b. by rewrite app_nil_r, save_vary. Qed.

Lemma steady_save s : steady (store_Save (St := St) s).
Proof. done. Qed.

Create HintDb steady.
#[local] Hint Resolve steady_emit steady_save : steady.
#[local] Hint Extern 1 (steady (act _)) => apply steady_quiet; reflexivity : steady.
#[local] Hint Extern 1 (steady (modify _)) => apply steady_quiet; reflexivity : steady.
#[local] Hint Extern 1 (steady Active_load) => apply steady_quiet; reflexivity : steady.
#[local] Hint Extern 1 (steady bootstrap_load) => apply steady_quiet; reflexivity : steady.
#[local] Hint Extern 1 (steady time_Now) => apply steady_quiet; reflexivity : steady.
#[local] Hint Extern 1 (steady (log_inventory _ _)) => apply steady_quiet; reflexivity : steady.
#[local] Hint Extern 1 (steady (Ret _)) => exact I : steady.
#[local] Hint Extern 1 (steady Panic) => exact I : steady.
#[local] Hint Extern 1 (steady skip) => exact I : steady.

Ltac steadies := repeat first [solve [eauto with steady] | apply steady_bind; [|intros] | case_match].

Lemma steady_emit_diff s : steady (emit_diff_prog (St := St) s).
Proof. unfold emit_diff_prog. induction (from_option d_Entries [] (s_Diff s)) as [|e l IH]; cbn [emit_entries]; steadies. Qed.

Lemma steady_activate s : steady (activate_prog (St := St) s).
Proof. unfold activate_prog. steadies. Qed.

Lemma steady_save_prog s : steady (save_prog s).
Proof. unfold save_prog. steadies. Qed.
#[local] Hint Resolve steady_emit_diff steady_activate steady_save_prog : steady.

Section Steady.
Context {EB : EventBlind}.

Lemma steady_declared p now : steady (RefreshDeclared_step (St := St) p now).
Proof.
  split; [|done]. intros m. destruct (declared_blind p now (m_world m)) as (r & rep & w0 & d & H).
  exists (r, rep), (set_world m w0), d. intros l b. cbn [m_world vary set_kick set_world]. by rewrite H.
Qed.

Lemma steady_refresh prev boot : steady (Refresh_step (St := St) prev boot).
Proof.
  split; [|done]. intros m. destruct (refresh_blind prev boot (m_world m)) as (r & w0 & d & H).
  exists r, (set_world m w0), d. intros l b. cbn [m_world vary set_kick set_world]. by rewrite H.
Qed.
#[local] Hint Resolve steady_declared steady_refresh : steady.

Lemma steady_reconcile prev : steady (reconcileDeclared_prog (St := St) prev).
Proof. unfold reconcileDeclared_prog. steadies. Qed.
#[local] Hint Resolve steady_reconcile : steady.

Lemma locking_steady o p : locking (St := St) o = Some p -> steady p.
Proof.
  destruct o as [| |fp actor| | | |]; intros [= <-]; unfold Refresh_prog, ReconcileDeclared_prog, ApprovePending_prog, accept_prog;
    steadies.
Qed.
End Steady.

(** ** What a reader sees while an operation runs *)

(** The reading goroutines see [m_active] between any two steps. *)
Fixpoint visible {R} (P : option Snapshot -> Prop) (p : Prog R) (m : Mgr) : Prop :=
  P (m_active m) /\ match p with
                     | Act _ f k => visible P (k (f m).1) (f m).2
                     | Save s k => visible P (k (save s m).1) (save s m).2
                     | _ => True
                     end.

Lemma visible_bind {A B} P (c : Prog A) (k : A -> Prog B) m :
  visible P c m -> (forall a m', alone c m = Some (a, m') -> visible P (k a) m') -> visible P (bind c k) m.
Proof.
  revert m. induction c as [a| |A' f c IH|s c IH]; intros m Hc Hk; [by apply Hk|done|..]; destruct Hc as [Hm Hc];
    (split; [done|]); apply IH; [done| |done|]; intros a m' Ha; apply Hk; simpl; [by destruct (f m)|by destruct (save s m)].
Qed.

Definition keeps_active {A} (f : Mgr -> A * Mgr) : Prop := forall m, m_active (f m).2 = m_active m.

(** A program that comes to an end and does not activate anything. *)
Fixpoint calm {R} (p : Prog R) : Prop :=
  match p with
  | Ret _ => True
  | Panic => False
  | Act _ f k => keeps_active f /\ forall a, calm (k a)
  | Save _ k => forall r, calm (k r)
  end.

(** A program that activates at most once, and comes to an end when it does. *)
Fixpoint once {R} (p : Prog R) : Prop :=
  match p with
  | Act _ f k => keeps_active f /\ (forall a, once (k a)) \/ forall a, calm (k a)
  | Save _ k => forall r, once (k r)
  | _ => True
  end.

Lemma calm_bind {A B} (c : Prog A) (k : A -> Prog B) : calm c -> (forall a, calm (k a)) -> calm (bind c k).
Proof. intros Hc Hk. induction c as [a| |A' f c IH|s c IH]; simpl in *; naive_solver. Qed.

Lemma once_bind {A B} (c : Prog A) (k : A -> Prog B) : calm c -> (forall a, once (k a)) -> once (bind c k).
Proof. intros Hc Hk. induction c as [a| |A' f c IH|s c IH]; simpl in *; naive_solver. Qed.

Lemma once_then {A B} (c : Prog A) (k : A -> Prog B) : once c -> (forall a, calm (k a)) -> once (bind c k).
Proof.
  intros Hc Hk. assert (Hkc : forall a, once (k a)).
  { intros a. specialize (Hk a). induction (k a) as [r| |A' f c' IH|s c' IH]; simpl in *; naive_solver. }
  induction c as [a| |A' f c IH|s c IH]; simpl in *; [done..| |naive_solver].
  destruct Hc as [[Hf Hc]|Hc]; [left; naive_solver|right]. intros a. by apply calm_bind.
Qed.

Lemma save_keeps s : keeps_active (save s).
Proof. intros m. unfold save. by destruct (SaveSnapshot s (m_store m)) as [r st]. Qed.

Lemma calm_alone {R} (p : Prog R) m : calm p -> exists r m', alone p m = Some (r, m') /\ m_active m' = m_active m.
Proof.
  revert m. induction p as [r| |A f k IH|s k IH]; intros m Hp; [by exists r, m|done|..].
  - destruct Hp as [Hf Hk]. destruct (IH (f m).1 (f m).2 (Hk _)) as (r & m' & Ha & Hm). exists r, m'. simpl.
    rewrite <-(Hf m). by destruct (f m).
  - destruct (IH (save s m).1 (save s m).2 (Hp _)) as (r & m' & Ha & Hm). exists r, m'. simpl.
    rewrite <-(save_keeps s m). by destruct (save s m).
Qed.

Lemma calm_visible {R} P (p : Prog R) m : calm p -> P (m_active m) -> visible P p m.
Proof.
  revert m. induction p as [r| |A f k IH|s k IH]; intros m Hp Hm; [done..| |]; (split; [done|]).
  - destruct Hp as [Hf Hk]. apply IH; [done|]. by rewrite Hf.
  - apply IH; [done|]. by rewrite save_keeps.
Qed.

(** Then a reader sees what was there before or what the operation leaves. *)
Lemma once_visible {R} P (p : Prog R) m :
  once p -> P (m_active m) -> (forall r m', alone p m = Some (r, m') -> P (m_active m')) -> visible P p m.
Proof.
  revert m. induction p as [r| |A f k IH|s k IH]; intros m Hp Hm Ha; [done..| |]; (split; [done|]).
  - assert (Ha' : forall r m', alone (k (f m).1) (f m).2 = Some (r, m') -> P (m_active m')).
    { intros r m' H. apply (Ha r). simpl. by destruct (f m). }
    destruct Hp as [[Hf Hk]|Hk]; [apply IH; [done|by rewrite Hf|done]|].
    apply calm_visible; [done|]. destruct (calm_alone (k (f m).1) (f m).2 (Hk _)) as (r & m' & H & Hm').
    rewrite <-Hm'. by apply (Ha' r).
  - apply IH; [done|by rewrite save_keeps|]. intros r m' H. apply (Ha r). simpl. by destruct (save s m).
Qed.

Lemma calm_act {A} (f : Mgr -> A * Mgr) : keeps_active f -> calm (act f).
Proof. done. Qed.

Lemma calm_save s : calm (store_Save (St := St) s).
Proof. done. Qed.

Lemma calm_declared p now : calm (RefreshDeclared_step (St := St) p now).
Proof. apply calm_act. intros m. by destruct (rf_RefreshDeclared p now (m_world m)) as [[r rep] w]. Qed.

Lemma calm_refresh prev boot : calm (Refresh_step (St := St) prev boot).
Proof. apply calm_act. intros m. by destruct (rf_Refresh prev boot (m_world m)) as [r w]. Qed.

Create HintDb calm.
#[local] Hint Resolve calm_save calm_declared calm_refresh : calm.
#[local] Hint Extern 1 (calm (Act _ _ _)) => split; [by intros ?|done] : calm.
#[local] Hint Extern 1 (calm (modify _)) => split; [by intros ?|done] : calm.
#[local] Hint Extern 1 (calm (events_Emit _)) => split; [by intros ?|done] : calm.
#[local] Hint Extern 1 (calm (log_inventory _ _)) => split; [by intros ?|done] : calm.
#[local] Hint Extern 1 (calm Active_load) => split; [by intros ?|done] : calm.
#[local] Hint Extern 1 (calm bootstrap_load) => split; [by intros ?|done] : calm.
#[local] Hint Extern 1 (calm time_Now) => split; [by intros ?|done] : calm.
#[local] Hint Extern 1 (calm (Ret _)) => exact I : calm.
#[local] Hint Extern 1 (calm skip) => exact I : calm.

Ltac calms := repeat first [solve [eauto with calm] | apply calm_bind; [|intros] | case_match].

Lemma calm_emit_diff s : calm (emit_diff_prog (St := St) s).
Proof. unfold emit_diff_prog. induction (from_option d_Entries [] (s_Diff s)) as [|e l IH]; cbn [emit_entries]; calms. Qed.

Lemma calm_save_prog s : calm (save_prog s).
Proof. unfold save_prog. calms. Qed.
#[local] Hint Resolve calm_emit_diff calm_save_prog : calm.

Lemma once_activate s : once (activate_prog (St := St) s).
Proof. right. intros []. repeat split; intros ? ?; done. Qed.

Ltac onces := repeat first
  [ exact I
  | apply once_then; [solve [apply once_activate]|intros; calms]
  | apply once_bind; [solve [calms]|intros]
  | case_match ].

Lemma once_reconcile prev : once (reconcileDeclared_prog (St := St) prev).
Proof. unfold reconcileDeclared_prog. onces. Qed.

Lemma once_approve fp actor : once (ApprovePending_prog (St := St) fp actor).
Proof. unfold ApprovePending_prog. onces. Qed.

Lemma once_accept prev dc decl next : once (accept_prog (St := St) prev dc decl next).
Proof. unfold accept_prog. onces. Qed.

(** What may be left to do of the operation in the mutex for its effect to be the
    one a reader sees: nothing, all of it, or its declared half. *)
Definition rest_of (mu : option (Op * Prog reply)) (os : list Op) : Prop :=
  os = [] \/ exists o p, mu = Some (o, p) /\ (os = [o] \/ o = OpRefresh /\ os = [OpReconcile]).

Definition between (o : Op) (m : Mgr) (s : option Snapshot) : Prop :=
  exists os m', (os = [] \/ os = [o] \/ o = OpRefresh /\ os = [OpReconcile]) /\ run m os m' /\ s = m_active m'.

Lemma between_before o m : between o m (m_active m).
Proof. exists [], m. split; [by left|]. split; [constructor|done]. Qed.

Lemma between_after o p m r m' : locking o = Some p -> alone p m = Some (r, m') -> between o m (m_active m').
Proof.
  intros Hp Ha. rewrite (locking_alone o p m Hp) in Ha. destruct (answer o m) as [r'|]; [|done]. simpl in Ha.
  destruct (exec o m) as [m1|] eqn:E; [|done]. injection Ha as -> ->. exists [o], m'. split; [by right; left|].
  split; [|done]. by repeat econstructor.
Qed.

Lemma reconcile_visible m :
  visible (between OpReconcile m) ReconcileDeclared_prog m.
Proof.
  apply once_visible; [|apply between_before|]. 2: { intros r m' Ha. by eapply between_after. }
  apply once_bind; [calms|]. intros prev. apply once_then; [apply once_reconcile|]. intros [[p c] rep]. calms.
Qed.

Lemma between_refresh m m1 r :
  alone (reconcileDeclared_prog (m_active m)) m = Some (r, m1) -> between OpRefresh m (m_active m1).
Proof.
  rewrite reconcileDeclared_alone. intros H. exists [OpReconcile], (ReconcileDeclared m).2. split; [by right; right|].
  split; [by repeat econstructor|]. unfold ReconcileDeclared.
  destruct (reconcileDeclared (m_active m) m) as [[[p c] rep] m2]. by injection H as _ ->.
Qed.

Lemma refresh_visible m : visible (between OpRefresh m) Refresh_prog m.
Proof.
  assert (Hfin : forall r m', alone Refresh_prog m = Some (r, m') -> between OpRefresh m (m_active m'))
    by (intros r m' Ha; by eapply between_after).
  unfold Refresh_prog in *. cbn [bind act Active_load bootstrap_load] in *. split; [apply between_before|].
  split; [apply between_before|]. cbn [fst snd] in *. cbn [alone] in Hfin. apply visible_bind.
  { apply once_visible; [apply once_reconcile|apply between_before|]. intros r m' Ha. by eapply between_refresh. }
  intros [[p c] rep] m1 Ha. pose proof (between_refresh _ _ _ Ha) as Hb. apply once_visible; [|done|].
  - apply once_bind; [calms|]. intros []. destruct (m_bootstrap m) as [boot|]; [|done]. apply once_bind; [calms|].
    intros [next|e]; [apply once_accept|onces].
  - intros r m' H. apply (Hfin r). by rewrite (alone_seq _ _ _ _ _ Ha).
Qed.

Lemma locking_visible o p m : locking o = Some p -> visible (between o m) p m.
Proof.
  destruct o as [| |fp actor| | | |] eqn:E; intros [= <-]; [apply refresh_visible|apply reconcile_visible|].
  apply once_visible; [apply once_approve|apply between_before|]. intros r m' Ha. by eapply between_after.
Qed.

(** ** Interleavings *)

(** [p] has come to [p'] alone, from [m] to [m']. *)
Inductive leads {R} (p : Prog R) (m : Mgr) : Prog R -> Mgr -> Prop :=
| leads_start : leads p m p m
| leads_step A f k m1 : leads p m (Act A f k) m1 -> leads p m (k (f m1).1) (f m1).2
| leads_save s k m1 : leads p m (Save s k) m1 -> leads p m (k (save s m1).1) (save s m1).2.

Lemma leads_alone {R} (p : Prog R) m p' m' : leads p m p' m' -> alone p m = alone p' m'.
Proof.
  induction 1 as [|A f k m1 _ IH|s k m1 _ IH]; [done|..]; rewrite IH; simpl; [by destruct (f m1)|by destruct (save s m1)].
Qed.

Lemma leads_visible {R} P (p : Prog R) m p' m' : leads p m p' m' -> visible P p m -> visible P p' m'.
Proof. induction 1 as [|A f k m1 _ IH|s k m1 _ IH]; [done|..]; intros H; by apply IH. Qed.

Lemma visible_now {R} P (p : Prog R) m : visible P p m -> P (m_active m).
Proof. by destruct p; intros []. Qed.

(** The same state but for the order of the events. *)
Definition similar (m m' : Mgr) : Prop := exists l, m' = vary l (m_kick m) m /\ l ≡ₚ w_events (m_world m).

Lemma similar_refl m : similar m m.
Proof. exists (w_events (m_world m)). by rewrite vary_id. Qed.

Lemma similar_step {A} (f : Mgr -> A * Mgr) m m' :
  steady_act f -> similar m m' -> (f m').1 = (f m).1 /\ similar (f m).2 (f m').2.
Proof.
  intros Hf (l & -> & Hl). destruct (Hf m) as (a & m0 & d & H). pose proof (H (w_events (m_world m)) (m_kick m)) as H0.
  rewrite vary_id in H0. rewrite H, H0. split; [done|]. exists (l ++ d). split; [done|]. simpl. by rewrite Hl.
Qed.

(** Other goroutines' events and kicks commute with the steps of a program. *)
Lemma leads_steady {R} (p : Prog R) m p' m' : steady p -> leads p m p' m' ->
  steady p' /\ exists m0 d, m' = vary (w_events (m_world m) ++ d) (m_kick m) m0 /\
    forall l b, leads p (vary l b m) p' (vary (l ++ d) b m0).
Proof.
  intros Hp. induction 1 as [|A f k m1 _ IH|s k m1 _ IH].
  - split; [done|]. exists m, []. split; [by rewrite app_nil_r, vary_id|]. intros l b. rewrite app_nil_r. constructor.
  - destruct IH as ([Hf Hk] & m0 & d & -> & IH). split; [done|]. destruct (Hf m0) as (a & m0' & d' & H).
    exists m0', (d ++ d'). rewrite H. simpl. split; [by rewrite app_assoc|]. intros l b.
    pose proof (leads_step _ _ _ _ _ _ (IH l b)) as Hl. rewrite H in Hl. simpl in Hl. by rewrite app_assoc.
  - destruct IH as (Hk & m0 & d & -> & IH). split; [apply Hk|]. exists (save s m0).2, d. rewrite save_vary.
    split; [done|]. intros l b. pose proof (leads_save _ _ _ _ _ (IH l b)) as Hl. by rewrite save_vary in Hl.
Qed.

Lemma lock_free_exec o m m' : lock_free o = true -> exec o m = Some m' ->
  exists d b, forall m1, m_kick m1 = m_kick m -> exec o m1 = Some (vary (w_events (m_world m1) ++ d) b m1).
Proof.
  destruct o as [| |fp actor| | |scope actor path|]; intros [=] H; cbn [exec] in *.
  - exists [], true. intros m1 _. rewrite app_nil_r. by destruct m1 as [? ? ? ? [] ? ?].
  - exists [], false. intros m1 ->. destruct (m_kick m); [|done]. rewrite app_nil_r. by destruct m1 as [? ? ? ? [] ? ?].
  - exists [EvAuthzDenied scope actor path], (m_kick m). intros m1 <-. by destruct m1 as [? ? ? ? [] ? ?].
Qed.

Lemma answers_snoc os o m m1 m2 : run m os m1 -> exec o m1 = Some m2 ->
  run m (os ++ [o]) m2 /\ answers (os ++ [o]) m = answers os m ++ from_option (fun r => [(o, r)]) [] (answer o m1).
Proof.
  intros Hr He. induction Hr as [m|m o1 m' os m1 H1 Hr IH]; simpl.
  - rewrite He, app_nil_r. split; [|done]. by repeat econstructor.
  - destruct (IH He) as [IHr IHa]. rewrite H1, IHa, app_assoc. split; [by econstructor|done].
Qed.

Lemma lock_free_answer o (m : Mgr) : lock_free o = true -> answer o m = None.
Proof. by destruct o. Qed.

(** [m] of a sequential run from [m0] matches an interleaved state: up to the order
    of events, with the operation in the mutex still to come. *)
Definition matches (m0 : Mgr) (s : Sys) (os : list Op) (m : Mgr) : Prop :=
  run m0 os m /\ answers os m0 = sy_done s /\
  match sy_mu s with
  | None => similar m (sy_m s)
  | Some (o, p) => exists p0 mc, locking o = Some p0 /\ leads p0 m p mc /\ similar mc (sy_m s)
  end.

Section Interleave.
Context {EB : EventBlind}.

Lemma matches_free m0 s os m o m' : matches m0 s os m -> lock_free o = true -> exec o (sy_m s) = Some m' ->
  exists m1, matches m0 (mkSys m' (sy_mu s) (sy_done s)) (os ++ [o]) m1.
Proof.
  intros (Hr & Ha & Hs) Ho He. destruct (lock_free_exec _ _ _ Ho He) as (d & b & Hd).
  rewrite (Hd _ eq_refl) in He. injection He as <-.
  assert (Hk : m_kick m = m_kick (sy_m s)).
  { destruct (sy_mu s) as [[o1 p]|]; [|by destruct Hs as (l & -> & _)].
    destruct Hs as (p0 & mc & Hp & Hl & (l & -> & _)).
    by destruct (leads_steady _ _ _ _ (locking_steady _ _ Hp) Hl) as (_ & mf & d0 & -> & _). }
  specialize (Hd m Hk). destruct (answers_snoc _ _ _ _ _ Hr Hd) as [Hr' Ha'].
  eexists. split; [exact Hr'|]. split; [by rewrite Ha', lock_free_answer, app_nil_r|]. cbn [sy_mu sy_m].
  destruct (sy_mu s) as [[o1 p]|].
  - destruct Hs as (p0 & mc & Hp & Hl & (l & -> & Hl')). exists p0.
    destruct (leads_steady _ _ _ _ (locking_steady _ _ Hp) Hl) as (_ & mf & d0 & -> & Hv).
    eexists. split; [done|]. split; [apply Hv|]. eexists. split; [reflexivity|]. simpl in *. rewrite Hl'.
    by rewrite <-!app_assoc, (Permutation_app_comm d d0).
  - destruct Hs as (l & -> & Hl'). exists (l ++ d). split; [done|]. simpl. by rewrite Hl'.
Qed.

Lemma matches_move m0 mv s s' os m : matches m0 s os m -> move_exec mv s = Some s' ->
  exists os' m', matches m0 s' os' m'.
Proof.
  intros Hm. pose proof Hm as (Hr & Ha & Hs). destruct mv as [o| | |o]; cbn [move_exec].
  - destruct (sy_mu s) as [?|]; [done|]. destruct (locking o) as [p|] eqn:Ho; [|done]. intros [= <-]. exists os, m.
    split_and!; [done..|]. exists p, m. split; [done|]. split; [constructor|done].
  - destruct (sy_mu s) as [[o [r| |A f k|sn k]]|] eqn:E; [done..| | |done]; destruct Hs as (p0 & mc & Hp & Hl & Hsim).
    + destruct (leads_steady _ _ _ _ (locking_steady _ _ Hp) Hl) as ([Hf _] & _).
      destruct (similar_step f mc (sy_m s) Hf Hsim) as [Hfst Hsnd]. destruct (f (sy_m s)) as [a m'] eqn:Ef.
      intros [= <-]. exists os, m. split_and!; [done..|]. exists p0, (f mc).2. split; [done|]. simpl in *. subst a.
      split; [by constructor|done].
    + destruct (similar_step (save sn) mc (sy_m s) (save_steady sn) Hsim) as [Hfst Hsnd].
      destruct (save sn (sy_m s)) as [a m'] eqn:Ef. intros [= <-]. exists os, m. split_and!; [done..|].
      exists p0, (save sn mc).2. split; [done|]. simpl in *. subst a. split; [by constructor|done].
  - destruct (sy_mu s) as [[o [r| |A f k|sn k]]|] eqn:E; [|done..]. intros [= <-]. destruct Hs as (p0 & mc & Hp & Hl & Hsim).
    apply leads_alone in Hl. rewrite (locking_alone o p0 m Hp) in Hl. simpl in Hl.
    destruct (answer o m) as [r'|] eqn:Ean; [|done]. destruct (exec o m) as [m'|] eqn:Ex; [|done].
    injection Hl as -> ->. destruct (answers_snoc _ _ _ _ _ Hr Ex) as [Hr' Ha']. exists (os ++ [o]), mc.
    split; [done|]. split; [|done]. by rewrite Ha', Ha, Ean.
  - destruct (lock_free o) eqn:Ho; [|by destruct (sy_mu s) as [[? []]|]].
    assert (Hshape : (m ← exec o (sy_m s); Some (mkSys m (sy_mu s) (sy_done s))) = Some s' ->
      exists os' m', matches m0 s' os' m').
    { destruct (exec o (sy_m s)) as [m1|] eqn:Ex; [|done]. intros [= <-].
      destruct (matches_free _ _ _ _ _ _ Hm Ho Ex) as [m2 Hm2]. by eexists _, _. }
    destruct (sy_mu s) as [[? []]|]; apply Hshape.
Qed.

Lemma play_matches m0 mvs s s' os m : matches m0 s os m -> play mvs s = Some s' -> exists os' m', matches m0 s' os' m'.
Proof.
  revert s os m. induction mvs as [|mv mvs IH]; intros s os m Hm; simpl; [intros [= <-]; by eexists _, _|].
  destruct (move_exec mv s) as [s1|] eqn:E; [|done]. intros Hp.
  destruct (matches_move _ _ _ _ _ _ Hm E) as (os1 & m1 & Hm1). by eapply IH.
Qed.

(** The interleaved executions of a manager are linearizable. *)
Lemma interleaved_linear m0 mvs s : play mvs (mkSys m0 None []) = Some s ->
  exists os m, run m0 os m /\ answers os m0 = sy_done s /\
    (sy_mu s = None -> similar m (sy_m s)) /\
    exists os' m', rest_of (sy_mu s) os' /\ run m os' m' /\ m_active (sy_m s) = m_active m'.
Proof.
  intros Hp. destruct (play_matches m0 mvs (mkSys m0 None []) s [] m0) as (os & m & Hr & Ha & Hs).
  { split; [constructor|]. split; [done|]. apply similar_refl. }
  { done. }
  exists os, m. split; [done|]. split; [done|]. destruct (sy_mu s) as [[o p]|] eqn:E.
  - split; [done|]. destruct Hs as (p0 & mc & Hlock & Hl & (l & Hsim & _)).
    pose proof (visible_now _ _ _ (leads_visible _ _ _ _ _ Hl (locking_visible o p0 m Hlock))) as (os' & m' & Hos & Hr' & Hv).
    exists os', m'. split; [|split; [done|]]; [|by rewrite <-Hv, Hsim]. destruct Hos as [->|Hos]; [by left|right; naive_solver].
  - split; [done|]. destruct Hs as (l & Hsim & _). exists [], m. split; [by left|]. split; [constructor|]. by rewrite Hsim.
Qed.
End Interleave.
End Linearize.

(** C6 Every interleaving of goroutines on the manager and the pipeline does what some
    sequence of whole operations does.  Whatever operations enter the mutex, wherever
    in their steps other goroutines trigger a refresh, take a trigger or report a
    denied request: the operations that have returned gave their callers what they
    give in that sequence, in the same order; with the mutex free the state is the
    one the sequence ends in, up to the order of the events; and the snapshot loaded
    without the mutex at any moment is the one served after that sequence, extended by
    nothing, by the operation in the mutex or, for a refresh, by its declared half. *)
Theorem interleavings_linearizable `{X : X509, AS : Asn1, AL : GoAlloc, SO : GoSort, RA : GoRange, N : Net, XD : XmlDsig,
    XM : XML, FI : Files, YA : Yaml, CO : Codec} {St} {ST : Store St} (cfg : Config) (m0 : Manager St)
    (mvs : list move) (s : Sys (St := St)) :
  let RF := Pipeline_Refresher cfg in
  play mvs (mkSys m0 None []) = Some s ->
  exists os m, run m0 os m /\ answers os m0 = sy_done s /\
    (sy_mu s = None -> similar m (sy_m s)) /\
    exists os' m', rest_of (sy_mu s) os' /\ run m os' m' /\ m_active (sy_m s) = m_active m'.
Proof. intros RF. pose proof (Pipeline_EventBlind cfg). apply interleaved_linear. Qed.
