(* ===== verification/Provenance.v ===== *)
(** * Provenance of everything served

    End to end: in any run of the assembled service, every anchor served for a
    territory comes from a list whose signature chains back to the operator's
    bootstrap, and every declared anchor from the operator's file. *)

From S2P Require Import Prelude Model ContentId Diff Tsl CertBody Slices Extract ExtractProps Internal.
From S2P Require Import Store Fetcher Verify Sources Pipeline PipelineProps Cycle Telemetry Manager ManagerProps.
From S2P Require Import Service Samples Demo.

Section Provenance.
Context {X : X509} {AS : Asn1} {AL : GoAlloc} {SO : GoSort} {RA : GoRange} {N : Net} {XD : XmlDsig} {XM : XML}
  {FI : Files} {YA : Yaml} {CO : Codec} (cfg : Config).

(** ** Chains of trust *)

(** Signer sets that follow from the bootstrap by pivots, each signed by the
    set before it. *)
Inductive trusted_der (boot : Bootstrap) : list bytes -> Prop :=
| td_bootstrap certs : Bootstrap_Certificates boot = Ok certs -> trusted_der boot (certsDER certs)
| td_rotate der certs seq certs' seq' :
    trusted_der boot der -> parseDERCerts der = Ok certs -> rotation certs seq certs' seq' ->
    trusted_der boot (certsDER certs').

Definition trusted_certs (boot : Bootstrap) (certs : list Certificate) : Prop :=
  exists der certs0 seq seq', trusted_der boot der /\ parseDERCerts der = Ok certs0 /\ rotation certs0 seq certs seq'.

(** A pointer set taken from a list of the lists signed by a trusted set. *)
Record authentic_pointers (boot : Bootstrap) (ps : pointerSet) : Prop := {
  ap_lotl : exists certs wall raw verified signer lotl,
    trusted_certs boot certs /\ Verify wall raw certs = Ok (verified, signer) /\ Parse verified = Ok lotl /\
    si_TSLType (tl_SchemeInformation lotl) = TSLTypeEUListOfTheLists /\ ps = lotlPointerSet lotl
}.

(** An anchor extracted from a national list of [code] signed by certificates
    that such a pointer set names for it. *)
Record authentic (boot : Bootstrap) (code : string) (a : Anchor) : Prop := {
  au_list : exists ps lp pinned wall raw verified signer tl anchors ws now b,
    authentic_pointers boot ps /\ ps_pointerFor ps code = Ok lp /\ parseDERCerts (lp_SignersDER lp) = Ok pinned /\
    Verify wall raw pinned = Ok (verified, signer) /\ Parse verified = Ok tl /\
    si_SchemeTerritory (tl_SchemeInformation tl) = code /\
    ExtractAnchors tl code (AcceptedStatuses cfg) (AcceptedServiceTypes cfg) now = Ok (anchors, ws) /\
    b ∈ anchors /\ a = stamp_sequence (TSLSequenceNumber (tl_SchemeInformation tl)) b
}.

(** Everything in a snapshot is accounted for; [loads] loads of the operator's files
    were made so far. *)
Record authentic_snapshot (loads : nat) (boot : Bootstrap) (s : Snapshot) : Prop := {
  as_signers : s_LOTLSignersDER s = [] \/ trusted_der boot (s_LOTLSignersDER s);
  as_pointers : s_LOTLPointers s = [] \/ authentic_pointers boot (s_LOTLPointers s);
  as_anchors : forall t a, t ∈ s_Territories s -> a ∈ t_Anchors t -> authentic boot (t_Code t) a;
  as_pending : forall pa, pa ∈ s_Pending s -> authentic boot (a_Territory (p_Anchor pa)) (p_Anchor pa);
  as_internal : s_Internal s = [] \/ exists load now, (load < loads)%nat /\
    LoadInternal load (InternalTrustSource cfg) now = Ok (s_Internal s)
}.

Lemma authentic_later n n' boot s : (n <= n')%nat -> authentic_snapshot n boot s -> authentic_snapshot n' boot s.
Proof.
  intros Hn [? ? ? ? Hi]. split; [done..|]. destruct Hi as [?|(load & now & ? & ?)]; [by left|right].
  exists load, now. split; [lia|done].
Qed.

Lemma authentic_territory boot code a : authentic boot code a -> a_Territory a = code.
Proof.
  intros [(ps & lp & pinned & wall & raw & verified & signer & tl & anchors & ws & now & b &
    _ & _ & _ & _ & _ & _ & Hx & Hb & ->)].
  exact (extract_territory _ _ _ _ _ _ _ _ Hx Hb).
Qed.

(** ** One cycle *)

Lemma lotl_pinned_trusted n boot prev der seq :
  (forall p, prev = Some p -> authentic_snapshot n boot p) -> lotl_pinned prev boot = Ok (der, seq) -> trusted_der boot der.
Proof.
  intros Hp. unfold lotl_pinned.
  assert (Hb : (let? certs := Bootstrap_Certificates boot in Ok (certsDER certs, 0)) = Ok (der, seq) -> trusted_der boot der).
  { intros H. destruct (Bootstrap_Certificates boot) as [certs|] eqn:E; [|done]. injection H as <- _. by constructor. }
  destruct prev as [p|]; [|done]. case_bool_decide as Hl; [|done]. intros [= <- _].
  destruct (as_signers _ _ _ (Hp p eq_refl)) as [E|?]; [|done]. rewrite E in Hl. simpl in Hl. lia.
Qed.

Lemma lotl_from_trusted n boot prev now res :
  (forall p, prev = Some p -> authentic_snapshot n boot p) -> lotl_from prev boot now res ->
  (lr_signersDER res = [] \/ trusted_der boot (lr_signersDER res)) /\ authentic_pointers boot (lr_pointers res).
Proof.
  intros Hp. destruct 1 as [p -> Hs|der seq pinned src src' raw lotl Hpin Hc _ _ Hok]; simpl.
  - destruct (Hp p eq_refl) as [Hsg Hpt _ _ _]. split; [done|].
    unfold lotl_skip_ok in Hs. rewrite !andb_true_iff, !bool_decide_eq_true in Hs.
    destruct Hpt as [E|?]; [|done]. rewrite E in Hs. simpl in Hs. lia.
  - assert (Ht : trusted_certs boot (eu_signers src')).
    { exists der, pinned. destruct (lo_signers _ _ _ _ _ Hok) as [[-> _]|Hr].
      - exists 0, 0. split_and!; [by eapply lotl_pinned_trusted|done|constructor].
      - eexists _, _. split_and!; [by eapply lotl_pinned_trusted|done|exact Hr]. }
    split.
    + right. destruct Ht as (d & certs0 & s0 & s1 & Hd & Hc0 & Hr). by eapply td_rotate.
    + destruct (lo_signed _ _ _ _ _ Hok) as (wall & verified & signer & Hv & Hpar). split.
      exists (eu_signers src'), wall, (raw_Bytes raw), verified, signer, lotl.
      split_and!; [done..|by eapply lo_type|done].
Qed.

Lemma entry_authentic n boot ps prev now code t a :
  (forall p, prev = Some p -> authentic_snapshot n boot p) -> authentic_pointers boot ps ->
  data_from cfg ps prev now code t \/ failed_from prev code t -> a ∈ t_Anchors t -> authentic boot (t_Code t) a.
Proof.
  intros Hp Hps [Hd|(err & -> & _)] Ha; [|by apply elem_of_nil in Ha].
  rewrite (data_from_code _ _ _ _ _ _ Hd).
  assert (Hprev : forall t0, prev_territory prev code = Some t0 -> a ∈ t_Anchors t0 -> authentic boot code a).
  { intros t0 Ht0 Ha0. unfold prev_territory in Ht0. destruct prev as [p|]; [|done]. simpl in Ht0.
    apply Snapshot_Territory_Some in Ht0 as [Hin <-]. by eapply as_anchors; [apply Hp|..]. }
  destruct Hd as [raw tl anchors ws Hv|t0 Ht0 _|t0 r Ht0 _]; [|by eapply Hprev..].
  simpl in Ha. apply list_elem_of_fmap in Ha as (b & -> & Hb).
  destruct Hv as [(lp & pinned & wall & verified & signer & Hl & Hpd & Hv & Hpar) Ht _ Hx].
  split. by exists ps, lp, pinned, wall, (raw_Bytes raw), verified, signer, tl, anchors, ws, now, b.
Qed.

Lemma cycle_authentic load n boot prev next :
  (load <= n)%nat -> (forall p, prev = Some p -> authentic_snapshot n boot p) -> cycle_ok cfg load prev boot next ->
  authentic_snapshot (S n) boot next.
Proof.
  intros Hn Hp [(now & res & ts & Hl & Hts & _ & _ & _ & _ & Hsg & _ & Hpt & _ & Ht & Hpd & Hi) _ _ _ _].
  destruct (lotl_from_trusted _ _ _ _ _ Hp Hl) as [Hsig Hps].
  assert (Hall : forall t a, t ∈ ts -> a ∈ t_Anchors t -> authentic boot (t_Code t) a).
  { intros t a Hin Ha. apply list_elem_of_lookup in Hin as [i Hti].
    destruct (Forall2_lookup_r _ _ _ _ _ Hts Hti) as (code & _ & Hd). by eapply entry_authentic. }
  split.
  - by rewrite Hsg.
  - right. by rewrite Hpt.
  - rewrite Ht. destruct (str_eqb _ ModeHold); [|done]. intros t a (t0 & -> & Hin)%list_elem_of_fmap Ha.
    simpl in *. apply list_elem_of_In, List.filter_In in Ha as [Ha _]. by apply Hall, list_elem_of_In.
  - rewrite Hpd. destruct (str_eqb _ ModeHold); [|by intros ? ?%elem_of_nil].
    intros pa. rewrite elem_of_sort_Slice. intros (t & Hin & Hpa)%list_elem_of_In%List.in_flat_map.
    apply list_elem_of_In in Hin. apply list_elem_of_In in Hpa. unfold hold_pending in Hpa.
    apply list_elem_of_omap in Hpa as (a & Ha & Hheld).
    assert (Ea : p_Anchor pa = a) by (unfold held_as in Hheld; by destruct (hold_fate _ _ _ _ _); simplify_eq).
    rewrite Ea. pose proof (Hall t a Hin Ha) as Hau. by rewrite (authentic_territory _ _ _ Hau).
  - rewrite Hi. destruct (LoadInternal _ _ now) as [set|e] eqn:E; [right; exists load, now; by split; [lia|]|].
    destruct prev as [p|]; [|by left]. exact (as_internal _ _ _ (authentic_later n (S n) boot p ltac:(lia) (Hp p eq_refl))).
Qed.

Lemma Refresh_authentic boot prev w next w' :
  (forall p, prev = Some p -> authentic_snapshot (w_loads w) boot p) -> Pipeline.Refresh cfg prev boot w = (Ok next, w') ->
  authentic_snapshot (w_loads w') boot next.
Proof. intros Hp [H ->]%Refresh_cycle_loads. by eapply (cycle_authentic _ _ boot prev). Qed.

(** ** Reconciles and approvals *)

Lemma authentic_stored n boot s : authentic_snapshot n boot s -> authentic_snapshot n boot (stored s).
Proof. intros []. by split. Qed.

Lemma RefreshDeclared_authentic {CL : CodecLaws} boot p now w next rep w' :
  authentic_snapshot (w_loads w) boot p -> RefreshDeclared cfg (Some p) now w = (Ok (Some next, rep), w') ->
  authentic_snapshot (w_loads w') boot next.
Proof.
  unfold RefreshDeclared. intros Hp H. step_Ok H. apply clone_stored in Hs as ->.
  apply eff_bind_Ok in H as ([next1 rep1] & w1 & Hd & H).
  apply applyDeclaredSources_run in Hd as (Hn & state & Hd). injection Hd as -> ->.
  destruct (str_eqb _ _) in H; [done|]. injection H as <- _ <-. rewrite Hn.
  apply (authentic_later _ (S (w_loads w))) in Hp; [|lia]. destruct Hp as [? ? ? ? Hi]. split; simpl; [done..|].
  destruct (LoadInternal _ _ now) as [set|e] eqn:E; [right; exists (w_loads w), now; by split; [lia|]|done].
Qed.

Lemma update_first_elem code f ts t :
  t ∈ update_first code f ts -> t ∈ ts \/ exists t0, t0 ∈ ts /\ t_Code t0 = code /\ t = f t0.
Proof.
  induction ts as [|x ts IH]; simpl; [by intros ?%elem_of_nil|].
  destruct (str_eqb (t_Code x) code) eqn:E; intros [->|Hin]%elem_of_cons.
  - right. exists x. apply str_eqb_eq in E. split_and!; [apply list_elem_of_here|done..].
  - left. by apply list_elem_of_further.
  - left. apply list_elem_of_here.
  - destruct (IH Hin) as [?|(t0 & ? & ? & ?)]; [left; by apply list_elem_of_further|right].
    exists t0. split_and!; [by apply list_elem_of_further|done..].
Qed.

(** An anchor of the new territories is the one added, under its own code, or
    an anchor of an old entry of the same code. *)
Lemma add_anchor_elem a ts t x :
  t ∈ add_anchor a ts -> x ∈ t_Anchors t ->
  x = a /\ t_Code t = a_Territory a \/ exists t0, t0 ∈ ts /\ t_Code t0 = t_Code t /\ x ∈ t_Anchors t0.
Proof.
  unfold add_anchor. set (ts' := if bool_decide _ then ts else _). intros Ht Hx.
  assert (H' : forall t0, t0 ∈ ts' -> t0 ∈ ts \/ t_Anchors t0 = []).
  { intros t0. subst ts'. case_bool_decide; [by left|].
    rewrite elem_of_sort_Slice, elem_of_app, list_elem_of_singleton. intros [?| ->]; [by left|by right]. }
  apply update_first_elem in Ht as [Ht|(t0 & Ht & Hc & ->)].
  - right. destruct (H' t Ht) as [?|E]; [by exists t|]. rewrite E in Hx. by apply elem_of_nil in Hx.
  - simpl in *. rewrite elem_of_sort_Slice, elem_of_app, list_elem_of_singleton in Hx.
    destruct Hx as [Hx| ->]; [right|by left]. destruct (H' t0 Ht) as [?|E]; [by exists t0|].
    rewrite E in Hx. by apply elem_of_nil in Hx.
Qed.

Lemma approve_stored_authentic n boot cur idx pa now :
  authentic_snapshot n boot cur -> s_Pending cur !! idx = Some pa ->
  authentic_snapshot n boot (approve_in cur (stored cur) idx pa now).
Proof.
  intros [Hs Hp Ha Hpd Hi] Hl. split; simpl; [done..| | |done].
  - intros t x Ht Hx. destruct (add_anchor_elem _ _ _ _ Ht Hx) as [[-> ->]|(t0 & Ht0 & <- & Hx0)]; [|by eapply Ha].
    apply Hpd. by eapply list_elem_of_lookup_2.
  - intros q Hq. apply Hpd. by apply list_elem_of_delete_inv in Hq.
Qed.

Lemma approve_authentic {CL : CodecLaws} n boot cur clone idx pa now :
  authentic_snapshot n boot cur -> cloneSnapshot cur = Ok clone -> s_Pending clone !! idx = Some pa ->
  authentic_snapshot n boot (approve_in cur clone idx pa now).
Proof. intros H ->%clone_stored. exact (approve_stored_authentic n boot cur idx pa now H). Qed.

(** ** Properties *)

Section Service.
Context {CL : CodecLaws} {St : Type} {ST : Store St} {SL : StoreLaws St}.

Definition authentic_Q (boot : Bootstrap) (w : world) (s : Snapshot) : Prop := authentic_snapshot (w_loads w) boot s.

Lemma authentic_Q_later boot w w' s : later w w' -> authentic_Q boot w s -> authentic_Q boot w' s.
Proof. intros [_ Hn]. by apply authentic_later. Qed.

Lemma authentic_Q_stored boot w s : authentic_Q boot w s -> authentic_Q boot w (stored s).
Proof. apply authentic_stored. Qed.

Lemma authentic_Q_declared boot p now w next rep w' :
  authentic_Q boot w p ->
  rf_RefreshDeclared (Refresher := Pipeline_Refresher cfg) p now w = (Ok (Some next), rep, w') -> authentic_Q boot w' next.
Proof. intros Hp H%Pipeline_declared. by eapply RefreshDeclared_authentic. Qed.

Lemma run_authentic (m : Manager St) os m' :
  installed (RF := Pipeline_Refresher cfg) m -> run (RF := Pipeline_Refresher cfg) m os m' ->
  exists boot, m_bootstrap m' = Some boot /\ (lasting (m_store m) = true -> m_bootstrap m = Some boot) /\
    (forall s, m_active m' = Some s -> authentic_snapshot (w_loads (m_world m')) boot s) /\
    (forall s, held_snapshot (m_store m') = Ok (Some s) -> authentic_snapshot (w_loads (m_world m')) boot s).
Proof.
  intros Hi Hr. pose proof (Pipeline_laws cfg) as PL.
  pose proof (installed_inv (RF := Pipeline_Refresher cfg) m Hi) as Hinv.
  pose proof (installed_Q (RF := Pipeline_Refresher cfg) authentic_Q authentic_Q_later authentic_Q_stored
    authentic_Q_declared m Hi) as H0.
  destruct (run_Q (RF := Pipeline_Refresher cfg) authentic_Q authentic_Q_later authentic_Q_stored
    (fun b prev w next w' => Refresh_authentic b prev w next w') authentic_Q_declared
    (fun b w => approve_authentic (w_loads w) b) m os m' Hr Hinv H0) as (boot & Hb & H1 & H2).
  apply run_keeps in Hr as (_ & _ & Hk); [|done]. exists boot. split_and!; [done| |done..].
  intros Hl. by rewrite <-(Hk Hl).
Qed.

(** C1 End to end: in any run of the service from a first install - cycles with
    any network answers, failures, reconciles, approvals and restarts, in any
    order - every anchor served for a territory, and every one pending, was
    extracted from a national list of that territory, signed by certificates
    named for it in a list of the lists, itself signed by a set that follows from
    the operator's bootstrap through pivots each signed by the set before; the
    declared anchors are the operator's file as one of the loads made so far read it,
    whole; and the stored snapshot a restart would serve is of the same kind.  The
    bootstrap is the one in force, and the one first installed when the store
    outlives the process. *)
Theorem served_is_authentic (m : Manager St) os m' :
  installed (RF := Pipeline_Refresher cfg) m -> run (RF := Pipeline_Refresher cfg) m os m' ->
  exists boot, m_bootstrap m' = Some boot /\ (lasting (m_store m) = true -> m_bootstrap m = Some boot) /\
    (forall s, m_active m' = Some s -> authentic_snapshot (w_loads (m_world m')) boot s) /\
    (forall s, held_snapshot (m_store m') = Ok (Some s) -> authentic_snapshot (w_loads (m_world m')) boot s).
Proof. apply run_authentic. Qed.
End Service.
End Provenance.
