(* ===== verification/Wellformed.v ===== *)
(** * The shape of every snapshot

    What holds of the data of any snapshot the service ever serves or stores,
    and that this is what the content id and the diff need. *)

From S2P Require Import Prelude Model ContentId Diff Tsl CertBody Slices Extract ExtractProps Internal.
From S2P Require Import Store Fetcher Verify Sources Pipeline PipelineProps Cycle Telemetry Manager ManagerProps.
From S2P Require Import Service Provenance Samples Demo.

(** ** Lists of keys *)

(** Keys that name their group are unique when the groups are, and each group's
    own keys are. *)
Lemma NoDup_grouped {A B G K} `{EqDecision G} (group : A -> G) (items : A -> list B) (key : B -> G * K) (l : list A) :
  NoDup (group <$> l) ->
  (forall t, t ∈ l -> NoDup (key <$> items t)) ->
  (forall t x, t ∈ l -> x ∈ items t -> (key x).1 = group t) ->
  NoDup (key <$> flat_map items l).
Proof.
  induction l as [|t l IH]; csimpl; [constructor|]. rewrite NoDup_cons. intros [Hni Hnd] Hi Hg.
  rewrite fmap_app, NoDup_app. split_and!; [set_solver| |apply IH; set_solver].
  intros k (x & -> & Hx)%list_elem_of_fmap (y & E & Hy)%list_elem_of_fmap.
  apply elem_of_flat_map in Hy as (t' & Ht' & Hy). apply Hni, list_elem_of_fmap. exists t'. split; [|done].
  rewrite <-(Hg t x), <-(Hg t' y) by set_solver. by rewrite E.
Qed.

Lemma NoDup_fmap_filter {A B} (f : A -> B) (P : A -> bool) (l : list A) :
  NoDup (f <$> l) -> NoDup (f <$> List.filter P l).
Proof.
  induction l as [|x l IH]; csimpl; [done|]. rewrite NoDup_cons. intros [Hni Hnd].
  destruct (P x); csimpl; [|by apply IH]. apply NoDup_cons. split; [|by apply IH].
  intros (y & E & Hy)%list_elem_of_fmap. apply Hni, list_elem_of_fmap. exists y. split; [done|].
  by apply list_elem_of_In, List.filter_In in Hy as [?%list_elem_of_In _].
Qed.

Lemma NoDup_fmap_omap {A B C} (f : A -> C) (g : B -> C) (h : A -> option B) (l : list A) :
  (forall x y, h x = Some y -> g y = f x) -> NoDup (f <$> l) -> NoDup (g <$> omap h l).
Proof.
  intros Hh. induction l as [|x l IH]; csimpl; [constructor|]. rewrite NoDup_cons. intros [Hni Hnd].
  destruct (h x) as [y|] eqn:E; csimpl; [|by apply IH]. apply NoDup_cons. split; [|by apply IH].
  rewrite (Hh _ _ E). intros (z & Ez & (x' & Hx' & E')%list_elem_of_omap)%list_elem_of_fmap.
  apply Hni, list_elem_of_fmap. exists x'. split; [|done]. by rewrite Ez, (Hh _ _ E').
Qed.

Lemma hex_slash_free b : slash_free (hex_EncodeToString b) = true.
Proof.
  unfold hex_EncodeToString. induction b as [|c b IH]; [done|]. cbn [str_flat_map].
  assert (Hc : forall c, exists h l, hex_byte c = String h (String l "") /\ h <> slash /\ l <> slash).
  { intros c0. eexists _, _. split; [done|].
    assert (Hd : forall n, (n < 16)%N -> hex_digit n <> slash).
    { intros n Hn E. unfold hex_digit in E. apply (f_equal Ascii.N_of_ascii) in E.
      destruct (N.ltb_spec n 10); rewrite Ascii.N_ascii_embedding in E by lia; unfold slash in E; vm_compute (Ascii.N_of_ascii _) in E; lia. }
    split; apply Hd; [|by apply N.mod_lt]. apply N.Div0.div_lt_upper_bound. apply (N.lt_le_trans _ 256); [apply Ascii.N_ascii_bounded|done]. }
  destruct (Hc c) as (h & l & -> & Hh & Hl). rewrite !app_cons_s, app_nil_s. unfold slash_free in *. simpl.
  by rewrite (bool_decide_eq_false_2 (h = slash)), (bool_decide_eq_false_2 (l = slash)), IH by done.
Qed.

(** ** The invariant *)

Section Shape.
Context {X : X509} {AS : Asn1}.

(** A listed anchor of territory [code]. *)
Record anchor_ok (code : string) (a : Anchor) : Prop := {
  ao_territory : a_Territory a = code;
  ao_source : a_Source a = SourceTL;
  ao_cert : cert_keyed a
}.

Record entry_ok (t : Territory) : Prop := {
  eo_fps : NoDup (a_FingerprintSHA256 <$> t_Anchors t);
  eo_anchors : forall a, a ∈ t_Anchors t -> anchor_ok (t_Code t) a;
  eo_failed : t_Failed t = true -> t_Anchors t = []
}.

Definition place (a : Anchor) : string * string := (a_Territory a, a_FingerprintSHA256 a).

(** A declared anchor. *)
Definition declared_ok (a : Anchor) : Prop :=
  a_Source a = SourceInternal /\ servable_type (a_Type a) /\ cert_keyed a.

Record snapshot_ok (s : Snapshot) : Prop := {
  so_codes : NoDup (t_Code <$> s_Territories s);
  so_entries : forall t, t ∈ s_Territories s -> entry_ok t;
  so_pending : NoDup ((place ∘ p_Anchor) <$> s_Pending s);
  so_held : forall pa, pa ∈ s_Pending s -> anchor_ok (a_Territory (p_Anchor pa)) (p_Anchor pa) /\
    exists t, t ∈ s_Territories s /\ t_Code t = a_Territory (p_Anchor pa) /\ t_Failed t = false /\
      a_FingerprintSHA256 (p_Anchor pa) ∉ a_FingerprintSHA256 <$> t_Anchors t;
  so_declared : NoDup (fp_type <$> s_Internal s);
  so_declared_ok : Forall declared_ok (s_Internal s)
}.

Lemma so_entry_unique s t t' :
  snapshot_ok s -> t ∈ s_Territories s -> t' ∈ s_Territories s -> t_Code t = t_Code t' -> t = t'.
Proof. intros Hs. by apply NoDup_fmap_inj, so_codes. Qed.

Lemma stored_ok s : snapshot_ok s -> snapshot_ok (stored s).
Proof. intros []. by split. Qed.

(** ** What the id and the diff ask for *)

Lemma snapshot_ok_id s : snapshot_ok s -> id_wf s.
Proof.
  intros [Hc He _ _ Hd _]. unfold id_wf, healthy. split_and!; [|intros t [_ Ht]%list_elem_of_filter; by apply He|done].
  eapply sublist_NoDup; [exact Hc|]. apply fmap_sublist, sublist_filter.
Qed.

Definition codes_plain (s : Snapshot) : Prop :=
  forall t, t ∈ s_Territories s -> slash_free (t_Code t) = true /\ t_Code t <> "internal".

Lemma snapshot_ok_index s : snapshot_ok s -> codes_plain s -> index_wf s.
Proof.
  intros [Hc He _ _ Hd Hdo] Hp. rewrite Forall_forall in Hdo.
  assert (Hfp : forall t a, t ∈ s_Territories s -> a ∈ t_Anchors t -> slash_free (a_FingerprintSHA256 a) = true).
  { intros t a Ht Ha. destruct (ao_cert _ _ (eo_anchors _ (He t Ht) a Ha)) as [-> _]. apply hex_slash_free. }
  assert (Hdfp : forall a, a ∈ s_Internal s -> slash_free (a_FingerprintSHA256 a) = true).
  { intros a Ha. destruct (Hdo a Ha) as (_ & _ & -> & _). apply hex_slash_free. }
  split; [done..|]. unfold index_entries. rewrite fmap_app. apply NoDup_app. split_and!.
  - set (pairs := flat_map (fun t => (fun a => (t_Code t, a_FingerprintSHA256 a)) <$> t_Anchors t) (s_Territories s)).
    assert (E : (flat_map (fun t => (fun a => (territory_key (t_Code t) (a_FingerprintSHA256 a), mkIndexed a (t_Code t)))
        <$> t_Anchors t) (s_Territories s)).*1 = (fun p : string * string => territory_key p.1 p.2) <$> pairs).
    { subst pairs. clear. induction (s_Territories s) as [|t ts IH]; [done|]. simpl. rewrite !fmap_app, IH. f_equal.
      by rewrite <-!list_fmap_compose. }
    rewrite E. apply NoDup_fmap_2_strong.
    + intros [c1 f1] [c2 f2] H1 H2 Ek. simpl in Ek. subst pairs.
      apply elem_of_flat_map in H1 as (t1 & Ht1 & (a1 & [= -> ->] & Ha1)%list_elem_of_fmap).
      apply elem_of_flat_map in H2 as (t2 & Ht2 & (a2 & [= -> ->] & Ha2)%list_elem_of_fmap).
      apply territory_key_inj in Ek as [-> ->]; [done|by apply Hp..].
    + rewrite <-(list_fmap_id pairs). apply (NoDup_grouped t_Code); [done|..].
      * intros t Ht. rewrite list_fmap_id. apply (NoDup_fmap_1 snd). rewrite <-list_fmap_compose.
        by apply (eo_fps _ (He t Ht)).
      * by intros t p _ (a & -> & _)%list_elem_of_fmap.
  - intros k (x & -> & Hx)%list_elem_of_fmap (y & E & Hy)%list_elem_of_fmap.
    apply elem_of_flat_map in Hx as (t & Ht & (a & -> & Ha)%list_elem_of_fmap).
    apply list_elem_of_fmap in Hy as (b & -> & Hb). simpl in E.
    exact (territory_internal_key _ _ _ _ (proj1 (Hp t Ht)) (Hfp t a Ht Ha) E).
  - rewrite <-list_fmap_compose.
    change (NoDup ((fun a => internal_key (fp_type a).1 (fp_type a).2) <$> s_Internal s)).
    rewrite (list_fmap_compose fp_type (fun p => internal_key p.1 p.2)). apply NoDup_fmap_2_strong; [|done].
    intros [f1 t1] [f2 t2] (a1 & [= -> ->] & H1)%list_elem_of_fmap (a2 & [= -> ->] & H2)%list_elem_of_fmap Ek.
    simpl in Ek. by apply internal_key_inj in Ek as [-> ->]; [|auto..].
Qed.
End Shape.

(** ** One cycle *)

Section Kept.
Context {X : X509} {AS : Asn1} {AL : GoAlloc} {SO : GoSort} {RA : GoRange} {N : Net} {XD : XmlDsig} {XM : XML}
  {FI : Files} {YA : Yaml} {CO : Codec} (cfg : Config).

(** The fingerprint and the key names of an identity are those of its certificate. *)
Lemma der_outcome_raw tsp sn der id :
  der_outcome tsp sn der = inl id ->
  id_fingerprintSHA256 id = fingerprintDER (id_raw id) /\
  (id_keyAlgorithm id, id_curve id) = spkiAlgorithm (id_raw id).
Proof.
  unfold der_outcome, identityFromCertificate. intros H.
  destruct (x509_ParseCertificate der) as [cert|err].
  - destruct (spkiAlgorithm (cert_Raw cert)) as [alg curve] eqn:E. by simplify_eq/=.
  - destruct (negb _); [by destruct (spkiAlgorithm der)|].
    destruct (decodeCertificateBody der) as [body|] eqn:E; [|done]. simplify_eq/=. unfold spkiAlgorithm. by rewrite E.
Qed.

Lemma extract_anchor_ok tl code sts tys now anchors ws a :
  ExtractAnchors tl code sts tys now = Ok (anchors, ws) -> a ∈ anchors -> anchor_ok code a.
Proof.
  intros E Ha. destruct (extract_entry _ _ _ _ _ _ _ _ E Ha) as (pl & [[tsp info] id] & _ & Ho & Hs).
  pose proof (f_equal a_Territory Hs) as H1. pose proof (f_equal a_Source Hs) as H2.
  pose proof (f_equal a_FingerprintSHA256 Hs) as H3. pose proof (f_equal a_CertDER Hs) as H4.
  pose proof (f_equal a_KeyAlgorithm Hs) as H5. pose proof (f_equal a_Curve Hs) as H6. simpl in *.
  split; [done..|]. unfold cert_keyed. rewrite H3, H4, H5, H6. unfold occurrences in Ho. apply elem_of_flat_map in Ho as (e & _ & Ho).
  destruct (accepted _ _ e); [|by apply elem_of_nil in Ho]. apply list_elem_of_fmap in Ho as (id' & [= -> -> ->] & Ho).
  unfold identities, serviceIdentities in Ho. destruct (CertificateDERs _) as [ders|]; [|by apply elem_of_nil in Ho].
  simpl in Ho. apply list_elem_of_omap in Ho as (o & (der & -> & _)%list_elem_of_fmap & Hl).
  destruct (der_outcome "" "" der) as [id0|] eqn:Ed; [|done]. injection Hl as ->. by eapply der_outcome_raw.
Qed.

Lemma new_territory_ok code raw tl anchors ws now :
  ExtractAnchors tl code (AcceptedStatuses cfg) (AcceptedServiceTypes cfg) now = Ok (anchors, ws) ->
  entry_ok (new_territory code raw tl anchors ws).
Proof.
  intros E. split; [|simpl|done].
  - simpl. rewrite <-list_fmap_compose. by apply ExtractAnchors_NoDup in E.
  - intros a (b & -> & Hb)%list_elem_of_fmap. destruct (extract_anchor_ok _ _ _ _ _ _ _ _ E Hb). by split.
Qed.

Lemma cycle_entry_ok ps prev now code t :
  (forall p, prev = Some p -> snapshot_ok p) ->
  data_from cfg ps prev now code t \/ failed_from prev code t -> entry_ok t /\ t_Code t = code.
Proof.
  intros Hp [Hd|(err & -> & _)].
  2: { split; [|done]. split; simpl; [constructor|by intros a ?%elem_of_nil|done]. }
  split; [|by eapply data_from_code].
  assert (Hprev : forall t0, prev_territory prev code = Some t0 -> entry_ok t0).
  { intros t0 Ht0. unfold prev_territory in Ht0. destruct prev as [p|]; [|done].
    apply Snapshot_Territory_Some in Ht0 as [Hin _]. by apply (so_entries _ (Hp p eq_refl)). }
  destruct Hd as [raw tl anchors ws Hv|t0 Ht0 _|t0 r Ht0 _].
  - by eapply new_territory_ok, vl_extract.
  - destruct (Hprev _ Ht0). by split.
  - destruct (Hprev _ Ht0). by split.
Qed.

(** What the hold leaves of an entry, and what it sets aside. *)
Lemma hold_result_ok prev now t : entry_ok t -> entry_ok (hold_result cfg prev now t).
Proof.
  intros [Hn Ha Hf]. split; simpl.
  - by apply NoDup_fmap_filter.
  - intros a [Hin _]%list_elem_of_In%List.filter_In. by apply Ha, list_elem_of_In.
  - intros E. by rewrite (Hf E).
Qed.

Lemma hold_pending_elem prev now t pa :
  pa ∈ hold_pending cfg prev now t ->
  p_Anchor pa ∈ t_Anchors t /\ is_held (hold_fate (HoldAutoRelease cfg) prev now (t_Code t) (p_Anchor pa)) = true.
Proof.
  unfold hold_pending. intros (a & Ha & Hh)%list_elem_of_omap. unfold held_as in Hh.
  destruct (hold_fate _ _ _ _ a) as [| |fs isNew] eqn:E; try done. injection Hh as <-. simpl. by rewrite E.
Qed.

Lemma hold_disjoint prev now t pa :
  entry_ok t -> pa ∈ hold_pending cfg prev now t ->
  a_FingerprintSHA256 (p_Anchor pa) ∉ a_FingerprintSHA256 <$> t_Anchors (hold_result cfg prev now t).
Proof.
  intros He [Ha Hh]%hold_pending_elem (b & E & Hb)%list_elem_of_fmap. simpl in Hb.
  apply list_elem_of_In, List.filter_In in Hb as [Hb%list_elem_of_In Hk].
  assert (p_Anchor pa = b) as <- by (by eapply NoDup_fmap_inj; [apply (eo_fps _ He)|..]).
  by rewrite Hh in Hk.
Qed.

Lemma held_pending_ok prev now ts :
  NoDup (t_Code <$> ts) -> (forall t, t ∈ ts -> entry_ok t) ->
  NoDup ((place ∘ p_Anchor) <$> flat_map (hold_pending cfg prev now) ts).
Proof.
  intros Hc He. apply (NoDup_grouped t_Code); [done|..].
  - intros t Ht. eapply (NoDup_fmap_omap place).
    { unfold held_as. intros a pa Hh. by destruct (hold_fate _ _ _ _ a); simplify_eq. }
    apply (NoDup_fmap_1 snd). rewrite <-list_fmap_compose. by apply He.
  - intros t pa Ht [Ha _]%hold_pending_elem. simpl. by apply (eo_anchors _ (He t Ht)).
Qed.

Lemma load_declared_ok load path now set :
  LoadInternal load path now = Ok set -> NoDup (fp_type <$> set) /\ Forall declared_ok set.
Proof.
  intros H. apply LoadInternal_wf in H as (Hok & Hnd & _). split; [done|]. eapply Forall_impl; [exact Hok|].
  intros a [Hs Ht _ (cert & der & _ & Hd & Hfp & _) Hk]. split_and!; [done..|]. split; [|done]. by rewrite Hfp, Hd.
Qed.

Lemma Refresh_ok boot prev w next w' :
  (forall p, prev = Some p -> snapshot_ok p) -> Pipeline.Refresh cfg prev boot w = (Ok next, w') -> snapshot_ok next.
Proof.
  intros Hp [(now & res & ts & _ & Hts & _ & _ & _ & _ & _ & _ & _ & _ & Ht & Hpd & Hi) _ _ _ _]%Refresh_cycle.
  assert (Hall : Forall2 (fun code t => entry_ok t /\ t_Code t = code)
    (expandTerritories (cfg_Territories cfg) (lr_pointers res)) ts).
  { eapply Forall2_impl; [exact Hts|]. intros code t Hd. eapply cycle_entry_ok; [exact Hp|exact Hd]. }
  assert (Hc : NoDup (t_Code <$> ts)).
  { pose proof (proj1 (expandTerritories_spec (cfg_Territories cfg) (lr_pointers res))) as Hnd.
    assert (E : t_Code <$> ts = expandTerritories (cfg_Territories cfg) (lr_pointers res)); [|by rewrite E].
    clear - Hall. induction Hall as [|c t cs ts [_ E] _ IH]; [done|]. csimpl. by rewrite IH, E. }
  assert (He : forall t, t ∈ ts -> entry_ok t).
  { intros t [i Hti]%list_elem_of_lookup. by destruct (Forall2_lookup_r _ _ _ _ _ Hall Hti) as (c & _ & ? & _). }
  assert (Hd : NoDup (fp_type <$> s_Internal next) /\ Forall declared_ok (s_Internal next)).
  { rewrite Hi. destruct (LoadInternal _ _ now) as [set|e] eqn:E; [by eapply load_declared_ok|].
    destruct prev as [p|]; [|by split; constructor]. by destruct (Hp p eq_refl). }
  destruct Hd as [Hd1 Hd2]. split; [..|done|done]; rewrite ?Ht, ?Hpd; destruct (str_eqb _ ModeHold).
  - by rewrite <-list_fmap_compose.
  - done.
  - intros t (t0 & -> & Hin)%list_elem_of_fmap. by apply hold_result_ok, He.
  - done.
  - rewrite (fmap_Permutation _ _ _ (sort_Slice_perm _ _)). by apply held_pending_ok.
  - constructor.
  - intros pa. rewrite elem_of_sort_Slice, elem_of_flat_map. intros (t & Hin & Hpa).
    destruct (hold_pending_elem _ _ _ _ Hpa) as [Ha _]. pose proof (eo_anchors _ (He t Hin) _ Ha) as Hok.
    rewrite (ao_territory _ _ Hok). split; [done|]. exists (hold_result cfg prev now t).
    split_and!; [by apply list_elem_of_fmap_2|done| |by apply hold_disjoint; [apply He|]].
    simpl. destruct (t_Failed t) eqn:Ef; [|done]. rewrite (eo_failed _ (He t Hin) Ef) in Ha. by apply elem_of_nil in Ha.
  - by intros pa ?%elem_of_nil.
Qed.

(** ** Reconciles and approvals *)

Lemma RefreshDeclared_snapshot_ok {CL : CodecLaws} p now w next rep w' :
  snapshot_ok p -> RefreshDeclared cfg (Some p) now w = (Ok (Some next, rep), w') -> snapshot_ok next.
Proof.
  unfold RefreshDeclared. intros Hp H. step_Ok H. apply clone_stored in Hs as ->.
  apply eff_bind_Ok in H as ([next1 rep1] & w1 & Hd & H).
  apply applyDeclaredSources_run in Hd as (_ & state & Hd). injection Hd as -> ->.
  destruct (str_eqb _ _) in H; [done|]. injection H as <- _ _.
  destruct Hp as [? ? ? ? ? ?]. split; simpl; [done..| |];
    (destruct (LoadInternal _ _ now) as [set|e] eqn:E; [by apply load_declared_ok in E as []|done]).
Qed.

(** A snapshot with an entry for the approved anchor keeps its list of codes. *)
Lemma add_anchor_known a ts :
  (exists t, t ∈ ts /\ t_Code t = a_Territory a) ->
  t_Code <$> add_anchor a ts = t_Code <$> ts /\
  forall t, t ∈ add_anchor a ts -> t ∈ ts \/ exists t0, t0 ∈ ts /\ t_Code t0 = a_Territory a /\
    t = set_t_Anchors t0 (sort_Slice served_less (t_Anchors t0 ++ [a])).
Proof.
  intros (t1 & Ht1 & E1). unfold add_anchor. rewrite bool_decide_eq_true_2 by (apply Exists_exists; eauto).
  split; [|by intros t Ht%update_first_elem]. clear. induction ts as [|t ts IH]; [done|]. simpl.
  destruct (str_eqb (t_Code t) (a_Territory a)); csimpl; [done|]. by rewrite IH.
Qed.

Lemma approved_entry_ok t a :
  entry_ok t -> anchor_ok (t_Code t) a -> t_Failed t = false ->
  a_FingerprintSHA256 a ∉ a_FingerprintSHA256 <$> t_Anchors t ->
  entry_ok (set_t_Anchors t (sort_Slice served_less (t_Anchors t ++ [a]))).
Proof.
  intros [Hn Ha _] Hok Hf Hni. split; simpl; [| |by rewrite Hf].
  - rewrite (fmap_Permutation _ _ _ (sort_Slice_perm _ _)), fmap_app, NoDup_app. simpl.
    split_and!; [done| |apply NoDup_singleton]. intros x Hx ->%list_elem_of_singleton. done.
  - intros b. rewrite elem_of_sort_Slice, elem_of_app, list_elem_of_singleton. intros [?| ->]; auto.
Qed.

Lemma approve_ok {CL : CodecLaws} cur clone idx pa now :
  snapshot_ok cur -> cloneSnapshot cur = Ok clone -> s_Pending clone !! idx = Some pa ->
  snapshot_ok (approve_in cur clone idx pa now).
Proof.
  intros Hcur ->%clone_stored Hl. simpl in Hl. pose proof Hcur as [Hc He Hpd Hh Hd Hdo].
  destruct (Hh pa (list_elem_of_lookup_2 _ _ _ Hl)) as [Hok (t0 & Ht0 & Ec & Hf & Hni)].
  destruct (add_anchor_known (p_Anchor pa) (s_Territories cur)) as [Hcodes Helem]; [by exists t0|].
  assert (Hmine : forall t, t ∈ s_Territories cur -> t_Code t = a_Territory (p_Anchor pa) -> t = t0).
  { intros t Ht E. eapply so_entry_unique; [exact Hcur|done..|congruence]. }
  split; simpl; [by rewrite Hcodes| | | |done|done].
  - intros t [Ht|(t1 & Ht1 & E1 & ->)]%Helem; [by apply He|]. rewrite (Hmine t1) by done.
    apply approved_entry_ok; [by apply He|by rewrite Ec|done..].
  - rewrite list_fmap_delete. eapply sublist_NoDup; [exact Hpd|apply sublist_delete].
  - intros q Hq. apply list_elem_of_lookup in Hq as [j Hq].
    assert (Hj : exists k, s_Pending cur !! k = Some q /\ k <> idx).
    { destruct (decide (j < idx)%nat).
      - rewrite list_lookup_delete_lt in Hq by lia. exists j. split; [done|lia].
      - rewrite list_lookup_delete_ge in Hq by lia. exists (S j). split; [done|lia]. }
    destruct Hj as (k & Hk & Hne). destruct (Hh q (list_elem_of_lookup_2 _ _ _ Hk)) as [Hqok (t1 & Ht1 & Eq & Hf1 & Hni1)].
    split; [done|]. assert (Hin : t_Code t1 ∈ t_Code <$> add_anchor (p_Anchor pa) (s_Territories cur)).
    { rewrite Hcodes. by apply list_elem_of_fmap_2. }
    apply list_elem_of_fmap in Hin as (t & E & Hin). exists t.
    destruct (Helem t Hin) as [Ht|(t2 & Ht2 & E2 & ->)].
    + assert (t = t1) as -> by (by eapply so_entry_unique). done.
    + simpl in E. assert (t2 = t1) as -> by (by eapply so_entry_unique).
      split_and!; [done|by simpl|done|]. simpl.
      rewrite (fmap_Permutation _ _ _ (sort_Slice_perm _ _)), fmap_app, elem_of_app. simpl. rewrite list_elem_of_singleton.
      intros [?|Efp]; [done|]. apply Hne. apply (NoDup_lookup _ _ _ (place (p_Anchor pa)) Hpd);
        rewrite list_lookup_fmap, ?Hk, ?Hl; simpl; [|done]. f_equal. unfold place. by rewrite Efp, <-Eq, E2.
Qed.

(** ** Runs *)

Section Service.
Context {CL : CodecLaws} {St : Type} {ST : Store St} {SL : StoreLaws St}.

Lemma run_snapshot_ok (m : Manager St) os m' s :
  installed (RF := Pipeline_Refresher cfg) m -> run (RF := Pipeline_Refresher cfg) m os m' ->
  m_active m' = Some s \/ held_snapshot (m_store m') = Ok (Some s) ->
  snapshot_ok s.
Proof.
  intros Hi Hr Hs. pose proof (Pipeline_laws cfg) as PL.
  pose proof (installed_inv (RF := Pipeline_Refresher cfg) m Hi) as Hinv.
  set (Q := fun (_ : Bootstrap) (_ : world) (s : Snapshot) => snapshot_ok s).
  assert (Qs : forall b p now w next rep w', Q b w p ->
    rf_RefreshDeclared (Refresher := Pipeline_Refresher cfg) p now w = (Ok (Some next), rep, w') -> Q b w' next).
  { intros b p now w next rep w' Hp H%Pipeline_declared. by eapply RefreshDeclared_snapshot_ok. }
  assert (Hok : all_Q Q m').
  { eapply (run_Q (RF := Pipeline_Refresher cfg) Q); [..|exact Hr|done|].
    - done.
    - intros b w. apply stored_ok.
    - intros b prev w next w'. apply Refresh_ok.
    - exact Qs.
    - intros b w. apply approve_ok.
    - eapply (installed_Q (RF := Pipeline_Refresher cfg) Q); [done|intros b w; apply stored_ok|exact Qs|done]. }
  destruct Hok as (b & _ & H1 & H2). destruct Hs; [by apply H1|by apply H2].
Qed.

(** C8 The shape of the data: at any point of any run from a first install,
    a snapshot served or stored has one entry per territory code; in an entry one
    anchor per certificate, each a trusted-list anchor of that territory whose
    fingerprint and key names are those of its certificate, and none when the
    territory failed;
    pending anchors are distinct, belong to an entry that has data and are not
    served by it; declared anchors are distinct by certificate and type and of a
    known type.  So the content id is defined without ambiguity, and so is the
    diff when the territory codes are plain. *)
Theorem served_well_formed (m : Manager St) os m' s :
  installed (RF := Pipeline_Refresher cfg) m -> run (RF := Pipeline_Refresher cfg) m os m' ->
  m_active m' = Some s \/ held_snapshot (m_store m') = Ok (Some s) ->
  snapshot_ok s /\ id_wf s /\ (codes_plain s -> index_wf s).
Proof.
  intros Hi Hr Hs. pose proof (run_snapshot_ok m os m' s Hi Hr Hs) as H.
  split_and!; [done|by apply snapshot_ok_id|by apply snapshot_ok_index].
Qed.
End Service.
End Kept.
