(* ===== verification/Crash.v ===== *)
(** * Crashes

    The process can be stopped anywhere in an operation, in particular inside a
    save, whose temporary files and versioned objects ([src/store/fs.go],
    [src/store/s3.go], [src/store/postgres.go]) are then left as they are, and a new
    process starts on what it finds.  The operations are the programs of
    [Concurrent]; what is shown holds of the stores that outlive the process, not of
    the in-memory one.  The save of the bootstrap at the first install is not
    interrupted here. *)

From S2P Require Import Prelude GoTime Model ContentId Diff Tsl CertBody Slices Extract Internal Store.
From S2P Require Import JsonText Wire Procedures Codec RemoteStores Fetcher Verify Sources Pipeline Cycle Telemetry.
From S2P Require Import Manager ManagerProps Service Concurrent Provenance Wellformed.

(** ** Saves that are cut short *)

(** [torn_snapshot s st st']: a save of [s] begun on [st] and not finished has left [st']. *)
Class Interruptible (St : Type) := { torn_snapshot : Snapshot -> St -> St -> Prop }.

(** What the latest pointers show then. *)
Class InterruptibleLaws (St : Type) `{StoreLaws St, Interruptible St} : Prop := {
  torn_held : forall s st st', torn_snapshot s st st' ->
    held_bootstrap st' = held_bootstrap st /\
    (held_snapshot st' = held_snapshot st \/ held_snapshot st' = Ok (Some (stored s)));
  (** the store outlives the process *)
  always_lasting : forall st, lasting st = true
}.

(** *** The file system *)

Section FileTorn.
Context {CO : Codec} {CL : CodecLaws} (dir : string).

(** Some file operation of the save was the last one, and if it was a write it may
    have written a part: that is how a save ends under some schedule of disk
    faults. *)
#[local] Instance FS_Interruptible : Interruptible FS :=
  {| torn_snapshot := fun s f f' => exists DI : Disk, f' = (SaveSnapshot (Store := FS_Store dir) s f).2 |}.

Definition FS_StoreLaws {DI : Disk} : @StoreLaws FS (FS_Store dir) := {| held_contract := fs_contract dir |}.

Lemma FS_InterruptibleLaws {DI : Disk} :
  InterruptibleLaws FS (H := FS_Store dir) (H0 := FS_StoreLaws).
Proof.
  split; [|done]. intros s f f' [DI' ->]. pose proof (@fs_contract _ _ DI' dir) as F. split; [apply F|].
  destruct (SaveSnapshot s f) as [[[]|e] f'] eqn:E; cbn [snd].
  - right. exact (sc_save_snapshot _ _ _ F s f f' E).
  - exact (sc_save_failed _ _ _ F s f e f' E).
Qed.
End FileTorn.

(** *** Object storage *)

Section ObjectTorn.
Context {CO : Codec} {CL : CodecLaws} {Bk : Type} {OC : ObjectClient Bk} (s3 : S3) {OL : ObjectLaws Bk (s3_bucket s3)}.

(** A put the client did not see the end of was applied whole or not at all. *)
Definition cut_put (key : string) (b : bytes) (st st' : Bk) : Prop :=
  (forall key', key' <> s3_prefix s3 +:+ key -> holds st' key' = holds st key') /\
  (holds st' (s3_prefix s3 +:+ key) = Some b \/ holds st' (s3_prefix s3 +:+ key) = holds st (s3_prefix s3 +:+ key)).

(** In the versioned put, or after it in the put of the latest pointer. *)
#[local] Instance S3_Interruptible : Interruptible Bk := {|
  torn_snapshot := fun s st st' => exists b st1, marshal_snapshot s = Ok b /\ cut_put (snapshotKey s) b st st1 /\
    (st' = st1 \/ cut_put latestSnapshotKey b st1 st')
|}.

Definition S3_StoreLaws : @StoreLaws Bk (S3_Store s3) := {| held_contract := S3_contract s3 |}.

Lemma cut_put_other {A} (dec : bytes -> result A) key b st st' key' :
  cut_put key b st st' -> key' <> key -> s3_holds s3 dec key' st' = s3_holds s3 dec key' st.
Proof using. intros [H _] Hne. unfold s3_holds. rewrite H; [done|]. by intros ?%(inj (String.append _)). Qed.

Lemma S3_InterruptibleLaws : InterruptibleLaws Bk (H := S3_Store s3) (H0 := S3_StoreLaws).
Proof.
  split; [|done]. intros s st st' (b & st1 & Hm & H1 & H2). cbn [held_bootstrap held_snapshot S3_StoreLaws].
  rewrite <-(cut_put_other unmarshal_bootstrap _ _ _ _ latestBootstrapKey H1) by done.
  rewrite <-(cut_put_other unmarshal_snapshot _ _ _ _ latestSnapshotKey H1) by done.
  destruct H2 as [->|H2]; [auto|]. split; [by apply (cut_put_other _ _ _ _ _ _ H2)|].
  destruct H2 as [_ [H2|H2]]; unfold s3_holds; rewrite H2; [right|by left]. by rewrite (snapshot_roundtrip _ _ Hm).
Qed.
End ObjectTorn.

(** *** The database *)

Section PgTorn.
Context {PE : PgEngine} {PL : PgEngineLaws}.

(** The procedure runs in one transaction, which was committed or not. *)
#[local] Instance Postgres_Interruptible : Interruptible PgDb := {|
  torn_snapshot := fun s st st' => exists b v, @marshal_snapshot json_Codec s = Ok b /\ jsonb_in b = Ok v /\
    (st' = called st \/ exists po db, save_snapshot v st = Returned po db /\ st' = called db)
|}.

Definition Postgres_StoreLaws : @StoreLaws PgDb Postgres_Store := {| held_contract := Postgres_contract |}.

Lemma Postgres_InterruptibleLaws : InterruptibleLaws PgDb (H := Postgres_Store) (H0 := Postgres_StoreLaws).
Proof.
  split; [|done]. intros s st st' (b & v & Hm & Hv & H). cbn [held_bootstrap held_snapshot Postgres_StoreLaws].
  destruct H as [->|(po & db & Hr & ->)]; [by split; [|left]|].
  apply save_snapshot_returns in Hr as (Hb & _ & Hl). unfold pg_holds, latest_bootstrap. cbn [called db_bootstrap]. rewrite Hb. split; [done|].
  change (latest_snapshot (called db)) with (latest_snapshot db). destruct Hl as [(d & -> & Hd)|[-> _]]; [right|by left].
  destruct (snapshot_input s) as [[E Ho]|[e E]]; rewrite E in Hm; [|done]. unfold json_Marshal in Hm.
  destruct (w_enc w_snapshot (stored s)) as [j|] eqn:Ej; [|done]. injection Hm as <-.
  destruct (wire_roundtrip _ j Ho Ej) as [Hw Hk]. by rewrite Hd, (Hk _ (jsonb_keeps _ _ _ (read_json_text j Hw) Hv)).
Qed.
End PgTorn.

(** ** A process stopped in the middle *)

Section Stopped.
Context {X : X509} {SO : GoSort} {RA : GoRange} {N : Net} {CO : Codec} {FI : Files} {YA : Yaml} {RF : Refresher}
  {St : Type} {ST : Store St} {IN : Interruptible St}.

Abbreviation Mgr := (Manager St).
Abbreviation Prog := (prog St).

(** Stopped somewhere in [p], the process leaves the store as [st], at the moment [w]:
    between two steps, or in a save. *)
Fixpoint stopped {R} (p : Prog R) (m : Mgr) (st : St) (w : world) : Prop :=
  st = m_store m /\ w = m_world m \/
  match p with
  | Act _ f k => stopped (k (f m).1) (f m).2 st w
  | Save s k => torn_snapshot s (m_store m) st /\ w = m_world m \/ stopped (k (save s m).1) (save s m).2 st w
  | _ => False
  end.

(** A new process that opens the store [st] some time after [w0]: started, or stopped in
    the reconcile of its start and started again. *)
Inductive boots : St -> world -> Mgr -> Prop :=
| boots_up st w0 w log seed m : later w0 w -> Start seed (NewManager (Reopen st) w log) = (Ok tt, m) -> boots st w0 m
| boots_again st w0 w log seed m1 st' w1 m :
    later w0 w -> Initialize seed (NewManager (Reopen st) w log) = (Ok tt, m1) ->
    stopped ReconcileDeclared_prog m1 st' w1 -> boots st' w1 m -> boots st w0 m.

(** The life of a service: operations, and processes stopped in one and replaced. *)
Inductive life : Mgr -> Mgr -> Prop :=
| life_here m : life m m
| life_op m o m1 m2 : exec o m = Some m1 -> life m1 m2 -> life m m2
| life_crash m o p st w m1 m2 : locking o = Some p -> stopped p m st w -> boots st w m1 -> life m1 m2 -> life m m2.

(** *** What an operation saves *)

(** A rebuild of what [m] serves with the operator's file, done by the moment [w]. *)
Definition declared_from (m : Mgr) (w : world) (s : Snapshot) : Prop :=
  exists p now w0 rep w', m_active m = Some p /\ later (m_world m) w0 /\
    rf_RefreshDeclared p now w0 = (Ok (Some s), rep, w') /\ later w' w.

(** [built m w o s]: operation [o] begun in state [m] has built [s] by the moment [w], to
    persist and serve it. *)
Inductive built (m : Mgr) (w : world) : Op -> Snapshot -> Prop :=
| built_reconciled s : declared_from m w s -> built m w OpReconcile s
| built_declared s : declared_from m w s -> built m w OpRefresh s
| built_cycle prev boot w0 s w' :
    prev = m_active m \/ (exists p, prev = Some p /\ declared_from m w0 p) -> m_bootstrap m = Some boot ->
    later (m_world m) w0 -> rf_Refresh prev boot w0 = (Ok s, w') -> later w' w -> built m w OpRefresh s
| built_approved fp actor cur idx pa clone pa' now :
    m_active m = Some cur ->
    list_find (fun pa => a_FingerprintSHA256 (p_Anchor pa) = fp) (s_Pending cur) = Some (idx, pa) ->
    cloneSnapshot cur = Ok clone -> s_Pending clone !! idx = Some pa' -> later (m_world m) w ->
    built m w (OpApprove fp actor) (approve_in cur clone idx pa' now).

Lemma declared_from_later m w w' s : later w w' -> declared_from m w s -> declared_from m w' s.
Proof. intros Hl (p & now & w0 & rep & w1 & ? & ? & ? & ?). exists p, now, w0, rep, w1. split_and!; try done. by etrans. Qed.

Lemma built_later m w w' o s : later w w' -> built m w o s -> built m w' o s.
Proof.
  intros Hl. destruct 1 as [s H|s H|prev boot w0 s w1 Hp Hb H0 Hr H1|]; [constructor; by eapply declared_from_later..| |].
  - eapply built_cycle; [done..|by etrans].
  - eapply built_approved; [done..|by etrans].
Qed.

(** What [p] saves meets [P] at that moment; nothing else touches the store. *)
Fixpoint saving {R} (P : world -> Snapshot -> Prop) (p : Prog R) (m : Mgr) : Prop :=
  match p with
  | Act _ f k => (m_store (f m).2 = m_store m /\ later (m_world m) (m_world (f m).2)) /\ saving P (k (f m).1) (f m).2
  | Save s k => P (m_world m) s /\ saving P (k (save s m).1) (save s m).2
  | _ => True
  end.

Lemma save_world s (m : Mgr) : m_world (save s m).2 = m_world m.
Proof. unfold save. by destruct (SaveSnapshot s (m_store m)). Qed.

Lemma saving_bind {A B} P (c : Prog A) (k : A -> Prog B) m :
  saving P c m -> (forall a m', alone c m = Some (a, m') -> saving P (k a) m') -> saving P (bind c k) m.
Proof.
  revert m. induction c as [a| |A' f c IH|s c IH]; intros m Hc Hk; [by apply Hk|done|..]; destruct Hc as [Hm Hc];
    (split; [done|]); apply IH; [done| |done|]; intros a m' Ha; apply Hk; simpl; [by destruct (f m)|by destruct (save s m)].
Qed.

(** A program that does not touch the store. *)
Fixpoint idle {R} (p : Prog R) : Prop :=
  match p with
  | Act _ f k => (forall m : Mgr, m_store (f m).2 = m_store m /\ later (m_world m) (m_world (f m).2)) /\ forall a, idle (k a)
  | Save _ _ => False
  | _ => True
  end.

Lemma idle_bind {A B} (c : Prog A) (k : A -> Prog B) : idle c -> (forall a, idle (k a)) -> idle (bind c k).
Proof. intros Hc Hk. induction c as [a| |A' f c IH|s c IH]; simpl in *; naive_solver. Qed.

Lemma idle_saving {R} P (p : Prog R) m : idle p -> saving P p m.
Proof. revert m. induction p as [r| |A f k IH|s k IH]; intros m Hp; [done..| |done]. destruct Hp. split; auto. Qed.

Lemma idle_emit_diff s : idle (emit_diff_prog (St := St) s).
Proof.
  unfold emit_diff_prog. induction (from_option d_Entries [] (s_Diff s)) as [|e l IH]; [done|]. split; [|done].
  intros m. split; [done|apply emit_later].
Qed.

Lemma idle_activate s : idle (activate_prog (St := St) s).
Proof. repeat split; intros; done. Qed.

Lemma saving_save_prog (P : world -> Snapshot -> Prop) s (m : Mgr) : P (m_world m) s -> saving P (save_prog s) m.
Proof.
  intros H. split; [done|]. simpl. destruct (save s m) as [[[]|e] m1]; [done|]. split; [|done]. split; [done|apply emit_later].
Qed.

Create HintDb idle.
#[local] Hint Resolve idle_emit_diff idle_activate : idle.
#[local] Hint Extern 1 (idle (Ret _)) => exact I : idle.
#[local] Hint Extern 1 (idle Panic) => exact I : idle.
#[local] Hint Extern 1 (idle skip) => exact I : idle.
#[local] Hint Extern 2 (idle _) => solve [split; [intros; split; [done|first [done|apply emit_later]]|intros; exact I]] : idle.

Ltac idles := repeat first [solve [eauto with idle] | apply idle_bind; [|intros] | case_match
  | split; [intros; split; [done|first [done|apply emit_later]]|intros]].

Context {RL : RefresherLaws}.

Lemma saving_reconcile (P : world -> Snapshot -> Prop) (m0 m : Mgr) :
  m_active m0 = m_active m -> later (m_world m0) (m_world m) ->
  (forall w s, declared_from m0 w s -> P w s) -> saving P (reconcileDeclared_prog (m_active m)) m.
Proof.
  intros E0 Hl0 HP. unfold reconcileDeclared_prog. destruct (m_active m) as [p|] eqn:Ea; [|done].
  split; [done|]. cbn [bind act RefreshDeclared_step]. cbn [fst snd].
  pose proof (declared_later p (m_now m) (m_world m)) as Hl.
  destruct (rf_RefreshDeclared p (m_now m) (m_world m)) as [[[[next|]|e] rep] w] eqn:E; cbn [saving]; rewrite E;
    cbn [snd] in Hl; (split; [done|]); [|done..].
  apply saving_bind; [apply saving_save_prog, HP; exists p, (m_now m), (m_world m), rep, w; by rewrite E0|].
  intros [] m' _. apply idle_saving. idles.
Qed.

Lemma saving_accept (P : world -> Snapshot -> Prop) prev dc decl next (m : Mgr) :
  P (m_world m) next -> saving P (accept_prog prev dc decl next) m.
Proof.
  intros HP. unfold accept_prog. apply saving_bind; [destruct (must_persist _ _); [by apply saving_save_prog|done]|].
  intros [] m' _. apply idle_saving. idles.
Qed.

(** The snapshot, the store and the world when the [n]-th step is a save. *)
Fixpoint nth_save {R} (n : nat) (p : Prog R) (m : Mgr) : option (Snapshot * St * world) :=
  match n, p with
  | O, Save s _ => Some (s, m_store m, m_world m)
  | S n, Act _ f k => nth_save n (k (f m).1) (f m).2
  | S n, Save s k => nth_save n (k (save s m).1) (save s m).2
  | _, _ => None
  end.

Lemma nth_save_stopped {R} n (p : Prog R) m s st w st' :
  nth_save n p m = Some (s, st, w) -> torn_snapshot s st st' -> stopped p m st' w.
Proof.
  revert p m. induction n as [|n IH]; intros [r| |A f k|s' k] m; simpl; try done.
  - intros [= <- <- <-] Ht. auto.
  - intros H Ht. right. by apply IH.
  - intros H Ht. right. right. by apply IH.
Qed.

(** Alone, a program that saves what it should leaves a later world. *)
Lemma saving_later {R} P (p : Prog R) m r m' : saving P p m -> alone p m = Some (r, m') -> later (m_world m) (m_world m').
Proof.
  revert m. induction p as [r0| |A f k IH|s k IH]; intros m Hp; simpl; [by intros [= _ ->]|done|..].
  - destruct Hp as [[_ Hl] Hk]. specialize (IH (f m).1 (f m).2 Hk). destruct (f m) as [a m1]. intros Ha.
    etrans; [exact Hl|by apply IH].
  - destruct Hp as [_ Hk]. specialize (IH (save s m).1 (save s m).2 Hk). rewrite save_world in IH.
    destruct (save s m) as [a m1]. exact IH.
Qed.

Lemma saving_Refresh (m : Mgr) : saving (fun w => built m w OpRefresh) Refresh_prog m.
Proof.
  unfold Refresh_prog. do 2 (split; [done|]). cbn [fst snd Active_load act bind bootstrap_load].
  assert (Hrec : saving (fun w => built m w OpRefresh) (reconcileDeclared_prog (m_active m)) m)
    by (apply (saving_reconcile _ m); [done..|]; eauto using built).
  apply saving_bind; [exact Hrec|]. intros [[prev c] rep] m1 Ha. pose proof (saving_later _ _ _ _ _ Hrec Ha) as L1.
  match goal with |- saving _ (bind ?q _) _ => assert (Hq : idle q) by idles end.
  apply saving_bind; [by apply idle_saving|]. intros [] m2 Ha2.
  pose proof (saving_later _ _ _ _ _ (idle_saving (fun w => built m w OpRefresh) _ m1 Hq) Ha2) as L2.
  destruct (m_bootstrap m) as [boot|] eqn:Hb; [|done].
  rewrite reconcileDeclared_alone in Ha. destruct (reconcileDeclared _ _) as [[[prev' c'] rep'] m1'] eqn:Hr.
  injection Ha as -> -> -> ->. apply reconcile_spec in Hr as [Hp Hr]. cbn [bind act Refresh_step saving].
  pose proof (refresh_later prev boot (m_world m2)) as Hl.
  destruct (rf_Refresh prev boot (m_world m2)) as [[next|e] w] eqn:Hf; cbn [snd] in Hl; (split; [done|]);
    [|apply idle_saving; idles].
  apply saving_accept. eapply built_cycle; [|done| |exact Hf|done]; [|by etrans].
  destruct c; [right|by left; destruct Hr].
  destruct Hr as (p & now & s & w1 & Hac & -> & Hd & Ho). exists s. split; [done|].
  exists p, now, (m_world m), rep, w1. split_and!; try done. etrans; [|exact L2]. etrans; [|exact (oe_later _ _ Ho)].
  exact (save_or_report_events s (set_world m w1)).
Qed.

Lemma saving_Approve fp actor (m : Mgr) : saving (fun w => built m w (OpApprove fp actor)) (ApprovePending_prog fp actor) m.
Proof.
  unfold ApprovePending_prog. split; [done|]. cbn [fst snd Active_load act bind].
  destruct (m_active m) as [cur|] eqn:Ha; [|done]. destruct (list_find _ _) as [[idx pa]|] eqn:Hf; [|done].
  destruct (cloneSnapshot cur) as [clone|e] eqn:Hc; [|done]. destruct (s_Pending clone !! idx) as [pa'|] eqn:Hl; [|done].
  split; [done|]. cbn [fst snd time_Now act bind store_Save]. split; [by eapply built_approved|].
  destruct (save _ m) as [[[]|e] m1]; [|done]. apply idle_saving. idles.
Qed.

Lemma locking_saving o p (m : Mgr) : locking o = Some p -> saving (fun w => built m w o) p m.
Proof.
  destruct o as [| |fp actor| | | |]; intros [= <-]; [apply saving_Refresh| |apply saving_Approve].
  unfold ReconcileDeclared_prog. split; [done|]. cbn [fst snd Active_load act bind].
  apply saving_bind; [apply (saving_reconcile (fun w => built m w OpReconcile) m m); [done..|]; eauto using built|].
  intros [[prev c] rep] m1 _. apply idle_saving. idles.
Qed.
End Stopped.

(** ** What a crash leaves *)

Section Recovery.
Context {X : X509} {SO : GoSort} {RA : GoRange} {N : Net} {CO : Codec} {FI : Files} {YA : Yaml} {RF : Refresher}
  {St : Type} {ST : Store St} {IN : Interruptible St} {RL : RefresherLaws} {SL : StoreLaws St}
  {IL : InterruptibleLaws St}.

Abbreviation Mgr := (Manager St).
Abbreviation Prog := (prog St).

(** [st'] shows what [st] shows, or a snapshot of [P] as the latest. *)
Definition store_step (P : Snapshot -> Prop) (st st' : St) : Prop :=
  held_bootstrap st' = held_bootstrap st /\
  (held_snapshot st' = held_snapshot st \/ exists s, P s /\ held_snapshot st' = Ok (Some (stored s))).

Lemma store_step_refl P st : store_step P st st.
Proof. split; [done|by left]. Qed.

Lemma store_step_trans P st1 st2 st3 : store_step P st1 st2 -> store_step P st2 st3 -> store_step P st1 st3.
Proof. intros [B1 S1] [B2 S2]. split; [congruence|]. destruct S2 as [->|S2]; [done|by right]. Qed.

Lemma save_store_step (P : Snapshot -> Prop) s (m : Mgr) : P s -> store_step P (m_store m) (m_store (save s m).2).
Proof.
  intros Hs. pose proof (save_loads s (m_store m)) as [H1 H2]. unfold save.
  destruct (SaveSnapshot s (m_store m)) as [r st]. split; [done|]. destruct H1; eauto.
Qed.

Lemma saving_stopped {R} (P : world -> Snapshot -> Prop) (p : Prog R) m st w :
  (forall w w' s, later w w' -> P w s -> P w' s) ->
  saving P p m -> stopped p m st w -> later (m_world m) w /\ store_step (P w) (m_store m) st.
Proof.
  intros HP. revert m. induction p as [r| |A f k IH|s k IH]; intros m Hp Hst;
    (destruct Hst as [[-> ->]|Hst]; [split; [done|apply store_step_refl]|]).
  - done.
  - done.
  - destruct Hp as [[<- Hl] Hk]. destruct (IH _ _ Hk Hst) as [Hw Hs]. split; [by etrans|done].
  - destruct Hp as [Hs Hk]. destruct Hst as [[Ht ->]|Hst].
    + apply torn_held in Ht as [Hb H]. split; [done|]. split; [done|]. destruct H; eauto.
    + destruct (IH _ _ Hk Hst) as [Hw Hss]. rewrite save_world in Hw. split; [done|].
      eapply store_step_trans; [|exact Hss]. apply save_store_step. by eapply HP.
Qed.

Lemma alone_stopped {R} (p : Prog R) m r m' : alone p m = Some (r, m') -> stopped p m (m_store m') (m_world m').
Proof.
  revert m. induction p as [r0| |A f k IH|s k IH]; intros m; simpl; [|done|..].
  - intros [= _ ->]. by left.
  - destruct (f m) as [a m1]. intros H. right. by apply IH.
  - destruct (save s m) as [a m1]. intros H. right. right. by apply IH.
Qed.

Lemma stopped_step o (p : Prog reply) (m : Mgr) st w :
  locking o = Some p -> stopped p m st w -> later (m_world m) w /\ store_step (built m w o) (m_store m) st.
Proof.
  intros Hp Hst. apply (saving_stopped (fun w => built m w o) p m st w); [|by apply locking_saving|done].
  intros w1 w2 s. apply built_later.
Qed.

(** The store after a whole operation is one a crash could leave. *)
Lemma exec_step o (p : Prog reply) (m m' : Mgr) :
  locking o = Some p -> exec o m = Some m' -> store_step (built m (m_world m') o) (m_store m) (m_store m').
Proof.
  intros Hp He. pose proof (locking_alone o p m Hp) as Ha. rewrite He in Ha.
  destruct (answer o m) as [r|] eqn:Ean; [|by destruct o; simplify_eq/=; destruct (Refresh m) as [[]|]].
  apply (stopped_step o p); [done|]. by eapply alone_stopped.
Qed.

(** *** The invariant over a life *)

Lemma step_store_ok (P : Snapshot -> Prop) st st' :
  (forall s, P s -> identified s) -> store_step P st st' -> store_ok st -> store_ok st'.
Proof.
  intros HP [_ [E|(s & Hs & E)]] Hok; unfold store_ok; rewrite E; [done|]. right. exists (stored s).
  split; [done|]. exact (HP s Hs).
Qed.

Lemma built_identified (m : Mgr) w o s : built m w o s -> identified s.
Proof.
  assert (Hd : forall w s, declared_from m w s -> identified s)
    by (intros w0 s' (p & now & w1 & rep & w' & _ & _ & Hr & _); apply declared_follows in Hr as ([] & _); done).
  destruct 1 as [s H|s H|prev boot w0 s w' _ _ _ Hr|]; [by eapply Hd..| |done]. by apply refresh_follows in Hr as [].
Qed.

Lemma reopened st : held_snapshot (Reopen st) = held_snapshot st /\ held_bootstrap (Reopen st) = held_bootstrap st.
Proof. apply reopen_held, always_lasting. Qed.

Lemma boots_keeps st w0 (m : Mgr) b :
  boots st w0 m -> store_ok st -> held_bootstrap st = Ok (Some b) -> inv m /\ m_bootstrap m = Some b.
Proof.
  induction 1 as [st w0 w log seed m Hw Hs|st w0 w log seed m1 st' w1 m Hw Hi Hst _ IH]; intros Hok Hb;
    destruct (reopened st) as [Rs Rb].
  - apply Start_keeps in Hs as (H1 & _ & H2); [|by apply reopen_ok]. split; [done|]. apply H2. congruence.
  - apply Initialize_spec in Hi as (Hl & Hl' & (b' & Hb' & Hlb & Hsame) & _). destruct (Hsame b) as [-> Hm]; [congruence|].
    apply (stopped_step OpReconcile) in Hst as [_ Hst]; [|done]. apply IH.
    + eapply step_store_ok; [apply built_identified|exact Hst|]. rewrite Hm. by apply reopen_ok.
    + destruct Hst as [-> _]. rewrite Hm. congruence.
Qed.

Lemma life_keeps (m m' : Mgr) : life m m' -> inv m -> inv m' /\ m_bootstrap m' = m_bootstrap m.
Proof.
  induction 1 as [m|m o m1 m2 He _ IH|m o p st w m1 m2 Hp Hst Hbt _ IH]; intros Hi; [done|..].
  - destruct (exec_keeps _ _ _ Hi He) as (H1 & _ & E1). destruct (IH H1) as [? E2]. rewrite E2. split; [done|].
    apply E1. by rewrite always_lasting.
  - destruct (inv_boot _ Hi) as (b & Hb & Hlb). apply (stopped_step o) in Hst as [_ Hst]; [|done].
    destruct (boots_keeps st w m1 b Hbt) as [H1 E1].
    + eapply step_store_ok; [apply built_identified|exact Hst|exact (inv_stored _ Hi)].
    + destruct Hst as [-> _]. done.
    + destruct (IH H1) as [? E2]. by rewrite E2, E1, Hb.
Qed.

(** *** Properties of snapshots over a life *)

Section Snapshots.
Context (Q : Bootstrap -> world -> Snapshot -> Prop).
Hypothesis Q_later : forall b w w' s, later w w' -> Q b w s -> Q b w' s.
Hypothesis Q_stored : forall b w s, Q b w s -> Q b w (stored s).
Hypothesis Q_refresh : forall b prev w next w',
  (forall p, prev = Some p -> Q b w p) -> rf_Refresh prev b w = (Ok next, w') -> Q b w' next.
Hypothesis Q_declared : forall b p now w next rep w',
  Q b w p -> rf_RefreshDeclared p now w = (Ok (Some next), rep, w') -> Q b w' next.
Hypothesis Q_approve : forall b w cur clone idx pa now,
  Q b w cur -> cloneSnapshot cur = Ok clone -> s_Pending clone !! idx = Some pa -> Q b w (approve_in cur clone idx pa now).

Lemma built_Q b (m : Mgr) w o s :
  (forall s, m_active m = Some s -> Q b (m_world m) s) -> m_bootstrap m = Some b -> built m w o s -> Q b w s.
Proof using Q_later Q_refresh Q_declared Q_approve.
  intros Ha Hb. assert (Hd : forall w s, declared_from m w s -> Q b w s).
  { intros w0 s' (p & now & w1 & rep & w' & Hp & H1 & Hr & H2). eapply Q_later; [exact H2|].
    eapply Q_declared; [|exact Hr]. eapply Q_later; [exact H1|by apply Ha]. }
  destruct 1 as [s H|s H|prev boot w0 s w' Hp Hb' H0 Hr H1|fp actor cur idx pa clone pa' now Hc _ Hcl Hl H1]; [by apply Hd..| |].
  - assert (boot = b) as -> by congruence. eapply Q_later; [exact H1|]. eapply Q_refresh; [|exact Hr]. intros p ->.
    destruct Hp as [Hp|(p' & [= <-] & Hp)]; [eapply Q_later; [exact H0|by apply Ha]|by apply Hd].
  - eapply Q_later; [exact H1|]. apply Q_approve; [by apply Ha|done..].
Qed.

Lemma step_Q b w w' (P : Snapshot -> Prop) st st' : later w w' -> (forall s, P s -> Q b w' s) -> store_step P st st' ->
  (forall s, held_snapshot st = Ok (Some s) -> Q b w s) -> forall s, held_snapshot st' = Ok (Some s) -> Q b w' s.
Proof using Q_stored Q_later.
  intros Hl HP [_ [E|(s' & Hs & E)]] Hq s; rewrite E; [intros Hh; by eapply Q_later, Hq|]. intros [= <-]. by apply Q_stored, HP.
Qed.

Lemma boots_Q b st w0 (m : Mgr) : boots st w0 m -> held_bootstrap st = Ok (Some b) ->
  (forall s, held_snapshot st = Ok (Some s) -> Q b w0 s) -> all_Q Q m.
Proof using RL SL IL Q_later Q_stored Q_refresh Q_declared Q_approve.
  induction 1 as [st w0 w log seed m Hw Hs|st w0 w log seed m1 st' w1 m Hw Hi Hst _ IH]; intros Hb Hq;
    destruct (reopened st) as [Rs Rb].
  - eapply (Start_Q Q); [done..| |exact Hs]. intros s Hh. exists b. rewrite Rb. split; [done|].
    eapply Q_later; [exact Hw|]. apply Hq. congruence.
  - apply Initialize_spec in Hi as (Hl & Hl' & (b' & Hb' & Hlb & Hsame) & _ & _ & Hw1 & _).
    destruct (Hsame b) as [<- Hm]; [congruence|]. apply (stopped_step OpReconcile) in Hst as [Hw2 Hst]; [|done].
    assert (Hq1 : forall s, held_snapshot (Reopen st) = Ok (Some s) -> Q b (m_world m1) s).
    { intros s Hh. eapply Q_later; [etrans; [exact Hw|exact Hw1]|]. apply Hq. congruence. }
    apply IH; [destruct Hst as [-> _]; rewrite Hm; congruence|].
    eapply step_Q; [exact Hw2| |exact Hst|by rewrite Hm]. intros s. apply built_Q; [|done].
    intros s' Hs'. apply Hq1. by rewrite Hl, Hs'.
Qed.

Lemma life_Q (m m' : Mgr) : life m m' -> inv m -> all_Q Q m -> all_Q Q m'.
Proof using RL SL IL Q_later Q_stored Q_refresh Q_declared Q_approve.
  induction 1 as [m|m o m1 m2 He _ IH|m o p st w m1 m2 Hp Hst Hbt _ IH]; intros Hi Hq; [done|..].
  - destruct (exec_keeps _ _ _ Hi He) as (H1 & _). apply IH; [done|].
    assert (Hr : run m [o] m1) by (by repeat econstructor). by eapply (run_Q Q).
  - destruct Hq as (b & Hb & Ha & Hh). destruct (inv_boot _ Hi) as (b' & Hb' & Hlb). assert (b' = b) as -> by congruence.
    apply (stopped_step o) in Hst as [Hw Hst]; [|done].
    assert (Hbs : held_bootstrap st = Ok (Some b)) by (by destruct Hst as [-> _]).
    destruct (boots_keeps st w m1 b Hbt) as [H1 E1]; [|done|].
    { eapply step_store_ok; [apply built_identified|exact Hst|exact (inv_stored _ Hi)]. }
    apply IH; [done|]. apply (boots_Q b st w); [done..|]. eapply step_Q; [exact Hw| |exact Hst|done].
    intros s. by apply built_Q.
Qed.
End Snapshots.

(** *** The sequence number over a life *)

(** What is stored is not ahead of what is served. *)
Definition backed (m : Mgr) : Prop :=
  forall s, held_snapshot (m_store m) = Ok (Some s) ->
  exists a, m_active m = Some a /\ s_LOTLSequence s <= s_LOTLSequence a.

Definition at_least (n : Z) (o : option Snapshot) : Prop := exists s, o = Some s /\ n <= s_LOTLSequence s.

Context {CL : CodecLaws}.

Lemma built_sequence (m : Mgr) w o s a : built m w o s -> m_active m = Some a -> s_LOTLSequence a <= s_LOTLSequence s.
Proof.
  intros Hb Ha. assert (Hd : forall w s, declared_from m w s -> s_LOTLSequence a <= s_LOTLSequence s).
  { intros w0 s' (p & now & w1 & rep & w' & Hp & _ & Hr & _). assert (p = a) as -> by congruence.
    apply declared_follows in Hr as ([_ _ _ Hs] & _). by apply Hs. }
  destruct Hb as [s H|s H|prev boot w0 s w' Hp _ _ Hr|fp actor cur idx pa clone pa' now Hc _ Hcl _]; [by eapply Hd..| |].
  - apply refresh_follows in Hr as [_ _ _ Hs]. destruct Hp as [->|(p & -> & Hp)]; [by apply Hs|].
    apply Hd in Hp. specialize (Hs p eq_refl). lia.
  - rewrite (approve_sequence _ _ _ _ _ Hcl). assert (cur = a) as -> by congruence. lia.
Qed.

(** [n] bounds what is served and what is stored. *)
Definition above (n : Z) (m : Mgr) : Prop :=
  at_least n (m_active m) /\ exists s, held_snapshot (m_store m) = Ok (Some s) /\ n <= s_LOTLSequence s.

Lemma above_step n (m : Mgr) w o st : above n m -> store_step (built m w o) (m_store m) st ->
  exists s, held_snapshot st = Ok (Some s) /\ n <= s_LOTLSequence s.
Proof.
  intros [(a & Ha & Hn) Hh] [_ [E|(s & Hb & E)]]; rewrite E; [done|]. exists (stored s). split; [done|].
  pose proof (built_sequence m w o s a Hb Ha). simpl. lia.
Qed.

Lemma above_active n (m m' : Mgr) : no_rollback m m' -> at_least n (m_active m) -> at_least n (m_active m').
Proof. intros H (a & Ha & Hn). destruct (H a Ha) as (a' & Ha' & ?). exists a'. split; [done|lia]. Qed.

Lemma above_locking n o (p : Prog reply) (m m' : Mgr) :
  locking o = Some p -> exec o m = Some m' -> above n m -> above n m'.
Proof.
  intros Hp He H. split; [|by eapply above_step, exec_step].
  eapply above_active; [|apply H]. eapply exec_rollback; [|exact He]. clear -Hp. by destruct o.
Qed.

Lemma boots_above n st w0 (m : Mgr) s : boots st w0 m -> held_snapshot st = Ok (Some s) -> n <= s_LOTLSequence s -> above n m.
Proof.
  intros Hb. revert s. induction Hb as [st w0 w log seed m Hw Hs|st w0 w log seed m1 st' w1 m Hw Hi Hst _ IH]; intros s Hh Hn;
    destruct (reopened st) as [Rs _].
  - unfold Start in Hs. destruct (Initialize seed _) as [[[]|e] m1] eqn:Hi; [|done].
    apply Initialize_spec in Hi as (Hl & Hl' & _). assert (Ha : m_active m1 = Some s) by congruence.
    assert (H1 : above n m1) by (split; exists s; [done|by rewrite Hl', Ha]).
    rewrite Ha in Hs. injection Hs as <-. by apply (above_locking n OpReconcile ReconcileDeclared_prog m1).
  - apply Initialize_spec in Hi as (Hl & Hl' & _). assert (Ha : m_active m1 = Some s) by congruence.
    assert (H1 : above n m1) by (split; exists s; [done|by rewrite Hl', Ha]).
    apply (stopped_step OpReconcile) in Hst as [_ Hst]; [|done].
    destruct (above_step n m1 _ _ st' H1 Hst) as (s' & Hh' & Hn'). by apply (IH s').
Qed.

Lemma life_above n (m m' : Mgr) : life m m' -> above n m -> above n m'.
Proof.
  induction 1 as [m|m o m1 m2 He _ IH|m o p st w m1 m2 Hp Hst Hbt _ IH]; intros H; [done|..].
  - apply IH. destruct (locking (St := St) o) as [p|] eqn:Hp; [by eapply above_locking|].
    destruct o as [| | | | | |seed]; try done; simpl in He.
    + by injection He as <-.
    + destruct (m_kick m); [|done]. by injection He as <-.
    + by injection He as <-.
    + destruct (Start seed _) as [[[]|e] mm] eqn:Hs; [|done]. injection He as <-. destruct H as [_ (s & Hh & Hn)].
      eapply (boots_above n _ (m_world m)); [by eapply boots_up|done|done].
  - apply IH. apply (stopped_step o) in Hst as [_ Hst]; [|done]. destruct (above_step n m w o st H Hst) as (s & Hh & Hn).
    by eapply boots_above.
Qed.

Lemma reconcile_backed (m : Mgr) prev changed rep m' :
  backed m -> reconcileDeclared (m_active m) m = (prev, changed, rep, m') -> backed m'.
Proof.
  intros Hm [Ha H]%reconcile_spec. destruct changed.
  - destruct H as (p & now & next & w & Hp & -> & Hr & Ho). apply declared_follows in Hr as ([_ _ _ Hs] & _).
    intros s. rewrite (oe_store _ _ Ho). simpl.
    destruct (save_or_report_spec next (set_world m w)) as (_ & _ & _ & _ & _ & -> & _). simpl. rewrite Ha.
    exists next. split; [done|]. destruct (save_loads next (m_store m)) as [[E|E] _]; rewrite E in H.
    + destruct (Hm s H) as (a & Ha' & Hle). specialize (Hs p eq_refl). assert (a = p) as -> by congruence. lia.
    + injection H as <-. simpl. lia.
  - destruct H as [_ Ho]. intros s. rewrite (oe_store _ _ Ho), (oe_active _ _ Ho). apply Hm.
Qed.

Lemma accept_backed prev dc decl next (m : Mgr) :
  backed m -> m_active m = prev -> follows prev next -> backed (accept prev dc decl next m).2.
Proof.
  intros Hm Hp [_ _ _ Hs] s. destruct (accept_spec prev dc decl next m) as (Ea & _ & Es & _). rewrite Ea, Es.
  intros Hh. exists next. split; [done|].
  assert (Hold : held_snapshot (m_store m) = Ok (Some s) -> s_LOTLSequence s <= s_LOTLSequence next).
  { intros (a & Ha & Hle)%Hm. specialize (Hs a). rewrite <-Hp in Hs. specialize (Hs Ha). lia. }
  destruct (must_persist prev next); [|auto].
  destruct (save_or_report_spec next m) as (_ & _ & _ & _ & _ & E & _). rewrite E in Hh.
  destruct (save_loads next (m_store m)) as [[E'|E'] _]; rewrite E' in Hh; [auto|]. injection Hh as <-. simpl. lia.
Qed.

Lemma Refresh_backed (m : Mgr) out m' : backed m -> Refresh m = Some (out, m') -> backed m'.
Proof.
  intros Hm (prev & changed & rep & m1 & boot & r & w & Hr & [Ha _] & Hf & m2 & Ho & _ & H)%Refresh_spec.
  apply reconcile_backed in Hr; [|done].
  assert (H2 : backed m2) by (intros s; rewrite (oe_store _ _ Ho), (oe_active _ _ Ho); apply Hr).
  destruct r as [next|err]; destruct H as (_ & _ & ->); [|done].
  apply accept_backed; [done|by rewrite (oe_active _ _ Ho)|by eapply refresh_follows].
Qed.

Lemma stored_sequence s : s_LOTLSequence (stored s) = s_LOTLSequence s.
Proof. done. Qed.

Lemma built_approve_sequence fp actor (m : Mgr) w s :
  built m w (OpApprove fp actor) s -> exists cur, m_active m = Some cur /\ s_LOTLSequence (stored s) = s_LOTLSequence cur.
Proof.
  inversion 1 as [| | |? ? cur ? ? clone pa ? Hc _ Hcl Hl]; subst. exists cur. split; [done|].
  rewrite stored_sequence. by apply approve_sequence.
Qed.

Lemma Approve_backed fp actor (m : Mgr) : backed m -> backed (ApprovePending fp actor m).2.
Proof.
  intros Hm. pose proof (exec_step (OpApprove fp actor) _ m _ eq_refl eq_refl) as [_ Hst].
  assert (Hle : forall s, held_snapshot (m_store (ApprovePending fp actor m).2) = Ok (Some s) ->
    exists cur, m_active m = Some cur /\ s_LOTLSequence s <= s_LOTLSequence cur).
  { intros s Hh. destruct Hst as [E|(s' & Hb & E)]; rewrite E in Hh; [by apply Hm|]. injection Hh as <-.
    apply built_approve_sequence in Hb as (cur & Hc & Hs). exists cur. split; [done|lia]. }
  intros s (cur & Hc & Hs)%Hle.
  destruct (exec_rollback (OpApprove fp actor) m _ eq_refl eq_refl cur Hc) as (a & Ha & ?). exists a. split; [done|lia].
Qed.

Lemma boots_backed st w0 (m : Mgr) : boots st w0 m -> backed m.
Proof.
  induction 1 as [st w0 w log seed m _ Hs|]; [|done]. unfold Start in Hs.
  destruct (Initialize seed _) as [[[]|e] m1] eqn:Hi; [|done]. apply Initialize_spec in Hi as (_ & Hl & _).
  assert (H1 : backed m1) by (intros s; rewrite Hl; intros [= Ha]; exists s; split; [done|lia]).
  destruct (m_active m1) as [a|] eqn:Ha; injection Hs as <-; [|done]. unfold ReconcileDeclared.
  destruct (reconcileDeclared _ _) as [[[prev c] rep] m2] eqn:Hr. exact (reconcile_backed _ _ _ _ _ H1 Hr).
Qed.

Lemma life_backed (m m' : Mgr) : life m m' -> backed m -> backed m'.
Proof.
  induction 1 as [m|m o m1 m2 He _ IH|m o p st w m1 m2 Hp Hst Hbt _ IH]; intros H; [done|..];
    [|by eapply IH, boots_backed].
  apply IH. destruct o as [| |fp actor| | |scope actor path|seed]; simpl in He.
  - destruct (Refresh m) as [[out mm]|] eqn:Hr; [|done]. injection He as <-. by eapply Refresh_backed.
  - injection He as <-. unfold ReconcileDeclared. destruct (reconcileDeclared _ _) as [[[prev c] rep] mm] eqn:Hr.
    exact (reconcile_backed _ _ _ _ _ H Hr).
  - injection He as <-. by apply Approve_backed.
  - by injection He as <-.
  - destruct (m_kick m); [|done]. by injection He as <-.
  - by injection He as <-.
  - destruct (Start seed _) as [[[]|e] mm] eqn:Hs; [|done]. injection He as <-. by eapply boots_backed, (boots_up _ (m_world m)).
Qed.

Lemma life_durable (m m1 m2 : Mgr) s :
  backed m -> life m m1 -> life m1 m2 -> held_snapshot (m_store m1) = Ok (Some s) ->
  at_least (s_LOTLSequence s) (m_active m2).
Proof.
  intros Hm H1 H2 Hs. apply (life_above (s_LOTLSequence s) m1 m2 H2). split; [|by exists s].
  destruct (life_backed _ _ H1 Hm s Hs) as (a & Ha & ?). by exists a.
Qed.

(** *** Properties *)

(** An operation is atomic for the next process.  Wherever the process is
    stopped in a refresh, a reconcile or an approval - between two steps or in the
    middle of a save - the bootstrap in the store is the one that was there, and the
    latest snapshot is the one that was there or one the operation had finished
    building: the reconciled one, the cycle's, or the approved one, whole. *)
Theorem crash_atomic o (p : Prog reply) (m : Mgr) st w :
  locking o = Some p -> stopped p m st w ->
  held_bootstrap st = held_bootstrap (m_store m) /\
  (held_snapshot st = held_snapshot (m_store m) \/
   exists s, built m w o s /\ held_snapshot st = Ok (Some (stored s))).
Proof. intros Hp Hst. exact (proj2 (stopped_step o p m st w Hp Hst)). Qed.
End Recovery.

(** ** The service *)

Section Service.
Context {X : X509} {AS : Asn1} {AL : GoAlloc} {SO : GoSort} {RA : GoRange} {N : Net} {XD : XmlDsig} {XM : XML}
  {FI : Files} {YA : Yaml} {CO : Codec} {CL : CodecLaws} {St : Type} {ST : Store St} {SL : StoreLaws St}
  {IN : Interruptible St} {IL : InterruptibleLaws St} (cfg : Config).

#[local] Instance service_Refresher : Refresher := Pipeline_Refresher cfg.
#[local] Instance service_laws : RefresherLaws := Pipeline_laws cfg.

Definition good (boot : Bootstrap) (w : world) (s : Snapshot) : Prop :=
  authentic_snapshot cfg (w_loads w) boot s /\ snapshot_ok s.

Lemma life_good (m m' : Manager St) : installed m -> life m m' -> all_Q good m'.
Proof.
  intros Hi Hl.
  assert (Ql : forall b w w' s, later w w' -> good b w s -> good b w' s).
  { intros b w w' s [_ Hn] [H1 H2]. split; [by eapply authentic_later|done]. }
  assert (Qs : forall b w s, good b w s -> good b w (stored s))
    by (intros b w s [H1 H2]; split; [by apply authentic_stored|by apply stored_ok]).
  assert (Qd : forall b p now w next rep w', good b w p ->
    rf_RefreshDeclared p now w = (Ok (Some next), rep, w') -> good b w' next).
  { intros b p now w next rep w' [H1 H2] H%Pipeline_declared.
    split; [by eapply RefreshDeclared_authentic|by eapply RefreshDeclared_snapshot_ok]. }
  eapply (life_Q good); [exact Ql|exact Qs| |exact Qd| |exact Hl|by apply installed_inv|].
  - intros b prev w next w' Hp H. split.
    + refine (Refresh_authentic cfg b prev w next w' _ H). intros p Hp'. by apply Hp.
    + refine (Refresh_ok cfg b prev w next w' _ H). intros p Hp'. by apply Hp.
  - intros b w cur clone idx pa now [H1 H2] Hc Hp. split; [by apply approve_authentic|by apply approve_ok].
  - by eapply (installed_Q good).
Qed.

Lemma installed_backed (m : Manager St) : installed m -> backed m.
Proof.
  intros (st & w & seed & _ & _ & Hs). unfold Start in Hs.
  destruct (Initialize seed _) as [[[]|e] m1] eqn:Hi; [|done]. apply Initialize_spec in Hi as (_ & Hl & _).
  assert (H1 : backed m1) by (intros s; rewrite Hl; intros [= Ha]; exists s; split; [done|lia]).
  destruct (m_active m1) as [a|] eqn:Ha; injection Hs as <-; [|done]. unfold ReconcileDeclared.
  destruct (reconcileDeclared _ _) as [[[prev c] rep] m2] eqn:Hr. exact (reconcile_backed _ _ _ _ _ H1 Hr).
Qed.

(** What holds at any point of a life: the invariant, the bootstrap first installed, and
    authentic, well-formed and identified data. *)
Lemma life_holds (m m' : Manager St) boot :
  installed m -> m_bootstrap m = Some boot -> life m m' ->
  inv m' /\ m_bootstrap m' = Some boot /\ held_bootstrap (m_store m') = Ok (Some boot) /\
  forall s, m_active m' = Some s \/ held_snapshot (m_store m') = Ok (Some s) ->
    authentic_snapshot cfg (w_loads (m_world m')) boot s /\ snapshot_ok s /\ identified s.
Proof.
  intros Hi Hb Hl. destruct (life_keeps _ _ Hl (installed_inv m Hi)) as [I E]. rewrite Hb in E.
  destruct (inv_boot _ I) as (b & Hb' & Hh). assert (b = boot) as -> by congruence. split_and!; [done..|].
  destruct (life_good m m' Hi Hl) as (b & Hb2 & Ga & Gh). assert (b = boot) as -> by congruence. intros s Hs.
  assert (good boot (m_world m') s) as [G1 G2] by (destruct Hs; auto). split_and!; [done..|].
  destruct Hs as [Hs|Hs]; [by apply (inv_active _ I)|]. destruct (inv_stored _ I) as [Eh|(s' & Eh & ?)]; congruence.
Qed.
End Service.
