(* ===== verification/Ledger.v ===== *)
(** * The ledger: what the service promises, without its code

    An abstract machine with three things to remember - the snapshot that is
    served, the one a new process would find, and whether the operator has been told
    that the two may differ - and four things that can happen.  Every life of the
    service, with its cycles, reconciles, approvals, failing saves, crashes and
    restarts, on any store that keeps the contract and outlives the process, is a sequence of these
    ([src/ingest/manager.go] on [src/ingest/pipeline.go] and [src/store]).

    The simulation is proved on the programs of [Concurrent] with a predicate
    transformer that carries the ledger along, so that it covers an operation that
    is stopped at any point. *)

From S2P Require Import Prelude Model ContentId Diff Tsl CertBody Slices Extract Internal Store.
From S2P Require Import Fetcher Verify Sources Pipeline Cycle Telemetry.
From S2P Require Import Manager ManagerProps Service Concurrent Provenance Wellformed Crash.

(** ** The abstract machine *)

Record Ledger := mkLedger {
  lg_served : option Snapshot;
  lg_stored : option Snapshot;
  lg_reported : bool
}.

(** Nothing yet. *)
Definition ledger_init : Ledger := mkLedger None None false.

Definition persist (s : Snapshot) (L : Ledger) : Ledger := mkLedger (lg_served L) (Some (stored s)) (lg_reported L).
Definition serve_now (s : Snapshot) (L : Ledger) : Ledger := mkLedger (Some s) (lg_stored L) (lg_reported L).
Definition report (L : Ledger) : Ledger := mkLedger (lg_served L) (lg_stored L) true.
Definition restart (L : Ledger) : Ledger := mkLedger (lg_stored L) (lg_stored L) false.

Section Spec.
Context {X : X509} {AS : Asn1} {AL : GoAlloc} {SO : GoSort} {RA : GoRange} {N : Net} {XD : XmlDsig} {XM : XML}
  {FI : Files} {YA : Yaml} (cfg : Config) (boot : Bootstrap).

(** Why a snapshot may come after another one. *)
Inductive cause := ByCycle | ByDeclaration | ByApproval.

(** A completed ingestion cycle; a change of the operator's file, upstream data
    untouched; the approval of a pending anchor. *)
Inductive successor : cause -> option Snapshot -> Snapshot -> Prop :=
| su_cycle load served next : cycle_ok cfg load served boot next -> successor ByCycle served next
| su_declared p next load now set :
    LoadInternal load (InternalTrustSource cfg) now = Ok set -> s_Internal next = set ->
    follows (Some p) next -> s_ID next <> s_ID p -> upstream next = upstream p ->
    successor ByDeclaration (Some p) next
| su_approved cur idx pa now :
    s_Pending cur !! idx = Some pa ->
    successor ByApproval (Some cur) (approve_in cur (stored cur) idx pa now).

(** What may be served is stored, or has nothing a restart would lose, or the
    operator knows; an approval is stored. *)
Definition settled (c : cause) (L : Ledger) (next : Snapshot) : Prop :=
  lg_stored L = Some (stored next) \/
  c <> ByApproval /\ (lg_reported L = true \/ exists p, lg_served L = Some p /\ unchanged_from p next).

Inductive lstep : Ledger -> Ledger -> Prop :=
| ls_persist c s L : successor c (lg_served L) s -> lstep L (persist s L)
| ls_serve c s L : successor c (lg_served L) s -> settled c L s -> lstep L (serve_now s L)
| ls_report L : lstep L (report L)
| ls_restart L : lstep L (restart L).

Abbreviation lsteps := (rtc lstep).
End Spec.

(** ** The simulation *)

Section Simulation.
Context {X : X509} {AS : Asn1} {AL : GoAlloc} {SO : GoSort} {RA : GoRange} {N : Net} {XD : XmlDsig} {XM : XML}
  {FI : Files} {YA : Yaml} {CO : Codec} {CL : CodecLaws} {St : Type} {ST : Store St} {SL : StoreLaws St}
  (cfg : Config) (boot : Bootstrap).

#[local] Instance ledger_Refresher : Refresher := Pipeline_Refresher cfg.
#[local] Instance ledger_laws : RefresherLaws := Pipeline_laws cfg.

Abbreviation Mgr := (Manager St).
Abbreviation Prog := (prog St).
Abbreviation succ := (successor cfg boot).
Abbreviation lsteps := (rtc (lstep cfg boot)).

(** What is on the store. *)
Record keeps (L : Ledger) (st : St) : Prop := {
  ke_boot : held_bootstrap st = Ok (Some boot);
  ke_stored : held_snapshot st = Ok (lg_stored L);
  ke_stored_id : forall s, lg_stored L = Some s -> identified s
}.

(** The manager shows the ledger. *)
Record shows (L : Ledger) (m : Mgr) : Prop := {
  sh_boot : m_bootstrap m = Some boot;
  sh_served : m_active m = lg_served L;
  sh_keeps : keeps L (m_store m);
  sh_served_id : forall s, lg_served L = Some s -> identified s;
  sh_reported : lg_reported L = true -> reported m
}.

(** A step that changes none of it. *)
Record calm (m m' : Mgr) : Prop := {
  ca_active : m_active m' = m_active m;
  ca_bootstrap : m_bootstrap m' = m_bootstrap m;
  ca_store : m_store m' = m_store m;
  ca_later : later (m_world m) (m_world m')
}.

Lemma shows_calm L m m' : calm m m' -> shows L m -> shows L m'.
Proof.
  intros [Ea Eb Es Ee] [H1 H2 H3 H4 H5]. split; rewrite ?Ea, ?Eb, ?Es; try done.
  intros Hr. eapply reported_prefix; [exact Ee|by apply H5].
Qed.

(** *** The predicate transformer *)

(** [wp p m L Q]: from here on [p] moves the ledger by its steps, saves only
    successors of what is served, and ends in [Q]. *)
Fixpoint wp {R} (p : Prog R) (m : Mgr) (L : Ledger) (Q : R -> Mgr -> Ledger -> Prop) : Prop :=
  shows L m /\
  match p with
  | Ret r => Q r m L
  | Panic => True
  | Act _ f k => exists L', lsteps L L' /\ wp (k (f m).1) (f m).2 L' Q
  | Save s k =>
      (exists c, succ c (lg_served L) s) /\ identified s /\
      forall L', shows L' (save s m).2 -> L' = persist s L \/ L' = L /\ is_Ok (save s m).1 = false ->
        wp (k (save s m).1) (save s m).2 L' Q
  end.

Lemma wp_shows {R} (p : Prog R) m L Q : wp p m L Q -> shows L m.
Proof. by destruct p; intros [? _]. Qed.

Lemma wp_mono {R} (p : Prog R) m L (Q Q' : R -> Mgr -> Ledger -> Prop) :
  (forall r m L, shows L m -> Q r m L -> Q' r m L) -> wp p m L Q -> wp p m L Q'.
Proof.
  intros HQ. revert m L. induction p as [r| |A f k IH|s k IH]; intros m L [Hs H]; (split; [done|]); [by apply HQ|done|..].
  - destruct H as (L' & ? & ?). eauto.
  - destruct H as (? & ? & Hk). eauto.
Qed.

Lemma wp_bind {A B} (c : Prog A) (k : A -> Prog B) m L Q :
  wp c m L (fun a m L => wp (k a) m L Q) -> wp (bind c k) m L Q.
Proof.
  revert m L. induction c as [a| |A' f c IH|s c IH]; intros m L [Hs H]; [done|done|..]; (split; [done|]).
  - destruct H as (L' & ? & ?). eauto.
  - destruct H as (? & ? & Hk). eauto.
Qed.

Lemma wp_act {A R} (f : Mgr -> A * Mgr) (k : A -> Prog R) m L Q :
  shows L m -> calm m (f m).2 -> (shows L (f m).2 -> wp (k (f m).1) (f m).2 L Q) -> wp (bind (act f) k) m L Q.
Proof. intros Hs Hc Hk. split; [done|]. exists L. split; [done|]. by apply Hk, (shows_calm L m). Qed.

(** Programs of calm steps only. *)
Fixpoint quiet {R} (p : Prog R) : Prop :=
  match p with
  | Act _ f k => (forall m, calm m (f m).2) /\ forall a, quiet (k a)
  | Save _ _ => False
  | _ => True
  end.

Lemma quiet_bind {A B} (c : Prog A) (k : A -> Prog B) : quiet c -> (forall a, quiet (k a)) -> quiet (bind c k).
Proof. intros Hc Hk. induction c as [a| |A' f c IH|s c IH]; simpl in *; naive_solver. Qed.

Lemma wp_quiet {R} (p : Prog R) m L Q :
  quiet p -> shows L m -> (forall r m', shows L m' -> Q r m' L) -> wp p m L Q.
Proof.
  intros Hp Hs HQ. revert m Hs. induction p as [r| |A f k IH|s k IH]; intros m Hs; [by split; auto|done| |done].
  destruct Hp as [Hf Hk]. split; [done|]. exists L. split; [done|]. apply IH; [apply Hk|]. by apply (shows_calm L m).
Qed.

(** *** What a program that is alone, or stopped, leaves *)

Lemma identified_stored s : identified s -> identified (stored s).
Proof. done. Qed.

Lemma keeps_saved s L st st' :
  keeps L st -> identified s -> held_bootstrap st' = held_bootstrap st ->
  held_snapshot st' = Ok (Some (stored s)) -> keeps (persist s L) st'.
Proof. intros [Hb Hh Hi] Hs Eb Eh. split; [by rewrite Eb|done|]. by intros ? [= <-]. Qed.

Lemma save_shows s m L :
  shows L m -> identified s ->
  exists L', shows L' (save s m).2 /\ (L' = persist s L \/ L' = L /\ is_Ok (save s m).1 = false).
Proof.
  intros [H1 H2 H3 H4 H5] Hs. pose proof (sc_snapshot_bootstrap _ _ _ held_contract s (m_store m)) as Hb. unfold save.
  destruct (SaveSnapshot s (m_store m)) as [[[]|e] st] eqn:E; simpl in *.
  - exists (persist s L). split; [|by left]. split; [exact H1|exact H2| |exact H4|exact H5].
    apply (keeps_saved s L (m_store m)); [exact H3|exact Hs|exact Hb|].
    exact (sc_save_snapshot _ _ _ held_contract _ _ _ E).
  - destruct (sc_save_failed _ _ _ held_contract _ _ _ _ E) as [Eh|Eh].
    + exists L. split; [|by right]. split; [exact H1|exact H2| |exact H4|exact H5]. destruct H3 as [Kb Ks Ki].
      split; [exact (eq_trans Hb Kb)|exact (eq_trans Eh Ks)|exact Ki].
    + exists (persist s L). split; [|by left]. split; [exact H1|exact H2| |exact H4|exact H5].
      by eapply (keeps_saved s L (m_store m)).
Qed.

Lemma persist_step c s L : succ c (lg_served L) s -> lsteps L (persist s L).
Proof. intros H. eapply rtc_once, ls_persist, H. Qed.

Lemma wp_alone {R} (p : Prog R) m L Q r m' :
  wp p m L Q -> alone p m = Some (r, m') -> exists L', lsteps L L' /\ shows L' m' /\ Q r m' L'.
Proof.
  revert m L. induction p as [r0| |A f k IH|s k IH]; intros m L [Hs H]; simpl.
  - intros [= -> ->]. by exists L.
  - done.
  - destruct H as (L1 & Hl & Hk). destruct (f m) as [a m1]. intros Ha. destruct (IH _ _ _ Hk Ha) as (L' & ? & ? & ?).
    exists L'. split_and!; [by etrans|done..].
  - destruct H as ([c Hc] & Hi & Hk). destruct (save_shows s m L Hs Hi) as (L1 & Hs1 & Hor). specialize (Hk L1 Hs1 Hor).
    assert (Hl : lsteps L L1) by (destruct Hor as [->|[-> _]]; [by eapply persist_step|done]).
    destruct (save s m) as [a m1]. intros Ha. destruct (IH _ _ _ Hk Ha) as (L' & ? & ? & ?).
    exists L'. split_and!; [by etrans|done..].
Qed.

Context {IN : Interruptible St} {IL : InterruptibleLaws St}.

Lemma wp_stopped {R} (p : Prog R) m L Q st w :
  wp p m L Q -> stopped p m st w -> exists L', lsteps L L' /\ keeps L' st.
Proof.
  revert m L. induction p as [r0| |A f k IH|s k IH]; intros m L [Hs H] Hst;
    (destruct Hst as [[-> _]|Hst]; [exists L; split; [done|apply Hs]|]).
  - done.
  - done.
  - destruct H as (L1 & Hl & Hk). destruct (IH _ _ _ Hk Hst) as (L' & ? & ?). exists L'. split; [by etrans|done].
  - destruct H as ([c Hc] & Hi & Hk). destruct Hst as [[Ht _]|Hst].
    + apply torn_held in Ht as [Hb [Eh|Eh]].
      * exists L. split; [done|]. destruct (sh_keeps _ _ Hs) as [Kb Ks Ki].
        split; [exact (eq_trans Hb Kb)|exact (eq_trans Eh Ks)|exact Ki].
      * exists (persist s L). split; [by eapply persist_step|]. eapply keeps_saved; [apply Hs|done..].
    + destruct (save_shows s m L Hs Hi) as (L1 & Hs1 & Hor). destruct (IH _ _ _ (Hk L1 Hs1 Hor) Hst) as (L' & ? & ?).
      exists L'. split; [|done]. etrans; [|done]. destruct Hor as [->|[-> _]]; [by eapply persist_step|done].
Qed.

(** *** The operations *)

Lemma quiet_emit_diff s : quiet (emit_diff_prog (St := St) s).
Proof.
  unfold emit_diff_prog. induction (from_option d_Entries [] (s_Diff s)) as [|e l IH]; [done|]. split; [|done].
  intros m. split; try done. apply (m_emit_only _ m).
Qed.

(** Persisted, or the failure reported. *)
Lemma wp_save_prog c s m L Q :
  shows L m -> succ c (lg_served L) s -> identified s ->
  (forall m' L', shows L' m' -> lg_served L' = lg_served L -> lg_stored L' = Some (stored s) \/ lg_reported L' = true -> Q tt m' L') ->
  wp (save_prog s) m L Q.
Proof.
  intros Hs Hc Hi HQ. split; [done|]. split; [by exists c|]. split; [done|]. intros L' Hs' Hor.
  destruct (save s m) as [[[]|e] m1] eqn:E; simpl in *.
  - split; [done|]. destruct Hor as [->|[_ ?]]; [|done]. apply HQ; [done|done|by left].
  - split; [done|]. exists (report L'). split; [apply rtc_once, ls_report|].
    assert (Hc' : calm m1 (m_emit (EvRefreshFailure "persist" (err_Error e)) m1)) by (split; try done; apply (m_emit_only _ m1)).
    assert (Hr : shows (report L') (m_emit (EvRefreshFailure "persist" (err_Error e)) m1)).
    { destruct (shows_calm _ _ _ Hc' Hs') as [H1 H2 [K1 K2 K3] H4 H5].
      split; [exact H1|exact H2|split; [exact K1|exact K2|exact K3]|exact H4|]. intros _. exists (err_Error e).
      apply elem_of_app. right. by apply list_elem_of_singleton. }
    split; [done|]. apply HQ; [done| |by right]. by destruct Hor as [->|[-> _]].
Qed.

(** The pointer moves, then the gauges. *)
Lemma wp_activate c s m L Q :
  shows L m -> succ c (lg_served L) s -> identified s -> settled c L s ->
  (forall m', shows (serve_now s L) m' -> Q tt m' (serve_now s L)) -> wp (activate_prog s) m L Q.
Proof.
  intros Hs Hc Hi Hset HQ. split; [done|]. exists (serve_now s L). split; [eapply rtc_once, ls_serve; eauto|].
  assert (H1 : shows (serve_now s L) (set_active m s)).
  { destruct Hs as [H1 H2 [K1 K2 K3] H4 H5].
    split; [exact H1|reflexivity|split; [exact K1|exact K2|exact K3]|by intros ? [= <-]|exact H5]. }
  apply (wp_quiet (bind _ _)); [|done|].
  - repeat split; intros; done.
  - intros [] m' Hm'. by apply HQ.
Qed.

Lemma declared_successor p now w next rep w' :
  identified p -> rf_RefreshDeclared p now w = (Ok (Some next), rep, w') ->
  succ ByDeclaration (Some p) next /\ identified next.
Proof.
  intros Hp H%Pipeline_declared. destruct (RefreshDeclared_Ok _ _ _ _ _ _ _ H) as (Hf & Hid & Hu).
  split; [|apply Hf]. unfold RefreshDeclared in H. step_Ok H. apply clone_stored in Hs as ->.
  apply eff_bind_Ok in H as ([next1 rep1] & w1 & Hd & H).
  apply applyDeclaredSources_run in Hd as (_ & state & Hd). injection Hd as -> ->.
  destruct (str_eqb _ _) eqn:E in H; [done|]. injection H as Hn _ _. apply str_eqb_neq in E.
  destruct (LoadInternal (w_loads w) (InternalTrustSource cfg) now) as [set|e] eqn:El.
  - apply (su_declared _ _ _ _ (w_loads w) now set); [exact El|by rewrite <-Hn|done..].
  - exfalso. apply E. rewrite Hp. by destruct p.
Qed.

Lemma calm_refl m : calm m m.
Proof. by split. Qed.

Lemma calm_world m w : later (m_world m) w -> calm m (set_world m w).
Proof. by split. Qed.

Ltac quiet_step := first
  [ exact I
  | apply quiet_emit_diff
  | apply quiet_bind; [|intros]
  | split; [intros; split; try done; apply m_emit_only|intros]
  | split; [intros; by split|intros]
  | case_match ].

Lemma wp_reconcile prev m L Q :
  shows L m -> prev = lg_served L ->
  (forall c rep m' L', shows L' m' -> Q (lg_served L', c, rep) m' L') -> wp (reconcileDeclared_prog prev) m L Q.
Proof.
  intros Hs -> HQ. unfold reconcileDeclared_prog. destruct (lg_served L) as [p|] eqn:Ep;
    [|split; [done|]; rewrite <-Ep; by apply HQ].
  apply wp_act; [done|apply calm_refl|]. intros _. cbn [fst snd]. apply wp_act; [done| |].
  { pose proof (declared_later p (m_now m) (m_world m)) as He.
    destruct (rf_RefreshDeclared p (m_now m) (m_world m)) as [[r rep] w]. by apply calm_world. }
  destruct (rf_RefreshDeclared p (m_now m) (m_world m)) as [[r rep] w] eqn:Er. cbn [fst snd]. intros H1.
  destruct r as [[next|]|e]; [|split; [done|]; rewrite <-Ep; by apply HQ..].
  destruct (declared_successor _ _ _ _ _ _ (sh_served_id _ _ Hs p Ep) Er) as [Hsu Hid]. rewrite <-Ep in Hsu.
  apply wp_bind. eapply wp_save_prog; [done|exact Hsu|done|]. intros m2 L2 H2 Es Hor. rewrite <-Es in Hsu.
  apply wp_bind. eapply wp_activate; [done|exact Hsu|done|destruct Hor; [by left|right; auto]|]. intros m3 H3.
  apply wp_bind, wp_quiet; [repeat quiet_step|done|]. intros [] m4 H4. split; [done|]. by apply (HQ true rep m4 (serve_now next L2)).
Qed.

Lemma wp_ReconcileDeclared m L : shows L m -> wp ReconcileDeclared_prog m L (fun _ _ _ => True).
Proof.
  intros Hs. apply wp_act; [done|apply calm_refl|]. intros _. cbn [fst snd]. apply wp_bind.
  apply wp_reconcile; [done|apply Hs|]. intros c rep m' L' H'. apply wp_quiet; [repeat quiet_step|done|done].
Qed.

Lemma cycle_successor prev w next w' :
  rf_Refresh prev boot w = (Ok next, w') -> succ ByCycle prev next /\ identified next.
Proof. intros H%Refresh_cycle. split; [by econstructor|apply H]. Qed.

Lemma wp_accept dc decl next m L :
  shows L m -> succ ByCycle (lg_served L) next -> identified next ->
  wp (accept_prog (lg_served L) dc decl next) m L (fun _ _ _ => True).
Proof.
  intros Hs Hsu Hid. unfold accept_prog. apply wp_bind.
  assert (Hk : forall m' L', shows L' m' -> lg_served L' = lg_served L -> settled ByCycle L' next ->
    wp (bind (activate_prog next) (fun _ =>
      let+ now := time_Now in
      let+ _ := modify (fun m => set_m_gauges m (setLastSyncSuccess now (m_gauges m))) in
      let+ _ := match lg_served L with
                | None => log_inventory (Some next) (default DeclaredReport_zero (s_DeclaredLoad next))
                | Some _ => skip
                end in
      let+ _ := if cycleChanged (lg_served L) next && negb (Diff_Empty (s_Diff next)) then emit_diff_prog next else skip in
      Ret (Refreshed (mkOutcome (Some next) (dc || cycleChanged (lg_served L) next) dc
             (match s_DeclaredLoad next with Some rep => dr_Internal rep | None => decl end) None)))) m' L' (fun _ _ _ => True)).
  { intros m' L' H' Es Hset. rewrite <-Es in Hsu. apply wp_bind. eapply wp_activate; [done..|]. intros m2 H2.
    apply wp_quiet; [repeat quiet_step|done|done]. }
  destruct (must_persist (lg_served L) next) eqn:Em.
  - eapply wp_save_prog; [done|exact Hsu|done|]. intros m' L' H' Es Hor. apply Hk; [done..|]. destruct Hor; [by left|right; auto].
  - split; [done|]. apply Hk; [done..|]. right. split; [done|right]. destruct (lg_served L) as [p|]; [|done].
    exists p. split; [done|]. by apply must_persist_false.
Qed.

Lemma wp_Refresh m L : shows L m -> wp Refresh_prog m L (fun _ _ _ => True).
Proof.
  intros Hs. apply wp_act; [done|apply calm_refl|]. intros _. cbn [fst snd]. apply wp_act; [done|apply calm_refl|].
  intros _. cbn [fst snd]. apply wp_bind, wp_reconcile; [done|apply Hs|]. intros c rep m1 L1 H1.
  apply wp_bind, wp_quiet; [repeat quiet_step|done|]. intros [] m2 H2. rewrite (sh_boot _ _ Hs).
  apply wp_act; [done| |].
  { pose proof (refresh_later (lg_served L1) boot (m_world m2)) as He.
    destruct (rf_Refresh (lg_served L1) boot (m_world m2)) as [r w]. by apply calm_world. }
  destruct (rf_Refresh (lg_served L1) boot (m_world m2)) as [[next|e] w] eqn:Er; cbn [fst snd]; intros H3.
  - destruct (cycle_successor _ _ _ _ Er). by apply wp_accept.
  - apply wp_quiet; [repeat quiet_step|done|done].
Qed.

Lemma wp_ApprovePending fp actor m L : shows L m -> wp (ApprovePending_prog fp actor) m L (fun _ _ _ => True).
Proof.
  intros Hs. apply wp_act; [done|apply calm_refl|]. intros _. cbn [fst snd]. rewrite (sh_served _ _ Hs).
  destruct (lg_served L) as [cur|] eqn:Ec; [|done]. destruct (list_find _ _) as [[idx pa]|]; [|done].
  destruct (cloneSnapshot cur) as [clone|e] eqn:Ecl; [|done]. apply clone_stored in Ecl as ->.
  destruct (s_Pending (stored cur) !! idx) as [pa'|] eqn:El; [|done].
  apply wp_act; [done|apply calm_refl|]. intros _. cbn [fst snd].
  set (next := approve_in _ _ _ _ _). assert (Hsu : succ ByApproval (lg_served L) next) by (rewrite Ec; by constructor).
  assert (Hid : identified next) by reflexivity.
  split; [done|]. split; [by exists ByApproval|]. split; [done|]. intros L' H' Hor. cbn [bind store_Save].
  destruct (save next m) as [[[]|e] m1]; [|done]. cbn [fst snd bind] in *. destruct Hor as [->|[_ ?]]; [|done].
  apply wp_bind. eapply wp_activate; [done|exact Hsu|done|by left|]. intros m2 H2. apply wp_quiet; [repeat quiet_step|done|done].
Qed.

Lemma wp_locking o p m L : locking o = Some p -> shows L m -> wp p m L (fun _ _ _ => True).
Proof.
  destruct o as [| |fp actor| | | |]; intros [= <-] Hs;
    [by apply wp_Refresh|by apply wp_ReconcileDeclared|by apply wp_ApprovePending].
Qed.

(** *** Processes *)

Lemma Initialize_shows L st w log seed m :
  keeps L st -> Initialize seed (NewManager st w log) = (Ok tt, m) -> shows (restart L) m.
Proof.
  intros [Kb Ks Ki] Hi. apply Initialize_spec in Hi as (Hl & Hl' & (b & Hb & Hlb & Hsame) & _).
  destruct (Hsame boot Kb) as [<- Hm]. rewrite Ks in Hl. injection Hl as Hl.
  split; [exact Hb|by rewrite <-Hl| |exact Ki|done]. rewrite Hm. split; [exact Kb|exact Ks|exact Ki].
Qed.

Lemma ReconcileDeclared_shows L m : shows L m -> exists L', lsteps L L' /\ shows L' (ReconcileDeclared m).2.
Proof.
  intros Hs. pose proof (ReconcileDeclared_alone m) as Ha. destruct (ReconcileDeclared m) as [c m'].
  destruct (wp_alone _ _ _ _ _ _ (wp_ReconcileDeclared m L Hs) Ha) as (L' & ? & ? & _). eauto.
Qed.

Lemma Start_shows L st w log seed m :
  keeps L st -> Start seed (NewManager st w log) = (Ok tt, m) -> exists L', lsteps L L' /\ shows L' m.
Proof.
  intros Hk. unfold Start. destruct (Initialize seed _) as [[[]|e] m1] eqn:Hi; [|done]. intros [= <-].
  apply (Initialize_shows L) in Hi; [|done].
  assert (Hr : lsteps L (restart L)) by apply rtc_once, ls_restart.
  destruct (m_active m1); [|eauto]. destruct (ReconcileDeclared_shows _ _ Hi) as (L' & ? & ?). exists L'. split; [by etrans|done].
Qed.

Lemma keeps_reopen L st : keeps L st -> keeps L (Reopen st).
Proof. intros [K1 K2 K3]. destruct (reopened st) as [E1 E2]. split; congruence || done. Qed.

Lemma boots_shows L st w0 m : boots st w0 m -> keeps L st -> exists L', lsteps L L' /\ shows L' m.
Proof.
  intros Hb. revert L. induction Hb as [st w0 w log seed m _ Hs|st w0 w log seed m1 st' w1 m _ Hi Hst _ IH]; intros L Hk%keeps_reopen.
  - by eapply Start_shows.
  - apply (Initialize_shows L) in Hi; [|done].
    destruct (wp_stopped _ _ _ _ _ _ (wp_ReconcileDeclared _ _ Hi) Hst) as (L1 & Hl1 & Hk1).
    destruct (IH _ Hk1) as (L2 & Hl2 & ?). exists L2. split; [|done].
    etrans; [apply rtc_once, ls_restart|]. by etrans.
Qed.

Lemma exec_shows L o m m' : shows L m -> exec o m = Some m' -> exists L', lsteps L L' /\ shows L' m'.
Proof.
  intros Hs He. destruct (locking (St := St) o) as [p|] eqn:Hp.
  - pose proof (locking_alone o p m Hp) as Ha. rewrite He in Ha.
    destruct (answer o m) as [r|] eqn:Ean; [|by destruct o; simplify_eq/=; destruct (Refresh m) as [[]|]].
    destruct (wp_alone _ _ _ _ _ _ (wp_locking o p m L Hp Hs) Ha) as (L' & ? & ? & _). eauto.
  - destruct o as [| |fp actor| | |scope actor path|seed]; try done; simpl in He.
    + injection He as <-. exists L. split; [done|]. eapply shows_calm; [|exact Hs]. by split.
    + destruct (m_kick m); [|done]. injection He as <-. exists L. split; [done|]. eapply shows_calm; [|exact Hs]. by split.
    + injection He as <-. exists L. split; [done|]. eapply shows_calm; [|exact Hs]. split; try done. apply m_emit_only.
    + destruct (Start seed _) as [[[]|e] m1] eqn:Hst; [|done]. injection He as <-. eapply Start_shows; [apply keeps_reopen, Hs|exact Hst].
Qed.

Lemma life_shows L m m' : life m m' -> shows L m -> exists L', lsteps L L' /\ shows L' m'.
Proof.
  intros Hl. revert L. induction Hl as [m|m o m1 m2 He _ IH|m o p st w m1 m2 Hp Hst Hbt _ IH]; intros L Hs; [by exists L|..].
  - destruct (exec_shows _ _ _ _ Hs He) as (L1 & ? & H1). destruct (IH _ H1) as (L2 & ? & ?). exists L2. split; [by etrans|done].
  - destruct (wp_stopped _ _ _ _ _ _ (wp_locking o p m L Hp Hs) Hst) as (L1 & ? & H1).
    destruct (boots_shows _ _ _ _ Hbt H1) as (L2 & ? & H2). destruct (IH _ H2) as (L3 & ? & ?). exists L3.
    split; [|done]. etrans; [done|]. by etrans.
Qed.

Lemma installed_shows m : installed m -> m_bootstrap m = Some boot -> shows ledger_init m.
Proof.
  intros (st & w & seed & _ & Hs%loaded_snapshot & Hst) Hb. unfold Start in Hst.
  destruct (Initialize seed _) as [[[]|e] m1] eqn:Hi; [|done].
  apply Initialize_spec in Hi as (Hl & Hl' & (b & Hb1 & Hlb & _) & _). rewrite Hs in Hl. injection Hl as Hl.
  rewrite <-Hl in Hst, Hl'. injection Hst as <-. rewrite Hb in Hb1. injection Hb1 as <-.
  split; [exact Hb|by rewrite <-Hl| |done|done]. by split.
Qed.
End Simulation.

(** * Properties *)

Section Properties.
Context {X : X509} {AS : Asn1} {AL : GoAlloc} {SO : GoSort} {RA : GoRange} {N : Net} {XD : XmlDsig} {XM : XML}
  {FI : Files} {YA : Yaml} (cfg : Config).

Lemma successor_authentic boot c prev s n :
  successor cfg boot c prev s -> (forall p, prev = Some p -> authentic_snapshot cfg n boot p) ->
  exists n', authentic_snapshot cfg n' boot s.
Proof.
  destruct 1 as [load served next Hc|p next load now set Hl Hi _ _ Hu|cur idx pa now Hp]; intros Hprev.
  - exists (S (n `max` load)). eapply (cycle_authentic cfg load _ boot served); [lia| |done].
    intros p Hp. eapply authentic_later; [|by apply Hprev]. lia.
  - specialize (Hprev p eq_refl) as [H1 H2 H3 H4 _]. injection Hu as ? ? ? ? ? ? ? ? ? ? ? ?. exists (S load).
    split; [congruence..| | |right; exists load, now; split; [lia|congruence]].
    + intros t a Ht Ha. apply (H3 t); congruence.
    + intros q Hq. apply H4. congruence.
  - exists n. by apply approve_stored_authentic; [apply Hprev|].
Qed.

(** The ledger is enough to know that only authentic data is served or stored. *)
Theorem ledger_authentic boot L :
  rtc (lstep cfg boot) ledger_init L ->
  forall s, lg_served L = Some s \/ lg_stored L = Some s -> exists n, authentic_snapshot cfg n boot s.
Proof.
  intros Hr. pattern L. revert L Hr. apply rtc_ind_r; [by intros s []|]. intros L1 L2 _ Hl IH.
  assert (Hsu : forall c s, successor cfg boot c (lg_served L1) s -> exists n, authentic_snapshot cfg n boot s).
  { intros c s Hs. destruct (lg_served L1) as [p|] eqn:E.
    - destruct (IH p (or_introl eq_refl)) as [n Hn]. eapply (successor_authentic _ _ _ _ n); [exact Hs|]. by intros ? [= <-].
    - by eapply (successor_authentic _ _ _ _ 0%nat); [exact Hs|]. }
  destruct Hl as [c s L Hs|c s L Hs _|L|L]; intros s' Hs'; simpl in Hs'.
  - destruct Hs' as [Hs'|[= <-]]; [by apply IH; left|]. destruct (Hsu _ _ Hs) as [n ?]. exists n. by apply authentic_stored.
  - destruct Hs' as [[= <-]|Hs']; [by eapply Hsu|by apply IH; right].
  - by apply IH.
  - apply IH. by destruct Hs'; right.
Qed.

(** *** Lines of descent *)

(** From a snapshot of [O], over successors and stored forms. *)
Inductive descends (boot : Bootstrap) (O : Snapshot -> Prop) : Snapshot -> Prop :=
| de_origin s : O s -> descends boot O s
| de_successor c p s : descends boot O p -> successor cfg boot c (Some p) s -> descends boot O s
| de_stored s : descends boot O s -> descends boot O (stored s).

(** What is served and what is stored have such a line. *)
Definition lineage (boot : Bootstrap) (O : Snapshot -> Prop) (L : Ledger) : Prop :=
  (exists a, lg_served L = Some a /\ descends boot O a) /\ (exists s, lg_stored L = Some s /\ descends boot O s).

Lemma lineage_steps boot O L L' : rtc (lstep cfg boot) L L' -> lineage boot O L -> lineage boot O L'.
Proof.
  induction 1 as [|L L1 L2 Hl _ IH]; [done|]. intros [(a & Ha & Da) (s & Hs & Ds)]. apply IH.
  destruct Hl as [c s' L Hc|c s' L Hc _|L|L].
  - split; [by exists a|]. exists (stored s'). split; [done|]. rewrite Ha in Hc. exact (de_stored _ _ _ (de_successor _ _ _ _ _ Da Hc)).
  - split; [|by exists s]. exists s'. split; [done|]. rewrite Ha in Hc. exact (de_successor _ _ _ _ _ Da Hc).
  - split; [by exists a|by exists s].
  - split; by exists s.
Qed.

Context {CO : Codec} {CL : CodecLaws} {St : Type} {ST : Store St} {SL : StoreLaws St} {IN : Interruptible St}
  {IL : InterruptibleLaws St}.

(** C7 The service refines the ledger.  From a first install on, with cycles,
    reconciles, approvals, denied requests, saves that fail, processes stopped
    anywhere and restarted, on any store that outlives the process, what is served and
    what a new process would find evolve only by the steps of the ledger: a proper
    successor of what is served - a completed cycle on it, a change of the operator's
    file that leaves upstream data alone, the approval of one of its pending anchors -
    is persisted; a successor is served, an approval only once it is persisted, any
    other only once it is, or when a restart would lose nothing by it, or when the
    failure to persist has been reported; and a restart serves what is stored. *)
Theorem service_refines_ledger (m m' : Manager St) :
  installed (RF := Pipeline_Refresher cfg) m -> life (RF := Pipeline_Refresher cfg) m m' ->
  exists boot L, m_bootstrap m = Some boot /\ rtc (lstep cfg boot) ledger_init L /\
    m_bootstrap m' = Some boot /\ m_active m' = lg_served L /\
    held_bootstrap (m_store m') = Ok (Some boot) /\ held_snapshot (m_store m') = Ok (lg_stored L) /\
    (lg_reported L = true -> reported m').
Proof.
  intros Hi Hl. pose proof (Pipeline_laws cfg) as Hlaws.
  destruct (inv_boot _ (installed_inv (RF := Pipeline_Refresher cfg) m Hi)) as (boot & Hb & _).
  destruct (life_shows cfg boot ledger_init m m' Hl (installed_shows cfg boot m Hi Hb)) as (L & Hs & [H1 H2 [K1 K2 _] _ H5]).
  exists boot, L. by split_and!.
Qed.

Lemma life_trans (m m1 m2 : Manager St) :
  life (RF := Pipeline_Refresher cfg) m m1 -> life (RF := Pipeline_Refresher cfg) m1 m2 ->
  life (RF := Pipeline_Refresher cfg) m m2.
Proof using. induction 1; eauto using life. Qed.

(** The line of everything served or stored at a point of a life at which something was stored. *)
Lemma life_descends (m m1 m2 : Manager St) boot (O : Snapshot -> Prop) s a :
  installed (RF := Pipeline_Refresher cfg) m -> m_bootstrap m = Some boot ->
  life (RF := Pipeline_Refresher cfg) m m1 -> life (RF := Pipeline_Refresher cfg) m1 m2 ->
  held_snapshot (m_store m1) = Ok (Some s) -> m_active m1 = Some a -> descends boot O a -> descends boot O s ->
  forall s', m_active m2 = Some s' \/ held_snapshot (m_store m2) = Ok (Some s') -> descends boot O s'.
Proof.
  intros Hi Hb H1 H2 Hs Ha Da Ds.
  destruct (life_shows cfg boot ledger_init m m1 H1 (installed_shows cfg boot m Hi Hb)) as (L1 & _ & S1).
  destruct (life_shows cfg boot L1 m1 m2 H2 S1) as (L2 & R2 & S2).
  assert (Hl : lineage boot O L1).
  { split; [exists a|exists s]; (split; [|done]); [by rewrite <-(sh_served _ _ _ S1)|].
    pose proof (ke_stored _ _ _ (sh_keeps _ _ _ S1)) as E. congruence. }
  apply (lineage_steps _ _ _ _ R2) in Hl as [(a2 & Ha2 & D2) (s2 & Hs2 & E2)].
  intros s' [Hs'|Hs']; [rewrite (sh_served _ _ _ S2) in Hs'|rewrite (ke_stored _ _ _ (sh_keeps _ _ _ S2)) in Hs'];
    congruence.
Qed.

(** C4 Crashes are survived and what was durable is built upon.  Let the process be
    stopped at any step of any refresh, reconcile or approval - in the middle of the
    save of a snapshot, and again while it restarts - as often as one likes from a
    first install on, on a store that outlives the process.  Then at any later point
    the bootstrap is the one first installed, in the manager and in the store; every
    snapshot served or stored is authentic, well-formed and identified; and the
    gauges are those of the snapshot served.  And once a snapshot is in the store,
    something is served at any later point; its LOTL sequence is not below; and
    everything served or stored later is reached by completed cycles, changes of the
    operator's file and approvals from what was served or stored at that point - from
    the one snapshot [a] alone if [a] was both served and stored, as it is after an
    approval that succeeded: no restart goes back behind it. *)
Theorem crash_recovery (m m1 m2 : Manager St) :
  installed (RF := Pipeline_Refresher cfg) m -> life (RF := Pipeline_Refresher cfg) m m1 ->
  life (RF := Pipeline_Refresher cfg) m1 m2 ->
  exists boot, m_bootstrap m = Some boot /\ m_bootstrap m2 = Some boot /\
    held_bootstrap (m_store m2) = Ok (Some boot) /\
    (forall s, m_active m2 = Some s \/ held_snapshot (m_store m2) = Ok (Some s) ->
       authentic_snapshot cfg (w_loads (m_world m2)) boot s /\ snapshot_ok s /\ identified s) /\
    (forall s, m_active m2 = Some s -> gauges_show s (m_gauges m2)) /\
    (forall s, held_snapshot (m_store m1) = Ok (Some s) ->
       (exists s', m_active m2 = Some s' /\ s_LOTLSequence s <= s_LOTLSequence s') /\
       (exists s', held_snapshot (m_store m2) = Ok (Some s')) /\
       forall s', m_active m2 = Some s' \/ held_snapshot (m_store m2) = Ok (Some s') ->
         descends boot (fun o => m_active m1 = Some o \/ o = s) s' /\
         forall a, m_active m1 = Some a -> s = stored a -> descends boot (eq a) s').
Proof.
  intros Hi H1 H2. pose proof (Pipeline_laws cfg) as Hlaws.
  destruct (inv_boot _ (installed_inv (RF := Pipeline_Refresher cfg) m Hi)) as (boot & Hb & _).
  destruct (life_holds cfg m m2 boot Hi Hb (life_trans _ _ _ H1 H2)) as (I2 & Hb2 & Hh2 & Hq).
  exists boot. do 4 (split; [done|]). split; [exact (inv_gauges _ I2)|]. intros s Hs.
  pose proof (installed_backed cfg m Hi) as Hbk.
  destruct (life_backed m m1 H1 Hbk s Hs) as (a & Ha & _). split; [exact (life_durable m m1 m2 s Hbk H1 H2 Hs)|].
  split; [|intros s' Hs'; split].
  - destruct (life_above (s_LOTLSequence s) m1 m2 H2) as [_ (s' & ? & _)]; [|by exists s'].
    destruct (life_backed m m1 H1 Hbk s Hs) as (a' & ? & ?). split; [by exists a'|by exists s].
  - eapply (life_descends m m1 m2); eauto using descends.
  - intros a' Ha' ->. eapply (life_descends m m1 m2); eauto using descends.
Qed.
End Properties.
