(* ===== verification/Release.v ===== *)
(** * The automatic release of held additions

    Hold mode over a sequence of cycles: an addition that each of them finds on the
    list it downloads is served from the first cycle that runs when its period is
    over, and not before.  A cycle that spares the download because the digest is
    unchanged, or that falls back on the previous entry, finds nothing
    ([Cycle.unchanged_list_drops_pending]). *)

From S2P Require Import Prelude Model ContentId Diff Tsl CertBody Slices Extract ExtractProps Internal.
From S2P Require Import Store Fetcher Verify Sources Pipeline PipelineProps Cycle Telemetry Manager ManagerProps.
From S2P Require Import Service Provenance Wellformed Samples Demo.

(** ** Keys *)

(** The last slash of a key separates the code from the fingerprint. *)
Lemma slash_split_last s1 s2 r1 r2 :
  slash_free r1 = true -> slash_free r2 = true ->
  s1 +:+ String slash r1 = s2 +:+ String slash r2 -> s1 = s2 /\ r1 = r2.
Proof.
  intros H1 H2. revert s2. induction s1 as [|c s1 IH]; intros [|d s2]; rewrite ?app_nil_s, ?app_cons_s; intros E.
  - by injection E.
  - injection E as _ ->. by rewrite slash_free_app in H1.
  - injection E as _ <-. by rewrite slash_free_app in H2.
  - injection E as -> E. by destruct (IH s2 E) as [-> ->].
Qed.

Lemma prevPending_lookup p key pa :
  prevPending (Some p) !! key = Some pa -> pa ∈ s_Pending p /\ pending_key pa = key.
Proof.
  simpl. assert (Hg : forall (m : gmap string PendingAnchor) l,
    foldl (fun m pa => <[ pending_key pa := pa ]> m) m l !! key = Some pa ->
    m !! key = Some pa \/ pa ∈ l /\ pending_key pa = key).
  { intros m l. revert m. induction l as [|x l IH]; simpl; [by left|]. intros m [H|[H E]]%IH; [|right; set_solver].
    apply lookup_insert_Some in H as [[E ->]|[_ H]]; [right; set_solver|by left]. }
  intros [H|?]%Hg; [by rewrite lookup_empty in H|done].
Qed.

Lemma prevPending_is_Some p pa : pa ∈ s_Pending p -> is_Some (prevPending (Some p) !! pending_key pa).
Proof.
  simpl. assert (Hg : forall (m : gmap string PendingAnchor) l key, is_Some (m !! key) \/ key ∈ pending_key <$> l ->
    is_Some (foldl (fun m pa => <[ pending_key pa := pa ]> m) m l !! key)).
  { intros m l key. revert m. induction l as [|x l IH]; csimpl; intros m H; [by destruct H as [?|?%elem_of_nil]|].
    apply IH. destruct (decide (pending_key x = key)) as [->|Hne]; [left; rewrite lookup_insert_eq; eauto|].
    rewrite lookup_insert_ne by done. set_solver. }
  intros H. apply Hg. right. by apply list_elem_of_fmap_2.
Qed.

Section Release.
Context {X : X509} {AS : Asn1} {AL : GoAlloc} {SO : GoSort} {RA : GoRange} {N : Net} {XD : XmlDsig} {XM : XML}
  {FI : Files} {YA : Yaml} {CO : Codec} (cfg : Config).

(** Where a certificate of a territory stands in a snapshot. *)
Definition serves_cert (s : Snapshot) (code fp : string) : Prop :=
  exists t a, t ∈ s_Territories s /\ t_Code t = code /\ a ∈ t_Anchors t /\ a_FingerprintSHA256 a = fp.

Definition held_since (s : Snapshot) (code fp : string) (since : time) : Prop :=
  exists pa, pa ∈ s_Pending s /\ place (p_Anchor pa) = (code, fp) /\ p_FirstSeen pa = since.

(** *** Upstream *)

(** The time of a cycle that starts in [w]. *)
Definition cycle_time (w : world) : time := wall_clock (length (w_trace w)).

(** The territories that come before one in the loop. *)
Fixpoint codes_before (code : string) (codes : list string) : option (list string) :=
  match codes with
  | [] => None
  | c :: rest => if str_eqb c code then Some [] else cons c <$> codes_before code rest
  end.

(** The anchors of the list that the cycle starting from [prev] in [w] downloads for a
    territory, verifies and parses: [None] when it does not get so far, or spares
    the download. *)
Definition upstream_anchors (prev : option Snapshot) (boot : Bootstrap) (w : world) (code : string) : option (list Anchor) :=
  let now := cycle_time w in
  let prevT := prev_territory prev code in
  match ingestLOTL cfg prev boot now w with
  | (Ok res, w1) =>
      codes_before code (expandTerritories (cfg_Territories cfg) (lr_pointers res)) ≫= (fun before =>
      match ingest_territories cfg (lr_pointers res) before prev now w1, ps_pointerFor (lr_pointers res) code with
      | (Ok _, w2), Ok lp =>
          let src := national_source cfg code (lp_URL lp) prevT now in
          let last := (fun t => mkRaw_ "" (t_SourceDigest t) (t_TLSequence t)) <$> prevT in
          match national_Fetch (MaxSize cfg) src last w2 with
          | (Ok raw, w3) =>
              match national_Verify src raw (lp_SignersDER lp) w3 with
              | (Ok (_, src'), _) =>
                  nt_list src' ≫= (fun tl =>
                  match ExtractAnchors tl code (AcceptedStatuses cfg) (AcceptedServiceTypes cfg) now with
                  | Ok (anchors, _) => Some anchors
                  | Err _ => None
                  end)
              | _ => None
              end
          | _ => None
          end
      | _, _ => None
      end)
  | _ => None
  end.

(** A list the cycle downloads has the certificate among its anchors. *)
Definition listed (prev : option Snapshot) (boot : Bootstrap) (w : world) (code fp : string) : Prop :=
  exists anchors, upstream_anchors prev boot w code = Some anchors /\ fp ∈ a_FingerprintSHA256 <$> anchors.

(** The release period is over when the cycle of [s] runs. *)
Definition due (since : time) (s : Snapshot) : Prop :=
  0 < HoldAutoRelease cfg /\ HoldAutoRelease cfg <= time_Sub (s_GeneratedAt s) since.

(** Successive successful cycles, each of which downloads a list with the certificate. *)
Inductive cycles (code fp : string) : Snapshot -> list Snapshot -> Prop :=
| cycles_nil s : cycles code fp s []
| cycles_cons s boot w s' w' l :
    Pipeline.Refresh cfg (Some s) boot w = (Ok s', w') -> listed (Some s) boot w code fp ->
    cycles code fp s' l -> cycles code fp s (s' :: l).

(** *** From the list to the snapshot *)

Lemma codes_before_Some code codes before :
  codes_before code codes = Some before -> exists after, codes = before ++ code :: after.
Proof.
  revert before. induction codes as [|c codes IH]; intros before; simpl; [done|].
  destruct (str_eqb c code) eqn:E; [apply str_eqb_eq in E as ->; intros [= <-]; by exists codes|].
  destruct (codes_before code codes) as [l|]; [|done]. intros [= <-]. destruct (IH l eq_refl) as [after ->]. by exists after.
Qed.

Lemma upstream_territory prev boot w code anchors :
  upstream_anchors prev boot w code = Some anchors ->
  exists res w1 before after ts w2 raw tl ws w3,
    ingestLOTL cfg prev boot (cycle_time w) w = (Ok res, w1) /\
    expandTerritories (cfg_Territories cfg) (lr_pointers res) = before ++ code :: after /\
    ingest_territories cfg (lr_pointers res) before prev (cycle_time w) w1 = (Ok ts, w2) /\
    ingestTerritory cfg (lr_pointers res) code prev (cycle_time w) w2 = (Ok (new_territory code raw tl anchors ws), w3) /\
    ExtractAnchors tl code (AcceptedStatuses cfg) (AcceptedServiceTypes cfg) (cycle_time w) = Ok (anchors, ws).
Proof.
  unfold upstream_anchors. destruct (ingestLOTL cfg prev boot _ w) as [[res|] w1] eqn:Hl; [|done].
  destruct (codes_before code _) as [before|] eqn:Hb; [|done]. apply codes_before_Some in Hb as [after He]. simpl.
  destruct (ingest_territories cfg _ before _ _ w1) as [[ts|] w2] eqn:Ht; [|done].
  destruct (ps_pointerFor _ code) as [lp|] eqn:Hp; [|done].
  destruct (national_Fetch _ _ _ w2) as [[raw|] w3] eqn:Hf; [|done].
  destruct (national_Verify _ raw _ w3) as [[[b src]|] w4] eqn:Hv; [|done].
  destruct (nt_list src) as [tl|] eqn:Hn; [|done]. simpl.
  destruct (ExtractAnchors tl code _ _ _) as [[as_ ws]|] eqn:Hx; [|done]. intros [= ->].
  destruct (emit_stale_run cfg (new_territory code raw tl anchors ws) (cycle_time w) w4) as [w5 Hs].
  exists res, w1, before, after, ts, w2, raw, tl, ws, w5. split_and!; [done..| |done].
  unfold ingestTerritory, fetchTerritory, eff_bind, eff_of_result, eff_catch. fold (prev_territory prev code).
  rewrite Hp, Hf, Hv. apply national_Verify_Ok in Hv as (pinned & tl' & _ & [_ _ _ _ (Hc & Hst & Hty & Hnow)]).
  unfold national_Extract. rewrite Hn, Hc, Hst, Hty, Hnow. simpl. rewrite Hx. simpl. by rewrite Hs.
Qed.

Lemma ingest_territories_at ps before code after prev now w ts1 n1 w1 t w2 ts n w' :
  ingest_territories cfg ps before prev now w = (Ok (ts1, n1), w1) ->
  ingestTerritory cfg ps code prev now w1 = (Ok t, w2) ->
  ingest_territories cfg ps (before ++ code :: after) prev now w = (Ok (ts, n), w') -> t ∈ ts.
Proof.
  intros Hb Ht. revert w ts1 n1 ts n w' Hb. induction before as [|c before IH]; intros w ts1 n1 ts n w'; simpl; unfold eff_catch.
  - intros [= _ _ <-]. rewrite Ht. intros ([ts' n'] & w3 & _ & [= <- _ _])%eff_bind_Ok. apply list_elem_of_here.
  - destruct (ingestTerritory cfg ps c prev now w) as [r w0]. intros ([ts2 n2] & w3 & Hb & H)%eff_bind_Ok.
    assert (w3 = w1) as -> by (destruct r; by injection H). intros ([ts3 n3] & w4 & Ha & H')%eff_bind_Ok.
    specialize (IH _ _ _ _ _ _ Hb Ha). destruct r; injection H' as <- _ _; by apply list_elem_of_further.
Qed.

(** What the cycle makes of an anchor it found. *)
Lemma listed_entry p boot w next w' code fp :
  ActivationMode cfg = ModeHold -> Pipeline.Refresh cfg (Some p) boot w = (Ok next, w') -> listed (Some p) boot w code fp ->
  exists t a, t_Code t = code /\ a ∈ t_Anchors t /\ place a = (code, fp) /\
    hold_result cfg (Some p) (s_GeneratedAt next) t ∈ s_Territories next /\
    forall pa, pa ∈ hold_pending cfg (Some p) (s_GeneratedAt next) t -> pa ∈ s_Pending next.
Proof.
  intros Hm Hr (anchors & Hd & (b & -> & Hb)%list_elem_of_fmap).
  destruct (upstream_territory _ _ _ _ _ Hd) as
    (res & w1 & before & after & [ts1 n1] & w2 & raw & tl & ws & w3 & Hl & He & Ht1 & Ht2 & Hx).
  revert Hr. unfold Pipeline.Refresh. intros (now & w0 & [= <- <-] & Hr)%eff_bind_Ok. fold (cycle_time w) in *.
  apply eff_bind_Ok in Hr as (res' & w1' & Hl' & Hr). rewrite Hl in Hl'. injection Hl' as <- <-.
  destruct (lr_sequence res <? _); [done|]. rewrite He in Hr. apply eff_bind_Ok in Hr as ([ts n] & w4 & Hts & Hr).
  pose proof (ingest_territories_at _ _ _ _ _ _ _ _ _ _ _ _ _ _ _ Ht1 Ht2 Hts) as Hin.
  destruct (bool_decide _ && _); [done|]. apply eff_bind_Ok in Hr as ([next1 rep] & w5 & Hd1 & Hr).
  apply applyDeclaredSources_run in Hd1 as (_ & state & Hd1). injection Hd1 as -> ->.
  apply eff_bind_Ok in Hr as (next2 & w6 & Hh & Hr).
  match type of Hh with applyHoldMode _ _ ?n1 _ _ = _ =>
    destruct (applyHoldMode_run cfg (Some p) n1 (cycle_time w) w5) as [w7 Hrun] end.
  rewrite Hrun, Hm in Hh. simpl in Hh. injection Hh as <- _. injection Hr as <- _. simpl.
  eexists (new_territory code raw tl anchors ws), (stamp_sequence _ b). split_and!; [done| | | |].
  - simpl. by apply list_elem_of_fmap_2.
  - unfold place. simpl. by rewrite (extract_territory _ _ _ _ _ _ _ _ Hx Hb).
  - by apply list_elem_of_fmap_2.
  - intros pa Hpa. rewrite elem_of_sort_Slice, elem_of_flat_map. by eexists.
Qed.

Lemma listed_served_or_held p boot w next w' code fp :
  ActivationMode cfg = ModeHold -> Pipeline.Refresh cfg (Some p) boot w = (Ok next, w') ->
  listed (Some p) boot w code fp -> serves_cert next code fp \/ exists f, held_since next code fp f.
Proof.
  intros Hm Hr Hl. destruct (listed_entry _ _ _ _ _ _ _ Hm Hr Hl) as (t & a & <- & Ha & Hpl & Hin & Hpd).
  destruct (hold_fate (HoldAutoRelease cfg) (Some p) (s_GeneratedAt next) (t_Code t) a) as [| |f isNew] eqn:E; [left..|right].
  1,2: eexists _, a; split; [exact Hin|]; split; [done|]; split; [|by injection Hpl]; simpl;
    apply list_elem_of_In, List.filter_In; split; [by apply list_elem_of_In|by rewrite E].
  assert (Hpa : mkPending a f ∈ s_Pending next).
  { apply Hpd. apply list_elem_of_omap. exists a. split; [done|]. by rewrite E. }
  by exists f, (mkPending a f).
Qed.

(** The entries a cycle has before the hold is applied. *)
Lemma cycle_entries p boot w next w' :
  ActivationMode cfg = ModeHold -> snapshot_ok p -> Pipeline.Refresh cfg (Some p) boot w = (Ok next, w') ->
  exists ts, (forall t, t ∈ ts -> entry_ok t) /\
    s_Territories next = (hold_result cfg (Some p) (s_GeneratedAt next) <$> ts) /\
    forall pa, pa ∈ s_Pending next <-> exists t, t ∈ ts /\ pa ∈ hold_pending cfg (Some p) (s_GeneratedAt next) t.
Proof.
  intros Hm Hp [(now & res & ts & _ & Hts & _ & -> & _ & _ & _ & _ & _ & _ & Ht & Hpd & _) _ _ _ _]%Refresh_cycle.
  rewrite Hm in Ht, Hpd. simpl in Ht, Hpd. exists ts. split_and!; [|done|].
  - intros t [i Hti]%list_elem_of_lookup. destruct (Forall2_lookup_r _ _ _ _ _ Hts Hti) as (code & _ & Hd).
    apply (cycle_entry_ok cfg _ (Some p)) in Hd as [? _]; [done|]. by intros ? [= <-].
  - intros pa. by rewrite Hpd, elem_of_sort_Slice, elem_of_flat_map.
Qed.

Lemma active_key p code fp :
  snapshot_ok p -> slash_free fp = true ->
  code +:+ "/" +:+ fp ∈ prevActive (Some p) <-> serves_cert p code fp.
Proof.
  intros Hp Hf. simpl. rewrite elem_of_list_to_set, elem_of_flat_map. unfold serves_cert.
  setoid_rewrite list_elem_of_fmap. split.
  - intros (t & Ht & a & E & Ha). apply slash_split_last in E as [-> ->]; [by exists t, a|done|].
    destruct (ao_cert _ _ (eo_anchors _ (so_entries _ Hp t Ht) a Ha)) as [-> _]. apply hex_slash_free.
  - intros (t & a & Ht & <- & Ha & <-). exists t. split; [done|]. by exists a.
Qed.

(** A held anchor is found again under its key, with the time it was first seen. *)
Lemma pending_key_unique p code fp f :
  snapshot_ok p -> held_since p code fp f ->
  slash_free fp = true /\ exists pa, prevPending (Some p) !! (code +:+ "/" +:+ fp) = Some pa /\ p_FirstSeen pa = f.
Proof.
  intros Hp (pa & Hpa & [= <- <-] & <-).
  assert (Hfree : forall q, q ∈ s_Pending p -> slash_free (a_FingerprintSHA256 (p_Anchor q)) = true).
  { intros q Hq. destruct (so_held _ Hp q Hq) as [Hok _]. destruct (ao_cert _ _ Hok) as [-> _]. apply hex_slash_free. }
  split; [by apply Hfree|]. destruct (prevPending_is_Some p pa Hpa) as [q Hq]. exists q. split; [exact Hq|].
  apply prevPending_lookup in Hq as [Hin E]. unfold pending_key in E.
  apply slash_split_last in E as [E1 E2]; [|by apply Hfree..].
  assert (q = pa) as ->; [|done]. eapply NoDup_fmap_inj; [exact (so_pending _ Hp)|done..|]. simpl. unfold place. by rewrite E1, E2.
Qed.

(** Served certificates stay served while listed. *)
Lemma cycle_keeps_served p boot w next w' code fp :
  ActivationMode cfg = ModeHold -> snapshot_ok p -> Pipeline.Refresh cfg (Some p) boot w = (Ok next, w') ->
  serves_cert p code fp -> listed (Some p) boot w code fp -> serves_cert next code fp.
Proof.
  intros Hm Hp Hr Hs [?|(f & pa & Hpa & Hpl & _)]%(listed_served_or_held _ _ _ _ _ _ _ Hm Hr); [done|]. exfalso.
  destruct (cycle_entries _ _ _ _ _ Hm Hp Hr) as (ts & He & _ & Hpd). apply Hpd in Hpa as (t & Ht & Hpa).
  destruct (hold_pending_elem _ _ _ _ _ Hpa) as [Ha Hh]. injection Hpl as E1 E2.
  rewrite (ao_territory _ _ (eo_anchors _ (He t Ht) _ Ha)) in E1. subst code.
  assert (Hfree : slash_free fp = true).
  { destruct (ao_cert _ _ (eo_anchors _ (He t Ht) _ Ha)) as [E _]. rewrite <-E2, E. apply hex_slash_free. }
  rewrite <-active_key in Hs by done. pose proof (hold_fate_spec cfg p (s_GeneratedAt next) (t_Code t) (p_Anchor pa)) as Hf.
  unfold hold_key in Hf. cbv zeta in Hf. rewrite E2 in Hf. destruct (hold_fate _ _ _ _ _); [done..|]. by destruct Hf.
Qed.

(** One cycle decides a held certificate that is still listed. *)
Lemma cycle_decides_held p boot w next w' code fp f :
  ActivationMode cfg = ModeHold -> snapshot_ok p -> Pipeline.Refresh cfg (Some p) boot w = (Ok next, w') ->
  held_since p code fp f -> ~ serves_cert p code fp -> listed (Some p) boot w code fp ->
  due f next /\ serves_cert next code fp \/ ~ due f next /\ held_since next code fp f /\ ~ serves_cert next code fp.
Proof.
  intros Hm Hp Hr Hh Hns Hl%(listed_served_or_held _ _ _ _ _ _ _ Hm Hr). destruct (pending_key_unique _ _ _ _ Hp Hh) as (Hfree & q & Hq & Hqf).
  rewrite <-active_key in Hns by done.
  assert (Hdue : released cfg p (s_GeneratedAt next) (code +:+ "/" +:+ fp) <-> due f next).
  { unfold released, due. rewrite Hq, <-Hqf. split; [intros (? & [= <-] & ?); done|by exists q]. }
  destruct (cycle_entries _ _ _ _ _ Hm Hp Hr) as (ts & He & Ht & Hpd).
  assert (Hfate : forall t a, t_Code t = code -> a_FingerprintSHA256 a = fp ->
    match hold_fate (HoldAutoRelease cfg) (Some p) (s_GeneratedAt next) (t_Code t) a with
    | Keep => False | Release => due f next | Hold fs _ => ~ due f next /\ fs = f end).
  { intros t a <- <-. pose proof (hold_fate_spec cfg p (s_GeneratedAt next) (t_Code t) a) as Hf.
    unfold hold_key in Hf. cbv zeta in Hf. destruct (hold_fate _ _ _ _ _); [done|by apply Hdue, Hf|].
    destruct Hf as (_ & Hnr & -> & _). rewrite Hq. split; [by rewrite <-Hdue|done]. }
  assert (Hsv : serves_cert next code fp -> due f next).
  { intros (t' & a & Ht' & Hc & Ha & Hfp). rewrite Ht in Ht'. apply list_elem_of_fmap in Ht' as (t & -> & Htin). simpl in *.
    apply list_elem_of_In, List.filter_In in Ha as [_ Ha]. specialize (Hfate t a Hc Hfp).
    by destruct (hold_fate _ _ _ _ _). }
  destruct Hl as [Hs|(f' & pa & Hpa & Hpl & _)]; [left; split; [by apply Hsv|done]|right].
  apply Hpd in Hpa as Hpa'. destruct Hpa' as (t & Htin & Hpt). destruct (hold_pending_elem _ _ _ _ _ Hpt) as [Ha _].
  injection Hpl as E1 E2. rewrite (ao_territory _ _ (eo_anchors _ (He t Htin) _ Ha)) in E1.
  specialize (Hfate t (p_Anchor pa) E1 E2). apply list_elem_of_omap in Hpt as (a & _ & Hh').
  assert (Ea : p_Anchor pa = a) by (unfold held_as in Hh'; by destruct (hold_fate _ _ _ _ a); simplify_eq).
  rewrite Ea in Hfate. unfold held_as in Hh'. destruct (hold_fate _ _ _ _ a) as [| |fs isNew]; [done..|].
  injection Hh' as <-. destruct Hfate as [Hnd ->]. split_and!; [done| |by intros ?%Hsv].
  eexists. split; [exact Hpa|]. split; [|done]. simpl in *. unfold place.
  by rewrite (ao_territory _ _ (eo_anchors _ (He t Htin) _ Ha)), E1, E2.
Qed.

(** The whole sequence, once it is known where the certificate stands. *)
Lemma cycles_served s l code fp :
  ActivationMode cfg = ModeHold -> snapshot_ok s -> cycles code fp s l -> serves_cert s code fp ->
  Forall (fun x => serves_cert x code fp) l.
Proof.
  intros Hm Hok Hc. revert Hok. induction Hc as [|s boot w s' w' l Hr Hl _ IH]; intros Hok Hs; [constructor|].
  assert (Hok' : snapshot_ok s') by (eapply Refresh_ok; [|exact Hr]; by intros ? [= <-]).
  pose proof (cycle_keeps_served _ _ _ _ _ _ _ Hm Hok Hr Hs Hl). auto.
Qed.

(** C10 The automatic release happens, and not early: take a well-formed snapshot in
    hold mode with an addition held since some time, and any sequence of successful
    cycles each of which downloads and verifies a list of the territory from which
    the certificate is extracted.  Then a snapshot of the sequence serves the addition
    exactly when the release period was over at its cycle or at an earlier one: it is
    let through by the first cycle that runs after the period, and stays. *)
Theorem auto_release_live s l code fp since :
  ActivationMode cfg = ModeHold -> snapshot_ok s -> cycles code fp s l -> held_since s code fp since ->
  forall l1 x l2, l = l1 ++ x :: l2 -> (serves_cert x code fp <-> Exists (due since) (l1 ++ [x])).
Proof.
  intros Hm Hok Hc Hh.
  assert (Hns : ~ serves_cert s code fp).
  { destruct (pending_key_unique _ _ _ _ Hok Hh) as (Hfree & _). destruct Hh as (pa & Hpa & [= <- <-] & _).
    destruct (so_held _ Hok pa Hpa) as [_ (t & Ht & Ec & _ & Hni)]. intros (t' & a & Ht' & Ec' & Ha & Ef).
    assert (t' = t) as -> by (eapply so_entry_unique; [exact Hok|done..|congruence]).
    apply Hni. rewrite <-Ef. by apply list_elem_of_fmap_2. }
  revert Hok Hh Hns. induction Hc as [s|s boot w s' w' l Hr Hl Hc IH]; intros Hok Hh Hns l1 x l2 E; [by destruct l1|].
  assert (Hok' : snapshot_ok s') by (eapply Refresh_ok; [|exact Hr]; by intros ? [= <-]).
  destruct (cycle_decides_held _ _ _ _ _ _ _ _ Hm Hok Hr Hh Hns Hl) as [[Hd Hs]|(Hnd & Hh' & Hns')].
  - pose proof (cycles_served _ _ _ _ Hm Hok' Hc Hs) as Hall.
    assert (Hx : serves_cert x code fp).
    { assert (Hin : x ∈ s' :: l) by (rewrite E; set_solver). apply elem_of_cons in Hin as [->|Hin]; [done|].
      rewrite Forall_forall in Hall. by apply Hall. }
    split; [intros _|done]. apply Exists_exists. exists s'. split; [|done].
    destruct l1 as [|y l1]; injection E as -> _; set_solver.
  - destruct l1 as [|y l1]; simpl in E; injection E as -> ->.
    + simpl. rewrite Exists_cons, Exists_nil. tauto.
    + simpl. rewrite Exists_cons, <-(IH Hok' Hh' Hns' l1 x l2 eq_refl). tauto.
Qed.
End Release.

(** ** On the concrete environment

    No digests are published, so every cycle downloads; the clock advances with
    the requests; the list grows after the first cycle. *)

Definition rel_Net : Net := {|
  url_Parse := demo_url;
  url_Resolve := fun _ loc => Ok loc;
  http_RoundTrip := fun n url =>
    if Contains url ".sha2" then HttpResponse 404 "" "" None
    else demo_reply (Some (if bool_decide (n < 4)%nat then "de-1" else "de-2")) url;
  wall_clock := fun n => 100 + 15 * Z.of_nat n |}.

Definition rel_cycle (prev : option Snapshot) (w : world) : result Snapshot * world :=
  @Pipeline.Refresh toy_X509 toy_Asn1 double_GoAlloc merge_GoSort list_GoRange rel_Net demo_XmlDsig demo_XML toy_Files
    toy_Yaml (demo_config ModeHold) prev demo_boot w.

Fixpoint rel_cycles (n : nat) (prev : option Snapshot) (w : world) : list (Snapshot * world) :=
  match n with
  | O => []
  | S n' => let r := rel_cycle prev w in
      match r.1 with Ok s => (s, r.2) :: rel_cycles n' (Some s) r.2 | Err _ => [] end
  end.

Definition rel_trace : list (Snapshot * world) := Eval vm_compute in rel_cycles 5 None demo_world.
Definition rel_snap (i : nat) : Snapshot := from_option fst demo_first (rel_trace !! i).
Definition rel_world (i : nat) : world := from_option snd demo_world (rel_trace !! i).
Definition rel_y : string := hex_EncodeToString (pad_to 32 "Y").

Lemma rel_run i : (i < 4)%nat -> rel_cycle (Some (rel_snap i)) (rel_world i) = (Ok (rel_snap (S i)), rel_world (S i)).
Proof. destruct i as [|[|[|[|i]]]]; intros Hi; [vm_compute; reflexivity..|lia]. Qed.

Lemma rel_ok i : (i < 5)%nat -> @snapshot_ok toy_X509 toy_Asn1 (rel_snap i).
Proof.
  induction i as [|i IH]; intros Hi.
  - eapply (@Refresh_ok toy_X509 toy_Asn1 double_GoAlloc merge_GoSort list_GoRange rel_Net demo_XmlDsig demo_XML toy_Files
      toy_Yaml (demo_config ModeHold) demo_boot None demo_world _ (rel_world 0)); [done|]. vm_compute. reflexivity.
  - eapply (@Refresh_ok toy_X509 toy_Asn1 double_GoAlloc merge_GoSort list_GoRange rel_Net demo_XmlDsig demo_XML toy_Files
      toy_Yaml (demo_config ModeHold) demo_boot (Some (rel_snap i))); [|exact (rel_run i ltac:(lia))].
    intros p [= <-]. apply IH. lia.
Qed.

(** Each of the cycles downloads a list with the certificate. *)
Definition rel_upstream (i : nat) : option (list string) :=
  option_map (map a_FingerprintSHA256) (@upstream_anchors toy_X509 toy_Asn1 double_GoAlloc merge_GoSort list_GoRange rel_Net demo_XmlDsig
    demo_XML (demo_config ModeHold) (Some (rel_snap i)) demo_boot (rel_world i) "DE").

Lemma rel_listed i : (0 < i < 4)%nat ->
  @listed toy_X509 toy_Asn1 double_GoAlloc merge_GoSort list_GoRange rel_Net demo_XmlDsig demo_XML (demo_config ModeHold)
    (Some (rel_snap i)) demo_boot (rel_world i) "DE" rel_y.
Proof.
  intros Hi. assert (Hu : from_option (fun l => bool_decide (rel_y ∈ l)) false (rel_upstream i) = true)
    by (destruct i as [|[|[|[|i]]]]; try lia; vm_compute; reflexivity).
  unfold rel_upstream in Hu. unfold listed. destruct (upstream_anchors _ _ _ _ _) as [anchors|]; [|done].
  exists anchors. split; [done|]. by apply bool_decide_eq_true in Hu.
Qed.

Lemma rel_all_cycles :
  @cycles toy_X509 toy_Asn1 double_GoAlloc merge_GoSort list_GoRange rel_Net demo_XmlDsig demo_XML toy_Files toy_Yaml
    (demo_config ModeHold) "DE" rel_y (rel_snap 1) [rel_snap 2; rel_snap 3; rel_snap 4].
Proof.
  econstructor; [exact (rel_run 1 ltac:(lia))|exact (rel_listed 1 ltac:(lia))|].
  econstructor; [exact (rel_run 2 ltac:(lia))|exact (rel_listed 2 ltac:(lia))|].
  econstructor; [exact (rel_run 3 ltac:(lia))|exact (rel_listed 3 ltac:(lia))|]. constructor.
Qed.

(** Held at 130 for a period of 100: still held at 190, served at 250. *)
Lemma auto_release_live_witness :
  ~ serves_cert (rel_snap 2) "DE" rel_y /\ serves_cert (rel_snap 3) "DE" rel_y.
Proof.
  assert (Hh : held_since (rel_snap 1) "DE" rel_y 130).
  { eexists. split; [apply list_elem_of_here|]. split; reflexivity. }
  pose proof (@auto_release_live toy_X509 toy_Asn1 double_GoAlloc merge_GoSort list_GoRange rel_Net demo_XmlDsig demo_XML
    toy_Files toy_Yaml (demo_config ModeHold) (rel_snap 1) _ "DE" rel_y 130 eq_refl (rel_ok 1 ltac:(lia)) rel_all_cycles
    Hh) as H.
  split.
  - intros Hs. apply (H [] (rel_snap 2) _ eq_refl) in Hs. inversion Hs as [? ? [_ Hd]|? ? Hd]; [|inversion Hd].
    apply Z.leb_le in Hd. vm_compute in Hd. discriminate Hd.
  - apply (H [rel_snap 2] (rel_snap 3) _ eq_refl). apply Exists_exists. exists (rel_snap 3).
    split; [apply list_elem_of_further, list_elem_of_here|].
    split; [apply Z.ltb_lt; vm_compute; reflexivity|apply Z.leb_le; vm_compute; reflexivity].
Defined.
