(* ===== verification/App.v ===== *)
(** * The application

    [src/app.go] and [src/routes/router.go]: the store chosen by the
    configuration, the manager and the pipeline wired on it, inbound
    authentication, and the route table.  What the frameworks do (loading and
    validating the configuration, opening connections, DPoP token validation,
    scope claims) is the class [Platform]. *)

From S2P Require Import Prelude GoTime Model Vocabulary Filter ContentId Diff Tsl CertBody Slices Extract.
From S2P Require Import ExtractProps Internal Store Wire Procedures Codec RemoteStores Fetcher Verify Sources Pipeline.
From S2P Require Import PipelineProps Cycle Telemetry Manager ManagerProps Tasks Routes Config Service Provenance.
From S2P Require Import Wellformed Samples Demo.

#[local] Existing Instances json_Codec json_CodecLaws.

(** ** The store behind the interface *)

Section Stores.
Context {DI : Disk} {Bk : Type} {OC : ObjectClient Bk} {PE : PgEngine}.

Inductive AppStore :=
| OnPostgres (db : PgDb)
| OnS3 (s3 : S3) (bk : Bk)
| OnFS (dir : string) (fs : FS)
| OnMemory (m : Memory).

Definition moved {A B R} (inj : A -> B) (p : R * A) : R * B := (p.1, inj p.2).

(** Calls through the interface value [a.store]. *)
#[export] Instance App_Store : Store AppStore := {|
  SaveSnapshot := fun snap st =>
    match st with
    | OnPostgres db => moved OnPostgres (SaveSnapshot (Store := Postgres_Store) snap db)
    | OnS3 s3 bk => moved (OnS3 s3) (SaveSnapshot (Store := S3_Store s3) snap bk)
    | OnFS dir fs => moved (OnFS dir) (SaveSnapshot (Store := FS_Store dir) snap fs)
    | OnMemory m => moved OnMemory (SaveSnapshot snap m)
    end;
  LoadLatestSnapshot := fun st =>
    match st with
    | OnPostgres db => LoadLatestSnapshot (Store := Postgres_Store) db
    | OnS3 s3 bk => LoadLatestSnapshot (Store := S3_Store s3) bk
    | OnFS dir fs => LoadLatestSnapshot (Store := FS_Store dir) fs
    | OnMemory m => LoadLatestSnapshot m
    end;
  SaveBootstrap := fun b st =>
    match st with
    | OnPostgres db => moved OnPostgres (SaveBootstrap (Store := Postgres_Store) b db)
    | OnS3 s3 bk => moved (OnS3 s3) (SaveBootstrap (Store := S3_Store s3) b bk)
    | OnFS dir fs => moved (OnFS dir) (SaveBootstrap (Store := FS_Store dir) b fs)
    | OnMemory m => moved OnMemory (SaveBootstrap b m)
    end;
  LoadLatestBootstrap := fun st =>
    match st with
    | OnPostgres db => LoadLatestBootstrap (Store := Postgres_Store) db
    | OnS3 s3 bk => LoadLatestBootstrap (Store := S3_Store s3) bk
    | OnFS dir fs => LoadLatestBootstrap (Store := FS_Store dir) fs
    | OnMemory m => LoadLatestBootstrap m
    end;
  Reopen := fun st =>
    match st with
    | OnPostgres db => OnPostgres (Reopen (Store := Postgres_Store) db)
    | OnS3 s3 bk => OnS3 s3 (Reopen (Store := S3_Store s3) bk)
    | OnFS dir fs => OnFS dir (Reopen (Store := FS_Store dir) fs)
    | OnMemory m => OnMemory (Reopen m)
    end
|}.

Context {OL : forall bucket, ObjectLaws Bk bucket} {PL : PgEngineLaws}.

(** What each backend holds. *)
Definition app_snapshot (st : AppStore) : result (option Snapshot) :=
  match st with
  | OnPostgres db => pg_holds w_snapshot "snapshot" latest_snapshot db
  | OnS3 s3 bk => s3_holds s3 unmarshal_snapshot latestSnapshotKey bk
  | OnFS dir fs => fs_held dir unmarshal_snapshot latestSnapshotKey fs
  | OnMemory m => LoadLatestSnapshot m
  end.

Definition app_bootstrap (st : AppStore) : result (option Bootstrap) :=
  match st with
  | OnPostgres db => pg_holds w_bootstrap "bootstrap" latest_bootstrap db
  | OnS3 s3 bk => s3_holds s3 unmarshal_bootstrap latestBootstrapKey bk
  | OnFS dir fs => fs_held dir unmarshal_bootstrap latestBootstrapKey fs
  | OnMemory m => LoadLatestBootstrap m
  end.

(** Every store but the in-memory one outlives the process. *)
Definition app_lasting (st : AppStore) : bool := match st with OnMemory _ => false | _ => true end.

Lemma moved_inv {A B R} (inj : A -> B) (p : R * A) r st : moved inj p = (r, st) -> exists a, p = (r, a) /\ st = inj a.
Proof. destruct p as [r' a]. intros [= -> <-]. eauto. Qed.

Lemma app_contract : store_contract app_snapshot app_bootstrap app_lasting.
Proof.
  pose proof Postgres_contract as P. pose proof (fun s3 => S3_contract s3) as S.
  pose proof (fun dir => fs_contract dir) as F. pose proof memory_contract as M.
  split.
  - intros [db|s3 bk|dir fs|m]; [exact (sc_load_snapshot _ _ _ P db)|exact (sc_load_snapshot _ _ _ (S s3) bk)|
      exact (sc_load_snapshot _ _ _ (F dir) fs)|exact (sc_load_snapshot _ _ _ M m)].
  - intros [db|s3 bk|dir fs|m]; [exact (sc_load_bootstrap _ _ _ P db)|exact (sc_load_bootstrap _ _ _ (S s3) bk)|
      exact (sc_load_bootstrap _ _ _ (F dir) fs)|exact (sc_load_bootstrap _ _ _ M m)].
  - intros s [db|s3 bk|dir fs|m] st' (a & E & ->)%moved_inv; revert E;
      [apply (sc_save_snapshot _ _ _ P)|apply (sc_save_snapshot _ _ _ (S s3))|apply (sc_save_snapshot _ _ _ (F dir))|
       apply (sc_save_snapshot _ _ _ M)].
  - intros s [db|s3 bk|dir fs|m] e st' (a & E & ->)%moved_inv; revert E;
      [apply (sc_save_failed _ _ _ P)|apply (sc_save_failed _ _ _ (S s3))|apply (sc_save_failed _ _ _ (F dir))|
       apply (sc_save_failed _ _ _ M)].
  - intros s [db|s3 bk|dir fs|m]; [apply (sc_snapshot_bootstrap _ _ _ P)|apply (sc_snapshot_bootstrap _ _ _ (S s3))|
      apply (sc_snapshot_bootstrap _ _ _ (F dir))|apply (sc_snapshot_bootstrap _ _ _ M)].
  - intros b [db|s3 bk|dir fs|m] st' Hn (a & E & ->)%moved_inv; revert Hn E;
      [apply (sc_save_bootstrap _ _ _ P)|apply (sc_save_bootstrap _ _ _ (S s3))|apply (sc_save_bootstrap _ _ _ (F dir))|
       apply (sc_save_bootstrap _ _ _ M)].
  - intros b [db|s3 bk|dir fs|m]; [apply (sc_bootstrap_snapshot _ _ _ P)|apply (sc_bootstrap_snapshot _ _ _ (S s3))|
      apply (sc_bootstrap_snapshot _ _ _ (F dir))|apply (sc_bootstrap_snapshot _ _ _ M)].
  - by intros [db|s3 bk|dir fs|m].
  - by intros [db|s3 bk|dir fs|m].
Qed.

#[export] Instance App_StoreLaws : StoreLaws AppStore := {| held_contract := app_contract |}.

(** C9 Whichever store the configuration selects - PostgreSQL with the repository's
    procedures, S3, a directory or memory - the service gets the same contract: a load
    tells what is held or fails; a snapshot saved without an error is what is held from
    then on, one whose save failed has left the old snapshot or the new one; the first
    bootstrap saved is the one held; snapshots and bootstraps do not disturb each other;
    and what is held is still held when the store is opened by a new process, except in
    memory, where nothing is. *)
Theorem app_store_contract : store_contract app_snapshot app_bootstrap app_lasting.
Proof. exact app_contract. Qed.
End Stores.
Arguments AppStore : clear implicits.
Arguments OnPostgres {Bk} _.
Arguments OnS3 {Bk} _ _.
Arguments OnFS {Bk} _ _.
Arguments OnMemory {Bk} _.

(** ** Requests before authentication *)

Record RawRequest := mkRawRequest {
  rw_APIKey : string;          (* the X-API-Key header *)
  rw_Token : string;           (* what the DPoP middleware reads *)
  rw_Path : string;
  rw_IfNoneMatch : string;
  rw_territory : list string;
  rw_use : option string;
  rw_type : option string;
  rw_qscdOnly : result (option bool);
  rw_keys : option string;
  rw_fingerprint : string      (* the path parameter of the approve route *)
}.

(** The request with the user set: the subject and the scope test. *)
Definition with_user (raw : RawRequest) (id : string) (has : string -> bool) : HttpRequest :=
  mkHttpRequest has id (rw_Path raw) (rw_IfNoneMatch raw) (rw_territory raw) (rw_use raw) (rw_type raw)
    (rw_qscdOnly raw) (rw_keys raw).

(** ** The frameworks *)

Class Platform := {
  server_New : result Configuration;                 (* binds, decodes and validates the configuration *)
  platform_Setup : Configuration -> result unit;
  pgxpool_New : string -> result unit;
  minio_New : S3Options -> result unit;
  authclient_New : Configuration -> result unit;
  AddTask : string -> result unit;
  server_Start : result unit;
  (** the DPoP middleware: its own answer, or the subject and the scopes of the token *)
  dpop_Authenticate : RawRequest -> Response + string * (string -> bool);
  (** [user.HasScopeLevel] on a scope claim *)
  HasScopeLevel : string -> string -> string -> bool
}.

(** The server validates the configuration it returns; a scope claim is a
    comma-separated list of [scope:level]. *)
Class PlatformLaws {RA : GoRange} `{Validation, Platform} : Prop := {
  server_validates : forall c, server_New = Ok c -> Validate c = Ok tt;
  scope_read : forall level, HasScopeLevel "trust:read" "trust" level = str_eqb level "read";
  scope_both : forall level,
    HasScopeLevel "trust:read,trust:admin" "trust" level = (str_eqb level "read" || str_eqb level "admin")
}.

Inductive AuthMW := DPoPMW | InternalMW.

Record App (Bk : Type) := mkApp {
  ap_config : Configuration;
  ap_manager : Manager (AppStore Bk);
  ap_authMW : AuthMW;
  ap_tasks : list string
}.
Arguments mkApp {Bk} _ _ _ _.
Arguments ap_config {Bk} _.
Arguments ap_manager {Bk} _.
Arguments ap_authMW {Bk} _.
Arguments ap_tasks {Bk} _.

(** What is out there when the process starts. *)
Record Storage (Bk : Type) := mkStorage { sg_db : PgDb; sg_bucket : Bk; sg_disk : FS }.
Arguments mkStorage {Bk} _ _ _.
Arguments sg_db {Bk} _.
Arguments sg_bucket {Bk} _.
Arguments sg_disk {Bk} _.

(** ** Wiring *)

Definition NewPostgres `{Platform} (dsn : string) : result unit :=
  map_err (fun e => errorf ("store: postgres connect: " +:+ err_Error e) [e]) (pgxpool_New dsn).

Definition NewFS `{Disk} : eff FS unit :=
  eff_wrap (fun e => errorf ("store: create snapshot dir: " +:+ err_Error e) [e]) os_MkdirAll.

Definition s3_options (c : Configuration) : S3Options :=
  mkS3Options (cf_SnapshotEndpoint c) (cf_SnapshotAccessKey c) (cf_SnapshotSecretKey c) (cf_SnapshotUseSSL c)
    (cf_SnapshotBucket c) (cf_SnapshotPrefix c).

Section App.
Context {X : X509} {AS : Asn1} {AL : GoAlloc} {SO : GoSort} {RA : GoRange} {N : Net} {XD : XmlDsig} {XM : XML}
  {FI : Files} {YA : Yaml} {DI : Disk} {Bk : Type} {OC : ObjectClient Bk} {PE : PgEngine} {PF : Platform}.

(** The switch over [StoreBackend]. *)
Definition new_store (c : Configuration) (sg : Storage Bk) : result (AppStore Bk) :=
  let backend := StoreBackend c in
  if str_eqb backend StoreBackendPostgres then
    let? _ := NewPostgres (cf_StoreDSN c) in Ok (OnPostgres (sg_db sg))
  else if str_eqb backend StoreBackendS3 then
    let? s3 := NewS3 minio_New (s3_options c) in Ok (OnS3 s3 (sg_bucket sg))
  else if str_eqb backend StoreBackendFS then
    match NewFS (sg_disk sg) with
    | (Ok _, fs) => Ok (OnFS (cf_SnapshotDir c) fs)
    | (Err e, _) => Err e
    end
  else Ok (OnMemory NewMemory).

Definition auth_middleware (c : Configuration) : result AuthMW :=
  if str_eqb (cf_AuthMode c) AuthModeInternal then Ok InternalMW
  else
    let? _ := map_err (fun e => errorf ("trust-anchor: auth client: " +:+ err_Error e) [e]) (authclient_New c) in
    Ok DPoPMW.

Definition init (c : Configuration) (sg : Storage Bk) (w : world) : result (App Bk) :=
  let? _ := platform_Setup c in
  let? st := new_store c sg in
  let m := NewManager st w [] in
  let? mw := auth_middleware c in
  let? _ := AddTask "trust-refresh" in
  Ok (mkApp c m mw ["trust-refresh"]).

Definition New (sg : Storage Bk) (w : world) : result (App Bk) :=
  let? c := server_New in init c sg w.

(** The pipeline the app's manager runs. *)
#[local] Instance app_Refresher (c : Configuration) : Refresher := Pipeline_Refresher (pipeline_config c).

Definition App_Start (a : App Bk) : result (App Bk) :=
  match Start (RF := app_Refresher (ap_config a)) (cf_BootstrapCertsPath (ap_config a)) (ap_manager a) with
  | (Err e, _) => Err e
  | (Ok _, m) => let? _ := server_Start in Ok (mkApp (ap_config a) m (ap_authMW a) (ap_tasks a))
  end.

(** ** Routes *)

Inductive Route := RHealthz | RReadyz | RAnchorsPEM | RAnchorsJSON | RSnapshot | RApprovePending | RRefresh.

(** [Init]: the method, the path, whether it is in the authenticated group. *)
Definition Init : list (string * string * bool * Route) := [
  ("GET", "/healthz", false, RHealthz);
  ("GET", "/readyz", false, RReadyz);
  ("GET", "/v1/anchors", true, RAnchorsPEM);
  ("GET", "/v1/anchors.json", true, RAnchorsJSON);
  ("GET", "/v1/snapshot", true, RSnapshot);
  ("POST", "/v1/pending/{fingerprint}/approve", true, RApprovePending);
  ("POST", "/v1/refresh", true, RRefresh) ].

Definition healthz : Response := Respond 200 [] (Some (BodyText "ok")).

(** [AuthMiddleware]: an answer of its own, or the request with its user. *)
Definition authenticate (a : App Bk) (raw : RawRequest) : Response + HttpRequest :=
  match ap_authMW a with
  | InternalMW =>
      let scope := internal_scope (ap_config a) (rw_APIKey raw) in
      inr (with_user raw "internal" (HasScopeLevel scope "trust"))
  | DPoPMW =>
      match dpop_Authenticate raw with
      | inl resp => inl resp
      | inr (id, has) => inr (with_user raw id has)
      end
  end.

Definition handle (a : App Bk) (now : time) (r : Route) (raw : RawRequest) (rq : HttpRequest)
    (m : Manager (AppStore Bk)) : option (Response * Manager (AppStore Bk)) :=
  let grace := cf_StaleGrace (ap_config a) in
  match r with
  | RHealthz => Some (healthz, m)
  | RReadyz => Some (readyz m, m)
  | RAnchorsPEM => anchorsPEM now grace rq m
  | RAnchorsJSON => anchorsJSON now grace rq m
  | RSnapshot => snapshot now grace rq m
  | RApprovePending => approvePending (rw_fingerprint raw) rq m
  | RRefresh => refresh (RF := app_Refresher (ap_config a)) rq m
  end.

(** A request to a registered route. *)
Definition serve (a : App Bk) (now : time) (e : string * string * bool * Route) (raw : RawRequest)
    (m : Manager (AppStore Bk)) : option (Response * Manager (AppStore Bk)) :=
  let '(_, _, authenticated, r) := e in
  if authenticated : bool then
    match authenticate a raw with
    | inl resp => Some (resp, m)
    | inr rq => handle a now r raw rq m
    end
  else handle a now r raw (with_user raw "" (fun _ => false)) m.

(** ** The command line

    [main] completes the environment before the command runs; [LookupEnv] tells a
    variable that is set to nothing from one that is not set. *)
Definition main_environment (env : string -> option string) : string -> option string :=
  match env "SERVER_URLS" with
  | Some _ => env
  | None => fun k => if str_eqb k "SERVER_URLS" then Some "http://0.0.0.0:8080" else env k
  end.

(** [runWeb], the default command: build, register the routes, run.  [RunContext]
    starts the application through its own [Start] and reports what goes wrong
    there itself, so the command fails only before it. *)
Definition runWeb (sg : Storage Bk) (w : world)
    : result (list (string * string * bool * Route) * result (App Bk)) :=
  let? a := New sg w in
  let? routes := Ok Init in
  Ok (routes, App_Start a).

(** ** Lemmas *)

(** What the operator set stays, and the listen address is never missing. *)
Lemma main_environment_spec env k :
  (forall v, env k = Some v -> main_environment env k = Some v) /\
  (main_environment env k = env k \/ k = "SERVER_URLS" /\ env k = None) /\
  main_environment env "SERVER_URLS" <> None.
Proof.
  unfold main_environment, str_eqb. destruct (env "SERVER_URLS") as [u|] eqn:E; [split_and!; [done|by left|congruence]|].
  split_and!; [|by case_bool_decide; subst; auto|done].
  intros v Hv. case_bool_decide; [congruence|done].
Qed.

(** The command gets to the server exactly when the application is built, and what
    it serves is the started application behind the registered routes. *)
Lemma runWeb_spec sg w rs r :
  runWeb sg w = Ok (rs, r) <-> exists a, New sg w = Ok a /\ rs = Init /\ r = App_Start a.
Proof.
  unfold runWeb. destruct (New sg w) as [a|e]; simpl; split.
  - intros [= <- <-]. eauto.
  - intros (? & [= <-] & -> & ->). done.
  - done.
  - intros (? & ? & _). done.
Qed.

Lemma init_spec c sg w a :
  init c sg w = Ok a ->
  ap_config a = c /\ auth_middleware c = Ok (ap_authMW a) /\ ap_tasks a = ["trust-refresh"] /\
  exists st, new_store c sg = Ok st /\ ap_manager a = NewManager st w [].
Proof.
  unfold init. intros H. destruct (platform_Setup c); [|done]. destruct (new_store c sg) as [st|] eqn:Es; [|done].
  destruct (auth_middleware c) as [mw|] eqn:Ea; [|done]. destruct (AddTask _); [|done]. injection H as <-. eauto 6.
Qed.

(** The store is of the kind the configuration names. *)
Lemma new_store_backend c sg st :
  new_store c sg = Ok st ->
  match st with
  | OnPostgres _ => StoreBackend c = StoreBackendPostgres
  | OnS3 s3 _ => StoreBackend c = StoreBackendS3 /\ s3_bucket s3 = cf_SnapshotBucket c
  | OnFS dir _ => StoreBackend c = StoreBackendFS /\ dir = cf_SnapshotDir c
  | OnMemory m => StoreBackend c = StoreBackendMemory /\ m = NewMemory
  end.
Proof.
  unfold new_store, StoreBackend. generalize (NewFS (sg_disk sg)) as r. intros [r fs].
  destruct (str_eqb (cf_StoreDSN c) ""); simpl.
  - destruct (str_eqb (cf_SnapshotBucket c) ""); simpl.
    + destruct (str_eqb (cf_SnapshotDir c) ""); simpl; [by intros [= <-]|]. destruct r; intros E; by simplify_eq.
    + unfold NewS3, s3_options. destruct (minio_New _); intros E; by simplify_eq/=.
  - destruct (NewPostgres _); intros E; by simplify_eq.
Qed.

(** A trusted-list anchor that is authentic has one of the accepted types, and
    the taxonomy key of that type. *)
Lemma authentic_type cfg boot code x :
  authentic cfg boot code x ->
  a_ServiceType x ∈ types_set (AcceptedServiceTypes cfg) /\ a_Type x = TypeKey (a_ServiceType x).
Proof.
  intros [(ps & lp & pinned & wall & raw & verified & signer & tl & anchors & ws & now & b &
    _ & _ & _ & _ & _ & _ & Hx & Hb & ->)].
  destruct (extract_entry _ _ _ _ _ _ _ _ Hx Hb) as (pl & [[tsp info] id] & _ & Ho & Hs).
  pose proof (f_equal a_ServiceType Hs) as H1. pose proof (f_equal a_Type Hs) as H2. simpl in *. rewrite H1, H2.
  split; [|done]. unfold occurrences in Ho. apply elem_of_flat_map in Ho as (e & _ & Ho).
  destruct (accepted _ _ e) eqn:Ea; [|by apply elem_of_nil in Ho].
  apply list_elem_of_fmap in Ho as (id' & [= -> -> ->] & _).
  unfold accepted in Ea. by apply andb_true_iff in Ea as [Ea%bool_decide_eq_true _].
Qed.

Lemma servable_types `{Validation} c ty :
  Validate c = Ok tt -> ty ∈ types_set (AcceptedServiceTypes (pipeline_config c)) -> ServableServiceType ty = true.
Proof.
  intros Hv. unfold types_set. case_bool_decide.
  - intros ->%elem_of_singleton. apply ServableServiceType_iff. apply list_elem_of_here.
  - rewrite elem_of_list_to_set. by apply validated_types.
Qed.

(** An untyped listed anchor is a CA/QC one. *)
Lemma untyped_is_caqc ty : ServableServiceType ty = true -> TypeKey ty = "" -> ty = ServiceTypeCAQC.
Proof.
  intros Hs%ServableServiceType_iff Hk. destruct (TypeKey_inv ty) as [_|E].
  - rewrite !elem_of_cons, elem_of_nil in Hs. destruct Hs as [->|[->|[->|[]]]]; [done|exfalso..].
    + change (svctypeBase +:+ "EAA/Q") with (TypeIdentifier "qeaa_provider") in Hk.
      by rewrite TypeKey_TypeIdentifier in Hk by (vm_compute; done).
    + change (svctypeBase +:+ "EAA") with (TypeIdentifier "eaa_provider") in Hk.
      by rewrite TypeKey_TypeIdentifier in Hk by (vm_compute; done).
  - rewrite Hk in E. by rewrite <-E.
Qed.

(** The bundle for a territory and a type holds the anchors of that type, those with an
    uncommon key when all keys are asked for. *)
Lemma bundle_reaches s t x keys :
  t ∈ s_Territories s -> x ∈ t_Anchors t -> a_Type x = "" \/ ValidAnchorType (a_Type x) = true -> ValidKeys keys = true ->
  exists out, Filter s [t_Code t] "" false (a_Type x) keys = Ok out /\ (x ∈ out <-> keys = KeysAll \/ KeyCommon x = true).
Proof.
  intros Ht Hx Hty Hk. pose proof (Filter_valid s [t_Code t] "" false (a_Type x) keys) as Hv.
  assert (Hq : valid_query "" (a_Type x) keys = true).
  { unfold valid_query. rewrite Hk. destruct Hty as [->| ->]; [done|]. by rewrite orb_true_r. }
  apply Hv in Hq. destruct (Filter _ _ _ _ _ _) as [out|e] eqn:E; [|done]. exists out. split; [done|].
  rewrite (Filter_elem _ _ _ _ _ _ _ x E). split; [by intros (_ & _ & _ & _ & ?)|]. intros Hc. split_and!; try done.
  left. exists t. split_and!; [done| |done]. unfold include. simpl. by rewrite EqualFold_refl.
Qed.

(** ** Properties *)

Context {VA : Validation} {PLW : PlatformLaws} {OL : forall bucket, ObjectLaws Bk bucket} {PL : PgEngineLaws}.

Lemma started_installed sg w a a1 :
  New sg w = Ok a -> App_Start a = Ok a1 ->
  LoadLatestBootstrap (m_store (ap_manager a)) = Ok None -> LoadLatestSnapshot (m_store (ap_manager a)) = Ok None ->
  ap_config a1 = ap_config a /\ Validate (ap_config a) = Ok tt /\
  installed (RF := app_Refresher (ap_config a)) (ap_manager a1) /\
  (StoreBackend (ap_config a) <> StoreBackendMemory -> lasting (m_store (ap_manager a1)) = true).
Proof.
  unfold New, App_Start. intros Hn Hs Hb Hl. destruct server_New as [c|] eqn:Ec; [|done].
  apply init_spec in Hn as (Hc & _ & _ & st & Hst0 & Hm). rewrite Hm in *. simpl in Hb, Hl.
  destruct (Start _ _) as [[[]|e] m] eqn:Hst; [|done]. destruct server_Start; [|done]. injection Hs as <-. simpl.
  rewrite Hc in *. split_and!; [done|by apply server_validates|by exists st, w, (cf_BootstrapCertsPath c)|].
  intros Hne. pose proof (Pipeline_laws (pipeline_config c)) as L.
  apply (Start_keeps (RF := app_Refresher c)) in Hst as (_ & E & _).
  - etrans; [exact E|]. apply new_store_backend in Hst0. destruct st; [done..|]. by destruct Hst0.
  - left. by apply loaded_snapshot.
Qed.

(** C2 The assembled service serves only what it should, and all of it can be
    fetched: an application built from a validated configuration and started on an
    empty store, whichever store that is, in any run serves snapshots whose anchors
    are authentic with respect to the bootstrap in force - the one installed at the
    start, on any store but the in-memory one - and well formed; every listed anchor
    is of a service type that has a serving route, the untyped bundle holds no other
    listed type than CA/QC; and the bundle for an anchor's territory and type contains
    the anchor when all keys are asked for, and without that exactly when its key is
    one every consumer can parse. *)
Theorem app_serves_reachable sg w a a1 os m' s :
  New sg w = Ok a -> App_Start a = Ok a1 ->
  LoadLatestBootstrap (m_store (ap_manager a)) = Ok None -> LoadLatestSnapshot (m_store (ap_manager a)) = Ok None ->
  run (RF := app_Refresher (ap_config a)) (ap_manager a1) os m' -> m_active m' = Some s ->
  exists boot, m_bootstrap m' = Some boot /\
    (StoreBackend (ap_config a) <> StoreBackendMemory -> m_bootstrap (ap_manager a1) = Some boot) /\
    authentic_snapshot (pipeline_config (ap_config a)) (w_loads (m_world m')) boot s /\ snapshot_ok s /\
    forall t x, t ∈ s_Territories s -> x ∈ t_Anchors t ->
      ServableServiceType (a_ServiceType x) = true /\ (a_Type x = "" -> a_ServiceType x = ServiceTypeCAQC) /\
      forall keys, ValidKeys keys = true ->
        exists out, Filter s [t_Code t] "" false (a_Type x) keys = Ok out /\
          (x ∈ out <-> keys = KeysAll \/ KeyCommon x = true).
Proof.
  intros Hn Hs Hb Hl Hr Ha. destruct (started_installed sg w a a1 Hn Hs Hb Hl) as (_ & Hv & Hi & Hlast).
  destruct (run_authentic (pipeline_config (ap_config a)) _ _ _ Hi Hr) as (boot & Hboot & Hsame & Hau & _).
  pose proof (run_snapshot_ok (pipeline_config (ap_config a)) _ _ _ s Hi Hr (or_introl Ha)) as Hok.
  exists boot. split_and!; [done|auto|by apply Hau|done|]. intros t x Ht Hx.
  destruct (authentic_type _ _ _ _ (as_anchors _ _ _ _ (Hau s Ha) t x Ht Hx)) as [Hty Hkey].
  apply (servable_types (ap_config a)) in Hty; [|done]. split_and!; [done| |].
  - rewrite Hkey. by apply untyped_is_caqc.
  - intros keys. apply bundle_reaches; [done..|]. rewrite Hkey. apply TypeKey_valid.
Qed.

(** C37 Access in the internal mode: with an application built from a validated
    configuration in that mode, a request to an admin route that does not carry
    the configured key - none, an empty one or a wrong one - is answered 403 and
    changes nothing but the event log; a request with the key reaches the handler
    with both scopes; and any request reaches a read handler. *)
Theorem internal_mode_access sg w a now raw m :
  New sg w = Ok a -> cf_AuthMode (ap_config a) = AuthModeInternal ->
  let admin := bool_decide (rw_APIKey raw = cf_TrustAdminKey (ap_config a)) in
  let rq := with_user raw "internal" (fun level => str_eqb level "read" || admin && str_eqb level "admin") in
  cf_TrustAdminKey (ap_config a) <> "" /\
  Forall (fun e : string * string * bool * Route => let '(_, path, authenticated, r) := e in
    authenticated = HasPrefix path "/v1/" /\
    (authenticated = true -> exists rq', authenticate a raw = inr rq' /\ (forall level, rq_HasScope rq' level = rq_HasScope rq level) /\
       serve a now e raw m = handle a now r raw rq' m) /\
    (r = RApprovePending \/ r = RRefresh -> admin = false ->
       exists m', serve a now e raw m = Some (RespondError [] ForbiddenError, m') /\ only_events m m')) Init.
Proof.
  intros Hn Hmode admin rq. unfold New in Hn. destruct server_New as [c|] eqn:Ec; [|done].
  apply init_spec in Hn as (<- & Hmw & _).
  pose proof (server_validates _ Ec) as Hv. unfold auth_middleware in Hmw. rewrite Hmode in Hmw. simpl in Hmw.
  injection Hmw as Hmw. assert (Hk : cf_TrustAdminKey (ap_config a) <> "") by (apply validated_admin_key; [done|by rewrite Hmode]).
  split; [done|].
  assert (Hauth : exists rq', authenticate a raw = inr rq' /\ rq_UserID rq' = "internal" /\ rq_Path rq' = rw_Path raw /\
    forall level, rq_HasScope rq' level = rq_HasScope rq level).
  { unfold authenticate. rewrite <-Hmw. eexists. split_and!; [done..|]. intros level. simpl.
    unfold internal_scope. apply str_eqb_neq in Hk as Hk'. rewrite Hk'. cbn [negb andb]. subst admin.
    case_bool_decide as Hkey.
    - apply str_eqb_eq in Hkey. rewrite Hkey. apply scope_both.
    - apply str_eqb_neq in Hkey. rewrite Hkey, scope_read. by rewrite orb_false_r. }
  destruct Hauth as (rq' & Ha & Hid & Hp & Hscope).
  assert (Hdeny : admin = false -> rq_HasScope rq' "admin" = false) by (intros E; by rewrite Hscope; simpl; rewrite E).
  unfold Init. repeat (apply Forall_cons; split; [|]); try apply Forall_nil; try done;
    (split_and!; [reflexivity| |]);
    try (intros _; exists rq'; unfold serve; rewrite Ha; done); try (intros [Hx|Hx]; discriminate Hx); try discriminate.
  - intros _ Had. unfold serve. rewrite Ha. simpl. unfold approvePending, requireScope. rewrite (Hdeny Had).
    eexists. split; [done|apply m_emit_only].
  - intros _ Had. unfold serve. rewrite Ha. simpl. unfold refresh, requireScope. rewrite (Hdeny Had).
    eexists. split; [done|apply m_emit_only].
Qed.
End App.
