(* ===== verification/Traffic.v ===== *)
(** * What clients get

    The application of [App] under traffic: requests to its routes and wakes of its
    refresh task, in any order, and the answers its handlers give.  Answers of the
    authentication middleware are the platform's and not recorded.  Handlers of
    concurrent requests are in [Concurrent]; here they follow one another. *)

From S2P Require Import Prelude GoTime Model Vocabulary Base64 Filter ContentId Diff Tsl CertBody Slices.
From S2P Require Import Extract ExtractProps Internal Store Wire Procedures Codec RemoteStores Fetcher Verify Sources.
From S2P Require Import Pipeline PipelineProps Cycle Telemetry Manager ManagerProps Tasks Routes Config Service.
From S2P Require Import Provenance Wellformed App.

#[local] Existing Instances json_Codec json_CodecLaws.

Section Traffic.
Context {X : X509} {AS : Asn1} {AL : GoAlloc} {SO : GoSort} {RA : GoRange} {N : Net} {XD : XmlDsig} {XM : XML}
  {FI : Files} {YA : Yaml} {DI : Disk} {Bk : Type} {OC : ObjectClient Bk} {PE : PgEngine} {PF : Platform}.

Abbreviation Mgr := (Manager (AppStore Bk)).

(** A request to the [i]-th route of [Init], or a wake of the refresh task. *)
Inductive turn :=
| TRequest (now : time) (i : nat) (raw : RawRequest)
| TTask (cancelled : bool) (wk : Wake).

(** Whether the request gets to a handler. *)
Definition admitted (a : App Bk) (e : string * string * bool * Route) (raw : RawRequest) : bool :=
  let '(_, _, authenticated, _) := e in
  if authenticated : bool then match authenticate a raw with inl _ => false | inr _ => true end else true.

Definition turn_exec (a : App Bk) (tn : turn) (m : Mgr) : option (list Response * Mgr) :=
  match tn with
  | TRequest now i raw =>
      e ← Init !! i;
      '(resp, m') ← serve a now e raw m;
      Some (if admitted a e raw then [resp] else [], m')
  | TTask cancelled wk => '(_, m') ← task_iter (RF := app_Refresher (ap_config a)) cancelled wk m; Some ([], m')
  end.

Fixpoint turns (a : App Bk) (ts : list turn) (m : Mgr) : option (list Response * Mgr) :=
  match ts with
  | [] => Some ([], m)
  | tn :: ts => '(l1, m1) ← turn_exec a tn m; '(l2, m2) ← turns a ts m1; Some (l1 ++ l2, m2)
  end.

(** ** What an answer tells *)

(** The sequence number of a snapshot report. *)
Definition reported_sequence (resp : Response) : option Z :=
  match resp with Respond _ _ (Some (BodySnapshot r)) => Some (rn_LOTLSequence r) | _ => None end.

(** Answers that say something is served: bundles, whole or not modified, snapshot
    reports, readiness. *)
Definition shows_data (resp : Response) : bool :=
  match resp with
  | Respond 304 _ None => true
  | Respond _ _ (Some (BodyPEM _ | BodyAnchors _ | BodySnapshot _)) => true
  | Respond 200 _ (Some (BodyText t)) => str_eqb t "ready"
  | _ => false
  end.

Definition unavailable (resp : Response) : bool := match resp with Respond 503 _ _ => true | _ => false end.

(** What is answered later does not take back what was answered before. *)
Definition goes_on (r1 r2 : Response) : Prop :=
  (forall n1 n2, reported_sequence r1 = Some n1 -> reported_sequence r2 = Some n2 -> n1 <= n2) /\
  (shows_data r1 = true -> unavailable r2 = false).

(** An anchor of a signed list, or one the operator's file held at one of the first
    [loads] times it was loaded. *)
Definition genuine (cfg : Config) (loads : nat) (boot : Bootstrap) (x : Anchor) : Prop :=
  authentic cfg boot (a_Territory x) x \/
  exists load now l, (load < loads)%nat /\ LoadInternal load (InternalTrustSource cfg) now = Ok l /\ x ∈ l.

Definition only_genuine (cfg : Config) (loads : nat) (boot : Bootstrap) (resp : Response) : Prop :=
  match resp with
  | Respond _ _ (Some (BodyAnchors r)) => exists l, ra_Anchors r = Some l /\ Forall (genuine cfg loads boot) l
  | Respond _ _ (Some (BodyPEM b)) => exists l, b = PEMBundle l /\ Forall (genuine cfg loads boot) l
  | Respond _ _ (Some (BodySnapshot r)) =>
      rn_Bootstrap r = Some (mkBootstrapSummary (b_Version boot) (b_OJReference boot) (b_ActivatedAt boot)
                               (Bootstrap_Fingerprints boot) (b_Seeded boot)) /\
      Forall (fun pa => authentic cfg boot (a_Territory (p_Anchor pa)) (p_Anchor pa)) (rn_Pending r)
  | _ => True
  end.

(** ** Lemmas *)

(** How an answer follows from the state it was made in. *)
Record answers_for (m : Mgr) (resp : Response) : Prop := {
  af_sequence : forall n, reported_sequence resp = Some n -> exists s, m_active m = Some s /\ n = s_LOTLSequence s;
  af_data : shows_data resp = true -> is_Some (m_active m);
  af_unavailable : unavailable resp = true -> m_active m = None;
  af_anchors : forall st h r, resp = Respond st h (Some (BodyAnchors r)) ->
    exists s ts use q ty keys l, m_active m = Some s /\ Filter s ts use q ty keys = Ok l /\ ra_Anchors r = Some l;
  af_pem : forall st h b, resp = Respond st h (Some (BodyPEM b)) ->
    exists s ts use q ty keys l, m_active m = Some s /\ Filter s ts use q ty keys = Ok l /\ b = PEMBundle l;
  af_snapshot : forall st h r, resp = Respond st h (Some (BodySnapshot r)) ->
    exists s now grace, m_active m = Some s /\ r = NewSnapshot s (m_bootstrap m) now grace
}.

Lemma bundle_answers (m : Mgr) (render : Snapshot -> list Anchor -> bool -> Body) now grace rq :
  (render = (fun _ anchors _ => BodyPEM (PEMBundle anchors)) \/
   render = (fun snap anchors st => BodyAnchors (NewAnchors snap (appended anchors) st))) ->
  answers_for m (bundle render (m_active m) now grace rq).
Proof.
  intros Hr. unfold bundle. destruct (m_active m) as [s|] eqn:Ha; [|by split].
  destruct (bundleQuery rq) as [q|e]; [|by split]. destruct (notModified rq (s_ID s)); [split; by eauto|].
  destruct (Filter _ _ _ _ _ _) as [anchors|e] eqn:Hf; [|by split].
  destruct Hr as [-> | ->]; split; try done; try by eauto.
  - intros st h b [= _ _ <-]. eauto 12.
  - intros st h r [= _ _ <-]. simpl. exists s. destruct anchors; eauto 12.
Qed.

(** A run without restarts, which does not step back. *)
Definition moves (c : Configuration) (m m' : Mgr) : Prop :=
  exists os, run (RF := app_Refresher c) m os m' /\ forallb (fun o => negb (is_restart o)) os = true.

Lemma moves_refl c m : moves c m m.
Proof. exists []. split; [constructor|done]. Qed.

Lemma moves_one c o (m m' : Mgr) : is_restart o = false -> exec (RF := app_Refresher c) o m = Some m' -> moves c m m'.
Proof. intros Ho He. exists [o]. split; [by apply run_one|]. simpl. by rewrite Ho. Qed.

Lemma moves_trans c m1 m2 m3 : moves c m1 m2 -> moves c m2 m3 -> moves c m1 m3.
Proof.
  intros (os1 & H1 & E1) (os2 & H2 & E2). exists (os1 ++ os2). split; [by eapply run_app|]. by rewrite forallb_app, E1, E2.
Qed.

Lemma moves_no_rollback c m m' : moves c m m' -> no_rollback m m'.
Proof.
  pose proof (Pipeline_laws (pipeline_config c)) as L. intros (os & Hr & E). revert E.
  induction Hr as [m|m o m1 os m2 He _ IH]; simpl; [intros _; by apply no_rollback_same|].
  rewrite andb_true_iff, negb_true_iff. intros [Ho E]. eapply no_rollback_trans; [|by apply IH].
  by eapply (exec_rollback (RF := app_Refresher c)).
Qed.

(** An answer that carries no data of a snapshot. *)
Definition plain (resp : Response) : bool :=
  negb (shows_data resp) && negb (unavailable resp) &&
  match resp with Respond _ _ (Some (BodyPEM _ | BodyAnchors _ | BodySnapshot _)) => false | _ => true end.

Lemma plain_answer (m : Mgr) resp : plain resp = true -> answers_for m resp.
Proof.
  unfold plain. rewrite !andb_true_iff, !negb_true_iff. intros [[H1 H2] H3].
  split; [|by rewrite H1|by rewrite H2|..]; [|by intros st h b ->..].
  destruct resp as [st h [[]|]|]; done.
Qed.

Lemma guarded c rq level k (m : Mgr) resp m' : requireScope rq level k m = Some (resp, m') ->
  (forall resp m', k m = Some (resp, m') -> moves c m m' /\ answers_for m resp) ->
  moves c m m' /\ answers_for m resp.
Proof.
  unfold requireScope. destruct (rq_HasScope rq level); [auto|]. intros [= <- <-] _.
  split; [|by apply plain_answer]. by eapply (moves_one c (OpDenied _ _ _)).
Qed.

Lemma handle_answers a now r raw rq (m : Mgr) resp m' :
  handle a now r raw rq m = Some (resp, m') -> moves (ap_config a) m m' /\ answers_for m resp.
Proof.
  destruct r; cbn [handle].
  - intros [= <- <-]. split; [apply moves_refl|by apply plain_answer].
  - intros [= <- <-]. split; [apply moves_refl|]. unfold readyz.
    destruct (m_active m) as [s|] eqn:Ha; split; try done; rewrite ?Ha; by eauto.
  - intros H. apply (guarded (ap_config a)) in H; [done|]. intros r1 m1 [= <- <-].
    split; [apply moves_refl|]. apply bundle_answers. by left.
  - intros H. apply (guarded (ap_config a)) in H; [done|]. intros r1 m1 [= <- <-].
    split; [apply moves_refl|]. apply bundle_answers. by right.
  - intros H. apply (guarded (ap_config a)) in H; [done|]. intros r1 m1 [= <- <-]. split; [apply moves_refl|].
    destruct (m_active m) as [s|] eqn:Ha; split; try done; try by eauto.
    + intros n [= <-]. eauto.
    + intros st h r [= _ _ <-]. eauto.
  - intros H. apply (guarded (ap_config a)) in H; [done|]. intros r1 m1.
    assert (Hm : moves (ap_config a) m (ApprovePending (rw_fingerprint raw) (rq_UserID rq) m).2)
      by (by apply (moves_one _ (OpApprove (rw_fingerprint raw) (rq_UserID rq)))).
    destruct (ApprovePending _ _ _) as [[s|e] m2]; intros [= <- <-]; (split; [done|]); by apply plain_answer.
  - intros H. apply (guarded (ap_config a)) in H; [done|]. intros r1 m1.
    destruct (Refresh m) as [[out m2]|] eqn:E; [|done]. intros [= <- <-]. split.
    + apply (moves_one _ OpRefresh); [done|]. simpl. by rewrite E.
    + destruct (ro_Snapshot out); by apply plain_answer.
Qed.

Lemma turn_answers a tn (m : Mgr) l m' : turn_exec a tn m = Some (l, m') ->
  moves (ap_config a) m m' /\ Forall (answers_for m) l /\ (length l <= 1)%nat.
Proof.
  destruct tn as [now i raw|cancelled wk]; cbn [turn_exec].
  - destruct (Init !! i) as [e|]; [|done]. simpl. destruct (serve a now e raw m) as [[resp m1]|] eqn:E; [|done].
    intros [= <- <-]. destruct e as [[[method path] au] r]. unfold serve in E. unfold admitted. destruct au.
    + destruct (authenticate a raw) as [re|rq]; [injection E as <- <-; split; [apply moves_refl|split; [constructor|simpl; lia]]|].
      apply handle_answers in E as [? ?]. split; [done|]. by split; [apply Forall_singleton|].
    + apply handle_answers in E as [? ?]. split; [done|]. by split; [apply Forall_singleton|].
  - destruct (task_iter cancelled wk m) as [[b m1]|] eqn:E; [|done]. intros [= <- <-]. split; [|split; [constructor|simpl; lia]].
    assert (Ht : forall m0 m1, task_run (RF := app_Refresher (ap_config a)) cancelled m0 = Some m1 -> moves (ap_config a) m0 m1).
    { unfold task_run. destruct cancelled; [intros m0 m2 [= <-]; apply moves_refl|]. intros m0 m2 H.
      by apply (moves_one _ OpRefresh). }
    destruct wk; simpl in E.
    + destruct cancelled; [|done]. injection E as _ <-. apply moves_refl.
    + destruct (m_kick m) eqn:Hk; [|done]. destruct (task_run _ _) as [m2|] eqn:Er; [|done]. injection E as _ <-.
      eapply moves_trans; [apply (moves_one _ OpTakeKick); [done|simpl; by rewrite Hk]|by apply Ht].
    + destruct (task_run _ _) as [m2|] eqn:Er; [|done]. injection E as _ <-. by apply Ht.
Qed.

Lemma answers_go_on c (m m' : Mgr) r r' :
  answers_for m r -> answers_for m' r' -> moves c m m' -> goes_on r r'.
Proof.
  intros A A' Hm%moves_no_rollback. split.
  - intros n n' (s & Ha & ->)%(af_sequence _ _ A) (s' & Ha' & ->)%(af_sequence _ _ A').
    destruct (Hm s Ha) as (s2 & Hs2 & Hle). by assert (s2 = s') as -> by congruence.
  - intros [s Hs]%(af_data _ _ A). destruct (unavailable r') eqn:E; [|done]. apply (af_unavailable _ _ A') in E.
    destruct (Hm s Hs) as (s' & Hs' & _). congruence.
Qed.

Lemma turns_answers a ts (m : Mgr) l m' : turns a ts m = Some (l, m') ->
  moves (ap_config a) m m' /\
  Forall (fun resp => exists mi, moves (ap_config a) m mi /\ answers_for mi resp /\ moves (ap_config a) mi m') l /\
  StronglySorted goes_on l.
Proof.
  revert m l. induction ts as [|tn ts IH]; intros m l; simpl.
  { intros [= <- <-]. split; [apply moves_refl|]. by split; constructor. }
  destruct (turn_exec a tn m) as [[l1 m1]|] eqn:E1; [|done]. simpl.
  destruct (turns a ts m1) as [[l2 m2]|] eqn:E2; [|done]. intros [= <- <-].
  destruct (turn_answers _ _ _ _ _ E1) as (Hm & Ha & Hl). apply IH in E2 as (Hm2 & H2 & S2).
  assert (Hm12 : moves (ap_config a) m m2) by (by eapply moves_trans).
  assert (H2' : Forall (fun resp => exists mi, moves (ap_config a) m mi /\ answers_for mi resp /\ moves (ap_config a) mi m2) l2).
  { eapply Forall_impl; [exact H2|]. intros r (mi & Hmi & ? & ?). exists mi. split; [exact (moves_trans _ _ _ _ Hm Hmi)|done]. }
  split; [done|]. destruct l1 as [|r [|]]; [done| |simpl in Hl; lia]. rewrite Forall_singleton in Ha. simpl. split.
  - constructor; [|done]. exists m. split_and!; [apply moves_refl|done..].
  - constructor; [done|]. eapply Forall_impl; [exact H2'|]. intros r' (mi & Hmi & A' & _). by eapply answers_go_on.
Qed.

Lemma approve_later fp actor (m : Mgr) : later (m_world m) (m_world (ApprovePending fp actor m).2).
Proof.
  unfold ApprovePending. destruct (m_active m) as [cur|]; [|done]. destruct (list_find _ _) as [[idx pa]|]; [|done].
  destruct (cloneSnapshot cur) as [clone|e]; [|done]. destruct (s_Pending clone !! idx); [|done].
  unfold save. destruct (SaveSnapshot _ (m_store m)) as [[[]|e] st]; [|done]. cbn [fst snd].
  etrans; [|apply m_emit_only]. etrans; [|apply m_emit_only]. done.
Qed.

(** Without a restart the world only moves on, and the bootstrap stays. *)
Lemma exec_later c o (m m' : Mgr) :
  is_restart o = false -> exec (RF := app_Refresher c) o m = Some m' -> later (m_world m) (m_world m').
Proof.
  pose proof (Pipeline_laws (pipeline_config c)) as L.
  destruct o as [| |fp actor| | |scope actor path|seed]; simpl; intros Ho; [..|done].
  - destruct (Refresh m) as [[out m1]|] eqn:Hr; [|done]. intros [= <-]. exact (Refresh_events_grow _ _ _ Hr).
  - intros [= <-]. unfold ReconcileDeclared. destruct (reconcileDeclared _ _) as [[[prev c'] rep] m1] eqn:Hr.
    exact (reconcile_events _ _ _ _ _ Hr).
  - intros [= <-]. apply approve_later.
  - by intros [= <-].
  - destruct (m_kick m); [|done]. by intros [= <-].
  - intros [= <-]. apply m_emit_only.
Qed.

Lemma served_genuine cfg n boot s x :
  authentic_snapshot cfg n boot s ->
  (exists t, t ∈ s_Territories s /\ x ∈ t_Anchors t) \/ x ∈ s_Internal s -> genuine cfg n boot x.
Proof.
  intros H [(t & Ht & Hx)|Hx].
  - left. pose proof (as_anchors _ _ _ _ H t x Ht Hx) as Ha. by rewrite (authentic_territory _ _ _ _ Ha).
  - right. destruct (as_internal _ _ _ _ H) as [E|(load & now & ? & ?)]; [rewrite E in Hx; by apply elem_of_nil in Hx|].
    by exists load, now, (s_Internal s).
Qed.

Lemma filter_genuine cfg n boot s ts use q ty keys l :
  authentic_snapshot cfg n boot s -> Filter s ts use q ty keys = Ok l -> Forall (genuine cfg n boot) l.
Proof.
  intros H Hf. apply Forall_forall. intros x Hx. apply (Filter_elem _ _ _ _ _ _ _ _ Hf) in Hx as [Hx _].
  apply (served_genuine cfg n boot s); [done|]. destruct Hx as [(t & ? & _ & ?)|?]; eauto.
Qed.

Lemma answers_genuine cfg n boot (m : Mgr) resp :
  answers_for m resp -> m_bootstrap m = Some boot -> (forall s, m_active m = Some s -> authentic_snapshot cfg n boot s) ->
  only_genuine cfg n boot resp.
Proof.
  intros A Hb Hs. destruct resp as [st h [[]|]|]; try done; simpl.
  - destruct (af_pem _ _ A _ _ _ eq_refl) as (s & ts & use & q & ty & keys & l & Ha & Hf & ->). exists l. split; [done|].
    by eapply filter_genuine; [apply Hs|].
  - destruct (af_anchors _ _ A _ _ _ eq_refl) as (s' & ts & use & q & ty & keys & l & Ha & Hf & ->). exists l. split; [done|].
    by eapply filter_genuine; [apply Hs|].
  - destruct (af_snapshot _ _ A _ _ _ eq_refl) as (s' & now & grace & Ha & ->). simpl. rewrite Hb. split; [done|].
    apply Forall_forall. intros pa Hpa. exact (as_pending _ _ _ _ (Hs s' Ha) pa Hpa).
Qed.

(** ** Properties *)

Context {VA : Validation} {PLW : PlatformLaws} {OL : forall bucket, ObjectLaws Bk bucket} {PL : PgEngineLaws}.

Lemma moves_later c (m m' : Mgr) : moves c m m' -> later (m_world m) (m_world m').
Proof.
  intros (os & Hr & E). revert E. induction Hr as [m|m o m1 os m2 He _ IH]; simpl; [done|].
  rewrite andb_true_iff, negb_true_iff. intros [Ho E]. etrans; [by eapply exec_later|by apply IH].
Qed.

Lemma moves_bootstrap c (m m' : Mgr) : inv m -> moves c m m' -> m_bootstrap m' = m_bootstrap m.
Proof.
  pose proof (Pipeline_laws (pipeline_config c)) as L. intros Hi (os & Hr & E). revert Hi E.
  induction Hr as [m|m o m1 os m2 He _ IH]; simpl; [done|]. intros Hi. rewrite andb_true_iff. intros [Ho E].
  destruct (exec_keeps (RF := app_Refresher c) _ _ _ Hi He) as (H1 & _ & Hb). rewrite IH by done. apply Hb.
  by rewrite Ho, orb_true_r.
Qed.

(** C3 What clients get, end to end.  Take an application built from a validated
    configuration and started on an empty store, and any traffic until the process
    ends: requests of any caller to any route, in either authentication mode, and wakes
    of the refresh task.  Every certificate in every bundle it ever answers, JSON or
    PEM, was extracted from a list signed by certificates that trace back to the
    operator's bootstrap, or was in the operator's file at one of the times it was
    loaded so far; every pending one it reports is of the first kind; and the bootstrap
    reported is that one.  Answers never take back earlier ones: the sequence numbers
    reported do not decrease, and once something has been served no later answer says
    that nothing is. *)
Theorem api_history sg w a a1 ts l m' :
  New sg w = Ok a -> App_Start a = Ok a1 ->
  LoadLatestBootstrap (m_store (ap_manager a)) = Ok None -> LoadLatestSnapshot (m_store (ap_manager a)) = Ok None ->
  turns a1 ts (ap_manager a1) = Some (l, m') ->
  exists boot, m_bootstrap (ap_manager a1) = Some boot /\
    Forall (only_genuine (pipeline_config (ap_config a)) (w_loads (m_world m')) boot) l /\ StronglySorted goes_on l.
Proof.
  intros Hn Hs Hb Hl Ht. destruct (started_installed sg w a a1 Hn Hs Hb Hl) as (Hc & _ & Hi & _).
  apply turns_answers in Ht as (_ & Ht & Hsort). pose proof (Pipeline_laws (pipeline_config (ap_config a))) as L.
  pose proof (installed_inv (RF := app_Refresher (ap_config a)) _ Hi) as Hinv.
  destruct (inv_boot _ Hinv) as (boot & Hboot & _). exists boot. split_and!; [done| |done]. rewrite Hc in Ht.
  eapply Forall_impl; [exact Ht|]. intros resp (mi & Hm & A & Hm').
  assert (Hbi : m_bootstrap mi = Some boot) by (rewrite (moves_bootstrap _ _ _ Hinv Hm); done).
  destruct (id Hm) as (os & Hr & _).
  destruct (run_authentic (pipeline_config (ap_config a)) _ _ _ Hi Hr) as (boot' & Hboot' & _ & Hau & _).
  assert (boot' = boot) as -> by congruence.
  eapply answers_genuine; [done..|]. intros s Hact. eapply authentic_later; [apply (moves_later _ _ _ Hm')|by apply Hau].
Qed.
End Traffic.
