(* ===== verification/ServiceDemo.v ===== *)
(** * A run of the whole service

    The manager on the pipeline on a directory, from the first install through two
    cycles in hold mode, an approval and a restart; a run in which one write fails; and
    the in-memory store, which a restart empties. *)

From S2P Require Import Prelude Model ContentId Diff Tsl CertBody Slices Extract Internal Store.
From S2P Require Import Fetcher Verify Sources Pipeline PipelineProps Cycle Telemetry Manager ManagerProps Tasks.
From S2P Require Import Service Concurrent Provenance Wellformed Samples Demo.

(** ** A codec for a table of values *)

Fixpoint unary (n : nat) : string := match n with O => "" | S n' => String (Ascii.ascii_of_nat 120) (unary n') end.

Lemma unary_length n : String.length (unary n) = n.
Proof. induction n; simpl; auto. Qed.

Definition table_lookup {A} (l : list A) (b : bytes) : result A :=
  match l !! String.length b with Some x => Ok x | None => Err (errors_New "json") end.

Definition table_Codec (ss : list Snapshot) (bs : list Bootstrap) : Codec := {|
  marshal_snapshot := fun s =>
    match list_find (eq (stored s)) ss with Some (i, _) => Ok (unary i) | None => Err (errors_New "json") end;
  unmarshal_snapshot := table_lookup ss;
  marshal_bootstrap := fun b =>
    match list_find (eq b) bs with Some (i, _) => Ok (unary i) | None => Err (errors_New "json") end;
  unmarshal_bootstrap := table_lookup bs
|}.

Lemma table_CodecLaws ss bs : @CodecLaws (table_Codec ss bs).
Proof.
  split; simpl; intros x r H; unfold table_lookup; destruct (list_find _ _) as [[i y]|] eqn:E; try done;
    injection H as <-; apply list_find_Some in E as (Hl & -> & _); by rewrite unary_length, Hl.
Qed.

(** A computation that has a result, without writing it out. *)
Ltac not_none E :=
  match type of E with ?t = None =>
    exfalso; let H := fresh in
    assert (H : (if t then true else false) = true) by (vm_compute; reflexivity); rewrite E in H; discriminate H
  end.

(** ** The environment *)

Definition svc_Files : Files := {|
  os_ReadFile := fun _ p => if str_eqb p "/seed.der" then Ok "X" else Ok "doc";
  os_IsDir := fun _ _ => Ok false; os_ReadDir := fun _ _ => Ok [];
  filepath_IsAbs := fun p => HasPrefix p "/"; filepath_Join := fun a b => a +:+ "/" +:+ b;
  filepath_Dir := fun _ => "."; filepath_Ext := fun _ => ".der"; pem_Decode := fun _ => None |}.

(** The national list grows at the [n0]-th request; time passes with requests. *)
Definition svc_Net (n0 : nat) : Net := {|
  url_Parse := demo_url;
  url_Resolve := fun _ loc => Ok loc;
  http_RoundTrip := fun n url => demo_reply (Some (if bool_decide (n < n0)%nat then "de-1" else "de-2")) url;
  wall_clock := fun n => 100 + Z.of_nat n |}.

Definition svc_cfg : Config := demo_config ModeHold.
Definition svc_world : world := mkWorld ∅ ∅ [] [] ∅ 0.
Definition svc_boot : Bootstrap := mkBootstrap 1 "" ["X"] 100 true.

(** One cycle of the pipeline alone, to name the snapshots the run goes through. *)
Definition svc_cycle (n0 : nat) (prev : option Snapshot) (w : world) : result Snapshot * world :=
  @Pipeline.Refresh toy_X509 toy_Asn1 double_GoAlloc merge_GoSort list_GoRange (svc_Net n0) demo_XmlDsig demo_XML
    svc_Files toy_Yaml svc_cfg prev svc_boot w.

Definition svc_r1 : result Snapshot * world := Eval vm_compute in svc_cycle 2 None (NewFetcher [] svc_world).
Definition svc_s1 : Snapshot := Eval vm_compute in get_snapshot svc_r1.
Definition svc_r2 : result Snapshot * world := Eval vm_compute in svc_cycle 2 (Some svc_s1) svc_r1.2.
Definition svc_s2 : Snapshot := Eval vm_compute in get_snapshot svc_r2.
Definition svc_held : PendingAnchor := Eval vm_compute in default (mkPending (sample_anchor "" "" "" []) 0) (head (s_Pending svc_s2)).
Definition svc_s3 : Snapshot := Eval vm_compute in
  @approve_in toy_X509 merge_GoSort list_GoRange svc_s2 (stored svc_s2) 0 svc_held 105.

Definition svc_Codec : Codec :=
  table_Codec [stored svc_s1; stored svc_s2; stored svc_s3] [svc_boot].

Lemma svc_CodecLaws : @CodecLaws svc_Codec.
Proof. exact (table_CodecLaws [stored svc_s1; stored svc_s2; stored svc_s3] [svc_boot]). Qed.

Definition svc_Refresher (n0 : nat) (C : Codec) : Refresher :=
  @Pipeline_Refresher toy_X509 toy_Asn1 double_GoAlloc merge_GoSort list_GoRange (svc_Net n0) demo_XmlDsig demo_XML
    svc_Files toy_Yaml C svc_cfg.

(** ** The run *)

Section Exec.
Context {X : X509} {SO : GoSort} {RA : GoRange} {N : Net} {CO : Codec} {FI : Files} {YA : Yaml} {RF : Refresher}
  {St : Type} {ST : Store St}.

Fixpoint exec_all (os : list Op) (m : Manager St) : option (Manager St) :=
  match os with
  | [] => Some m
  | o :: os' => exec o m ≫= exec_all os'
  end.

Lemma exec_all_run os m m' : exec_all os m = Some m' -> run m os m'.
Proof.
  revert m. induction os as [|o os IH]; intros m; simpl; [intros [= <-]; constructor|].
  destruct (exec o m) as [m1|] eqn:E; [|done]. intros H. econstructor; [exact E|by apply IH].
Qed.
End Exec.

Definition svc_Disk : Disk := {| disk_fault := fun _ => None; disk_unreadable := fun _ => false |}.
Definition svc_Store : Store FS := @FS_Store svc_Codec svc_Disk "/data".
Definition svc_Start (seed : string) : eff (Manager FS) unit :=
  @Start toy_X509 merge_GoSort list_GoRange (svc_Net 2) svc_Files toy_Yaml (svc_Refresher 2 svc_Codec) FS svc_Store seed.
Definition svc_exec : list Op -> Manager FS -> option (Manager FS) :=
  @exec_all toy_X509 merge_GoSort list_GoRange (svc_Net 2) svc_Codec svc_Files toy_Yaml (svc_Refresher 2 svc_Codec)
    FS svc_Store.

Definition svc_m0 : Manager FS := (svc_Start "/seed.der" (NewManager (mkFS ∅ 0) svc_world [])).2.
Definition svc_y : string := hex_EncodeToString (pad_to 32 "Y").
Definition svc_ops : list Op := [OpRefresh; OpTrigger; OpTakeKick; OpRefresh; OpApprove svc_y "alice"; OpRestart ""].
Definition svc_after (n : nat) : Manager FS := default svc_m0 (svc_exec (take n svc_ops) svc_m0).

#[local] Existing Instances toy_X509 toy_Asn1 merge_GoSort list_GoRange svc_Codec svc_CodecLaws svc_Files toy_Yaml svc_Store.
#[local] Instance svc_net : Net := svc_Net 2.
#[local] Instance svc_refresher : Refresher := svc_Refresher 2 svc_Codec.
#[local] Instance svc_laws : RefresherLaws.
Proof. exact (@Pipeline_laws _ toy_Asn1 double_GoAlloc _ _ _ demo_XmlDsig demo_XML _ _ _ svc_cfg _). Qed.
#[local] Instance svc_store_laws : StoreLaws FS :=
  {| held_contract := @fs_contract svc_Codec svc_CodecLaws svc_Disk "/data" |}.

Lemma svc_installed : installed svc_m0.
Proof.
  exists (mkFS ∅ 0), svc_world, "/seed.der". split; [vm_compute; reflexivity|]. split; [vm_compute; reflexivity|].
  unfold svc_m0. change (svc_Start "/seed.der") with (Start (St := FS) "/seed.der").
  destruct (Start _ _) as [[[]|e] m] eqn:E; [reflexivity|]. exfalso. vm_compute in E. discriminate E.
Qed.

Lemma svc_runs n : is_Some (svc_exec (take n svc_ops) svc_m0) -> run svc_m0 (take n svc_ops) (svc_after n).
Proof.
  intros [m E]. unfold svc_after. rewrite E. by apply exec_all_run.
Qed.

Lemma svc_run6 : run svc_m0 svc_ops (svc_after 6).
Proof. apply (svc_runs 6). apply (bool_decide_unpack _). vm_compute. exact I. Qed.

Lemma svc_run4 : run svc_m0 (take 4 svc_ops) (svc_after 4).
Proof. apply (svc_runs 4). apply (bool_decide_unpack _). vm_compute. exact I. Qed.

(** The run does what it should. *)
Example svc_end_serves :
  (fun s => (fun t => (t_Code t, a_Subject <$> t_Anchors t)) <$> s_Territories s) <$> m_active (svc_after 6) =
    Some [("DE", ["CN=X"; "CN=Y"])] /\ m_active (svc_after 6) = m_active (svc_after 5) /\
  (s_Pending <$> m_active (svc_after 6)) = Some [].
Proof. vm_compute. done. Qed.

Lemma svc_lasting : lasting (m_store svc_m0) = true.
Proof. reflexivity. Qed.

Lemma bootstrap_pinned_witness :
  exists b, m_bootstrap svc_m0 = Some b /\ m_bootstrap (svc_after 6) = Some b.
Proof.
  destruct (bootstrap_pinned svc_m0 svc_ops (svc_after 6) svc_installed svc_lasting svc_run6) as (b & H1 & H2 & _).
  exists b. split; assumption.
Defined.

Lemma served_identified_witness :
  exists s, m_active (svc_after 6) = Some s /\ s_ID s = compute_id s.
Proof.
  destruct (m_active (svc_after 6)) as [s|] eqn:E; [|not_none E].
  exists s. split; [reflexivity|].
  exact (proj1 (proj1 (served_identified svc_m0 svc_ops (svc_after 6) svc_installed svc_run6) s E)).
Defined.

Lemma restart_serves_same_witness :
  (exists reason, EvRefreshFailure "persist" reason ∈ w_events (m_world (svc_after 4))) \/
  forall seed w log m'', Initialize seed (NewManager (Reopen (m_store (svc_after 4))) w log) = (Ok tt, m'') ->
    is_Some (m_active m'').
Proof.
  destruct (restart_serves_same svc_m0 (take 4 svc_ops) (svc_after 4) svc_installed svc_lasting svc_run4)
    as [H|[H|(os1 & fp & actor & os2 & m1 & e & E & _)]].
  - right. intros seed w log m'' Hi. specialize (H seed w log m'' Hi).
    destruct (m_active (svc_after 4)) as [a|] eqn:Ea; [|vm_compute in Ea; discriminate Ea].
    destruct (m_active m'') as [s|]; [exists s; reflexivity|destruct H].
  - left. exact H.
  - exfalso. destruct os1 as [|? [|? [|? [|? [|? ?]]]]]; discriminate E.
Defined.

Lemma served_sequence_monotone_witness :
  exists s s', m_active (svc_after 1) = Some s /\ m_active (svc_after 4) = Some s' /\
    s_LOTLSequence s <= s_LOTLSequence s'.
Proof.
  destruct (m_active (svc_after 1)) as [s|] eqn:E; [|not_none E].
  assert (Hr : run (svc_after 1) [OpTrigger; OpTakeKick; OpRefresh] (svc_after 4)).
  { apply exec_all_run. vm_compute. reflexivity. }
  destruct (served_sequence_monotone (svc_after 1) _ (svc_after 4) s Hr eq_refl E) as (s' & H1 & H2).
  exists s, s'. split; [reflexivity|]. split; assumption.
Defined.

Lemma refresh_fail_safe_witness :
  exists out m', Refresh (svc_after 1) = Some (out, m') /\ m_active m' = ro_Snapshot out.
Proof.
  destruct (Refresh (svc_after 1)) as [[out m']|] eqn:E; [|not_none E].
  exists out, m'. split; [reflexivity|]. exact (proj1 (refresh_fail_safe (svc_after 1) out m' E)).
Defined.

Lemma approve_exact_witness :
  exists next m', ApprovePending svc_y "alice" (svc_after 4) = (Ok next, m') /\ m_active m' = Some next.
Proof.
  destruct (ApprovePending svc_y "alice" (svc_after 4)) as [[next|e] m'] eqn:E;
    [|exfalso; assert (H : is_Ok (ApprovePending svc_y "alice" (svc_after 4)).1 = true) by (vm_compute; reflexivity);
      rewrite E in H; discriminate H].
  exists next, m'. split; [reflexivity|].
  destruct (approve_exact svc_y "alice" (svc_after 4) (Ok next) m' E) as (c & p & q & r & H). tauto.
Defined.

(** A refresh in whose steps a request is denied and a trigger arrives and is taken,
    and a reconcile still under way. *)
Definition svc_moves (n k : nat) : list move :=
  [MLock OpRefresh; MStep; MFree OpTrigger; MStep; MStep; MFree (OpDenied "trust/refresh" "mallory" "/v1/refresh")] ++
  replicate n MStep ++ [MFree OpTakeKick; MUnlock; MLock OpReconcile] ++ replicate k MStep.

Lemma interleavings_linearizable_witness :
  exists s os m, play (svc_moves 9 2) (mkSys svc_m0 None []) = Some s /\ run svc_m0 os m /\
    answers os svc_m0 = sy_done s /\ length (sy_done s) = 1%nat.
Proof.
  destruct (play (svc_moves 9 2) (mkSys svc_m0 None [])) as [s|] eqn:E.
  - destruct (@interleavings_linearizable _ toy_Asn1 double_GoAlloc _ _ _ demo_XmlDsig demo_XML _ _ _ FS _ svc_cfg
      svc_m0 (svc_moves 9 2) s E) as (os & m & Hr & Ha & _).
    exists s, os, m. split; [reflexivity|]. split; [exact Hr|]. split; [exact Ha|].
    assert (H : (fun s => length (sy_done s)) <$> play (svc_moves 9 2) (mkSys svc_m0 None []) = Some 1%nat)
      by (vm_compute; reflexivity).
    rewrite E in H. injection H as H. exact H.
  - exfalso. assert (H : (if play (svc_moves 9 2) (mkSys svc_m0 None []) then true else false) = true)
      by (vm_compute; reflexivity).
    rewrite E in H. discriminate H.
Defined.

Lemma served_is_authentic_witness :
  exists s t a, m_active (svc_after 6) = Some s /\ t ∈ s_Territories s /\ a ∈ t_Anchors t /\
    @authentic _ toy_Asn1 double_GoAlloc _ _ demo_XmlDsig demo_XML svc_cfg svc_boot "DE" a.
Proof.
  destruct (@served_is_authentic _ toy_Asn1 double_GoAlloc _ _ _ demo_XmlDsig demo_XML _ _ _ svc_cfg _ FS _ _
    svc_m0 svc_ops (svc_after 6) svc_installed svc_run6) as (boot & _ & Hb & Ha & _). specialize (Hb svc_lasting).
  assert (Eb : m_bootstrap svc_m0 = Some svc_boot) by (vm_compute; reflexivity).
  rewrite Eb in Hb. injection Hb as <-.
  destruct (m_active (svc_after 6)) as [s|] eqn:Es; [|not_none Es].
  destruct (s_Territories s) as [|t ts] eqn:Et; [exfalso; vm_compute in Es; injection Es as <-; discriminate Et|].
  destruct (t_Anchors t) as [|a l] eqn:Ea;
    [exfalso; vm_compute in Es; injection Es as <-; injection Et as <- <-; discriminate Ea|].
  assert (Ht : t ∈ s_Territories s) by (rewrite Et; apply list_elem_of_here).
  assert (Hin : a ∈ t_Anchors t) by (rewrite Ea; apply list_elem_of_here).
  exists s, t, a. split; [reflexivity|]. split; [exact Ht|]. split; [exact Hin|].
  assert (Hc : t_Code t = "DE") by (vm_compute in Es; injection Es as <-; injection Et as <- <-; reflexivity).
  rewrite <-Hc. exact (as_anchors _ _ _ _ (Ha s eq_refl) t a Ht Hin).
Defined.

Lemma served_well_formed_witness :
  exists s, m_active (svc_after 4) = Some s /\ length (s_Pending s) = 1%nat /\ snapshot_ok s /\ index_wf s.
Proof.
  destruct (m_active (svc_after 4)) as [s|] eqn:Es; [|not_none Es].
  destruct (@served_well_formed _ toy_Asn1 double_GoAlloc _ _ _ demo_XmlDsig demo_XML _ _ _ svc_cfg _ FS _ _
    svc_m0 (take 4 svc_ops) (svc_after 4) s svc_installed svc_run4 (or_introl Es)) as (Hok & _ & Hx).
  vm_compute in Es. injection Es as <-. eexists. split; [reflexivity|]. split; [reflexivity|]. split; [exact Hok|].
  apply Hx. intros t Ht. apply list_elem_of_singleton in Ht as ->. split; [vm_compute; reflexivity|discriminate].
Defined.

Lemma pipeline_contract_witness :
  exists w', svc_cycle 2 (Some svc_s1) svc_r1.2 = (Ok svc_s2, w') /\ follows (Some svc_s1) svc_s2.
Proof.
  exists (svc_cycle 2 (Some svc_s1) svc_r1.2).2.
  assert (E : svc_cycle 2 (Some svc_s1) svc_r1.2 = (Ok svc_s2, (svc_cycle 2 (Some svc_s1) svc_r1.2).2))
    by (vm_compute; reflexivity).
  split; [exact E|].
  exact (@refresh_follows _ _ _ _ (@pipeline_contract _ toy_Asn1 double_GoAlloc _ _ _ demo_XmlDsig demo_XML _ _ _
    svc_cfg svc_CodecLaws) (Some svc_s1) svc_boot svc_r1.2 svc_s2 _ E).
Defined.

(** ** The task *)

(** [Stop] is called when the first cycle is about to begin: it does not, and the
    goroutine ends in three steps. *)
Definition svc_task (es : list TaskEv) : option (TaskSys (St := FS)) :=
  task_steps (task_system 86400000000000 100 svc_m0) es.

Lemma stop_quiesces_witness :
  exists s s', svc_task [EvStart; EvLoop 0 WakeDone; EvStop] = Some s /\ ts_stopping s = true /\
    task_steps s (replicate 3 (EvLoop 0 WakeDone) ++ [EvStopped; EvStop; EvOp OpTrigger]) = Some s' /\
    exists i lp', rt_cancel (ts_task s) = Some i /\ ts_loops s' !! i = Some lp' /\ in_cycle lp' = false.
Proof.
  set (s := mkTaskSys 100 false (mkTask 86400000000000 (Some 0%nat) (Some 0%nat)) true [mkLoop AtCheck true] svc_m0).
  assert (Ea : m_active svc_m0 = None) by (vm_compute; reflexivity).
  assert (E : svc_task [EvStart; EvLoop 0 WakeDone; EvStop] = Some s)
    by (unfold svc_task; cbn -[svc_m0]; rewrite Ea; reflexivity).
  destruct (task_steps s (replicate 3 (EvLoop 0 WakeDone) ++ [EvStopped; EvStop; EvOp OpTrigger])) as [s'|] eqn:E';
    [|not_none E'].
  destruct (stop_quiesces 86400000000000 100 svc_m0 _ s svc_installed E) as (_ & _ & Hw); [vm_compute; reflexivity|].
  destruct (Hw eq_refl) as (i & lp & Hc & Hl & Hn & _). exists s, s'. split; [exact E|]. split; [reflexivity|]. split; [exact E'|].
  exists i. injection Hc as <-. injection Hl as <-. destruct (Hn eq_refl _ _ E') as (lp' & H1 & H2).
  exists lp'. split; [reflexivity|]. split; assumption.
Defined.

(** The timer set at 100 ns with the interval of a day: the cycle begins a day later. *)
Lemma cycles_paced_witness :
  exists s1 s2, ts_now s2 = 100 + 86400000000000 /\
    task_steps s1 [EvTick 86400000000100; EvLoop 0 WakeTimer; EvLoop 0 WakeTimer] = Some s2 /\ 100 + minWake <= ts_now s2.
Proof.
  set (sys now pc := mkTaskSys now false (mkTask 86400000000000 (Some 0%nat) (Some 0%nat)) false [mkLoop pc false] svc_m0).
  assert (Ea : m_active svc_m0 = None) by (vm_compute; reflexivity).
  assert (E : task_step (sys 100 AtTimer) (EvLoop 0 WakeTimer) = Some (sys 100 (AtSelect 86400000000100)))
    by (unfold sys; cbn -[svc_m0]; rewrite Ea; reflexivity).
  assert (E2 : task_steps (sys 100 (AtSelect 86400000000100)) [EvTick 86400000000100; EvLoop 0 WakeTimer; EvLoop 0 WakeTimer] =
    Some (sys 86400000000100 AtCycle)) by (unfold sys; cbn -[svc_m0]; reflexivity).
  destruct (cycles_paced (sys 100 AtTimer) 0 (mkLoop AtTimer false) WakeTimer _ eq_refl eq_refl E) as (u & _ & _ & _ & _ & Hp).
  eexists _, _. split; [|split; [exact E2|]]; [reflexivity|].
  apply (Hp _ _ (mkLoop AtCycle false) E2); [|reflexivity..].
  intros H. repeat (apply elem_of_cons in H as [H|H]; [discriminate H|]). by apply elem_of_nil in H.
Defined.

(** A second [Start] before [Stop] leaves the first goroutine running after it: the
    restriction on the caller is needed. *)
Example second_start_leaks :
  from_option (fun s => forallb ended (ts_loops s)) true
    (svc_task [EvStart; EvStart; EvStop; EvLoop 1 WakeDone; EvLoop 1 WakeDone; EvLoop 1 WakeDone; EvLoop 1 WakeDone; EvStopped])
  = false.
Proof. vm_compute. reflexivity. Qed.

(** ** A failed write *)

(** One file operation, the first of the first snapshot's save, fails. *)
Definition bad_Disk : Disk := {| disk_fault := fun n => if bool_decide (n = 6%nat) then Some 0%nat else None; disk_unreadable := fun _ => false |}.
Definition bad_Codec : Codec := table_Codec [stored svc_s1] [svc_boot].
Definition bad_Store : Store FS := @FS_Store bad_Codec bad_Disk "/data".
Definition bad_m0 : Manager FS :=
  (@Start toy_X509 merge_GoSort list_GoRange (svc_Net 100) svc_Files toy_Yaml (svc_Refresher 100 bad_Codec) FS bad_Store
     "/seed.der" (NewManager (mkFS ∅ 0) svc_world [])).2.
Definition bad_exec : list Op -> Manager FS -> option (Manager FS) :=
  @exec_all toy_X509 merge_GoSort list_GoRange (svc_Net 100) bad_Codec svc_Files toy_Yaml (svc_Refresher 100 bad_Codec)
    FS bad_Store.

Definition bad_after (n : nat) : Manager FS := default bad_m0 (bad_exec (replicate n OpRefresh) bad_m0).

(** A snapshot whose write failed is not written by the following cycles: the
    first cycle's save fails and is reported; in the second cycle the disk is
    healthy, the cycle succeeds and serves the same content, and nothing is
    written, so a restart still finds no snapshot. *)
Theorem failed_save_not_retried :
  is_Some (bad_exec [OpRefresh; OpRefresh] bad_m0) /\
  EvRefreshFailure "persist" (err_Error disk_error) ∈ w_events (m_world (bad_after 1)) /\
  (s_ID <$> m_active (bad_after 2)) = Some (s_ID svc_s1) /\
  fs_ops (m_store (bad_after 2)) = fs_ops (m_store (bad_after 1)) /\
  @LoadLatestSnapshot FS bad_Store (m_store (bad_after 2)) = Ok None.
Proof.
  split; [apply (bool_decide_unpack _); vm_compute; exact I|].
  split; [apply list_elem_of_lookup; exists 0%nat; vm_compute; reflexivity|].
  split; [vm_compute; reflexivity|]. split; [vm_compute; reflexivity|]. vm_compute. reflexivity.
Qed.

(** ** In memory *)

(** A restart with another seed finds nothing and takes its bootstrap from the seed. *)
Definition mem_Files : Files := {|
  os_ReadFile := fun _ p => if str_eqb p "/seed.der" then Ok "X" else if str_eqb p "/seed2.der" then Ok "Y" else Ok "doc";
  os_IsDir := fun _ _ => Ok false; os_ReadDir := fun _ _ => Ok [];
  filepath_IsAbs := fun p => HasPrefix p "/"; filepath_Join := fun a b => a +:+ "/" +:+ b;
  filepath_Dir := fun _ => "."; filepath_Ext := fun _ => ".der"; pem_Decode := fun _ => None |}.

Definition mem_Codec : Codec := table_Codec [] [svc_boot; mkBootstrap 1 "" ["Y"] 100 true].

Definition mem_restart : option (list (list bytes)) :=
  let RF := @Pipeline_Refresher toy_X509 toy_Asn1 double_GoAlloc merge_GoSort list_GoRange (svc_Net 100) demo_XmlDsig demo_XML
    mem_Files toy_Yaml mem_Codec svc_cfg in
  let ST := @Memory_Store mem_Codec in
  let m := (@Start toy_X509 merge_GoSort list_GoRange (svc_Net 100) mem_Files toy_Yaml RF Memory ST
              "/seed.der" (NewManager NewMemory svc_world [])).2 in
  let m' := @exec toy_X509 merge_GoSort list_GoRange (svc_Net 100) mem_Codec mem_Files toy_Yaml RF Memory ST (OpRestart "/seed2.der") m in
  (fun m' => [from_option b_CertsDER [] (m_bootstrap m); from_option b_CertsDER [] (m_bootstrap m')]) <$> m'.

Example mem_restart_reseeds : mem_restart = Some [["X"]; ["Y"]].
Proof. vm_compute. reflexivity. Qed.
