(* ===== verification/CrashDemo.v ===== *)
(** * A crash on the filesystem store

    The service of [ServiceDemo] on a directory: the process is stopped while the
    first cycle writes its snapshot, leaving a temporary file; the next process
    starts and completes a cycle. *)

From S2P Require Import Prelude Model ContentId Diff Tsl CertBody Slices Extract Internal Store.
From S2P Require Import Fetcher Verify Sources Pipeline PipelineProps Cycle Telemetry Manager ManagerProps.
From S2P Require Import Service Concurrent Provenance Wellformed Crash Ledger Samples Demo ServiceDemo.

(** A disk without faults, and one whose [n]-th operation on writes five bytes and fails. *)
Definition sound_Disk : Disk := {| disk_fault := fun _ => None; disk_unreadable := fun _ => false |}.
Definition cut_Disk (n : nat) : Disk :=
  {| disk_fault := fun k => if bool_decide (n <= k)%nat then Some 5%nat else None; disk_unreadable := fun _ => false |}.

#[local] Existing Instances toy_X509 toy_Asn1 double_GoAlloc merge_GoSort list_GoRange demo_XmlDsig demo_XML svc_Codec svc_CodecLaws svc_Files toy_Yaml.
#[local] Instance crash_net : Net := svc_Net 2.
#[local] Instance crash_refresher : Refresher := svc_Refresher 2 svc_Codec.
#[local] Instance crash_laws : RefresherLaws.
Proof. exact (@Pipeline_laws _ toy_Asn1 double_GoAlloc _ _ _ demo_XmlDsig demo_XML _ _ _ svc_cfg _). Qed.
#[local] Instance crash_store : Store FS := @FS_Store svc_Codec sound_Disk "/data".
#[local] Instance crash_store_laws : StoreLaws FS := @FS_StoreLaws svc_Codec svc_CodecLaws "/data" sound_Disk.
#[local] Instance crash_torn : Interruptible FS := FS_Interruptible "/data".
#[local] Instance crash_torn_laws : InterruptibleLaws FS := FS_InterruptibleLaws "/data" (DI := sound_Disk).

Definition crash_m0 : Manager FS := (Start "/seed.der" (NewManager (mkFS ∅ 0) svc_world [])).2.

(** The cycle as it comes to its save, and the store after the interrupted write. *)
Definition crash_save : option (Snapshot * FS * world) := nth_save 3 Refresh_prog crash_m0.
Definition crash_left : FS :=
  from_option (fun '(s, f, _) => (@SaveSnapshot FS (@FS_Store svc_Codec (cut_Disk (S (fs_ops f))) "/data") s f).2) (mkFS ∅ 0) crash_save.

(** The next process: a client of its own, the events and loads of the last one behind it. *)
Definition crash_world : world := from_option snd svc_world crash_save.
Definition crash_next : world := mkWorld ∅ ∅ [] (w_events crash_world) ∅ (w_loads crash_world).
Definition crash_m1 : Manager FS := (Start "" (NewManager (Reopen crash_left) crash_next [])).2.
Definition crash_m2 : Manager FS := default crash_m1 (exec OpRefresh crash_m1).
Definition crash_m3 : Manager FS := default crash_m2 (exec OpRefresh crash_m2).

Lemma crash_stopped : stopped Refresh_prog crash_m0 crash_left crash_world.
Proof.
  unfold crash_left, crash_world. destruct crash_save as [[[s f] w]|] eqn:E.
  - eapply nth_save_stopped; [exact E|]. by eexists.
  - exfalso. assert (H : bool_decide (is_Some crash_save) = true) by (vm_compute; reflexivity). by rewrite E in H.
Qed.

(** The unfinished file is there, behind no key of the store. *)
Example crash_left_files :
  fst <$> map_to_list (delete "/data/bootstrap-latest.json" (delete "/data/bootstrap/v0001.json" (fs_files crash_left))) =
    ["/data/" +:+ snapshotKey svc_s1 +:+ ".tmp"].
Proof. vm_compute. reflexivity. Qed.

Lemma crash_installed : installed crash_m0.
Proof.
  exists (mkFS ∅ 0), svc_world, "/seed.der". split; [vm_compute; reflexivity|]. split; [vm_compute; reflexivity|].
  unfold crash_m0. destruct (Start _ _) as [[[]|e] m] eqn:E; [reflexivity|]. exfalso. vm_compute in E. discriminate E.
Qed.

Lemma crash_boots : boots crash_left crash_world crash_m1.
Proof.
  apply (boots_up crash_left crash_world crash_next [] ""); [by split|]. unfold crash_m1.
  destruct (Start "" _) as [[[]|e] m] eqn:E; [reflexivity|]. exfalso. vm_compute in E. discriminate E.
Qed.

Lemma crash_refreshes m : life m (default m (exec OpRefresh m)).
Proof. destruct (exec OpRefresh m) as [m'|] eqn:E; [|constructor]. eapply (life_op _ OpRefresh); [exact E|constructor]. Qed.

Lemma crash_life : life crash_m0 crash_m2.
Proof. eapply (life_crash _ OpRefresh); [reflexivity|exact crash_stopped|exact crash_boots|exact (crash_refreshes crash_m1)]. Qed.

(** ** Witnesses *)

Lemma crash_atomic_witness :
  held_bootstrap crash_left = held_bootstrap (m_store crash_m0) /\
  (held_snapshot crash_left = held_snapshot (m_store crash_m0) \/
   exists s, built crash_m0 crash_world OpRefresh s /\ held_snapshot crash_left = Ok (Some (stored s))).
Proof. exact (crash_atomic OpRefresh Refresh_prog crash_m0 crash_left crash_world eq_refl crash_stopped). Defined.

(** After the crash a cycle serves and stores the first snapshot; the next cycle's
    comes down from it. *)
Lemma crash_recovery_witness :
  m_active crash_m3 = Some svc_s2 /\ m_bootstrap crash_m3 = Some svc_boot /\ identified svc_s2 /\
  descends svc_cfg svc_boot (eq svc_s1) svc_s2.
Proof.
  destruct (@crash_recovery _ toy_Asn1 double_GoAlloc _ _ _ demo_XmlDsig demo_XML _ _ svc_cfg _ _ FS _ _ _ _
    crash_m0 crash_m2 crash_m3 crash_installed crash_life (crash_refreshes crash_m2)) as (boot & Hb & Hb3 & _ & Hs & _ & Hd).
  assert (E : boot = svc_boot) by (assert (H : m_bootstrap crash_m0 = Some svc_boot) by (vm_compute; reflexivity); congruence).
  subst boot.
  assert (Ha : bool_decide (m_active crash_m2 = Some svc_s1) = true) by (vm_compute; reflexivity).
  assert (Ha3 : bool_decide (m_active crash_m3 = Some svc_s2) = true) by (vm_compute; reflexivity).
  assert (Hh : match held_snapshot (m_store crash_m2) with Ok o => bool_decide (o = Some (stored svc_s1)) | Err _ => false end = true)
    by (vm_compute; reflexivity).
  destruct (held_snapshot (m_store crash_m2)) as [o|e] eqn:Eh; [|discriminate Hh].
  apply bool_decide_eq_true in Ha, Ha3, Hh. subst o. split; [exact Ha3|]. split; [exact Hb3|].
  split; [exact (proj2 (proj2 (Hs svc_s2 (or_introl Ha3))))|].
  destruct (Hd (stored svc_s1) eq_refl) as (_ & _ & H). exact (proj2 (H svc_s2 (or_introl Ha3)) svc_s1 Ha eq_refl).
Defined.

Lemma service_refines_ledger_witness :
  exists boot L, rtc (lstep svc_cfg boot) ledger_init L /\ lg_served L = Some svc_s1.
Proof.
  destruct (@service_refines_ledger _ toy_Asn1 double_GoAlloc _ _ _ demo_XmlDsig demo_XML _ _ svc_cfg _ _ FS _ _ _ _
    crash_m0 crash_m2 crash_installed crash_life) as (boot & L & _ & HL & _ & Hs & _).
  exists boot, L. split; [exact HL|].
  assert (Ha : bool_decide (m_active crash_m2 = Some svc_s1) = true) by (vm_compute; reflexivity).
  apply bool_decide_eq_true in Ha. rewrite <-Hs. exact Ha.
Defined.
