(* ===== verification/AppDemo.v ===== *)
(** * The application on concrete parts

    An application in the internal mode on an S3 bucket, started on an empty
    bucket and run for a cycle. *)

From S2P Require Import Prelude GoTime Model Vocabulary Filter ContentId Diff Tsl CertBody Slices Extract.
From S2P Require Import ExtractProps Internal Store Wire Procedures Codec RemoteStores Fetcher Verify Sources Pipeline.
From S2P Require Import PipelineProps Cycle Telemetry Manager ManagerProps Tasks Routes Config Service Provenance.
From S2P Require Import Wellformed Samples Demo App Traffic ServiceDemo.

Definition app_configuration : Configuration :=
  mkConfiguration true AuthModeInternal "s3cret" "https://lotl.example/lotl.xml" "/seed.der" "EU" "" "granted"
    (hours 6) "auto" (hours 72) (hours 24) "CA/QC" "" "" "bucket" "s3.example" "ak" "sk" "trust" true "" "" (seconds 30) 1000000.

Definition app_Validation : Validation := {|
  os_Getenv := fun _ => ""; base_Validate := fun _ => Ok tt; valid_Struct := fun _ => Ok tt; auth_Validate := fun _ => Ok tt |}.

(** [scope:level] in a comma-separated list. *)
Definition toy_scope (claim scope level : string) : bool :=
  existsb (str_eqb (scope +:+ ":" +:+ level)) (split_on (Ascii.ascii_of_nat 44) claim).

Definition toy_Platform : Platform := {|
  server_New := Ok app_configuration; platform_Setup := fun _ => Ok tt; pgxpool_New := fun _ => Ok tt;
  minio_New := fun _ => Ok tt; authclient_New := fun _ => Ok tt; AddTask := fun _ => Ok tt; server_Start := Ok tt;
  dpop_Authenticate := fun _ => inl noSnapshot; HasScopeLevel := toy_scope |}.

Lemma toy_scope_level level x : str_eqb ("trust" +:+ ":" +:+ level) ("trust:" +:+ x) = str_eqb level x.
Proof.
  destruct (str_eqb level x) eqn:E.
  - apply str_eqb_eq in E as ->. by apply str_eqb_eq.
  - apply str_eqb_neq in E. apply str_eqb_neq. intros H. apply E. by injection H.
Qed.

Lemma toy_PlatformLaws : @PlatformLaws list_GoRange app_Validation toy_Platform.
Proof.
  split.
  - intros c [= <-]. vm_compute. reflexivity.
  - intros level. cbn [HasScopeLevel toy_Platform]. unfold toy_scope.
    change (split_on _ "trust:read") with ["trust:" +:+ "read"]. cbn [existsb].
    by rewrite toy_scope_level, orb_false_r.
  - intros level. cbn [HasScopeLevel toy_Platform]. unfold toy_scope.
    change (split_on _ "trust:read,trust:admin") with ["trust:" +:+ "read"; "trust:" +:+ "admin"]. cbn [existsb].
    by rewrite !toy_scope_level, orb_false_r.
Qed.

Definition good_Disk : Disk := {| disk_fault := fun _ => None; disk_unreadable := fun _ => false |}.

#[local] Existing Instances toy_X509 toy_Asn1 double_GoAlloc merge_GoSort list_GoRange demo_XmlDsig demo_XML svc_Files toy_Yaml
  json_Codec json_CodecLaws good_Disk toy_Client toy_ObjectLaws toy_Engine toy_EngineLaws app_Validation toy_Platform toy_PlatformLaws.
#[local] Instance app_net : Net := svc_Net 100.

Definition empty_storage : Storage ToyBucket := mkStorage empty_db (mkToyBucket ∅ true) (mkFS ∅ 0).

Definition got {A} (d : A) (r : result A) : A := match r with Ok x => x | Err _ => d end.
Definition no_app : App ToyBucket := mkApp app_configuration (NewManager (OnMemory NewMemory) svc_world []) InternalMW [].

Definition demo_app : App ToyBucket := got no_app (New empty_storage svc_world).
Definition demo_started : App ToyBucket := got no_app (App_Start demo_app).
Definition demo_run (os : list Op) : option (Manager (AppStore ToyBucket)) :=
  exec_all (RF := app_Refresher app_configuration) os (ap_manager demo_started).

Lemma demo_app_new : New empty_storage svc_world = Ok demo_app.
Proof. vm_compute. reflexivity. Qed.

Lemma demo_app_started : App_Start demo_app = Ok demo_started.
Proof.
  unfold demo_started. destruct (App_Start demo_app) as [a|e] eqn:E; [reflexivity|]. exfalso. vm_compute in E. discriminate E.
Qed.

(** Whatever the store is, what was saved is what is held: here on a directory. *)
Lemma app_store_contract_witness :
  match SaveSnapshot sample_next (OnFS "/data" (mkFS ∅ 0) : AppStore ToyBucket) with
  | (Ok tt, st) => app_snapshot st = Ok (Some (stored sample_next))
  | (Err _, _) => False
  end.
Proof.
  destruct (SaveSnapshot sample_next (OnFS "/data" (mkFS ∅ 0) : AppStore ToyBucket)) as [[[]|e] st] eqn:E;
    [|vm_compute in E; discriminate E].
  exact (sc_save_snapshot _ _ _ app_store_contract sample_next _ st E).
Defined.

(** After a cycle there is an anchor in the first territory. *)
Definition demo_serves : bool :=
  match demo_run [OpRefresh] with
  | Some m' =>
      match m_active m' with
      | Some s => match s_Territories s with t :: _ => match t_Anchors t with _ :: _ => true | [] => false end | [] => false end
      | None => false
      end
  | None => false
  end.

Lemma demo_serves_true : demo_serves = true.
Proof. vm_compute. reflexivity. Qed.

Lemma app_serves_reachable_witness :
  exists m' s t x out, demo_run [OpRefresh] = Some m' /\ m_active m' = Some s /\ t ∈ s_Territories s /\ x ∈ t_Anchors t /\
    Filter s [t_Code t] "" false (a_Type x) KeysAll = Ok out /\ x ∈ out /\ m_bootstrap (ap_manager demo_started) = m_bootstrap m'.
Proof.
  pose proof demo_serves_true as D. unfold demo_serves in D.
  destruct (demo_run [OpRefresh]) as [m'|] eqn:Er; [|discriminate D].
  destruct (m_active m') as [s|] eqn:Es; [|discriminate D].
  destruct (app_serves_reachable empty_storage svc_world demo_app demo_started [OpRefresh] m' s demo_app_new
    demo_app_started eq_refl eq_refl (exec_all_run (RF := app_Refresher app_configuration) _ _ _ Er) Es)
    as (boot & Hb & Hb1 & _ & _ & H).
  destruct (s_Territories s) as [|t ts] eqn:Et; [discriminate D|]. destruct (t_Anchors t) as [|x xs] eqn:Ex; [discriminate D|].
  assert (Ht : t ∈ t :: ts) by apply list_elem_of_here. assert (Hx : x ∈ t_Anchors t) by (rewrite Ex; apply list_elem_of_here).
  destruct (H t x Ht Hx) as (_ & _ & Hk). destruct (Hk KeysAll eq_refl) as (out & Ho & Hin).
  exists m', s, t, x, out. split; [reflexivity|]. split; [exact Es|]. split; [rewrite Et; exact Ht|].
  split; [exact Hx|]. split; [exact Ho|]. split; [apply Hin; left; reflexivity|].
  rewrite Hb, Hb1; [reflexivity|]. vm_compute. discriminate.
Defined.

Definition raw_request (key : string) : RawRequest :=
  mkRawRequest key "" "/v1/refresh" "" [] None None (Ok None) None "".

(** The refresh route without the key. *)
Lemma internal_mode_access_witness :
  exists m', serve demo_app 200 ("POST", "/v1/refresh", true, RRefresh) (raw_request "guess") (ap_manager demo_started) =
    Some (RespondError [] ForbiddenError, m') /\ m_active m' = m_active (ap_manager demo_started).
Proof.
  destruct (internal_mode_access empty_storage svc_world demo_app 200 (raw_request "guess") (ap_manager demo_started)
    demo_app_new eq_refl) as [_ H].
  rewrite Forall_forall in H. destruct (H ("POST", "/v1/refresh", true, RRefresh)) as (_ & _ & Hd).
  - unfold Init. apply list_elem_of_In. simpl. tauto.
  - destruct (Hd (or_intror eq_refl) eq_refl) as (m' & Hs & Ho). exists m'. split; [exact Hs|exact (oe_active _ _ Ho)].
Defined.

(** A client too early, the operator's refresh, the bundle, the task's next cycle, the
    report and a request without the key. *)
Definition demo_turns : list turn := [
  TRequest 100 4 (raw_request ""); TRequest 110 6 (raw_request "s3cret"); TRequest 120 3 (raw_request "");
  TTask false WakeTimer; TRequest 130 4 (raw_request ""); TRequest 140 6 (raw_request "guess") ].

Definition bundle_size (resp : Response) : option nat :=
  match resp with Respond 200 _ (Some (BodyAnchors r)) => length <$> ra_Anchors r | _ => None end.

Definition demo_traffic : option (list Response * Manager (AppStore ToyBucket)) :=
  turns demo_started demo_turns (ap_manager demo_started).

(** The five kinds of answer: not yet, done, a bundle of one, the report, forbidden. *)
Definition demo_answers : list (bool * option nat * bool) :=
  from_option (fun p => map (fun r => (unavailable r, bundle_size r, shows_data r)) p.1) [] demo_traffic.

Example demo_answers_are : demo_answers =
  [(true, None, false); (false, None, false); (false, Some 1%nat, true); (false, None, true); (false, None, false)].
Proof. vm_compute. reflexivity. Qed.

Lemma api_history_witness :
  exists l m' boot, demo_traffic = Some (l, m') /\ length l = 5%nat /\
    Forall (only_genuine (pipeline_config (ap_config demo_app)) (w_loads (m_world m')) boot) l /\ StronglySorted goes_on l.
Proof.
  pose proof demo_answers_are as Hl. unfold demo_answers in Hl.
  destruct demo_traffic as [[l m']|] eqn:E; simpl in Hl; [|discriminate Hl].
  destruct (api_history empty_storage svc_world demo_app demo_started demo_turns l m' demo_app_new demo_app_started
    eq_refl eq_refl E) as (boot & _ & Hg & Hs).
  exists l, m', boot. split; [reflexivity|]. split; [|split; [exact Hg|exact Hs]].
  apply (f_equal length) in Hl. rewrite length_map in Hl. exact Hl.
Defined.
